(* ===== verification/_CoqProject ===== *)
-Q . S2P
Prelude.v
Crates.v
CrateModels.v
Allocator.v
AllocatorSpec.v
HeapSafety.v
FrameSource.v
Frames.v
FramesSpec.v
FrameSafety.v
Mapping.v
MapperModel.v
Paging.v
Machine.v
Statics.v
Sched.v
SchedSpec.v
SchedSafety.v
Asm.v
ContextSwitch.v
Preemption.v
NewThread.v
Pipe.v
Framebuffer.v
FramebufferSpec.v
Screen.v
Syscall.v
Utf8.v
SyscallEntry.v
SyscallSpec.v
SyscallSafety.v
Elf.v
Loader.v
LoaderSpec.v
LoaderSafety.v
LoaderExample.v
Gdt.v
SyscallInit.v
GdtSafety.v
Apic.v
ApicSpec.v
ApicSafety.v
Interrupts.v
InterruptSafety.v
Acpi.v
Boot.v
BootSpec.v
BootSafety.v
BootExample.v
Cross.v
CrossSafety.v
Runner.v
