(* ===== verification/Prelude.v ===== *)
(** * BAYOS, verified.

    BAYOS is a small x86-64 kernel in Rust (src/kernel/src).  It boots from a bootloader that
    maps all physical memory at an offset, sets up a heap, the interrupt controllers and a
    round-robin scheduler, loads one ELF program from the ramdisk and serves its system calls.
    This development is a shallow embedding of it: each routine is a function that threads the
    state it works on and ends in an outcome, and the theorems are about those functions.

    ** How the code is modelled

    [outcome] (below) is how a routine ends: [Done] with a value, [Panic] with a message (a
    panic does not unwind: [panic_handler] halts, so locks stay held), [Hang] (a spin or loop
    that cannot end) and [Ub] (an access that no object backs).  [M S A] is code on a state [S];
    the state survives a failure.  Lenses ([Statics.v]) run code on a part of a larger state.
    Integers are [Z]; [add64], [sub64], [mul64] and their 32-bit kin panic on overflow in
    debug builds and wrap in release builds ([BuildProfile]), and theorems hold for both unless
    they say otherwise.

    Memory is a function from addresses to bytes, as it is seen through the page tables in use.
    Where a pointer comes from outside, from a process or from an image, each access first asks
    the tables ([page_present], [page_writable] of [Mapper]) and a fault panics on the spot, as
    the handler of that exception does ([Mapping.v], [byte_fault]): a system call names the
    tables in use by [cr3] and faults with the locks it holds, and so does the loader.  Stores
    to pages the code has just mapped writable, to its own stacks and to the statics do not
    fault.

    Third-party crates (x86_64, spinning_top, conquer_once, bitvec, crossbeam_queue, acpi,
    pc_keyboard, noto_sans_mono_bitmap, log, bootloader_api) are classes of operations; what
    they document is a [..Laws] class ([Crates.v], [Mapping.v], [Framebuffer.v],
    [Interrupts.v], [Acpi.v]).  [CrateModels.v] and [MapperModel.v] give an instance of each
    law class: the laws can hold, and the concrete runs use them.

    ** The parts, and where they are

    - Heap (allocator.rs): [Allocator.v] has [LinkedListAllocator] on a store of nodes by
      address; [AllocatorSpec.v] specifies it as first fit on a list of blocks ([FreeList]) and
      proves the refinement ([represents]); [HeapSafety.v] follows clients that allocate, write
      and free.  [init_heap] is in [Paging.v].
    - Frames and page tables (memory.rs): [Frames.v], [FramesSpec.v], [FrameSafety.v] are the
      two frame allocators; [FrameSource.v] is the contract they both keep, against which
      [Mapping.v] verifies the loop "take a frame, map the page", once for all its callers;
      [Paging.v] has [init], [get_virtual_address] and [init_heap].
    - Scheduler (sched.rs): [Sched.v], [SchedSpec.v] (the list specification [RoundRobin]),
      [SchedSafety.v].  [Machine.v] is byte memory, [Asm.v] the instructions of the two
      assembly routines; [ContextSwitch.v] is [timer_handler] around [schedule],
      [Preemption.v] its transparency, [NewThread.v] the stack that [add_process] builds.
    - Programs (sched.rs [add_user_process], elf.rs): [Elf.v], [Loader.v], [LoaderSpec.v],
      [LoaderSafety.v], [LoaderExample.v].
    - System calls (syscall.rs): [Syscall.v] (the statics as [kstate], the dispatcher, the three
      handlers, [syscall_entry]), [Utf8.v], [SyscallEntry.v], [SyscallSpec.v],
      [SyscallSafety.v]; [SyscallInit.v] is [init].
    - Screen (framebuffer.rs): [Framebuffer.v], [FramebufferSpec.v], [Screen.v].
    - Input pipe (vfs/mod.rs, vfs/pipe.rs): [Pipe.v].
    - Segments (gdt.rs): [Gdt.v], [GdtSafety.v].
    - Interrupts (int.rs): [Apic.v], [ApicSpec.v], [ApicSafety.v] are [init_apic] with its port
      and register accesses in order; [Interrupts.v], [InterruptSafety.v] are the table, the
      keyboard handler, the exception handlers, and [panic] ([panic_handler]) and [hcf] of
      main.rs, which the handlers and [Boot.v] share.
    - ACPI callbacks (acpi.rs): [Acpi.v].
    - Boot (main.rs): [Boot.v] is [kernel_main] on all of this state together, [BootSpec.v]
      takes it stretch by stretch, [BootSafety.v] states where it ends, [BootExample.v] boots a
      small machine.
    - Host programs: [Cross.v], [CrossSafety.v] are the build of the cross toolchain
      (user/cross/build.rs) on a file system and the answers of the network; [Runner.v] has the
      builds of the user program and of the disk images (user/build.rs, build.rs) and the
      program that starts QEMU (src/main.rs beside build.rs).

    ** What the theorems show

    - Safety: heap blocks, frames, pages of different requests never overlap
      ([heap_safe], [frames_never_shared], [allocations_disjoint]); drawing stays in the frame
      buffer ([write_str_in_bounds]); a preempted thread resumes as it was
      ([preemption_transparent]); the toolchain is unpacked from checked archives only
      ([only_verified_archives_unpacked]).
    - Refinement: the allocator is first fit ([alloc_refines_first_fit]), the scheduler is
      round robin ([schedule_picks_next_ready]), the acpi crate sees plain physical memory
      ([acpi_sees_physical_memory]).
    - Functional behaviour on every branch: the scheduler's operations in every reachable state
      ([scheduler_invariant]), the heap and the loader ([init_heap_cases],
      [add_user_process_loads]), the system calls with the faults of the caller's pointers
      ([anon_allocate_cases], [write_syscall_prints]), the drivers ([init_apic_calibrates_timer],
      [keyboard_handler_cases], [exceptions_reported]).
    - Composition: typed keys reach the reader in order ([typed_text_is_read]), a loaded
      program starts at its entry point ([user_process_starts_at_entry]), booting ends in the
      idle loop with its records on the screen and the next timer interrupt, run instruction
      by instruction, enters the first program ([kernel_main_idles_or_halts],
      [first_tick_enters_program]), the build scripts mean the same places
      ([scripts_agree_on_paths]).
    - Liveness and termination: [round_robin_fair], [heap_alloc_total], and a download cut
      short is repaired by the next run ([interrupted_download_recovers]).
    - Flaws, stated exactly: a dead process deadlocks the scheduler
      ([dead_process_deadlocks]), user processes share one interrupt stack
      ([user_contexts_collide]), a process can panic the kernel
      ([oversized_request_panics]), the loader can be preempted with its locks held
      ([loader_window_deadlock]), it reads past segments ([over_read_faults]), interrupts that
      log hang inside the logger ([interrupt_during_log_hangs]), the keyboard is routed to
      processor 0 and two I/O APIC entries are left unmasked ([keyboard_routed_to_apic_zero],
      [io_apic_leaves_last_entries]), a patch that failed is not tried again
      ([failed_patch_never_retried]), the status of QEMU is dropped ([exit_status_lost]).

    ** Loops and fuel

    Loops over a known range are [for_each] on the list of their values.  The walk of the free
    list has the number of live nodes plus one as fuel, which is enough because a walk that
    does not repeat a node ends by then; one that runs longer is a cycle and is [Hang].  The
    scan of [schedule] has the number of processes as fuel: by then it has seen every process
    and would repeat itself for ever.  The poll of the PIT and the spin of [read] run on what
    the outside world sends: a list of port values, and the bytes that arrive before each
    attempt.

    ** What is not modelled

    One core runs, and code that does not involve the timer runs without ticks in between,
    except where a theorem interleaves them (the scheduler, the reader of the pipe, the window
    of the loader).  Allocations that Rust makes behind [Vec], [Arc] and [Box] do not draw on
    the model of the heap.  How core and log format a record (the level, the place of a panic, the interrupted
    frame) is an argument, a function of the message; the messages themselves are the source's.
    Alignments above 2^31 are outside the heap's theorems, apart from
    [overaligned_request_corrupts_heap], which shows what they do.  The PCI, mutex and timing methods for the acpi crate are [todo!()] in the source
    and panic here.  Of the host programs, progress messages and the lines that tell cargo when
    to run again are left out, and writing to a file that is open does not fail.

    ** This file

    The shared vocabulary: outcomes, the state monad, loops, words and generic lemmas. *)

From stdpp Require Export prelude gmap strings numbers list.
From stdpp Require Import list_numbers.

#[global] Set Default Goal Selector "!".

Declare Scope bay_scope.
Delimit Scope bay_scope with bay.

(** ** Outcomes of a run *)

(** [Panic] is a Rust panic: [panic_handler] (kernel/src/main.rs) never returns.
    [Hang] is a loop that cannot end: a spin on a lock that nobody releases, or a
    scan whose exit condition can never hold.  [Ub] is a memory access that no
    live object backs. *)
Inductive outcome (A : Type) : Type :=
  | Done (a : A)
  | Panic (why : string)
  | Hang
  | Ub.
Arguments Done {A} a.
Arguments Panic {A} why.
Arguments Hang {A}.
Arguments Ub {A}.

(** Rust's [Result<T, E>]. *)
Inductive result (T E : Type) : Type :=
  | ROk (t : T)
  | RErr (e : E).
Arguments ROk {T E} t.
Arguments RErr {T E} e.

#[global] Instance outcome_eq_dec {A} `{EqDecision A} : EqDecision (outcome A).
Proof. solve_decision. Defined.
#[global] Instance result_eq_dec {T E} `{EqDecision T, EqDecision E} :
  EqDecision (result T E).
Proof. solve_decision. Defined.

#[global] Instance outcome_ret : MRet outcome := @Done.
#[global] Instance outcome_bind : MBind outcome := λ A B f m,
  match m with
  | Done a => f a
  | Panic why => Panic why
  | Hang => Hang
  | Ub => Ub
  end.

(** [x.unwrap()] / [x.expect(why)] on an [Option]. *)
Definition expect {A} (why : string) (o : option A) : outcome A :=
  match o with
  | Some a => Done a
  | None => Panic why
  end.

(** ** Stateful code *)

(** The state survives a failure: what a panicking or spinning routine has already
    written, and the locks it holds, stay visible. *)
Definition M (S A : Type) : Type := S → outcome A * S.

#[global] Instance M_ret {S} : MRet (M S) := λ A a s, (Done a, s).
#[global] Instance M_bind {S} : MBind (M S) := λ A B f m s,
  match m s with
  | (Done a, s') => f a s'
  | (Panic why, s') => (Panic why, s')
  | (Hang, s') => (Hang, s')
  | (Ub, s') => (Ub, s')
  end.

Definition get_state {S} : M S S := λ s, (Done s, s).
Definition put_state {S} (s : S) : M S () := λ _, (Done (), s).
Definition modify_state {S} (f : S → S) : M S () := λ s, (Done (), f s).
Definition gets_state {S A} (f : S → A) : M S A := λ s, (Done (f s), s).
Definition liftO {S A} (o : outcome A) : M S A := λ s, (o, s).
(** A routine given as a function from states to a value and a state. *)
Definition call {S A} (f : S → A * S) : M S A := λ s, (Done (f s).1, (f s).2).
Definition panic {S A} (why : string) : M S A := liftO (Panic why).
Definition hang {S A} : M S A := liftO Hang.

(** Run code of a component on the part of a larger state that it owns. *)
Definition zoom {S T A} (get : S → T) (put : T → S → S) (m : M T A) : M S A := λ s,
  let '(o, t) := m (get s) in (o, put t s).

(** [for x in l { body(x) }] where the body may leave the function with [?] *)
Fixpoint for_each_try {S A E} (body : A → M S (result () E)) (l : list A) :
    M S (result () E) :=
  match l with
  | [] => mret (ROk ())
  | x :: l' =>
      r ← body x;
      match r with
      | ROk _ => for_each_try body l'
      | RErr e => mret (RErr e)
      end
  end.

(** [for x in l { body(x) }] *)
Fixpoint for_each {S A} (body : A → M S ()) (l : list A) : M S () :=
  match l with
  | [] => mret ()
  | x :: l' => body x;; for_each body l'
  end.

(** ** 64-bit words ([u64] and, on x86-64, [usize]) *)

Definition in_u64 (z : Z) : Prop := (0 ≤ z < 2 ^ 64)%Z.
Definition isize_max : Z := 2 ^ 63 - 1.

(** Whether the build checks integer overflow: debug builds panic, release builds
    wrap around. *)
(** Whether the build checks overflow, and raw pointers that are dereferenced. *)
Class BuildProfile : Type := overflow_checks : bool.

Definition debug_profile : BuildProfile := true.
Definition release_profile : BuildProfile := false.

Definition add64 `{BuildProfile} (a b : Z) : outcome Z :=
  if decide (a + b < 2 ^ 64)%Z then Done (a + b)%Z
  else if overflow_checks then Panic "attempt to add with overflow"
  else Done ((a + b) mod 2 ^ 64)%Z.

Definition sub64 `{BuildProfile} (a b : Z) : outcome Z :=
  if decide (b ≤ a)%Z then Done (a - b)%Z
  else if overflow_checks then Panic "attempt to subtract with overflow"
  else Done ((a - b) mod 2 ^ 64)%Z.

Definition mul64 `{BuildProfile} (a b : Z) : outcome Z :=
  if decide (a * b < 2 ^ 64)%Z then Done (a * b)%Z
  else if overflow_checks then Panic "attempt to multiply with overflow"
  else Done ((a * b) mod 2 ^ 64)%Z.

Definition checked_add64 (a b : Z) : option Z :=
  if decide (a + b < 2 ^ 64)%Z then Some (a + b)%Z else None.

(** The format [{:x}] of a 64-bit word: at most sixteen digits. *)
Definition hex_digit (d : Z) : Ascii.ascii :=
  Ascii.ascii_of_nat (Z.to_nat (if decide (d < 10)%Z then 48 + d else 87 + d)).
Fixpoint hex_digits (fuel : nat) (n : Z) (acc : string) : string :=
  match fuel with
  | O => acc
  | S fuel =>
      let acc := String (hex_digit (n mod 16)) acc in
      if decide (n / 16 = 0)%Z then acc else hex_digits fuel (n / 16) acc
  end.
Definition format_x (n : Z) : string := hex_digits 16 n "".

Example format_x_word : format_x 0xdeadbeef0123 = "deadbeef0123".
Proof. reflexivity. Qed.

(** [!x] on a 64-bit word. *)
Definition not64 (x : Z) : Z := Z.ldiff (Z.ones 64) x.

(** The least multiple of [n] that is at least [a]. *)
Definition round_up (a n : Z) : Z := ((a + n - 1) / n * n)%Z.
(** The greatest multiple of [n] that is at most [a]. *)
Definition round_down (a n : Z) : Z := (a / n * n)%Z.

Definition power_of_two (n : Z) : Prop := ∃ k, (0 ≤ k < 64)%Z ∧ n = (2 ^ k)%Z.

(** ** Pairwise relations on lists *)

(** [R] holds between any two elements at different positions. *)
Fixpoint pairwise {A} (R : A → A → Prop) (l : list A) : Prop :=
  match l with
  | [] => True
  | x :: l' => Forall (R x) l' ∧ pairwise R l'
  end.

(** A block of [r.2] bytes at address [r.1]; two blocks without a common byte. *)
Definition disjoint_blocks (r1 r2 : Z * Z) : Prop :=
  (r1.1 + r1.2 ≤ r2.1 ∨ r2.1 + r2.2 ≤ r1.1)%Z.

Definition total_bytes (l : list (Z * Z)) : Z := foldr (λ r acc, r.2 + acc)%Z 0%Z l.

#[export] Instance pairwise_dec {A} (R : A → A → Prop) `{!RelDecision R} l :
  Decision (pairwise R l).
Proof. induction l; simpl; apply _. Defined.
#[export] Instance disjoint_blocks_dec : RelDecision disjoint_blocks.
Proof. intros r1 r2. unfold disjoint_blocks. apply _. Defined.
#[export] Instance Z_divide_dec (a b : Z) : Decision (a | b)%Z.
Proof.
  destruct ((b =? 0)%Z || negb (a =? 0)%Z && (b mod a =? 0)%Z) eqn:E;
    [left|right]; by pose proof (Z.BoolSpec_divide a b) as Hs; rewrite E in Hs; inversion Hs.
Defined.

(** Prove a decidable fact about concrete values by evaluating its decision. *)
Ltac by_decide := apply (bool_decide_unpack _); vm_compute; exact I.

(** ** Lemmas: the monads *)

Lemma mbind_done {S A B} (m : M S A) (f : A → M S B) s a s' :
  m s = (Done a, s') → (m ≫= f) s = f a s'.
Proof. intros E. unfold mbind, M_bind. by rewrite E. Qed.

Lemma mbind_panic {S A B} (m : M S A) (f : A → M S B) s w s' :
  m s = (Panic w, s') → (m ≫= f) s = (Panic w, s').
Proof. intros E. unfold mbind, M_bind. by rewrite E. Qed.

Lemma mbind_hang {S A B} (m : M S A) (f : A → M S B) s s' :
  m s = (Hang, s') → (m ≫= f) s = (Hang, s').
Proof. intros E. unfold mbind, M_bind. by rewrite E. Qed.

Lemma mbind_inv_done {S A B} (m : M S A) (f : A → M S B) s b s' :
  (m ≫= f) s = (Done b, s') → ∃ a s1, m s = (Done a, s1) ∧ f a s1 = (Done b, s').
Proof.
  unfold mbind, M_bind. destruct (m s) as [[a| | |] s1]; intros; simplify_eq; eauto.
Qed.

Lemma liftO_inv_done {S A B} (o : outcome A) (f : A → M S B) s b s' :
  (liftO o ≫= f) s = (Done b, s') → ∃ a, o = Done a ∧ f a s = (Done b, s').
Proof. destruct o; intros; simplify_eq; eauto. Qed.

Lemma mbind_assoc {S A B C} (m : M S A) (f : A → M S B) (g : B → M S C) s :
  ((m ≫= f) ≫= g) s = (m ≫= λ a, f a ≫= g) s.
Proof. unfold mbind, M_bind. by destruct (m s) as [[] ?]. Qed.

Lemma mbind_ext {S A B} (m : M S A) (f g : A → M S B) s :
  (∀ a s', f a s' = g a s') → (m ≫= f) s = (m ≫= g) s.
Proof. intros Hfg. unfold mbind, M_bind. by destruct (m s) as [[] ?]. Qed.

Lemma mseq3_done {S A} (m1 m2 m3 : M S ()) (k : M S A) s s' :
  (m1;; m2;; m3) s = (Done (), s') → (m1;; m2;; m3;; k) s = k s'.
Proof.
  unfold mbind, M_bind. destruct (m1 s) as [[[]| | |] s1]; [|intros; by simplify_eq..].
  destruct (m2 s1) as [[[]| | |] s2]; [|intros; by simplify_eq..]. by intros ->.
Qed.

Lemma mret_bind {S A B} (a : A) (f : A → M S B) s : (mret a ≫= f) s = f a s.
Proof. done. Qed.
Lemma mret_run {S A} (a : A) (s : S) : (mret a : M S A) s = (Done a, s).
Proof. done. Qed.
Lemma get_bind {S B} (f : S → M S B) s : (get_state ≫= f) s = f s s.
Proof. done. Qed.
Lemma gets_bind {S A B} (g : S → A) (f : A → M S B) s : (gets_state g ≫= f) s = f (g s) s.
Proof. done. Qed.
Lemma put_bind {S B} (f : () → M S B) s s' : (put_state s' ≫= f) s = f () s'.
Proof. done. Qed.
Lemma modify_bind {S B} (g : S → S) (f : () → M S B) s : (modify_state g ≫= f) s = f () (g s).
Proof. done. Qed.
Lemma liftO_done_bind {S A B} (a : A) (f : A → M S B) s : (liftO (Done a) ≫= f) s = f a s.
Proof. done. Qed.
Lemma panic_bind {S A B} w (f : A → M S B) s : (panic w ≫= f) s = (Panic w, s).
Proof. done. Qed.

Lemma call_done {S A} (f : S → A * S) s a s' : f s = (a, s') → call f s = (Done a, s').
Proof. intros E. unfold call. by rewrite E. Qed.

Lemma expect_some {A} w (a : A) : expect w (Some a) = Done a.
Proof. done. Qed.
Lemma expect_none {A} w : expect w (@None A) = Panic w.
Proof. done. Qed.
Lemma liftO_panic_bind {S A B} w (f : A → M S B) s : (liftO (Panic w) ≫= f) s = (Panic w, s).
Proof. done. Qed.
Lemma done_bind {A B} (a : A) (f : A → outcome B) : (Done a ≫= f) = f a.
Proof. done. Qed.

Create Rewrite HintDb mred.
#[export] Hint Rewrite @mbind_assoc @mret_bind @get_bind @gets_bind @put_bind
  @modify_bind @liftO_done_bind @panic_bind @mret_run
  @expect_some @expect_none @liftO_panic_bind @done_bind : mred.

(** Run the goal's monadic code as far as it computes. *)
Ltac mred := autorewrite with mred.

(** Run one call whose result a hypothesis or lemma gives. *)
Tactic Notation "mcall" uconstr(H) := erewrite mbind_done; [|eapply H].

(** From any state with [P], [m] returns normally and establishes [Q]. *)
Definition runs {S A} (P : S → Prop) (m : M S A) (Q : A → S → Prop) : Prop :=
  ∀ s, P s → ∃ a s', m s = (Done a, s') ∧ Q a s'.

Lemma runs_bind {S A B} (P : S → Prop) (R : A → S → Prop) (Q : B → S → Prop)
    (m : M S A) (f : A → M S B) :
  runs P m R → (∀ a, runs (R a) (f a) Q) → runs P (m ≫= f) Q.
Proof.
  intros Hm Hf s HP. destruct (Hm s HP) as (a & s1 & E & HR).
  rewrite (mbind_done _ _ _ _ _ E). by apply Hf.
Qed.

Lemma runs_ret {S A} (Q : A → S → Prop) (a : A) : runs (Q a) (mret a) Q.
Proof. intros s HQ. eexists _, _. by split. Qed.

Lemma runs_mono {S A} (P P' : S → Prop) (Q Q' : A → S → Prop) (m : M S A) :
  runs P' m Q' → (∀ s, P s → P' s) → (∀ a s, Q' a s → Q a s) → runs P m Q.
Proof. intros Hm HP HQ s Hs. destruct (Hm s) as (a & s' & E & H); eauto. Qed.

Lemma zoom_done {S T A} (get : S → T) put (m : M T A) s a t :
  m (get s) = (Done a, t) → zoom get put m s = (Done a, put t s).
Proof. intros E. unfold zoom. by rewrite E. Qed.

(** A loop all of whose bodies return normally keeps what each of them keeps. *)
Lemma for_each_inv {S A} (P : S → Prop) (body : A → M S ()) l s :
  P s →
  (∀ x s, x ∈ l → P s → ∃ s', body x s = (Done (), s') ∧ P s') →
  ∃ s', for_each body l s = (Done (), s') ∧ P s'.
Proof.
  revert s. induction l as [|x l IH]; intros s HP Hb; simpl; [eauto|].
  destruct (Hb x s) as (s1 & E & HP1); [set_solver|done|].
  rewrite (mbind_done _ _ _ _ _ E). apply IH; [done|set_solver].
Qed.

(** A loop whose bodies compute a function of the state, under an invariant. *)
Lemma for_each_fold {S A} (P : S → Prop) (step : A → S → S) (body : A → M S ()) l s :
  P s →
  (∀ x s, x ∈ l → P s → body x s = (Done (), step x s) ∧ P (step x s)) →
  for_each body l s = (Done (), foldl (flip step) s l) ∧ P (foldl (flip step) s l).
Proof.
  revert s. induction l as [|x l IH]; intros s HP Hb; simpl; [by split|].
  destruct (Hb x s) as [E HP1]; [apply list_elem_of_here|done|].
  rewrite (mbind_done _ _ _ _ _ E). apply IH; [done|].
  intros y s' Hy. apply Hb. by apply list_elem_of_further.
Qed.

Lemma for_each_app {S A} (body : A → M S ()) l1 l2 s :
  for_each body (l1 ++ l2) s = (for_each body l1;; for_each body l2) s.
Proof.
  revert s. induction l1 as [|x l1 IH]; intros s; cbn [app for_each]; [done|].
  rewrite mbind_assoc. apply mbind_ext. intros [] s'. apply IH.
Qed.

(** A loop over [0 .. n - 1] with an invariant that counts. *)
Lemma for_each_seqZ {S} (P : Z → S → Prop) (body : Z → M S ()) n s :
  (0 ≤ n)%Z → P 0%Z s →
  (∀ i s, (0 ≤ i < n)%Z → P i s → ∃ s', body i s = (Done (), s') ∧ P (i + 1)%Z s') →
  ∃ s', for_each body (seqZ 0 n) s = (Done (), s') ∧ P n s'.
Proof.
  intros Hn HP Hb. rewrite <-(Z2Nat.id n Hn) in Hb |- *.
  enough (∀ k i s, (0 ≤ i)%Z → (i + Z.of_nat k = Z.of_nat (Z.to_nat n))%Z → P i s →
    ∃ s', for_each body (seqZ i (Z.of_nat k)) s = (Done (), s') ∧ P (i + Z.of_nat k)%Z s') as He.
  { apply (He (Z.to_nat n) 0%Z); [lia|lia|done]. }
  clear s HP. intros k. induction k as [|k IH]; intros i s Hi Hk HP.
  { exists s. split; [done|]. by rewrite Z.add_0_r. }
  destruct (Hb i s) as (s1 & E & HP1); [lia|done|].
  rewrite seqZ_cons by lia. cbn [for_each]. rewrite (mbind_done _ _ _ _ _ E).
  replace (Z.pred (Z.of_nat (Datatypes.S k))) with (Z.of_nat k) by lia.
  replace (i + Z.of_nat (Datatypes.S k))%Z with (i + 1 + Z.of_nat k)%Z by lia.
  apply (IH (Z.succ i)); [lia|lia|done].
Qed.

Lemma foldl_bind {A B S} (f : S → B → S) (g : A → list B) s l :
  foldl f s (l ≫= g) = foldl (λ s x, foldl f s (g x)) s l.
Proof. revert s. induction l as [|x l IH]; intros s; csimpl; [done|]. by rewrite foldl_app, IH. Qed.

(** ** Lemmas: words *)

Lemma add64_done `{BuildProfile} a b : (a + b < 2 ^ 64)%Z → add64 a b = Done (a + b)%Z.
Proof. intros. unfold add64. by rewrite decide_True. Qed.

Lemma add64_overflow `{BuildProfile} a b :
  (2 ^ 64 ≤ a + b)%Z →
  add64 a b = if overflow_checks then Panic "attempt to add with overflow"
              else Done ((a + b) mod 2 ^ 64)%Z.
Proof. intros. unfold add64. by rewrite decide_False by lia. Qed.

Lemma sub64_done `{BuildProfile} a b : (b ≤ a)%Z → sub64 a b = Done (a - b)%Z.
Proof. intros. unfold sub64. by rewrite decide_True. Qed.

Lemma mul64_done `{BuildProfile} a b : (a * b < 2 ^ 64)%Z → mul64 a b = Done (a * b)%Z.
Proof. intros. unfold mul64. by rewrite decide_True. Qed.

Lemma checked_add64_some a b : (a + b < 2 ^ 64)%Z → checked_add64 a b = Some (a + b)%Z.
Proof. intros. unfold checked_add64. by rewrite decide_True. Qed.

Lemma checked_add64_none a b : (2 ^ 64 ≤ a + b)%Z → checked_add64 a b = None.
Proof. intros. unfold checked_add64. by rewrite decide_False by lia. Qed.

Lemma power_of_two_pos n : power_of_two n → (0 < n)%Z.
Proof. intros (k & ? & ->). lia. Qed.

(** Masking with [!(align - 1)] clears the low bits. *)
Lemma land_not64_mask a n :
  in_u64 a → power_of_two n → Z.land a (not64 (n - 1)) = round_down a n.
Proof.
  intros [Ha0 Ha] (k & Hk & ->). unfold not64, round_down.
  replace (2 ^ k - 1)%Z with (Z.ones k) by (rewrite Z.ones_equiv; lia).
  assert (Z.land a (Z.ldiff (Z.ones 64) (Z.ones k)) = Z.ldiff a (Z.ones k)) as ->.
  { apply Z.bits_inj'. intros i Hi. rewrite Z.land_spec, !Z.ldiff_spec.
    destruct (decide (i < 64)%Z) as [?|?].
    - rewrite (Z.ones_spec_low 64 i) by lia. by destruct (Z.testbit a i).
    - rewrite (Z.bits_above_log2 a i); [done..|].
      destruct (decide (a = 0)%Z) as [->|]; [simpl; lia|].
      assert (Z.log2 a < 64)%Z; [|lia]. apply Z.log2_lt_pow2; lia. }
  rewrite Z.ldiff_ones_r by lia. rewrite Z.shiftl_mul_pow2, Z.shiftr_div_pow2; lia.
Qed.

Lemma round_up_ge a n : (0 < n → a ≤ round_up a n)%Z.
Proof.
  intros. unfold round_up. pose proof (Z.div_mod (a + n - 1) n).
  pose proof (Z.mod_pos_bound (a + n - 1) n). nia.
Qed.

Lemma round_up_lt a n : (0 < n → round_up a n < a + n)%Z.
Proof.
  intros. unfold round_up. pose proof (Z.div_mod (a + n - 1) n).
  pose proof (Z.mod_pos_bound (a + n - 1) n). nia.
Qed.

Lemma round_up_divide a n : (n | round_up a n)%Z.
Proof. unfold round_up. apply Z.divide_factor_r. Qed.

Lemma round_up_least a n b : (0 < n → a ≤ b → (n | b) → round_up a n ≤ b)%Z.
Proof.
  intros Hn Hab [q ->]. unfold round_up.
  assert ((a + n - 1) / n < q + 1)%Z; [|nia].
  apply Z.div_lt_upper_bound; nia.
Qed.

Lemma round_up_id a n : (0 < n → (n | a) → round_up a n = a)%Z.
Proof.
  intros Hn Hd. pose proof (round_up_ge a n Hn).
  pose proof (round_up_least a n a Hn ltac:(lia) Hd). lia.
Qed.

Lemma round_down_le a n : (0 < n → round_down a n ≤ a)%Z.
Proof. intros. unfold round_down. rewrite Z.mul_comm. by apply Z.mul_div_le. Qed.

Lemma round_down_gt a n : (0 < n → a < round_down a n + n)%Z.
Proof.
  intros. unfold round_down. pose proof (Z.div_mod a n).
  pose proof (Z.mod_pos_bound a n). nia.
Qed.

Lemma round_down_divide a n : (n | round_down a n)%Z.
Proof. unfold round_down. apply Z.divide_factor_r. Qed.

Lemma round_down_id a n : (0 < n → (n | a) → round_down a n = a)%Z.
Proof. intros Hn [q ->]. unfold round_down. by rewrite Z.div_mul by lia. Qed.

Lemma divide_power_of_two m n :
  power_of_two m → power_of_two n → (m ≤ n)%Z → (m | n)%Z.
Proof.
  intros (j & Hj & ->) (k & Hk & ->) Hle.
  assert (j ≤ k)%Z. { apply (Z.pow_le_mono_r_iff 2); lia. }
  exists (2 ^ (k - j))%Z. rewrite <-Z.pow_add_r by lia. f_equal; lia.
Qed.

(** ** Lemmas: pairwise relations *)

Lemma pairwise_app {A} (R : A → A → Prop) l1 l2 :
  pairwise R (l1 ++ l2) ↔
  pairwise R l1 ∧ pairwise R l2 ∧ ∀ x y, x ∈ l1 → y ∈ l2 → R x y.
Proof.
  induction l1 as [|z l1 IH]; simpl.
  - split; [|by intros (_ & ? & _)]. intros. split_and!; [done..|].
    by intros x y ?%not_elem_of_nil.
  - rewrite IH, Forall_app. split.
    + intros [[? HF] (? & ? & HR)]. split_and!; [done..|].
      intros x y [->|?]%elem_of_cons ?; [|by apply HR].
      rewrite Forall_forall in HF. by apply HF.
    + intros ([? ?] & ? & HR). split_and!; try done.
      * apply Forall_forall. intros y ?. apply HR; [apply list_elem_of_here|done].
      * intros x y ? ?. apply HR; [by apply list_elem_of_further|done].
Qed.

#[export] Instance pairwise_perm {A} (R : A → A → Prop) `{!Symmetric R} :
  Proper ((≡ₚ) ==> iff) (pairwise R).
Proof.
  intros l1 l2 Hp. induction Hp as [|x l1 l2 Hp IH|x y l|l1 l2 l3 _ IH1 _ IH2]; simpl.
  - done.
  - by rewrite IH, Hp.
  - rewrite !Forall_cons. split; intros [[? ?] [? ?]]; split_and!; try done;
      by apply (symmetry (R := R)).
  - by rewrite IH1.
Qed.

#[export] Instance disjoint_blocks_sym : Symmetric disjoint_blocks.
Proof. unfold disjoint_blocks. intros r1 r2. lia. Qed.

#[export] Instance total_bytes_perm : Proper ((≡ₚ) ==> eq) total_bytes.
Proof.
  intros l1 l2 Hp. induction Hp; unfold total_bytes in *; simpl in *; lia.
Qed.

Lemma total_bytes_app l1 l2 : total_bytes (l1 ++ l2) = (total_bytes l1 + total_bytes l2)%Z.
Proof. induction l1; unfold total_bytes in *; simpl in *; lia. Qed.
