(* ===== verification/Crates.v ===== *)
(** * Interfaces of the third-party crates the kernel calls.

    Each class lists the operations of a crate that the kernel uses, and a [..Laws]
    class states what the crate documents about them.  Nothing here defines what a
    crate does: the kernel's definitions take the operations as arguments and the
    theorems take the laws as hypotheses.  [CrateModels.v] shows that the laws can hold. *)

From S2P Require Import Prelude.

(** ** spinning_top: [Spinlock], [RwSpinlock] (through lock_api's raw locks) *)

(** [try_acquire] is one attempt; [lock()] repeats it until it succeeds. *)
Class RawLock (L : Type) : Type := {
  lock_free : L;
  try_acquire : L → option L;
  release : L → L;
}.

Class RawLockLaws (L : Type) `{RawLock L} : Prop := {
  try_acquire_free : ∃ l, try_acquire lock_free = Some l ∧ release l = lock_free;
  try_acquire_excl : ∀ l l', try_acquire l = Some l' → try_acquire l' = None;
}.

Class RawRwLock (L : Type) : Type := {
  rw_free : L;
  try_read : L → option L;
  release_read : L → L;
  try_write : L → option L;
  release_write : L → L;
}.

Class RawRwLockLaws (L : Type) `{RawRwLock L} : Prop := {
  try_read_free : ∃ l, try_read rw_free = Some l ∧ release_read l = rw_free;
  try_write_free : ∃ l, try_write rw_free = Some l ∧ release_write l = rw_free;
  try_write_excl : ∀ l l', try_write l = Some l' → try_write l' = None ∧ try_read l' = None;
  try_read_excl : ∀ l l', try_read l = Some l' → try_write l' = None;
}.

(** A value behind a lock: [Spinlock<T>] is [locked L T]. *)
Record locked (L T : Type) : Type := Locked { lk_raw : L; lk_data : T }.
Arguments Locked {L T} lk_raw lk_data.
Arguments lk_raw {L T} _.
Arguments lk_data {L T} _.

(** [{ let mut g = lock.lock(); m }] where [m] works on the data behind the guard.
    On one core with nothing else running, an attempt that fails fails for ever.  The
    guard is dropped when [m] returns; a panic does not unwind in this kernel
    ([panic_handler] halts), so it leaves the lock held. *)
Definition with_lock {L T A} `{RawLock L} (m : M T A) : M (locked L T) A := λ l,
  match try_acquire (lk_raw l) with
  | None => (Hang, l)
  | Some held =>
      match m (lk_data l) with
      | (Done a, d) => (Done a, Locked (release held) d)
      | (o, d) => (o, Locked held d)
      end
  end.

(** ** conquer_once: [OnceCell] *)

(** [cell_modify] is interior mutation through the shared reference that [get] returns. *)
Class OnceCell (C : Type → Type) : Type := {
  cell_uninit : ∀ {A}, C A;
  cell_get : ∀ {A}, C A → option A;
  cell_init_once : ∀ {A}, A → C A → C A;
  cell_try_init_once : ∀ {A}, A → C A → result () () * C A;
  cell_modify : ∀ {A}, (A → A) → C A → C A;
}.

Class OnceCellLaws (C : Type → Type) `{OnceCell C} : Prop := {
  cell_get_uninit : ∀ A, cell_get (cell_uninit (A := A)) = None;
  cell_get_init_once : ∀ A (a : A) c,
    cell_get (cell_init_once a c) = Some (default a (cell_get c));
  cell_get_try_init_once : ∀ A (a : A) c,
    cell_try_init_once a c =
      (if cell_get c is Some _ then RErr () else ROk (), cell_init_once a c);
  cell_get_modify : ∀ A (f : A → A) c, cell_get (cell_modify f c) = f <$> cell_get c;
}.

(** ** x86_64: addresses, pages and frames *)

(** The two canonical halves of the 48-bit virtual address space. *)
Definition canonical (a : Z) : Prop := (a < 2 ^ 47 ∨ 2 ^ 64 - 2 ^ 47 ≤ a)%Z.
#[export] Instance canonical_dec a : Decision (canonical a).
Proof. unfold canonical. apply _. Defined.

(** A [Page<Size4KiB>] and a [PhysFrame<Size4KiB>] are given by their start address. *)
Class X86Addr : Type := {
  VirtAddr_new : Z → outcome Z;
  VirtAddr_add : Z → Z → outcome Z;
  VirtAddr_sub : Z → Z → outcome Z;
  PhysAddr_new : Z → outcome Z;
  Page_containing_address : Z → Z;
  PhysFrame_containing_address : Z → Z;
  Page_range_inclusive : Z → Z → list Z;
  PageRangeInclusive_size : Z → Z → Z;
}.

Definition page_size : Z := 4096.

Class X86AddrLaws `{X86Addr} : Prop := {
  VirtAddr_new_canonical : ∀ a, in_u64 a → canonical a → VirtAddr_new a = Done a;
  VirtAddr_new_panics : ∀ a, in_u64 a → ¬ canonical a → ∃ w, VirtAddr_new a = Panic w;
  VirtAddr_add_canonical : ∀ a b, in_u64 a → in_u64 b →
    (a + b < 2 ^ 64)%Z → canonical (a + b) → VirtAddr_add a b = Done (a + b)%Z;
  VirtAddr_add_panics : ∀ a b, in_u64 a → in_u64 b →
    (2 ^ 64 ≤ a + b)%Z ∨ ¬ canonical (a + b) → ∃ w, VirtAddr_add a b = Panic w;
  VirtAddr_sub_canonical : ∀ a b, in_u64 a → in_u64 b →
    (b ≤ a)%Z → canonical (a - b) → VirtAddr_sub a b = Done (a - b)%Z;
  VirtAddr_sub_panics : ∀ a b, in_u64 a → in_u64 b →
    (a < b)%Z ∨ ¬ canonical (a - b) → ∃ w, VirtAddr_sub a b = Panic w;
  PhysAddr_new_valid : ∀ a, (0 ≤ a < 2 ^ 52)%Z → PhysAddr_new a = Done a;
  PhysAddr_new_panics : ∀ a, in_u64 a → (2 ^ 52 ≤ a)%Z → ∃ w, PhysAddr_new a = Panic w;
  Page_containing_address_spec : ∀ a, in_u64 a →
    Page_containing_address a = round_down a page_size;
  PhysFrame_containing_address_spec : ∀ a, (0 ≤ a < 2 ^ 52)%Z →
    PhysFrame_containing_address a = round_down a page_size;
  (** within one canonical half: the pages from the first to the last, in order *)
  Page_range_inclusive_spec : ∀ s e, in_u64 s → in_u64 e →
    (page_size | s)%Z → (page_size | e)%Z →
    (e < 2 ^ 47 ∨ 2 ^ 64 - 2 ^ 47 ≤ s)%Z →
    Page_range_inclusive s e =
      (λ i, s + page_size * i)%Z <$> seqZ 0 ((e - s) / page_size + 1);
  PageRangeInclusive_size_spec : ∀ s e, in_u64 s → in_u64 e →
    (page_size | s)%Z → (page_size | e)%Z →
    (e < 2 ^ 47 ∨ 2 ^ 64 - 2 ^ 47 ≤ s)%Z →
    PageRangeInclusive_size s e = Z.max 0 (e - s + page_size);
}.

(** [SegmentSelector::new(index, rpl)]. *)
Class X86Segment : Type := { SegmentSelector_new : Z → Z → Z }.
Class X86SegmentLaws `{X86Segment} : Prop := {
  SegmentSelector_new_spec : ∀ index rpl, (0 ≤ index < 2 ^ 13)%Z → (0 ≤ rpl < 4)%Z →
    SegmentSelector_new index rpl = (8 * index + rpl)%Z;
}.

(** [PrivilegeLevel] and [RFlags::INTERRUPT_FLAG] *)
Definition Ring0 : Z := 0.
Definition Ring3 : Z := 3.
Definition INTERRUPT_FLAG : Z := 512.

(** [TaskStateSegment]: the stack tables, [new()] has them zeroed. *)
Record TaskStateSegment := mkTss {
  privilege_stack_table : list Z;
  interrupt_stack_table : list Z;
}.
Definition TaskStateSegment_new : TaskStateSegment := mkTss (replicate 3 0%Z) (replicate 7 0%Z).

(** [GlobalDescriptorTable]: [gdt_slots] are the entries; a task segment takes two, all
    other descriptors one, and there is room for eight. *)
Class GdtApi (D G : Type) : Type := {
  kernel_code_segment : D;
  kernel_data_segment : D;
  user_data_segment : D;
  user_code_segment : D;
  tss_segment : TaskStateSegment → D;
  gdt_new : G;
  gdt_append : D → G → outcome Z * G;
  gdt_slots : G → list (option D);
}.

Definition gdt_max : nat := 8.

Class GdtLaws (D G : Type) `{GdtApi D G, X86Segment} : Prop := {
  gdt_slots_new : gdt_slots (gdt_new (G := G)) = [None : option D];
  gdt_append_kernel : ∀ (d : D) (g : G), d = kernel_code_segment ∨ d = kernel_data_segment →
    length (gdt_slots g) < gdt_max →
    ∃ g', gdt_append d g = (Done (SegmentSelector_new (Z.of_nat (length (gdt_slots g))) Ring0), g') ∧
          gdt_slots g' = gdt_slots g ++ [Some d];
  gdt_append_user : ∀ (d : D) (g : G), d = user_code_segment ∨ d = user_data_segment →
    length (gdt_slots g) < gdt_max →
    ∃ g', gdt_append d g = (Done (SegmentSelector_new (Z.of_nat (length (gdt_slots g))) Ring3), g') ∧
          gdt_slots g' = gdt_slots g ++ [Some d];
  gdt_append_tss : ∀ tss (g : G), length (gdt_slots g) + 1 < gdt_max →
    ∃ g', gdt_append (tss_segment tss) g =
            (Done (SegmentSelector_new (Z.of_nat (length (gdt_slots g))) Ring0), g') ∧
          gdt_slots g' = gdt_slots g ++ [Some (tss_segment tss); None];
}.

(** [Star::write]: the selectors of [sysret] and of [syscall], checked; what is written is
    the pair of bases from which the processor computes selectors: [sysret] loads CS with the
    first plus 16 and SS with the first plus 8, [syscall] loads CS with the second and SS with
    the second plus 8. *)
Class StarApi : Type := {
  star_error : Type;
  Star_write : Z → Z → Z → Z → result (Z * Z) star_error;
}.

Class StarLaws `{StarApi} : Prop := {
  Star_write_ok : ∀ cs_sysret ss_sysret cs_syscall ss_syscall,
    (cs_sysret = ss_sysret + 8)%Z → (ss_syscall = cs_syscall + 8)%Z →
    (ss_sysret mod 4 = 3)%Z → (ss_syscall mod 4 = 0)%Z → (8 ≤ ss_sysret)%Z →
    Star_write cs_sysret ss_sysret cs_syscall ss_syscall = ROk (ss_sysret - 8, cs_syscall)%Z;
  Star_write_bad : ∀ cs_sysret ss_sysret cs_syscall ss_syscall,
    (cs_sysret ≠ ss_sysret + 8 ∨ ss_syscall ≠ cs_syscall + 8 ∨
     ss_sysret mod 4 ≠ 3 ∨ ss_syscall mod 4 ≠ 0)%Z →
    ∃ e, Star_write cs_sysret ss_sysret cs_syscall ss_syscall = RErr e;
}.

(** The trait [FrameAllocator<Size4KiB>]; [None] when no frame is left. *)
Class FrameAllocator (FA : Type) : Type := allocate_frame : M FA (option Z).

(** ** bootloader_api: the memory map *)

Class RegionKind (K : Type) : Type := {
  Usable : K;
  RegionKind_eq_dec :: EqDecision K;
}.

Record MemoryRegion (K : Type) : Type := {
  mr_start : Z;
  mr_end : Z;
  mr_kind : K;
}.
Arguments mr_start {K} _.
Arguments mr_end {K} _.
Arguments mr_kind {K} _.
Arguments Build_MemoryRegion {K} _ _ _.

(** ** bitvec: [BitVec<u8, Lsb0>], a vector of bits *)

Class BitVecApi (V : Type) : Type := {
  bv_repeat : bool → nat → V;
  bv_set : nat → bool → V → outcome V;
  bv_first_zero : V → option nat;
  bv_bits : V → list bool;
}.

Class BitVecLaws (V : Type) `{BitVecApi V} : Prop := {
  bv_bits_repeat : ∀ b n, bv_bits (bv_repeat b n) = replicate n b;
  bv_set_in : ∀ i b v, i < length (bv_bits v) →
    ∃ v', bv_set i b v = Done v' ∧ bv_bits v' = <[i := b]> (bv_bits v);
  bv_set_out : ∀ i b v, length (bv_bits v) ≤ i → ∃ w, bv_set i b v = Panic w;
  bv_first_zero_some : ∀ v i, bv_first_zero v = Some i →
    bv_bits v !! i = Some false ∧ ∀ j, j < i → bv_bits v !! j = Some true;
  bv_first_zero_none : ∀ v, bv_first_zero v = None → Forall (eq true) (bv_bits v);
}.

(** ** crossbeam_queue: [ArrayQueue<u8>], a bounded FIFO *)

Class ArrayQueueApi (Q : Type) : Type := {
  aq_new : nat → outcome Q;
  aq_push : Z → Q → result () Z * Q;
  aq_pop : Q → option Z * Q;
  aq_view : Q → list Z;
  aq_capacity : Q → nat;
}.

Class ArrayQueueLaws (Q : Type) `{ArrayQueueApi Q} : Prop := {
  aq_new_zero : ∃ w, aq_new 0 = Panic w;
  aq_new_spec : ∀ n, 0 < n →
    ∃ q, aq_new n = Done q ∧ aq_view q = [] ∧ aq_capacity q = n;
  aq_push_room : ∀ x q, length (aq_view q) < aq_capacity q →
    ∃ q', aq_push x q = (ROk (), q') ∧ aq_view q' = aq_view q ++ [x] ∧
          aq_capacity q' = aq_capacity q;
  aq_push_full : ∀ x q, aq_capacity q ≤ length (aq_view q) →
    ∃ q', aq_push x q = (RErr x, q') ∧ aq_view q' = aq_view q ∧
          aq_capacity q' = aq_capacity q;
  aq_pop_empty : ∀ q, aq_view q = [] →
    ∃ q', aq_pop q = (None, q') ∧ aq_view q' = [] ∧ aq_capacity q' = aq_capacity q;
  aq_pop_cons : ∀ q x xs, aq_view q = x :: xs →
    ∃ q', aq_pop q = (Some x, q') ∧ aq_view q' = xs ∧ aq_capacity q' = aq_capacity q;
}.

(** ** log: the registration of the logger *)

(** [log_enabled]: whether records of the levels [Info] and [Error] reach a logger. *)
Class LogCrate (LG : Type) : Type := {
  log_start : LG;
  set_logger : LG → result () () * LG;
  set_max_level_info : LG → LG;
  log_enabled : LG → bool;
}.

Class LogCrateLaws (LG : Type) `{LogCrate LG} : Prop := {
  log_start_disabled : log_enabled (log_start (LG := LG)) = false;
  set_logger_first :
    ∃ lg, set_logger log_start = (ROk (), lg) ∧ log_enabled (set_max_level_info lg) = true;
  set_logger_again : ∀ lg lg', set_logger lg = (ROk (), lg') →
    (set_logger lg').1 = RErr () ∧ (set_logger (set_max_level_info lg')).1 = RErr ();
}.

(** ** Lemmas shared by the clients *)

Section locks.
  Context {L : Type} `{RawLockLaws L} {T A : Type}.

  (** On a free lock, code under the lock behaves as on its data alone, and the lock is
      free again afterwards. *)
Lemma with_lock_done (m : M T A) d a d' :
    m d = (Done a, d') →
    with_lock m (Locked lock_free d) = (Done a, Locked lock_free d').
Proof.
    intros E. unfold with_lock; simpl.
    destruct try_acquire_free as (l & -> & Hr). by rewrite E, Hr.
Qed.

  (** Code that takes a lock inside its own critical section spins for ever. *)
Lemma with_lock_held (m : M T A) l l' d :
    try_acquire l = Some l' → with_lock m (Locked l' d) = (Hang, Locked l' d).
Proof.
    intros E. unfold with_lock; simpl. by rewrite (try_acquire_excl _ _ E).
Qed.
End locks.
