(* ===== verification/CrateModels.v ===== *)
(** * Concrete crates: instances of the interfaces of [Crates.v].

    They show that the documented laws can hold together, and the concrete inputs on
    which theorems are exercised use them.  No theorem about the kernel assumes them. *)

From S2P Require Import Prelude Crates.

(** A test-and-set bit. *)
Definition bit_lock : RawLock bool := {|
  lock_free := false;
  try_acquire l := if l then None else Some true;
  release _ := false;
|}.

Lemma bit_lock_laws : @RawLockLaws bool bit_lock.
Proof. split; [by exists true|]. by intros [] []. Qed.

(** [Some n]: [n] readers; [None]: one writer. *)
Definition count_rw_lock : RawRwLock (option nat) := {|
  rw_free := Some 0;
  try_read l := (λ n, Some (S n)) <$> l;
  release_read l := pred <$> l;
  try_write l := match l with Some 0 => Some None | _ => None end;
  release_write _ := Some 0;
|}.

Lemma count_rw_lock_laws : @RawRwLockLaws (option nat) count_rw_lock.
Proof.
  split.
  - by exists (Some 1).
  - by exists None.
  - by intros [[|?]|] [[|?]|].
  - by intros [[|?]|] [[|?]|].
Qed.

Definition option_cell : OnceCell option := {|
  cell_uninit _ := None;
  cell_get _ c := c;
  cell_init_once _ a c := Some (default a c);
  cell_try_init_once _ a c := (if c is Some _ then RErr () else ROk (), Some (default a c));
  cell_modify _ f c := f <$> c;
|}.

Lemma option_cell_laws : @OnceCellLaws option option_cell.
Proof. by split. Qed.

(** Addresses as numbers. *)
Definition num_addr : X86Addr := {|
  VirtAddr_new a := if decide (canonical a) then Done a else Panic "not canonical";
  VirtAddr_add a b :=
    if decide (a + b < 2 ^ 64 ∧ canonical (a + b))%Z then Done (a + b)%Z
    else Panic "not canonical";
  VirtAddr_sub a b :=
    if decide (b ≤ a ∧ canonical (a - b))%Z then Done (a - b)%Z
    else Panic "not canonical";
  PhysAddr_new a := if decide (a < 0x10000000000000)%Z then Done a else Panic "not physical";
  Page_containing_address a := round_down a page_size;
  PhysFrame_containing_address a := round_down a page_size;
  Page_range_inclusive s e :=
    (λ i, s + page_size * i)%Z <$> seqZ 0 ((e - s) / page_size + 1);
  PageRangeInclusive_size s e := Z.max 0 (e - s + page_size);
|}.

Lemma num_addr_laws : @X86AddrLaws num_addr.
Proof.
  split; simpl; intros; try done;
    first [rewrite decide_True by (try split; done || lia); done
          |rewrite decide_False by (first [lia | done | intros [? ?]; intuition lia]); by eexists].
Qed.

Definition bool_kind : RegionKind bool := {| Usable := true |}.

Fixpoint first_false (l : list bool) : option nat :=
  match l with
  | [] => None
  | false :: _ => Some 0
  | true :: l' => S <$> first_false l'
  end.

Definition list_bitvec : BitVecApi (list bool) := {|
  bv_repeat b n := replicate n b;
  bv_set i b v := if decide (i < length v) then Done (<[i := b]> v) else Panic "index";
  bv_first_zero := first_false;
  bv_bits v := v;
|}.

Lemma list_bitvec_laws : @BitVecLaws (list bool) list_bitvec.
Proof.
  split; simpl.
  - done.
  - intros. rewrite decide_True by done. eauto.
  - intros. rewrite decide_False by lia. eauto.
  - intros v. induction v as [|[] v IH]; intros i Hi; simplify_eq/=.
    + destruct (first_false v) as [j|]; simplify_eq/=.
      destruct (IH j) as [? Hlt]; [done|]. split; [done|].
      intros [|k] ?; [done|]. apply Hlt. lia.
    + split; [done|]. lia.
  - intros v. induction v as [|[] v IH]; intros Hv; simplify_eq/=; [done|].
    constructor; [done|]. apply IH. by destruct (first_false v).
Qed.

Record list_queue := ListQueue { lq_items : list Z; lq_cap : nat }.

Definition list_array_queue : ArrayQueueApi list_queue := {|
  aq_new n := if decide (n = 0) then Panic "capacity must be non-zero"
              else Done (ListQueue [] n);
  aq_push x q :=
    if decide (length (lq_items q) < lq_cap q)
    then (ROk (), ListQueue (lq_items q ++ [x]) (lq_cap q))
    else (RErr x, q);
  aq_pop q :=
    match lq_items q with
    | [] => (None, q)
    | x :: xs => (Some x, ListQueue xs (lq_cap q))
    end;
  aq_view := lq_items;
  aq_capacity := lq_cap;
|}.

Lemma list_array_queue_laws : @ArrayQueueLaws list_queue list_array_queue.
Proof.
  split; simpl.
  - by eexists.
  - intros n ?. rewrite decide_False by lia. eauto.
  - intros. rewrite decide_True by done. eauto.
  - intros. rewrite decide_False by lia. eauto.
  - intros q Hq. rewrite Hq. eauto.
  - intros q x xs Hq. rewrite Hq. eauto.
Qed.

Local Open Scope Z_scope.

Definition num_segment : X86Segment := {|
  SegmentSelector_new index rpl := Z.lor (Z.shiftl index 3) rpl;
|}.

Lemma num_segment_laws : @X86SegmentLaws num_segment.
Proof.
  split. intros index rpl Hi Hr. simpl. rewrite Z.shiftl_mul_pow2 by lia.
  assert (Z.land (index * 2 ^ 3) rpl = 0) as Hl.
  { apply Z.bits_inj'. intros n Hn. rewrite Z.land_spec, Z.bits_0.
    destruct (decide (n < 3)).
    - by rewrite Z.mul_pow2_bits_low by lia.
    - rewrite (Z.bits_above_log2 rpl); [apply andb_false_r|lia|].
      destruct (decide (rpl = 0)) as [->|]; [simpl; lia|].
      enough (Z.log2 rpl < 2) by lia. apply Z.log2_lt_pow2; lia. }
  rewrite <-Z.lxor_lor, <-Z.add_nocarry_lxor by done. lia.
Qed.

(** A descriptor table as the list of its slots. *)
Inductive num_desc := KCode | KData | UCode | UData | Tss (tss : TaskStateSegment).

Definition desc_slots (d : num_desc) : list (option num_desc) :=
  if d is Tss _ then [Some d; None] else [Some d].

Definition list_gdt : GdtApi num_desc (list (option num_desc)) := {|
  kernel_code_segment := KCode;
  kernel_data_segment := KData;
  user_data_segment := UData;
  user_code_segment := UCode;
  tss_segment := Tss;
  gdt_new := [None];
  gdt_append d g :=
    if decide (length (g ++ desc_slots d) ≤ gdt_max)%nat then
      (Done (@SegmentSelector_new num_segment (Z.of_nat (length g))
               (if d is UCode then Ring3 else if d is UData then Ring3 else Ring0)),
       g ++ desc_slots d)
    else (Panic "GDT full", g);
  gdt_slots g := g;
|}.

Lemma list_gdt_laws : @GdtLaws num_desc (list (option num_desc)) list_gdt num_segment.
Proof.
  split; [done| | |]; unfold gdt_append, gdt_slots, list_gdt.
  all: intros; eexists; (rewrite decide_True; [|rewrite length_app]).
  all: repeat match goal with H : _ ∨ _ |- _ => destruct H; subst end; simpl in *; try done; lia.
Qed.

Definition pair_star : StarApi := {|
  star_error := ();
  Star_write cs_sysret ss_sysret cs_syscall ss_syscall :=
    if decide (cs_sysret = ss_sysret + 8 ∧ ss_syscall = cs_syscall + 8 ∧
               ss_sysret mod 4 = 3 ∧ ss_syscall mod 4 = 0)%Z
    then ROk (ss_sysret - 8, cs_syscall)%Z else RErr ();
|}.

Lemma pair_star_laws : @StarLaws pair_star.
Proof.
  split; simpl; intros.
  - by rewrite decide_True.
  - rewrite decide_False; [by eexists|]. intros (? & ? & ? & ?). intuition.
Qed.

(** Whether the logger is set, and whether the level is. *)
Definition bits_log : LogCrate (bool * bool) := {|
  log_start := (false, false);
  set_logger lg := if lg.1 then (RErr (), lg) else (ROk (), (true, lg.2));
  set_max_level_info lg := (lg.1, true);
  log_enabled lg := lg.1 && lg.2;
|}.

Lemma bits_log_laws : @LogCrateLaws (bool * bool) bits_log.
Proof. split; [done|by eexists|]. by intros [[] []] [[] []]. Qed.
