(* ===== verification/Allocator.v ===== *)
(** * The kernel heap: kernel/src/allocator.rs.

    An intrusive first-fit free list.  The nodes live in the free memory they describe,
    so the model keeps a store of nodes by address and the list is walked and rewired
    through that store.  The specification and the refinement are in AllocatorSpec.v. *)

From S2P Require Import Prelude Crates CrateModels.

Local Open Scope Z_scope.

(** ** Constants *)

Definition HEAP_SIZE : Z := 2 * 1024 * 1024.
Definition HEAP_START : Z := 0xffffffff80000000 - HEAP_SIZE.

(** [mem::size_of::<ListNode>()] and [mem::align_of::<ListNode>()]: a [usize] and an
    optional reference, eight bytes each. *)
Definition size_of_ListNode : Z := 16.
Definition align_of_ListNode : Z := 8.

(** ** Data *)

(** A node is reached by its address: [next] holds the address of the next one. *)
Record ListNode := mkNode { node_size : Z; node_next : option Z }.

Definition ListNode_new (sz : Z) : ListNode := mkNode sz None.

(** [nodes]: the nodes that live in heap memory, by address. *)
Record LinkedListAllocator := mkAllocator { head : ListNode; nodes : gmap Z ListNode }.

Definition LinkedListAllocator_new : LinkedListAllocator := mkAllocator (ListNode_new 0) ∅.

(** [core::alloc::Layout]. *)
Record Layout := mkLayout { layout_size : Z; layout_align : Z }.

(** The type invariant of [Layout]. *)
Definition layout_ok (l : Layout) : Prop :=
  power_of_two (layout_align l) ∧ 0 ≤ layout_size l ≤ isize_max + 1 - layout_align l.

(** ** The store of nodes *)

(** Two nodes at these addresses would share bytes. *)
Definition node_overlap (a b : Z) : Prop :=
  a < b + size_of_ListNode ∧ b < a + size_of_ListNode.
#[export] Instance node_overlap_dec a b : Decision (node_overlap a b).
Proof. unfold node_overlap. apply _. Defined.

(** [ptr.write(node)]: every node that shares a byte with the written one is destroyed. *)
Definition store_node (a : Z) (n : ListNode) (m : gmap Z ListNode) : gmap Z ListNode :=
  <[a := n]> (filter (λ p, ¬ node_overlap a p.1) m).

Definition load_node (a : Z) : M LinkedListAllocator ListNode := λ s,
  match nodes s !! a with
  | Some n => (Done n, s)
  | None => (Ub, s)
  end.

Definition write_node (a : Z) (n : ListNode) : M LinkedListAllocator () :=
  modify_state (λ s, mkAllocator (head s) (store_node a n (nodes s))).

(** The node that [current] borrows in [find_region]. *)
Inductive cursor := InHead | AtNode (a : Z).

Definition current_node (c : cursor) : M LinkedListAllocator ListNode :=
  match c with
  | InHead => gets_state head
  | AtNode a => load_node a
  end.

(** Assignment to the field [next] of a live node. *)
Definition set_next (c : cursor) (o : option Z) : M LinkedListAllocator () :=
  n ← current_node c;
  match c with
  | InHead => modify_state (λ s, mkAllocator (mkNode (node_size n) o) (nodes s))
  | AtNode a =>
      modify_state (λ s, mkAllocator (head s) (<[a := mkNode (node_size n) o]> (nodes s)))
  end.

(** ** Layouts ([core::alloc::Layout]) *)

Definition Layout_from_size_align (sz al : Z) : option Layout :=
  if decide (sz ≤ isize_max + 1 - al) then Some (mkLayout sz al) else None.

Definition Layout_align_to (l : Layout) (al : Z) : option Layout :=
  Layout_from_size_align (layout_size l) (Z.max (layout_align l) al).

Definition Layout_pad_to_align (l : Layout) : Layout :=
  mkLayout (Z.land (layout_size l + layout_align l - 1) (not64 (layout_align l - 1)))
           (layout_align l).

(** ** The allocator's operations *)

Section operations.
Context `{BuildProfile}.

Definition align_up (addr align : Z) : outcome Z :=
  x ← add64 addr align;
  y ← sub64 x 1;
  mask ← sub64 align 1;
  Done (Z.land y (not64 mask)).

(** [ListNode::end_addr] of the node at [a]. *)
Definition end_addr (a : Z) (n : ListNode) : outcome Z := add64 a (node_size n).

Definition add_free_region (addr sz : Z) : M LinkedListAllocator () :=
  aligned ← liftO (align_up addr align_of_ListNode);
  if decide (aligned ≠ addr) then panic "assertion `left == right` failed"
  else if decide (sz < size_of_ListNode)
  then panic "assertion failed: size >= mem::size_of::<ListNode>()"
  else
    (* node.next = self.head.next.take() *)
    h ← gets_state head;
    set_next InHead None;;
    write_node addr (mkNode sz (node_next h));;
    set_next InHead (Some addr).

Definition init (heap_start heap_size : Z) : M LinkedListAllocator () :=
  add_free_region heap_start heap_size.

Definition alloc_from_region (a : Z) (region : ListNode) (sz al : Z) :
    outcome (result Z ()) :=
  alloc_start ← align_up a al;
  match checked_add64 alloc_start sz with
  | None => Done (RErr ())
  | Some alloc_end =>
      region_end ← end_addr a region;
      if decide (region_end < alloc_end) then Done (RErr ())
      else
        excess_size ← sub64 region_end alloc_end;
        if decide (0 < excess_size ∧ excess_size < size_of_ListNode)
        then Done (RErr ())
        else Done (ROk alloc_start)
  end.

(** The loop of [find_region] from [current]; it returns the address of the region it
    took out of the list and the start of the allocation. *)
Fixpoint find_region_from (fuel : nat) (current : cursor) (sz al : Z) :
    M LinkedListAllocator (option (Z * Z)) :=
  match fuel with
  | O => hang
  | S fuel =>
      n ← current_node current;
      match node_next n with
      | None => mret None
      | Some a =>
          region ← load_node a;
          fit ← liftO (alloc_from_region a region sz al);
          match fit with
          | ROk alloc_start =>
              (* next = region.next.take(); current.next.take(); current.next = next *)
              set_next (AtNode a) None;;
              set_next current None;;
              set_next current (node_next region);;
              mret (Some (a, alloc_start))
          | RErr _ => find_region_from fuel (AtNode a) sz al
          end
      end
  end.

(** A list without a cycle has at most as many nodes as the store: a walk that is not
    over by then never is. *)
Definition find_region (sz al : Z) : M LinkedListAllocator (option (Z * Z)) :=
  s ← get_state;
  find_region_from (S (base.size (nodes s))) InHead sz al.

Definition size_align (l : Layout) : outcome (Z * Z) :=
  l' ← expect "adjusting alignment failed" (Layout_align_to l align_of_ListNode);
  let l'' := Layout_pad_to_align l' in
  Done (Z.max (layout_size l'') size_of_ListNode, layout_align l'').

(** The part of [GlobalAlloc::alloc] that runs under the lock; [0] is the null pointer. *)
Definition alloc_locked (sz al : Z) : M LinkedListAllocator Z :=
  found ← find_region sz al;
  match found with
  | Some (a, alloc_start) =>
      alloc_end ← liftO (expect "overflow" (checked_add64 alloc_start sz));
      region ← load_node a;
      region_end ← liftO (end_addr a region);
      excess_size ← liftO (sub64 region_end alloc_end);
      (if decide (0 < excess_size) then add_free_region alloc_end excess_size else mret ());;
      mret alloc_start
  | None => mret 0
  end.

Context {L : Type} `{RawLock L}.

(** [GlobalAlloc::alloc] and [GlobalAlloc::dealloc]; [without_interrupts] makes the body
    one step of the machine. *)
Definition GlobalAlloc_alloc (l : Layout) : M (locked L LinkedListAllocator) Z :=
  p ← liftO (size_align l);
  with_lock (alloc_locked p.1 p.2).

Definition GlobalAlloc_dealloc (ptr : Z) (l : Layout) : M (locked L LinkedListAllocator) () :=
  p ← liftO (size_align l);
  with_lock (add_free_region ptr p.1).

End operations.
