(* ===== verification/AllocatorSpec.v ===== *)
(** * What the kernel heap promises, and that allocator.rs keeps it.

    [FreeList] specifies the allocator on a plain list of free blocks.  The refinement
    lemmas show that the operations on nodes in memory are these operations on the
    list, that they never panic, loop or touch a dead node within the heap's bounds, and
    the reachability invariant shows that live blocks never overlap. *)

From S2P Require Import Prelude Crates CrateModels Allocator.

Local Open Scope Z_scope.

(** ** Specification: a list of free blocks *)

Module FreeList.

(** Where an allocation would start in the block, if it may be placed there: what is
    left behind it is nothing or has room for a node. *)
Definition fits (sz al : Z) (r : Z * Z) : option Z :=
  let s := round_up r.1 al in
  let excess := r.1 + r.2 - (s + sz) in
  if decide (0 ≤ excess ∧ (excess = 0 ∨ size_of_ListNode ≤ excess)) then Some s else None.

(** The first block that fits, with the blocks before and after it. *)
Fixpoint take_fit (sz al : Z) (rs : list (Z * Z)) :
    option (list (Z * Z) * (Z * Z) * Z * list (Z * Z)) :=
  match rs with
  | [] => None
  | r :: rs' =>
      match fits sz al r with
      | Some s => Some ([], r, s, rs')
      | None =>
          match take_fit sz al rs' with
          | Some (pre, r', s, post) => Some (r :: pre, r', s, post)
          | None => None
          end
      end
  end.

Definition alloc (sz al : Z) (rs : list (Z * Z)) : Z * list (Z * Z) :=
  match take_fit sz al rs with
  | None => (0, rs)
  | Some (pre, r, s, post) =>
      let excess := r.1 + r.2 - (s + sz) in
      (s, (if decide (0 < excess) then [(s + sz, excess)] else []) ++ pre ++ post)
  end.

Definition dealloc (ptr sz : Z) (rs : list (Z * Z)) : list (Z * Z) := (ptr, sz) :: rs.

End FreeList.

(** A block that can hold a node, within [lo, hi). *)
Definition block_ok (lo hi : Z) (r : Z * Z) : Prop :=
  (align_of_ListNode | r.1) ∧ size_of_ListNode ≤ r.2 ∧ lo ≤ r.1 ∧ r.1 + r.2 ≤ hi.

Definition blocks_ok (lo hi : Z) (rs : list (Z * Z)) : Prop :=
  Forall (block_ok lo hi) rs ∧ pairwise disjoint_blocks rs.

#[export] Instance block_ok_dec lo hi r : Decision (block_ok lo hi r).
Proof. unfold block_ok. apply _. Defined.
#[export] Instance blocks_ok_dec lo hi rs : Decision (blocks_ok lo hi rs).
Proof. unfold blocks_ok. apply _. Defined.

(** The size and the alignment the allocator really uses for a layout. *)
Definition block_align (l : Layout) : Z := Z.max (layout_align l) align_of_ListNode.
Definition block_size (l : Layout) : Z :=
  Z.max (round_up (layout_size l) (block_align l)) size_of_ListNode.

(** [b] is a part of [r]. *)
Definition sub_block (b r : Z * Z) : Prop := r.1 ≤ b.1 ∧ b.1 + b.2 ≤ r.1 + r.2.

(** ** Abstraction: the nodes reachable from a link, as blocks *)

Fixpoint chain (m : gmap Z ListNode) (o : option Z) (rs : list (Z * Z)) : Prop :=
  match rs with
  | [] => o = None
  | r :: rs' => o = Some r.1 ∧ ∃ o', m !! r.1 = Some (mkNode r.2 o') ∧ chain m o' rs'
  end.

Definition represents (s : LinkedListAllocator) (rs : list (Z * Z)) : Prop :=
  chain (nodes s) (node_next (head s)) rs.

(** ** Layout and alignment arithmetic *)

Lemma align_of_ListNode_pow2 : power_of_two align_of_ListNode.
Proof. by exists 3. Qed.

Lemma block_align_pow2 l : layout_ok l → power_of_two (block_align l).
Proof.
  intros [? _]. unfold block_align.
  destruct (Z.max_spec (layout_align l) align_of_ListNode) as [[_ ->]|[_ ->]];
    [apply align_of_ListNode_pow2|done].
Qed.

Lemma block_align_divide l : layout_ok l → (align_of_ListNode | block_align l).
Proof.
  intros Hl. apply divide_power_of_two;
    [apply align_of_ListNode_pow2|by apply block_align_pow2|].
  unfold block_align. lia.
Qed.

Section arithmetic.
Context `{BuildProfile}.

Lemma align_up_done a al :
  0 ≤ a → power_of_two al → a + al < 2 ^ 64 → align_up a al = Done (round_up a al).
Proof.
  intros Ha Hp Hlt. pose proof (power_of_two_pos _ Hp). unfold align_up.
  rewrite add64_done by lia. simpl. rewrite sub64_done by lia. simpl.
  rewrite sub64_done by lia. simpl. rewrite land_not64_mask; [done| |done].
  unfold in_u64. lia.
Qed.

Lemma size_align_done l :
  layout_ok l → layout_size l ≤ isize_max + 1 - block_align l →
  size_align l = Done (block_size l, block_align l).
Proof.
  intros Hl Hsz. pose proof (block_align_pow2 l Hl) as Hp.
  pose proof (power_of_two_pos _ Hp). destruct Hl as [_ [Hs0 _]].
  unfold size_align, Layout_align_to, Layout_from_size_align.
  fold (block_align l). rewrite decide_True by done. simpl.
  rewrite land_not64_mask; [done| |done]. unfold in_u64, isize_max in *. lia.
Qed.

Lemma size_align_panics l :
  isize_max + 1 - block_align l < layout_size l →
  size_align l = Panic "adjusting alignment failed".
Proof.
  intros Hsz. unfold size_align, Layout_align_to, Layout_from_size_align.
  fold (block_align l). by rewrite decide_False by lia.
Qed.

Lemma block_size_spec l :
  layout_ok l →
  layout_size l ≤ block_size l ∧ size_of_ListNode ≤ block_size l ∧
  (align_of_ListNode | block_size l).
Proof.
  intros Hl. unfold block_size.
  pose proof (power_of_two_pos _ (block_align_pow2 l Hl)) as Hpos.
  pose proof (round_up_ge (layout_size l) _ Hpos).
  split_and!; [lia..|].
  destruct (Z.max_spec (round_up (layout_size l) (block_align l)) size_of_ListNode)
    as [[_ ->]|[_ ->]]; [by exists 2|].
  etransitivity; [by apply block_align_divide|apply round_up_divide].
Qed.

Lemma alloc_from_region_fits lo hi r o sz al :
  block_ok lo hi r → 0 ≤ lo → hi ≤ 2 ^ 64 - al → power_of_two al → 0 ≤ sz →
  alloc_from_region r.1 (mkNode r.2 o) sz al =
    Done (match FreeList.fits sz al r with Some s => ROk s | None => RErr () end).
Proof.
  intros (Hd & Hsz & Hl & Hh) Hlo Hhi Hp Hs. pose proof (power_of_two_pos _ Hp).
  unfold alloc_from_region, FreeList.fits, size_of_ListNode in *.
  rewrite align_up_done by (done || lia). simpl.
  pose proof (round_up_ge r.1 al). set (s := round_up r.1 al) in *.
  destruct (decide (s + sz < 2 ^ 64)) as [Hlt|Hge].
  - rewrite checked_add64_some by done. unfold end_addr; simpl.
    rewrite add64_done by lia. simpl. case_decide.
    + rewrite decide_False by lia. done.
    + rewrite sub64_done by lia. simpl. repeat case_decide; done || lia.
  - rewrite checked_add64_none by lia. rewrite decide_False by lia. done.
Qed.

End arithmetic.

(** ** Chains *)

Lemma chain_frame m m' o rs :
  chain m o rs → (∀ a, a ∈ rs.*1 → m' !! a = m !! a) → chain m' o rs.
Proof.
  revert o. induction rs as [|r rs IH]; intros o; simpl; [done|].
  intros (-> & o' & Hr & Hc) Hm. split; [done|]. exists o'. split.
  - rewrite Hm; [done|]. apply list_elem_of_here.
  - apply IH; [done|]. intros a ?. apply Hm. by apply list_elem_of_further.
Qed.

Lemma chain_lookup m o rs a :
  chain m o rs → a ∈ rs.*1 → is_Some (m !! a).
Proof.
  revert o. induction rs as [|r rs IH]; intros o; simpl.
  - by intros _ ?%not_elem_of_nil.
  - intros (_ & o' & Hr & Hc) [->|?]%elem_of_cons; [by rewrite Hr|eauto].
Qed.

Lemma chain_length m o rs :
  chain m o rs → NoDup rs.*1 → (length rs ≤ base.size m)%nat.
Proof.
  intros Hc Hnd. rewrite <-(length_fmap fst), <-size_dom, <-(size_list_to_set (C := gset Z))
    by done.
  apply subseteq_size. intros a Ha%elem_of_list_to_set. apply elem_of_dom.
  by eapply chain_lookup.
Qed.

Lemma blocks_ok_nodup lo hi rs : blocks_ok lo hi rs → NoDup rs.*1.
Proof.
  intros [Hok Hd]. induction rs as [|r rs IH]; simpl in *; [constructor|].
  apply Forall_cons in Hok as [Hr Hok]. destruct Hd as [Hr' Hd].
  constructor; [|by apply IH].
  intros (r' & Heq & Hin)%list_elem_of_fmap.
  rewrite Forall_forall in Hr', Hok. specialize (Hr' _ Hin). specialize (Hok _ Hin).
  unfold disjoint_blocks, block_ok, size_of_ListNode in *. lia.
Qed.

(** ** The store of nodes *)

Lemma store_node_eq a n m : store_node a n m !! a = Some n.
Proof. apply lookup_insert_eq. Qed.

Lemma store_node_ne a b n m : ¬ node_overlap a b → store_node a n m !! b = m !! b.
Proof.
  intros Hno. unfold store_node.
  rewrite lookup_insert_ne.
  - destruct (m !! b) as [x|] eqn:E.
    + by apply map_lookup_filter_Some.
    + apply map_lookup_filter_None. by left.
  - intros ->. apply Hno. unfold node_overlap, size_of_ListNode. lia.
Qed.

Lemma disjoint_no_overlap lo hi r a sz :
  block_ok lo hi r → size_of_ListNode ≤ sz → disjoint_blocks (a, sz) r →
  ¬ node_overlap a r.1.
Proof. unfold block_ok, disjoint_blocks, node_overlap; simpl. lia. Qed.

(** ** Rewiring links *)

Definition cursor_put (c : cursor) (n : ListNode) (s : LinkedListAllocator) :
    LinkedListAllocator :=
  match c with
  | InHead => mkAllocator n (nodes s)
  | AtNode a => mkAllocator (head s) (<[a := n]> (nodes s))
  end.

Lemma current_node_put c n s : current_node c (cursor_put c n s) = (Done n, cursor_put c n s).
Proof.
  destruct c as [|a]; simpl; [done|]. unfold load_node; simpl. by rewrite lookup_insert_eq.
Qed.

Lemma current_node_put_ne c c' n s :
  c ≠ c' →
  current_node c (cursor_put c' n s) = ((current_node c s).1, cursor_put c' n s).
Proof.
  intros Hne. destruct c as [|a], c' as [|a']; simpl; try done.
  - unfold load_node; simpl. by destruct (nodes s !! a).
  - unfold load_node; simpl. rewrite lookup_insert_ne by congruence.
    by destruct (nodes s !! a).
Qed.

Lemma nodes_put_eq a n s : nodes (cursor_put (AtNode a) n s) !! a = Some n.
Proof. simpl. by rewrite lookup_insert_eq. Qed.

Lemma nodes_put_ne c a n s : c ≠ AtNode a → nodes (cursor_put c n s) !! a = nodes s !! a.
Proof. intros. destruct c; simpl; [done|]. by rewrite lookup_insert_ne by congruence. Qed.

Lemma head_put c n s : c ≠ InHead → head (cursor_put c n s) = head s.
Proof. by destruct c. Qed.

Lemma set_next_done c n o s :
  current_node c s = (Done n, s) →
  set_next c o s = (Done (), cursor_put c (mkNode (node_size n) o) s).
Proof. intros E. unfold set_next. rewrite (mbind_done _ _ _ _ _ E). by destruct c. Qed.

Lemma current_node_at a n s :
  current_node (AtNode a) s = (Done n, s) ↔ nodes s !! a = Some n.
Proof.
  simpl. unfold load_node. destruct (nodes s !! a) as [n'|]; split; intros; by simplify_eq.
Qed.

Lemma load_node_done a n s : nodes s !! a = Some n → load_node a s = (Done n, s).
Proof. unfold load_node. by intros ->. Qed.

(** ** The refinement *)

Section refinement.
Context `{BuildProfile} (lo hi : Z) (Hlo : 0 < lo).

Lemma add_free_region_done s rs a sz :
  represents s rs → Forall (block_ok lo hi) rs → hi ≤ 2 ^ 64 - align_of_ListNode →
  block_ok lo hi (a, sz) → Forall (disjoint_blocks (a, sz)) rs →
  ∃ s', add_free_region a sz s = (Done (), s') ∧ represents s' (FreeList.dealloc a sz rs).
Proof.
  intros Hrep Hok Hhi Hb Hd.
  pose proof Hb as (Hal & Hsz & Hl & Hh); simpl in *. unfold size_of_ListNode in Hsz.
  unfold add_free_region. rewrite align_up_done;
    [|lia|apply align_of_ListNode_pow2|unfold align_of_ListNode in *; lia].
  rewrite round_up_id by (done || (unfold align_of_ListNode; lia)).
  mred. rewrite decide_False by (intros []; done).
  rewrite decide_False by (unfold size_of_ListNode; lia).
  mred. rewrite (mbind_done _ _ _ _ _ (set_next_done InHead _ None s eq_refl)); simpl.
  unfold write_node; mred.
  eexists. split; [by apply set_next_done|].
  split; simpl; [done|]. eexists. rewrite store_node_eq. split; [done|].
  eapply chain_frame; [exact Hrep|]. intros b (r & -> & Hr)%list_elem_of_fmap.
  rewrite Forall_forall in Hok, Hd.
  apply store_node_ne. eapply disjoint_no_overlap; eauto.
Qed.

Section find.
Context (sz al : Z) (Hsz : 0 ≤ sz) (Hal : power_of_two al) (Hhi : hi ≤ 2 ^ 64 - al).

(** What [find_region] leaves behind when it takes [r] out of [pre ++ r :: post]. *)
Definition taken (c : cursor) (n : ListNode) (s s' : LinkedListAllocator)
    (rs pre : list (Z * Z)) (r : Z * Z) (post : list (Z * Z)) : Prop :=
  ∃ o, current_node c s' = (Done (mkNode (node_size n) o), s') ∧
    chain (nodes s') o (pre ++ post) ∧
    nodes s' !! r.1 = Some (mkNode r.2 None) ∧
    (c ≠ InHead → head s' = head s) ∧
    (∀ a, a ∉ rs.*1 → c ≠ AtNode a → nodes s' !! a = nodes s !! a).

Lemma unlink_taken c n s r o' rs :
  current_node c s = (Done n, s) → nodes s !! r.1 = Some (mkNode r.2 o') →
  chain (nodes s) o' rs → c ≠ AtNode r.1 → NoDup (r.1 :: rs.*1) →
  (∀ a, c = AtNode a → a ∉ rs.*1) →
  ∃ s', (set_next (AtNode r.1) None;; set_next c None;; set_next c o') s = (Done (), s') ∧
        taken c n s s' (r :: rs) [] r rs.
Proof.
  intros Hc Hr Hch Hne [Hnr Hnd]%NoDup_cons Hcr.
  rewrite (mbind_done _ _ _ _ _ (set_next_done _ _ None _ (proj2 (current_node_at _ _ _) Hr))).
  set (s1 := cursor_put _ _ s).
  assert (current_node c s1 = (Done n, s1)) as Hc1.
  { unfold s1. rewrite current_node_put_ne by done. by rewrite Hc. }
  rewrite (mbind_done _ _ _ _ _ (set_next_done _ _ None _ Hc1)).
  set (s2 := cursor_put _ _ s1).
  rewrite (set_next_done c _ o' s2 (current_node_put _ _ _)). simpl.
  eexists. split; [done|]. exists o'. split_and!.
  - apply current_node_put.
  - eapply chain_frame; [exact Hch|]. intros a Ha. unfold s2, s1.
    rewrite !nodes_put_ne; [done|..]; try (intros ->; by eapply Hcr).
    intros [= <-]. done.
  - unfold s2, s1. rewrite !(nodes_put_ne c) by done. apply nodes_put_eq.
  - intros Hh. unfold s2, s1. by rewrite !head_put.
  - intros a Ha Hca. unfold s2, s1. rewrite !nodes_put_ne; try done.
    intros [= <-]. apply Ha, list_elem_of_here.
Qed.

(** What holds of the walk from a node's successor holds of the walk from the node. *)
Lemma taken_further c ns s s' r o' rs pre r' post :
  current_node c s = (Done (mkNode ns (Some r.1)), s) →
  c ≠ AtNode r.1 → (∀ a, c = AtNode a → a ∉ rs.*1) → r.1 ∉ rs.*1 →
  taken (AtNode r.1) (mkNode r.2 o') s s' rs pre r' post →
  taken c (mkNode ns (Some r.1)) s s' (r :: rs) (r :: pre) r' post.
Proof.
  intros Hc Hne Hcr Hnr (o & Hcur & Hch & Hr' & Hhd & Hfr).
  exists (Some r.1). split_and!.
  - destruct c as [|b].
    + unfold current_node, gets_state in *. rewrite Hhd by done. simpl. congruence.
    + apply current_node_at. apply current_node_at in Hc. rewrite Hfr; [done|by apply Hcr|].
      congruence.
  - simpl. split; [done|]. exists o. split; [|done]. by apply current_node_at.
  - done.
  - intros _. by apply Hhd.
  - intros a [? ?]%not_elem_of_cons ?. apply Hfr; [done|congruence].
Qed.

Lemma not_elem_of_cons_at c a l :
  (∀ b, c = AtNode b → b ∉ a :: l) → c ≠ AtNode a ∧ ∀ b, c = AtNode b → b ∉ l.
Proof.
  intros Hc. split.
  - intros ->. apply (Hc a); [done|]. apply list_elem_of_here.
  - intros b ->. by eapply not_elem_of_cons, Hc.
Qed.

Lemma find_region_from_spec fuel c n s rs :
  (length rs < fuel)%nat → Forall (block_ok lo hi) rs → NoDup rs.*1 →
  current_node c s = (Done n, s) → chain (nodes s) (node_next n) rs →
  (∀ a, c = AtNode a → a ∉ rs.*1) →
  match FreeList.take_fit sz al rs with
  | None => find_region_from fuel c sz al s = (Done None, s)
  | Some (pre, r, st, post) =>
      ∃ s', find_region_from fuel c sz al s = (Done (Some (r.1, st)), s') ∧
            taken c n s s' rs pre r post
  end.
Proof.
  revert fuel c n. induction rs as [|r rs IH]; intros fuel c [ns nn] Hf Hok Hnd Hc Hch Hcr;
    (destruct fuel as [|fuel]; [simpl in Hf; lia|]); simpl find_region_from.
  { rewrite (mbind_done _ _ _ _ _ Hc). simpl in *. by rewrite Hch. }
  rewrite (mbind_done _ _ _ _ _ Hc). simpl in Hch |- *. destruct Hch as (-> & o' & Hr & Hch).
  pose proof (proj2 (current_node_at _ _ _) Hr) as Hload.
  rewrite (mbind_done _ _ _ _ _ Hload).
  apply Forall_cons in Hok as [Hokr Hok].
  rewrite (alloc_from_region_fits lo hi) by (done || lia). mred.
  apply not_elem_of_cons_at in Hcr as [Hne Hcr].
  destruct (FreeList.fits sz al r) as [st|] eqn:Hfit.
  - destruct (unlink_taken c _ s r o' rs Hc Hr Hch Hne Hnd Hcr) as (s' & E & Ht).
    exists s'. split; [|done]. simpl node_next.
    by rewrite (mseq3_done _ _ _ _ _ _ E).
  - apply NoDup_cons in Hnd as [Hnr Hnd].
    specialize (IH fuel (AtNode r.1) (mkNode r.2 o')). simpl in Hf.
    destruct (FreeList.take_fit sz al rs) as [[[[pre r'] st] post]|].
    + destruct IH as (s' & E & Ht); [lia|done..|by intros ? [= <-]|].
      exists s'. split; [done|]. by apply taken_further with o'.
    + apply IH; [lia|done..|by intros ? [= <-]].
Qed.

End find.

End refinement.

(** ** The specification keeps blocks apart *)

Lemma fits_some sz al r s :
  power_of_two al → FreeList.fits sz al r = Some s →
  r.1 ≤ s ∧ (al | s) ∧ s < r.1 + al ∧ s + sz ≤ r.1 + r.2 ∧
  (r.1 + r.2 = s + sz ∨ size_of_ListNode ≤ r.1 + r.2 - (s + sz)).
Proof.
  intros Hp%power_of_two_pos. unfold FreeList.fits. case_decide; intros; simplify_eq.
  pose proof (round_up_ge r.1 al). pose proof (round_up_lt r.1 al).
  split_and!; [lia|apply round_up_divide|lia..].
Qed.

Lemma take_fit_some sz al rs pre r s post :
  FreeList.take_fit sz al rs = Some (pre, r, s, post) →
  rs = pre ++ r :: post ∧ FreeList.fits sz al r = Some s ∧
  Forall (λ r, FreeList.fits sz al r = None) pre.
Proof.
  revert pre. induction rs as [|r0 rs IH]; intros pre; simpl; [done|].
  destruct (FreeList.fits sz al r0) eqn:E; [intros; by simplify_eq|].
  destruct (FreeList.take_fit sz al rs) as [[[[pre' r'] s'] post']|]; [|done].
  intros; simplify_eq. destruct (IH pre') as (-> & ? & ?); [done|].
  split_and!; [done..|]. by constructor.
Qed.

Lemma take_fit_none sz al rs :
  FreeList.take_fit sz al rs = None → Forall (λ r, FreeList.fits sz al r = None) rs.
Proof.
  induction rs as [|r0 rs IH]; simpl; [constructor|].
  destruct (FreeList.fits sz al r0) eqn:E; [done|].
  destruct (FreeList.take_fit sz al rs) as [[[[pre' r'] s'] post']|]; [done|].
  intros. constructor; [done|]. by apply IH.
Qed.

Lemma sub_block_disjoint b r x : sub_block b r → disjoint_blocks r x → disjoint_blocks b x.
Proof. unfold sub_block, disjoint_blocks. lia. Qed.

#[export] Instance blocks_ok_perm lo hi : Proper ((≡ₚ) ==> iff) (blocks_ok lo hi).
Proof. intros l1 l2 Hp. unfold blocks_ok. by rewrite Hp. Qed.

(** Cutting a block into disjoint parts, some of them dropped. *)
Lemma blocks_ok_split lo hi r bs rs :
  blocks_ok lo hi (r :: rs) → blocks_ok lo hi bs → Forall (λ b, sub_block b r) bs →
  blocks_ok lo hi (bs ++ rs).
Proof.
  intros [Hok [Hd1 Hd2]] [Hbs Hbd] Hsub. apply Forall_cons in Hok as [_ Hok].
  split; [by apply Forall_app|]. apply pairwise_app. split_and!; [done..|].
  intros x y Hx Hy. rewrite Forall_forall in Hsub, Hd1.
  eapply sub_block_disjoint; eauto.
Qed.

Lemma blocks_ok_app_inv lo hi l1 l2 :
  blocks_ok lo hi (l1 ++ l2) → blocks_ok lo hi l1 ∧ blocks_ok lo hi l2.
Proof. intros [[??]%Forall_app (?&?&?)%pairwise_app]. done. Qed.

Lemma blocks_ok_cons_inv lo hi b rs :
  blocks_ok lo hi (b :: rs) →
  block_ok lo hi b ∧ Forall (disjoint_blocks b) rs ∧ blocks_ok lo hi rs.
Proof. intros [[? ?]%Forall_cons [? ?]]. done. Qed.

(** What an allocation hands out is cut from a free block, so it overlaps neither the
    free blocks that stay nor any other block, live ones included. *)
Lemma FreeList_alloc_ok lo hi sz al live rs :
  0 < lo → power_of_two al → (align_of_ListNode | al) →
  size_of_ListNode ≤ sz → (align_of_ListNode | sz) →
  blocks_ok lo hi (live ++ rs) →
  let '(p, rs') := FreeList.alloc sz al rs in
  (p = 0 ∧ rs' = rs) ∨
  (lo ≤ p ∧ (al | p) ∧ blocks_ok lo hi (((p, sz) :: live) ++ rs')).
Proof.
  intros Hlo Hp Hal Hsz Hsd Hok. unfold FreeList.alloc.
  destruct (FreeList.take_fit sz al rs) as [[[[pre r] s] post]|] eqn:E; [right|by left].
  apply take_fit_some in E as (-> & (Hs1 & Hs2 & Hs3 & Hs4 & Hs5)%fits_some & _); [|done].
  assert (blocks_ok lo hi (r :: live ++ pre ++ post)) as Hok'.
  { assert (r :: live ++ pre ++ post ≡ₚ live ++ pre ++ r :: post) as Hperm.
    { solve_Permutation. }
    by rewrite Hperm. }
  pose proof (blocks_ok_cons_inv _ _ _ _ Hok') as ((Hr1 & Hr2 & Hr3 & Hr4) & _ & _).
  assert (align_of_ListNode | s) by by apply (Z.divide_trans _ al).
  split_and!; [lia|done|].
  set (rest := if decide _ then _ else _).
  assert (((s, sz) :: live) ++ rest ++ pre ++ post ≡ₚ
          ((s, sz) :: rest) ++ live ++ pre ++ post) as ->
    by (clearbody rest; solve_Permutation).
  assert (align_of_ListNode | s + sz) by by apply Z.divide_add_r.
  unfold size_of_ListNode in *.
  eapply blocks_ok_split; [exact Hok'|..]; unfold rest; case_decide;
    repeat first [apply Forall_nil_2 | apply Forall_cons_2 | split];
    unfold block_ok, disjoint_blocks, sub_block, size_of_ListNode; simpl; done || lia.
Qed.

(** Every byte is accounted for, except the gap between the start of the chosen free
    block and the aligned start of the allocation, which belongs to nobody afterwards. *)
Lemma FreeList_alloc_bytes sz al rs pre r s post :
  FreeList.take_fit sz al rs = Some (pre, r, s, post) → power_of_two al →
  total_bytes (FreeList.alloc sz al rs).2 + sz + (s - r.1) = total_bytes rs.
Proof.
  intros E Hp. unfold FreeList.alloc. rewrite E.
  apply take_fit_some in E as (-> & (_ & _ & _ & Hle & _)%fits_some & _); [|done].
  simpl. rewrite !total_bytes_app. unfold total_bytes; simpl.
  case_decide; simpl; lia.
Qed.

(** ** Refinement of [alloc] and [dealloc] *)

Section alloc.
Context `{BuildProfile} (lo hi : Z) (Hlo : 0 < lo).

Lemma alloc_locked_done s rs sz al :
  represents s rs → blocks_ok lo hi rs →
  power_of_two al → (align_of_ListNode | al) → hi ≤ 2 ^ 64 - al →
  size_of_ListNode ≤ sz → (align_of_ListNode | sz) →
  ∃ s', alloc_locked sz al s = (Done (FreeList.alloc sz al rs).1, s') ∧
        represents s' (FreeList.alloc sz al rs).2.
Proof.
  intros Hrep Hok Hp Hal Hhi Hsz Hsd. pose proof (power_of_two_pos _ Hp) as Hpos.
  pose proof (FreeList_alloc_ok lo hi sz al [] rs Hlo Hp Hal Hsz Hsd Hok) as Hnew.
  unfold alloc_locked, find_region. mred.
  pose proof (blocks_ok_nodup _ _ _ Hok) as Hnd.
  pose proof (find_region_from_spec lo hi Hlo sz al ltac:(unfold size_of_ListNode in *; lia)
    Hp Hhi (S (base.size (nodes s))) InHead (head s) s rs) as Hf.
  apply chain_length in Hrep as Hlen; [|done].
  specialize (Hf ltac:(lia) (proj1 Hok) Hnd eq_refl Hrep ltac:(done)).
  unfold FreeList.alloc in *.
  destruct (FreeList.take_fit sz al rs) as [[[[pre r] st] post]|] eqn:E.
  2:{ rewrite (mbind_done _ _ _ _ _ Hf). mred. by exists s. }
  destruct Hf as (s' & Ef & o & Hcur & Hch & Hr & _ & _).
  rewrite (mbind_done _ _ _ _ _ Ef).
  apply take_fit_some in E as (-> & (Hs1 & Hs2 & Hs3 & Hs4 & Hs5)%fits_some & _); [|done].
  assert (block_ok lo hi r) as Hrok.
  { destruct Hok as [Hok _]. by apply Forall_app in Hok as [_ [? _]%Forall_cons]. }
  destruct Hrok as (_ & _ & ? & ?).
  unfold align_of_ListNode in *. assert (8 ≤ al) by (apply Z.divide_pos_le; [lia|done]).
  rewrite checked_add64_some by lia. mred.
  rewrite (mbind_done _ _ _ _ _ (load_node_done _ _ _ Hr)). unfold end_addr; simpl node_size.
  rewrite add64_done by lia. mred. rewrite sub64_done by lia. mred.
  injection Hcur as Hhead. case_decide as Hex.
  - destruct Hnew as [[? Hbad]|(_ & _ & Hnew)].
    { apply (f_equal length) in Hbad. rewrite !length_app in Hbad. simpl in Hbad. lia. }
    simpl in Hnew. apply blocks_ok_cons_inv in Hnew as (_ & _ & Hnew).
    apply blocks_ok_cons_inv in Hnew as (Hexok & Hexd & Hnew).
    destruct (add_free_region_done lo hi Hlo s' (pre ++ post)
      (st + sz) (r.1 + r.2 - (st + sz))) as (s'' & Ea & Hrep'');
      [by unfold represents; rewrite Hhead|apply Hnew|unfold align_of_ListNode; lia|done..|].
    rewrite (mbind_done _ _ _ _ _ Ea). mred. by exists s''.
  - mred. exists s'. split; [done|]. unfold represents. by rewrite Hhead.
Qed.

End alloc.
