(* ===== verification/HeapSafety.v ===== *)
(** * The kernel heap as a running system.

    Clients allocate, free what they own, and write into the blocks they own.  The
    theorems follow every such run from the heap that [init_heap] sets up. *)

From S2P Require Import Prelude Crates CrateModels Allocator AllocatorSpec.

Local Open Scope Z_scope.

Definition HEAP_END : Z := HEAP_START + HEAP_SIZE.

(** The largest alignment for which rounding up inside the heap cannot overflow. *)
Definition max_align : Z := 2 ^ 31.

(** ** Runs *)

(** The allocator behind its lock, and the allocations clients own: each with the layout
    it was requested with. *)
Record heap (L : Type) := Heap {
  heap_alloc : locked L LinkedListAllocator;
  heap_live : list (Z * Layout);
}.
Arguments Heap {L} heap_alloc heap_live.
Arguments heap_alloc {L} _.
Arguments heap_live {L} _.

Definition live_blocks (live : list (Z * Layout)) : list (Z * Z) :=
  (λ x, (x.1, block_size x.2)) <$> live.

(** A layout that rounding up inside the heap can serve. *)
Definition layout_served (l : Layout) : Prop := layout_ok l ∧ layout_align l ≤ max_align.

(** A client may change bytes of its own blocks only: a node that shares no byte with
    a live block is still there. *)
Definition client_write (live : list (Z * Layout)) (m m' : gmap Z ListNode) : Prop :=
  ∀ a, Forall (disjoint_blocks (a, size_of_ListNode)) (live_blocks live) →
       m' !! a = m !! a.

Section runs.
Context `{BuildProfile} {L : Type} `{RawLock L}.

Inductive heap_step : heap L → heap L → Prop :=
  | step_alloc l ptr s s' live :
      layout_served l →
      GlobalAlloc_alloc l s = (Done ptr, s') →
      heap_step (Heap s live) (Heap s' (if decide (ptr = 0) then live else (ptr, l) :: live))
  | step_dealloc l ptr s s' live1 live2 :
      GlobalAlloc_dealloc ptr l s = (Done (), s') →
      heap_step (Heap s (live1 ++ (ptr, l) :: live2)) (Heap s' (live1 ++ live2))
  | step_client r hd m m' live :
      client_write live m m' →
      heap_step (Heap (Locked r (mkAllocator hd m)) live)
        (Heap (Locked r (mkAllocator hd m')) live).

(** The heap after [ALLOCATOR.lock().init(HEAP_START, HEAP_SIZE)]. *)
Definition heap_boot (h : heap L) : Prop :=
  with_lock (init HEAP_START HEAP_SIZE) (Locked lock_free LinkedListAllocator_new) =
    (Done (), heap_alloc h) ∧ heap_live h = [].

Definition heap_reachable (h : heap L) : Prop := ∃ h0, heap_boot h0 ∧ rtc heap_step h0 h.

(** What holds of an allocation a client owns. *)
Definition live_ok (x : Z * Layout) : Prop := layout_served x.2 ∧ (block_align x.2 | x.1).

(** The invariant: the lock is free, the store holds a free list, and free and live
    blocks lie in the heap without overlapping. *)
Definition heap_inv (h : heap L) : Prop :=
  ∃ s rs, heap_alloc h = Locked lock_free s ∧ represents s rs ∧
    Forall live_ok (heap_live h) ∧
    blocks_ok HEAP_START HEAP_END (live_blocks (heap_live h) ++ rs).

End runs.

(** ** The operations under the invariant *)

Lemma heap_end_room al : al ≤ max_align → HEAP_END ≤ 2 ^ 64 - al.
Proof. unfold max_align, HEAP_END, HEAP_START, HEAP_SIZE. lia. Qed.

Lemma heap_start_pos : 0 < HEAP_START.
Proof. by vm_compute. Qed.

Lemma block_align_max l : layout_align l ≤ max_align → block_align l ≤ max_align.
Proof. unfold block_align, max_align, align_of_ListNode. lia. Qed.

(** A layout whose block fits in the heap passes the size check of [size_align]. *)
Lemma served_size l ptr :
  layout_served l → block_ok HEAP_START HEAP_END (ptr, block_size l) →
  layout_size l ≤ isize_max + 1 - block_align l.
Proof.
  intros [Hl Hal%block_align_max] (_ & _ & ? & ?); simpl in *.
  pose proof (block_size_spec l Hl) as (? & _).
  unfold HEAP_END, HEAP_SIZE, isize_max, max_align in *. lia.
Qed.

Section ops.
Context `{BuildProfile} {L : Type} `{RawLockLaws L}.

Lemma init_done :
  ∃ s, with_lock (init HEAP_START HEAP_SIZE) (Locked (L := L) lock_free LinkedListAllocator_new)
         = (Done (), Locked lock_free s) ∧ represents s [(HEAP_START, HEAP_SIZE)].
Proof.
  destruct (add_free_region_done HEAP_START HEAP_END heap_start_pos
    LinkedListAllocator_new [] HEAP_START HEAP_SIZE) as (s & E & Hrep); try done.
  { by_decide. }
  exists s. split; [|done]. by apply with_lock_done.
Qed.

Lemma alloc_done s live rs l :
  represents s rs → blocks_ok HEAP_START HEAP_END (live ++ rs) →
  layout_served l → layout_size l ≤ isize_max + 1 - block_align l →
  ∃ s', GlobalAlloc_alloc l (Locked (L := L) lock_free s) =
          (Done (FreeList.alloc (block_size l) (block_align l) rs).1, Locked lock_free s') ∧
        represents s' (FreeList.alloc (block_size l) (block_align l) rs).2.
Proof.
  intros Hrep Hok [Hl Hal] Hsz. unfold GlobalAlloc_alloc.
  rewrite size_align_done by done. mred. cbn [fst snd].
  pose proof (block_size_spec l Hl) as (_ & ? & ?).
  destruct (alloc_locked_done HEAP_START HEAP_END heap_start_pos s rs
    (block_size l) (block_align l)) as (s' & E & Hrep'); try done.
  - by apply blocks_ok_app_inv in Hok as [_ ?].
  - by apply block_align_pow2.
  - by apply block_align_divide.
  - by apply heap_end_room, block_align_max.
  - exists s'. split; [|done]. by apply with_lock_done.
Qed.

Lemma alloc_too_large l s :
  isize_max + 1 - block_align l < layout_size l →
  GlobalAlloc_alloc l s = (Panic "adjusting alignment failed", s : locked L _).
Proof. intros Hsz. unfold GlobalAlloc_alloc. by rewrite size_align_panics. Qed.

Lemma dealloc_done s live rs l ptr :
  represents s rs → blocks_ok HEAP_START HEAP_END ((ptr, block_size l) :: live ++ rs) →
  layout_served l →
  ∃ s', GlobalAlloc_dealloc ptr l (Locked (L := L) lock_free s) = (Done (), Locked lock_free s') ∧
        represents s' (FreeList.dealloc ptr (block_size l) rs).
Proof.
  intros Hrep Hok Hl. apply blocks_ok_cons_inv in Hok as (Hb & Hd & Hok).
  pose proof (served_size l ptr Hl Hb). destruct Hl as [Hl _]. unfold GlobalAlloc_dealloc.
  rewrite size_align_done by done. mred. cbn [fst snd].
  destruct (add_free_region_done HEAP_START HEAP_END heap_start_pos s rs ptr (block_size l))
    as (s' & E & Hrep'); try done.
  - by apply blocks_ok_app_inv in Hok as [_ [? _]].
  - by apply Forall_app in Hd as [_ ?].
  - exists s'. split; [|done]. by apply with_lock_done.
Qed.

Lemma client_write_represents s m' live rs :
  represents s rs → blocks_ok HEAP_START HEAP_END (live_blocks live ++ rs) →
  client_write live (nodes s) m' → represents (mkAllocator (head s) m') rs.
Proof.
  intros Hrep [Hok Hd] Hw. eapply chain_frame; [exact Hrep|].
  intros a (r & -> & Hr)%list_elem_of_fmap. apply Hw, Forall_forall. intros b Hb.
  apply pairwise_app in Hd as (_ & _ & Hd). specialize (Hd _ _ Hb Hr).
  apply Forall_app in Hok as [_ Hok]. rewrite Forall_forall in Hok.
  destruct (Hok _ Hr) as (_ & ? & _). unfold disjoint_blocks in *. simpl. lia.
Qed.

End ops.

(** ** The invariant holds in every run *)

Section invariant.
Context `{BuildProfile} {L : Type} `{RawLockLaws L}.

Lemma heap_inv_boot (h : heap L) : heap_boot h → heap_inv h.
Proof.
  intros [E Hlive]. destruct init_done as (s & E' & Hrep).
  rewrite E' in E. injection E as E. exists s, [(HEAP_START, HEAP_SIZE)]. rewrite Hlive.
  split_and!; [done|done|constructor|by_decide].
Qed.

Lemma heap_inv_alloc s rs live l ptr s' :
  represents s rs → Forall live_ok live →
  blocks_ok HEAP_START HEAP_END (live_blocks live ++ rs) → layout_served l →
  GlobalAlloc_alloc l (Locked (L := L) lock_free s) = (Done ptr, s') →
  heap_inv (Heap s' (if decide (ptr = 0) then live else (ptr, l) :: live)).
Proof.
  intros Hrep Hlive Hok Hl Ea.
  destruct (decide (layout_size l ≤ isize_max + 1 - block_align l)) as [Hsz|Hsz].
  2:{ rewrite alloc_too_large in Ea by lia. done. }
  destruct (alloc_done s _ rs l Hrep Hok Hl Hsz) as (s1 & E & Hrep1).
  rewrite E in Ea. injection Ea as Hp <-.
  pose proof (block_size_spec l (proj1 Hl)) as (_ & ? & ?).
  pose proof (FreeList_alloc_ok HEAP_START HEAP_END (block_size l) (block_align l)
    (live_blocks live) rs heap_start_pos (block_align_pow2 l (proj1 Hl))
    (block_align_divide l (proj1 Hl)) ltac:(done) ltac:(done) Hok) as Hnew.
  destruct (FreeList.alloc (block_size l) (block_align l) rs) as [p rs']; simpl in *; subst p.
  exists s1, rs'. pose proof heap_start_pos.
  destruct Hnew as [[-> ->]|(? & ? & Hnew)].
  - rewrite decide_True by done. done.
  - rewrite decide_False by lia. split_and!; [done|done| |done].
    constructor; [by split|done].
Qed.

Lemma heap_inv_dealloc s rs live1 live2 l ptr s' :
  represents s rs → Forall live_ok (live1 ++ (ptr, l) :: live2) →
  blocks_ok HEAP_START HEAP_END (live_blocks (live1 ++ (ptr, l) :: live2) ++ rs) →
  GlobalAlloc_dealloc ptr l (Locked (L := L) lock_free s) = (Done (), s') →
  heap_inv (Heap s' (live1 ++ live2)).
Proof.
  intros Hrep Hlive Hok Ed. apply Forall_app in Hlive as [Hl1 [Hl Hl2]%Forall_cons].
  unfold live_blocks in *. rewrite fmap_app, fmap_cons in Hok. simpl in Hok.
  rewrite <-(assoc_L (++)), <-app_comm_cons, <-Permutation_middle, (assoc_L (++)),
    <-fmap_app in Hok.
  destruct (dealloc_done s _ rs l ptr Hrep Hok (proj1 Hl)) as (s1 & E & Hrep1).
  rewrite E in Ed. injection Ed as <-.
  exists s1, ((ptr, block_size l) :: rs). split_and!; [done|done|by apply Forall_app|].
  simpl. by rewrite <-Permutation_middle.
Qed.

Lemma heap_inv_step (h h' : heap L) : heap_inv h → heap_step h h' → heap_inv h'.
Proof.
  intros (s & rs & Ea & Hrep & Hlive & Hok) Hstep. destruct Hstep; simpl in *; subst.
  - by eapply heap_inv_alloc.
  - by eapply heap_inv_dealloc.
  - injection Ea as -> <-. exists (mkAllocator hd m'), rs. split_and!; [done| |done..].
    by eapply (client_write_represents (mkAllocator hd m)).
Qed.

Lemma heap_reachable_inv (h : heap L) : heap_reachable h → heap_inv h.
Proof.
  intros (h0 & Hboot & Hsteps). apply heap_inv_boot in Hboot.
  induction Hsteps; eauto using heap_inv_step.
Qed.

End invariant.

(** The bytes a client asked for are part of its block. *)
Lemma pairwise_sub_blocks live :
  Forall live_ok live → pairwise disjoint_blocks (live_blocks live) →
  pairwise disjoint_blocks ((λ x, (x.1, layout_size x.2)) <$> live).
Proof.
  induction live as [|x live IH]; simpl; [done|].
  intros [[[Hx _] _] Hlive]%Forall_cons [Hd Hp]. split; [|by apply IH].
  pose proof (block_size_spec _ Hx) as (? & _ & _).
  unfold live_blocks in Hd. rewrite Forall_fmap in Hd. rewrite Forall_fmap.
  eapply Forall_impl; [apply Forall_and; split; [exact Hlive|exact Hd]|].
  intros y [[[Hy _] _] Hdy]. pose proof (block_size_spec _ Hy) as (? & _ & _).
  unfold disjoint_blocks in *; simpl in *. lia.
Qed.

(** The front block fits the request it was made for. *)
Lemma FreeList_realloc sz al p rs :
  power_of_two al → (al | p) → FreeList.alloc sz al (FreeList.dealloc p sz rs) = (p, rs).
Proof.
  intros Hp%power_of_two_pos Hd. unfold FreeList.alloc, FreeList.dealloc; simpl.
  unfold FreeList.fits; simpl. rewrite round_up_id by done.
  rewrite decide_True by lia. simpl. by rewrite decide_False by lia.
Qed.

(** ** What the heap guarantees *)

Section guarantees.
Context `{BuildProfile} {L : Type} `{RawLockLaws L}.

(** The invariant in terms of what the clients asked for. *)
Lemma heap_inv_live (h : heap L) :
  heap_inv h →
  pairwise disjoint_blocks ((λ x, (x.1, layout_size x.2)) <$> heap_live h) ∧
  Forall (λ x, (layout_align x.2 | x.1) ∧ HEAP_START ≤ x.1 ∧
               x.1 + layout_size x.2 ≤ HEAP_END) (heap_live h).
Proof.
  intros (s & rs & _ & _ & Hlive & Hok).
  apply blocks_ok_app_inv in Hok as [[Hok Hd] _]. split.
  - eapply pairwise_sub_blocks; [exact Hlive|exact Hd].
  - unfold live_blocks in Hok. rewrite Forall_fmap in Hok.
    eapply Forall_impl; [apply Forall_and; split; [exact Hlive|exact Hok]|].
    intros [p l] [[[Hl _] Ha] (_ & _ & ? & ?)]; simpl in *.
    pose proof (block_size_spec l Hl) as (? & _ & _).
    split_and!; [|lia..]. etransitivity; [|exact Ha].
    apply divide_power_of_two; [apply Hl|by apply block_align_pow2|].
    unfold block_align. lia.
Qed.

(** C2: whatever sequence of allocations, frees and client writes the kernel
    performs, the allocations that clients hold are aligned as requested, lie inside the
    heap, and no two of them share a byte. *)
Theorem heap_safe (h : heap L) :
  heap_reachable h →
  pairwise disjoint_blocks ((λ x, (x.1, layout_size x.2)) <$> heap_live h) ∧
  Forall (λ x, (layout_align x.2 | x.1) ∧ HEAP_START ≤ x.1 ∧
               x.1 + layout_size x.2 ≤ HEAP_END) (heap_live h).
Proof. intros Hh%heap_reachable_inv. by apply heap_inv_live. Qed.

(** C25: in every reachable heap an allocation request for a valid layout, aligned to at most
    2^31 bytes and with a size that can be rounded up to that alignment, returns (it never
    panics, loops or follows a dead node), and the block it returns, if any, is aligned,
    inside the heap and disjoint from every live allocation.  (Alignments above that are
    [overaligned_request_corrupts_heap] below.) *)
Theorem heap_alloc_total (h : heap L) l :
  heap_reachable h → layout_served l → layout_size l ≤ isize_max + 1 - block_align l →
  ∃ ptr s', GlobalAlloc_alloc l (heap_alloc h) = (Done ptr, s') ∧
    (ptr = 0 ∨
     (layout_align l | ptr) ∧ HEAP_START ≤ ptr ∧ ptr + layout_size l ≤ HEAP_END ∧
     Forall (λ x, disjoint_blocks (ptr, layout_size l) (x.1, layout_size x.2))
       (heap_live h)).
Proof.
  intros Hreach Hl Hsz. pose proof Hreach as (s & rs & Ea & Hrep & _ & Hok)%heap_reachable_inv.
  destruct (alloc_done s _ rs l Hrep Hok Hl Hsz) as (s1 & E & _). rewrite <-Ea in E.
  eexists _, _. split; [exact E|].
  set (ptr := (FreeList.alloc _ _ rs).1) in *.
  destruct (decide (ptr = 0)) as [|Hnz]; [by left|right].
  destruct (heap_inv_live (Heap (Locked lock_free s1) ((ptr, l) :: heap_live h)))
    as [[Hd _] [(? & ? & ?) _]%Forall_cons].
  - apply heap_reachable_inv. destruct Hreach as (h0 & Hboot & Hsteps). exists h0. split; [done|].
    eapply rtc_r; [exact Hsteps|]. destruct h as [sh live]; simpl in *.
    pose proof (step_alloc l ptr sh _ live Hl E) as Hstep.
    by rewrite decide_False in Hstep.
  - split_and!; [done..|]. by rewrite Forall_fmap in Hd.
Qed.

(** Freeing an allocation that the heap handed out always succeeds, whatever
    clients wrote into their blocks meanwhile: the assertions of [add_free_region] hold. *)
Theorem heap_dealloc_total (h : heap L) ptr l :
  heap_reachable h → (ptr, l) ∈ heap_live h →
  ∃ s', GlobalAlloc_dealloc ptr l (heap_alloc h) = (Done (), s').
Proof.
  intros (s & rs & Ea & Hrep & Hlive & Hok)%heap_reachable_inv
    (live1 & live2 & El)%list_elem_of_split.
  rewrite El in Hlive, Hok. apply Forall_app in Hlive as [_ [[Hl _] _]%Forall_cons].
  unfold live_blocks in Hok. rewrite fmap_app, fmap_cons in Hok. simpl in Hok, Hl.
  rewrite <-(assoc_L (++)), <-app_comm_cons, <-Permutation_middle, (assoc_L (++)) in Hok.
  destruct (dealloc_done s _ rs l ptr Hrep Hok Hl) as (s1 & E & _).
  rewrite Ea. eauto.
Qed.

(** C12: [GlobalAlloc::alloc] on the node store computes first fit on the free list:
    the null pointer exactly when no free block fits, otherwise the first block that
    fits, whose rest goes to the front of the list.  The lock is released. *)
Theorem alloc_refines_first_fit s rs l :
  represents s rs → blocks_ok HEAP_START HEAP_END rs →
  layout_served l → layout_size l ≤ isize_max + 1 - block_align l →
  ∃ s', GlobalAlloc_alloc l (Locked (L := L) lock_free s) =
          (Done (FreeList.alloc (block_size l) (block_align l) rs).1, Locked lock_free s') ∧
        represents s' (FreeList.alloc (block_size l) (block_align l) rs).2.
Proof. intros ? Hok. by apply (alloc_done s [] rs l). Qed.

(** [GlobalAlloc::dealloc] puts the block at the front of the free list, without
    merging it with its neighbours. *)
Theorem dealloc_refines_push s rs l ptr :
  represents s rs → blocks_ok HEAP_START HEAP_END ((ptr, block_size l) :: rs) →
  layout_served l →
  ∃ s', GlobalAlloc_dealloc ptr l (Locked (L := L) lock_free s) =
          (Done (), Locked lock_free s') ∧
        represents s' (FreeList.dealloc ptr (block_size l) rs).
Proof. intros ? Hok. by apply (dealloc_done s [] rs l ptr). Qed.

(** C26: freeing a block and asking for the same layout again gives the same block
    back and the same free list. *)
Theorem alloc_dealloc_alloc s rs l ptr s1 :
  represents s rs → blocks_ok HEAP_START HEAP_END rs →
  layout_served l →
  GlobalAlloc_alloc l (Locked (L := L) lock_free s) = (Done ptr, s1) → ptr ≠ 0 →
  ∃ s2 s3 s4 rs', GlobalAlloc_dealloc ptr l s1 = (Done (), s2) ∧
    GlobalAlloc_alloc l s2 = (Done ptr, s3) ∧
    s1 = Locked lock_free s4 ∧ represents s4 rs' ∧
    ∃ s5, s3 = Locked lock_free s5 ∧ represents s5 rs'.
Proof.
  intros Hrep Hok Hl Ea Hnz.
  destruct (decide (layout_size l ≤ isize_max + 1 - block_align l)) as [Hsz|Hsz].
  2:{ rewrite alloc_too_large in Ea by lia. done. }
  destruct (alloc_done s [] rs l Hrep Hok Hl Hsz) as (s4 & E & Hrep4).
  rewrite E in Ea. injection Ea as Hp <-.
  pose proof (block_align_pow2 l (proj1 Hl)) as Hp2.
  pose proof (block_size_spec l (proj1 Hl)) as (_ & ? & ?).
  pose proof (FreeList_alloc_ok HEAP_START HEAP_END (block_size l) (block_align l) [] rs
    heap_start_pos Hp2 (block_align_divide l (proj1 Hl)) ltac:(done) ltac:(done) Hok) as Hnew.
  destruct (FreeList.alloc (block_size l) (block_align l) rs) as [p rs']; simpl in *; subst p.
  destruct Hnew as [[? _]|(_ & Hdiv & Hok')]; [done|].
  destruct (dealloc_done s4 [] rs' l ptr Hrep4 Hok' Hl) as (s5 & E5 & Hrep5).
  destruct (alloc_done s5 [] _ l Hrep5 Hok' Hl Hsz) as (s6 & E6 & Hrep6).
  rewrite FreeList_realloc in E6, Hrep6 by done.
  eexists _, _, s4, rs'. split_and!; [exact E5|exact E6|done..|]. by exists s6.
Qed.

(** A request whose size, rounded up to its alignment, exceeds [isize::MAX] is
    not refused with a null pointer: [size_align] panics before the lock is taken. *)
Theorem alloc_oversized_panics l s :
  layout_ok l → isize_max + 1 - align_of_ListNode < layout_size l →
  layout_align l < align_of_ListNode →
  GlobalAlloc_alloc l s = (Panic "adjusting alignment failed", s : locked L _).
Proof.
  intros Hl Hsz Hal. apply alloc_too_large. unfold block_align.
  rewrite Z.max_r by lia. done.
Qed.

End guarantees.

(** The bytes between the start of the chosen free block and the aligned start
    of the allocation are lost: no later free returns them. *)
Theorem alloc_gap_lost lo hi sz al rs pre r s post :
  0 < lo → blocks_ok lo hi rs → power_of_two al →
  FreeList.take_fit sz al rs = Some (pre, r, s, post) →
  let '(ptr, rs') := FreeList.alloc sz al rs in
  ptr = s ∧ r.1 ≤ ptr < r.1 + al ∧
  total_bytes (FreeList.dealloc ptr sz rs') = total_bytes rs - (ptr - r.1) ∧
  (al = align_of_ListNode → ptr = r.1).
Proof.
  intros Hlo Hok Hp E. pose proof (FreeList_alloc_bytes _ _ _ _ _ _ _ E Hp) as Hbytes.
  unfold FreeList.alloc in *. rewrite E in *. simpl in *.
  apply take_fit_some in E as (-> & Hf & _).
  pose proof (fits_some _ _ _ _ Hp Hf) as (? & ? & ? & _).
  split_and!; [done..|unfold total_bytes in *; simpl in *; lia|].
  intros ->. clear Hbytes. unfold FreeList.fits in Hf. case_decide; simplify_eq.
  apply round_up_id; [done|]. destruct Hok as [Hok _].
  apply Forall_app in Hok as [_ [(? & _) _]%Forall_cons]. done.
Qed.

(** ** Concrete runs *)

#[local] Existing Instance debug_profile.
#[local] Existing Instance bit_lock.
#[local] Existing Instance bit_lock_laws.

Definition booted (p : BuildProfile) : locked bool LinkedListAllocator :=
  (with_lock (init (H := p) HEAP_START HEAP_SIZE) (Locked false LinkedListAllocator_new)).2.

Definition small_layout : Layout := mkLayout 100 8.
Definition page_layout : Layout := mkLayout 4096 4096.

(** A heap from which 100 bytes and then a page were allocated. *)
Definition demo_heap : heap bool :=
  let s1 := (GlobalAlloc_alloc small_layout (booted debug_profile)).2 in
  let s2 := (GlobalAlloc_alloc page_layout s1).2 in
  Heap s2 [(HEAP_START + 4096, page_layout); (HEAP_START, small_layout)].

Lemma small_layout_served : layout_served small_layout.
Proof. split; [split; [by exists 3|by vm_compute]|by vm_compute]. Qed.

Lemma page_layout_served : layout_served page_layout.
Proof. split; [split; [by exists 12|by vm_compute]|by vm_compute]. Qed.

Lemma step_alloc_run l ptr (a : locked bool LinkedListAllocator) live :
  layout_served l → (GlobalAlloc_alloc l a).1 = Done ptr → ptr ≠ 0 →
  heap_step (Heap a live) (Heap (GlobalAlloc_alloc l a).2 ((ptr, l) :: live)).
Proof.
  intros Hl E Hnz.
  pose proof (step_alloc l ptr a (GlobalAlloc_alloc l a).2 live Hl) as Hs.
  rewrite decide_False in Hs by done. apply Hs. rewrite <-E. by destruct GlobalAlloc_alloc.
Qed.

Lemma demo_reachable : heap_reachable demo_heap.
Proof.
  exists (Heap (booted debug_profile) []). split; [by vm_compute|].
  eapply rtc_l; [apply (step_alloc_run small_layout HEAP_START);
    [apply small_layout_served|by vm_compute|done]|].
  eapply rtc_l; [apply (step_alloc_run page_layout (HEAP_START + 4096));
    [apply page_layout_served|by vm_compute|done]|].
  apply rtc_refl.
Qed.

Lemma heap_safe_witness :
  heap_reachable demo_heap ∧
  pairwise disjoint_blocks ((λ x, (x.1, layout_size x.2)) <$> heap_live demo_heap).
Proof. split; [apply demo_reachable|]. apply (heap_safe demo_heap demo_reachable). Defined.

Lemma heap_alloc_total_witness :
  ∃ ptr s', GlobalAlloc_alloc page_layout (heap_alloc demo_heap) = (Done ptr, s') ∧
            ptr = HEAP_START + 8192.
Proof.
  destruct (heap_alloc_total demo_heap page_layout demo_reachable page_layout_served)
    as (ptr & s' & E & _); [by vm_compute|].
  exists ptr, s'. split; [exact E|].
  apply (f_equal fst) in E. vm_compute in E. by injection E as <-.
Defined.

Lemma heap_dealloc_total_witness :
  ∃ s', GlobalAlloc_dealloc HEAP_START small_layout (heap_alloc demo_heap) = (Done (), s').
Proof.
  apply (heap_dealloc_total demo_heap HEAP_START small_layout demo_reachable).
  apply list_elem_of_further, list_elem_of_here.
Defined.

(** The heap as one free block. *)
Definition one_block : LinkedListAllocator :=
  mkAllocator (mkNode 0 (Some HEAP_START)) {[HEAP_START := mkNode HEAP_SIZE None]}.

Lemma one_block_represents : represents one_block [(HEAP_START, HEAP_SIZE)].
Proof. split; [done|]. exists None. by split. Qed.

Lemma one_block_ok : blocks_ok HEAP_START HEAP_END [(HEAP_START, HEAP_SIZE)].
Proof. by_decide. Qed.

Lemma alloc_refines_first_fit_witness :
  ∃ s', GlobalAlloc_alloc small_layout (Locked false one_block) =
          (Done HEAP_START, Locked false s') ∧
        represents s' [(HEAP_START + 104, HEAP_SIZE - 104)].
Proof.
  destruct (alloc_refines_first_fit (L := bool) one_block [(HEAP_START, HEAP_SIZE)]
    small_layout one_block_represents one_block_ok small_layout_served)
    as (s' & E & Hrep); [by vm_compute|].
  exists s'. split; [vm_compute; vm_compute in E; exact E|].
  vm_compute; vm_compute in Hrep; exact Hrep.
Defined.

(** The heap after a first allocation of 104 bytes. *)
Definition tail_block : LinkedListAllocator :=
  mkAllocator (mkNode 0 (Some (HEAP_START + 104)))
    {[HEAP_START + 104 := mkNode (HEAP_SIZE - 104) None]}.

Lemma dealloc_refines_push_witness :
  ∃ s', GlobalAlloc_dealloc HEAP_START small_layout (Locked false tail_block) =
          (Done (), Locked false s') ∧
        represents s' [(HEAP_START, 104); (HEAP_START + 104, HEAP_SIZE - 104)].
Proof.
  refine (dealloc_refines_push (L := bool) tail_block [(HEAP_START + 104, HEAP_SIZE - 104)]
    small_layout HEAP_START _ _ _).
  - split; [done|]. exists None. by split.
  - by_decide.
  - apply small_layout_served.
Defined.

Lemma alloc_dealloc_alloc_witness :
  ∃ s1 s2 s3, GlobalAlloc_alloc page_layout (Locked false one_block) =
                (Done (HEAP_START + 0), s1) ∧
    GlobalAlloc_dealloc (HEAP_START + 0) page_layout s1 = (Done (), s2) ∧
    GlobalAlloc_alloc page_layout s2 = (Done (HEAP_START + 0), s3).
Proof.
  assert (GlobalAlloc_alloc page_layout (Locked false one_block) =
    (Done (HEAP_START + 0), (GlobalAlloc_alloc page_layout (Locked false one_block)).2)) as E
    by (by vm_compute).
  destruct (alloc_dealloc_alloc (L := bool) one_block _ page_layout _ _
    one_block_represents one_block_ok page_layout_served E) as (s2 & s3 & _ & _ & E2 & E3 & _);
    [done|].
  eexists _, s2, s3. split_and!; [exact E|exact E2|exact E3].
Defined.

Lemma alloc_oversized_panics_witness :
  GlobalAlloc_alloc (mkLayout isize_max 1) (booted debug_profile) =
    (Panic "adjusting alignment failed", booted debug_profile).
Proof.
  apply (alloc_oversized_panics (L := bool) (mkLayout isize_max 1)).
  - split; [by exists 0|by vm_compute].
  - by vm_compute.
  - by vm_compute.
Defined.

Lemma alloc_gap_lost_witness :
  total_bytes (FreeList.dealloc (HEAP_START + 4096) 4096
    (FreeList.alloc 4096 4096 [(HEAP_START + 104, HEAP_SIZE - 104)]).2) =
  HEAP_SIZE - 104 - 3992.
Proof.
  refine (proj1 (proj2 (proj2 (alloc_gap_lost HEAP_START HEAP_END 4096 4096
    [(HEAP_START + 104, HEAP_SIZE - 104)] [] _ (HEAP_START + 4096) []
    heap_start_pos _ _ eq_refl)))).
  - by_decide.
  - by exists 12.
Defined.

(** Rounding up is not checked for overflow.  For a valid layout aligned to 2^32, a
    debug build panics; a release build wraps around, places the allocation at address 0
    and puts everything from address 2^32 to the end of the heap on the free list, so
    that the next allocation returns address 2^32, far outside the heap. *)
Theorem overaligned_request_corrupts_heap :
  let l := mkLayout 16 (2 ^ 32) in
  layout_ok l ∧
  (GlobalAlloc_alloc (H := debug_profile) l (booted debug_profile)).1 =
    Panic "attempt to add with overflow" ∧
  let '(o, s) := GlobalAlloc_alloc (H := release_profile) l (booted release_profile) in
  o = Done 0 ∧
  represents (lk_data s) [(2 ^ 32, HEAP_END - 2 ^ 32)] ∧
  (GlobalAlloc_alloc (H := release_profile) (mkLayout 64 8) s).1 = Done (2 ^ 32).
Proof.
  split; [split; [by exists 32|by vm_compute]|].
  split; [by vm_compute|].
  destruct (GlobalAlloc_alloc (H := release_profile) _ _) as [o s] eqn:E.
  vm_compute in E. injection E as <- <-.
  split; [done|]. split; [|by vm_compute].
  split; [done|]. exists None. by split.
Qed.

(** Free blocks are never merged: after one allocation is made and freed, the whole
    heap is free again, but a request for the whole heap that the fresh heap serves
    is refused. *)
Theorem freed_heap_is_fragmented :
  let whole := mkLayout HEAP_SIZE 8 in
  (GlobalAlloc_alloc whole (booted debug_profile)).1 = Done HEAP_START ∧
  let s1 := (GlobalAlloc_alloc small_layout (booted debug_profile)).2 in
  let s2 := (GlobalAlloc_dealloc HEAP_START small_layout s1).2 in
  ∃ rs, represents (lk_data s2) rs ∧ total_bytes rs = HEAP_SIZE ∧
    (GlobalAlloc_alloc whole s2).1 = Done 0.
Proof.
  split; [by vm_compute|].
  exists [(HEAP_START, 104); (HEAP_START + 104, HEAP_SIZE - 104)].
  split; [|by vm_compute].
  split; [done|]. eexists. split; [by vm_compute|].
  split; [done|]. exists None. by split.
Qed.
