(* ===== verification/FrameSource.v ===== *)
(** * What a physical frame allocator promises to the code that maps pages.

    [FrameSource] gives the abstract state of an allocator: the frames it manages and
    those it has handed out.  [FrameSourceLaws] is its contract.  Both allocators of
    kernel/src/memory.rs keep it (FramesSpec.v); the page mapper and the kernel's mapping
    loop (Mapping.v) are verified against the contract alone. *)

From S2P Require Import Prelude Crates.

Class FrameSource (FA : Type) `{FrameAllocator FA} : Type := {
  fs_ok : FA → Prop;
  fs_pool : FA → gset Z;
  fs_taken : FA → gset Z;
}.

(** What one call does, seen from outside. *)
Definition frame_handed_out {FA} `{FrameSource FA} (fa : FA) (o : option Z) (fa' : FA) : Prop :=
  fs_ok fa' ∧ fs_pool fa' = fs_pool fa ∧
  match o with
  | Some f => f ∈ fs_pool fa ∧ (f ∉ fs_taken fa) ∧ fs_taken fa' = {[f]} ∪ fs_taken fa
  | None => fs_taken fa' = fs_taken fa ∧ fs_pool fa ⊆ fs_taken fa
  end.

Class FrameSourceLaws (FA : Type) `{FrameSource FA} : Prop := {
  allocate_frame_spec : ∀ fa : FA, fs_ok fa →
    ∃ o fa', allocate_frame fa = (Done o, fa') ∧ frame_handed_out fa o fa';
}.

(** ** Several allocations *)

(** [fa'] is reached from [fa] by handing out the frames [l], in order. *)
Inductive frames_handed_out {FA} `{FrameSource FA} : FA → list Z → FA → Prop :=
  | handed_nil fa : frames_handed_out fa [] fa
  | handed_some fa f fa' l fa'' :
      frame_handed_out fa (Some f) fa' → frames_handed_out fa' l fa'' →
      frames_handed_out fa (f :: l) fa''
  | handed_none fa fa' l fa'' :
      frame_handed_out fa None fa' → frames_handed_out fa' l fa'' →
      frames_handed_out fa l fa''.

Section source.
Context {FA : Type} `{FrameSource FA}.
Implicit Types fa : FA.

Lemma frames_handed_out_app fa l1 fa' l2 fa'' :
  frames_handed_out fa l1 fa' → frames_handed_out fa' l2 fa'' →
  frames_handed_out fa (l1 ++ l2) fa''.
Proof. induction 1; intros; simpl; eauto using frames_handed_out. Qed.

Lemma frames_handed_out_spec fa l fa' :
  frames_handed_out fa l fa' → fs_ok fa →
  fs_ok fa' ∧ fs_pool fa' = fs_pool fa ∧ NoDup l ∧
  fs_taken fa' = list_to_set l ∪ fs_taken fa ∧
  (∀ f, f ∈ l → f ∈ fs_pool fa ∧ f ∉ fs_taken fa).
Proof.
  induction 1 as [fa|fa f fa' l fa'' (Hok & Hp & Hf & Hnew & Ht) _ IH
                 |fa fa' l fa'' (Hok & Hp & Ht & _) _ IH]; intros Hfa.
  - split_and!; [done|done|constructor|set_solver|by intros f ?%not_elem_of_nil].
  - destruct (IH Hok) as (? & Hp' & Hnd & Ht' & Hl).
    split_and!; [done|congruence| |rewrite Ht', Ht; set_solver|].
    + constructor; [|done]. intros Hin%Hl. rewrite Ht in Hin. set_solver.
    + intros g [->|Hg%Hl]%elem_of_cons; [done|]. rewrite Hp, Ht in Hg. set_solver.
  - destruct (IH Hok) as (? & Hp' & Hnd & Ht' & Hl).
    split_and!; [done|congruence|done|by rewrite Ht', Ht|].
    intros g Hg%Hl. by rewrite Hp, Ht in Hg.
Qed.

End source.
