(* ===== verification/Frames.v ===== *)
(** * Physical frames: the two allocators of kernel/src/memory.rs.

    [BootInfoFrameAllocator] walks the memory map of the bootloader; [BitmapAllocator]
    takes over from it once the heap exists and can take frames back. *)

From S2P Require Import Prelude Crates CrateModels FrameSource.

Local Open Scope Z_scope.

(** ** Iterators of frames *)

(** [(s..e).step_by(n)] *)
Definition step_by (s e n : Z) : list Z :=
  (λ i, s + n * i) <$> seqZ 0 ((e - s + n - 1) / n).

(** The iterators are lazy: each element is computed when it is reached, and computing it
    may panic. *)
Fixpoint iter_nth {A} (l : list (outcome A)) (n : nat) : outcome (option A) :=
  match l with
  | [] => Done None
  | o :: l' =>
      x ← o;
      match n with
      | O => Done (Some x)
      | S n' => iter_nth l' n'
      end
  end.

Fixpoint iter_count {A} (l : list (outcome A)) : outcome nat :=
  match l with
  | [] => Done 0%nat
  | o :: l' => o;; n ← iter_count l'; Done (S n)
  end.

(** [.enumerate().find_map(|(i, cmp)| (cmp == x).then_some(i))] *)
Fixpoint iter_position (x : Z) (l : list (outcome Z)) : outcome (option nat) :=
  match l with
  | [] => Done None
  | o :: l' =>
      y ← o;
      if decide (y = x) then Done (Some 0%nat)
      else
        i ← iter_position x l';
        Done (option_map S i)
  end.

(** ** The allocators *)

Section allocators.
Context {K : Type} `{RegionKind K} `{X86Addr}.

Definition frame_addresses (memory_map : list (MemoryRegion K)) : list Z :=
  r ← filter (λ r, mr_kind r = Usable) memory_map;
  step_by (mr_start r) (mr_end r) 4096.

(** [PhysFrame::containing_address(PhysAddr::new(addr))] *)
Definition frame_at (addr : Z) : outcome Z :=
  a ← PhysAddr_new addr;
  Done (PhysFrame_containing_address a).

(** [usable_frames] of both allocators. *)
Definition usable_frames (memory_map : list (MemoryRegion K)) : list (outcome Z) :=
  frame_at <$> frame_addresses memory_map.

Record BootInfoFrameAllocator := mkBoot {
  boot_memory_map : list (MemoryRegion K);
  boot_next : nat;
}.

Definition BootInfoFrameAllocator_init (memory_map : list (MemoryRegion K)) :
    BootInfoFrameAllocator :=
  mkBoot memory_map 0.

Definition frames (fa : BootInfoFrameAllocator) : outcome nat :=
  iter_count (usable_frames (boot_memory_map fa)).

Definition boot_allocate_frame : M BootInfoFrameAllocator (option Z) :=
  fa ← get_state;
  frame ← liftO (iter_nth (usable_frames (boot_memory_map fa)) (boot_next fa));
  put_state (mkBoot (boot_memory_map fa) (S (boot_next fa)));;
  mret frame.

Definition boot_deallocate_frame (frame : Z) : M BootInfoFrameAllocator () :=
  panic "Cant deallocate frame using this allocator".

Context {V : Type} `{BitVecApi V}.

Record BitmapAllocator := mkBitmap {
  bitmap_memory_map : list (MemoryRegion K);
  bitmap : V;
}.

(** [for i in 0..next { bitvec.set(i, true) }] from [i] on, [n] more times *)
Fixpoint set_first (i n : nat) (v : V) : outcome V :=
  match n with
  | O => Done v
  | S n' => v' ← bv_set i true v; set_first (S i) n' v'
  end.

(** The record that the hand-over writes. *)
Definition bitmap_message (bitmap_len : nat) : string :=
  "creating bitmap allocator with " +:+ format_x (Z.of_nat bitmap_len) +:+ " frames".

(** From the bit vector on. *)
Definition take_over (old : BootInfoFrameAllocator) (bitmap_len : nat) : outcome BitmapAllocator :=
  v ← set_first 0 (boot_next old) (bv_repeat false bitmap_len);
  Done (mkBitmap (boot_memory_map old) v).

(** [info] is [log::info!], on whatever state it works. *)
Definition BitmapAllocator_init {S} (info : string → M S ()) (old : BootInfoFrameAllocator) :
    M S BitmapAllocator :=
  bitmap_len ← liftO (frames old);
  info (bitmap_message bitmap_len);;
  liftO (take_over old bitmap_len).

Definition bitmap_allocate_frame : M BitmapAllocator (option Z) :=
  fa ← get_state;
  match bv_first_zero (bitmap fa) with
  | None => mret None
  | Some index =>
      v ← liftO (bv_set index true (bitmap fa));
      put_state (mkBitmap (bitmap_memory_map fa) v);;
      liftO (iter_nth (usable_frames (bitmap_memory_map fa)) index)
  end.

Definition bitmap_deallocate_frame (frame : Z) : M BitmapAllocator () :=
  fa ← get_state;
  o ← liftO (iter_position frame (usable_frames (bitmap_memory_map fa)));
  index ← liftO (expect "Frame not in memory_map" o);
  v ← liftO (bv_set index false (bitmap fa));
  put_state (mkBitmap (bitmap_memory_map fa) v).

#[export] Instance boot_frame_allocator : FrameAllocator BootInfoFrameAllocator :=
  boot_allocate_frame.
#[export] Instance bitmap_frame_allocator : FrameAllocator BitmapAllocator :=
  bitmap_allocate_frame.

End allocators.
Arguments BootInfoFrameAllocator K : clear implicits.
Arguments BitmapAllocator K V : clear implicits.
