(* ===== verification/FramesSpec.v ===== *)
(** * Both frame allocators keep the contract of [FrameSource.v].

    On a memory map whose usable regions are made of whole pages below the physical
    address limit and do not overlap, no iterator panics, every frame number names one
    frame, and the frames handed out are always new ones. *)

From S2P Require Import Prelude Crates CrateModels FrameSource Frames.

Local Open Scope Z_scope.

(** ** Iterators whose elements all compute *)

Lemma iter_nth_done {A} (l : list A) n : iter_nth (Done <$> l) n = Done (l !! n).
Proof. revert n. induction l as [|x l IH]; intros [|n]; csimpl; by rewrite ?IH. Qed.

Lemma iter_count_done {A} (l : list A) : iter_count (Done <$> l) = Done (length l).
Proof. induction l as [|x l IH]; [done|]. csimpl. by rewrite IH. Qed.

Lemma iter_position_some x (l : list Z) i :
  NoDup l → l !! i = Some x → iter_position x (Done <$> l) = Done (Some i).
Proof.
  revert i. induction l as [|y l IH]; intros i Hnd Hi; [done|].
  apply NoDup_cons in Hnd as [Hy Hnd]. csimpl. destruct i as [|i]; simpl in Hi.
  - injection Hi as ->. by rewrite decide_True.
  - apply list_elem_of_lookup_2 in Hi as Hx. rewrite decide_False by (intros ->; done).
    by rewrite (IH i).
Qed.

Lemma iter_position_none x (l : list Z) :
  x ∉ l → iter_position x (Done <$> l) = Done None.
Proof.
  induction l as [|y l IH]; intros Hx; csimpl; [done|].
  apply not_elem_of_cons in Hx as [? Hx]. rewrite decide_False by done. by rewrite IH.
Qed.

Lemma elem_of_step_by s e n a :
  0 < n → a ∈ step_by s e n ↔ ∃ i, a = s + n * i ∧ 0 ≤ i ∧ a < e.
Proof.
  intros Hn. unfold step_by. rewrite list_elem_of_fmap. setoid_rewrite elem_of_seqZ.
  split; intros (i & -> & Hi); exists i.
  - split_and!; [done|lia|]. destruct Hi as [_ Hi].
    assert (i + 1 ≤ (e - s + n - 1) / n) as Hle by lia.
    pose proof (Z.mul_div_le (e - s + n - 1) n Hn). nia.
  - split; [done|]. split; [lia|]. destruct Hi as [? Hi].
    assert (i + 1 ≤ (e - s + n - 1) / n); [|lia].
    apply Z.div_le_lower_bound; lia.
Qed.

Lemma step_by_nodup s e n : 0 < n → NoDup (step_by s e n).
Proof.
  intros Hn. unfold step_by. apply NoDup_fmap_2; [|apply NoDup_seqZ].
  intros i j Hij. nia.
Qed.

(** ** Memory maps *)

Section memory_map.
Context {K : Type} `{RegionKind K}.

(** A usable region made of whole pages. *)
Definition region_ok (r : MemoryRegion K) : Prop :=
  (page_size | mr_start r) ∧ (page_size | mr_end r) ∧
  0 ≤ mr_start r ≤ mr_end r ∧ mr_end r ≤ 2 ^ 52.

Definition region_block (r : MemoryRegion K) : Z * Z := (mr_start r, mr_end r - mr_start r).

Definition usable_regions (mm : list (MemoryRegion K)) : list (MemoryRegion K) :=
  filter (λ r, mr_kind r = Usable) mm.

Definition memory_map_ok (mm : list (MemoryRegion K)) : Prop :=
  Forall region_ok (usable_regions mm) ∧
  pairwise disjoint_blocks (region_block <$> usable_regions mm).

Lemma elem_of_frame_addresses mm a :
  memory_map_ok mm →
  a ∈ frame_addresses mm ↔
  (page_size | a) ∧ ∃ r, r ∈ usable_regions mm ∧ mr_start r ≤ a ∧ a + page_size ≤ mr_end r.
Proof.
  intros [Hok _]. unfold frame_addresses. rewrite list_elem_of_bind. fold (usable_regions mm).
  rewrite Forall_forall in Hok. unfold page_size in *. split.
  - intros (r & Ha & Hr). destruct (Hok r Hr) as (Hs & He & ? & ?).
    apply elem_of_step_by in Ha as (i & -> & ? & ?); [|lia].
    unfold page_size in *. destruct Hs as [s Hs], He as [e He].
    split; [exists (s + i); lia|]. exists r. split_and!; [done|lia..].
  - intros ([q ->] & r & Hr & ? & ?). exists r. split; [|done].
    destruct (Hok r Hr) as ([s Hs] & _ & ? & ?). unfold page_size in *.
    apply elem_of_step_by; [lia|]. exists (q - s). lia.
Qed.

Lemma frame_addresses_range mm a :
  memory_map_ok mm → a ∈ frame_addresses mm → 0 ≤ a ∧ a + page_size ≤ 2 ^ 52.
Proof.
  intros Hmm [_ (r & Hr & ? & ?)]%elem_of_frame_addresses; [|done].
  destruct Hmm as [Hok _]. rewrite Forall_forall in Hok.
  destruct (Hok r Hr) as (_ & _ & ? & ?). lia.
Qed.

Lemma frame_addresses_nodup mm : memory_map_ok mm → NoDup (frame_addresses mm).
Proof.
  intros [Hok Hd]. unfold frame_addresses. fold (usable_regions mm).
  induction (usable_regions mm) as [|r rs IH]; [constructor|].
  apply Forall_cons in Hok as [Hr Hok]. destruct Hd as [Hdr Hd]. rewrite bind_cons.
  apply NoDup_app. split_and!; [by apply step_by_nodup| |by apply IH].
  intros a Ha (r' & Ha' & Hr')%list_elem_of_bind.
  apply elem_of_step_by in Ha as (i & -> & ? & ?); [|done].
  apply elem_of_step_by in Ha' as (j & ? & ? & ?); [|done].
  rewrite Forall_fmap, Forall_forall in Hdr. specialize (Hdr _ Hr').
  unfold disjoint_blocks, region_block in Hdr; simpl in Hdr. lia.
Qed.

Lemma usable_frames_done `{X86AddrLaws} (mm : list (MemoryRegion K)) :
  memory_map_ok mm → usable_frames mm = Done <$> frame_addresses mm.
Proof.
  intros Hmm. unfold usable_frames. apply list_fmap_ext. intros i a Ha; simpl.
  apply list_elem_of_lookup_2 in Ha.
  pose proof (frame_addresses_range _ _ Hmm Ha) as [? ?].
  apply elem_of_frame_addresses in Ha as [? _]; [|done].
  unfold frame_at, page_size in *. rewrite PhysAddr_new_valid by lia. simpl.
  rewrite PhysFrame_containing_address_spec by lia. by rewrite round_down_id.
Qed.

End memory_map.

(** ** Marked frames *)

(** The frames whose bit is set. *)
Fixpoint marked (fs : list Z) (bs : list bool) : list Z :=
  match fs, bs with
  | f :: fs', b :: bs' => (if b then [f] else []) ++ marked fs' bs'
  | _, _ => []
  end.

Lemma elem_of_marked fs bs f :
  f ∈ marked fs bs ↔ ∃ i : nat, fs !! i = Some f ∧ bs !! i = Some true.
Proof.
  revert bs. induction fs as [|g fs IH]; intros [|b bs]; simpl.
  - split; [by intros ?%not_elem_of_nil|by intros (? & ? & ?)].
  - split; [by intros ?%not_elem_of_nil|by intros (? & ? & ?)].
  - split; [by intros ?%not_elem_of_nil|by intros (? & ? & ?)].
  - rewrite elem_of_app, IH. split.
    + intros [Hf|(i & ? & ?)]; [|by exists (S i)].
      exists 0%nat. destruct b; [|by apply not_elem_of_nil in Hf].
      by apply list_elem_of_singleton in Hf as ->.
    + intros ([|i] & Hi & Hb); simplify_eq/=; [left|right; by exists i].
      by apply list_elem_of_singleton.
Qed.

Lemma marked_insert (fs : list Z) (bs : list bool) (i : nat) (f : Z) (b : bool) :
  NoDup fs → fs !! i = Some f → (i < length bs)%nat →
  list_to_set (C := gset Z) (marked fs (<[i := b]> bs)) =
    if b then {[f]} ∪ list_to_set (marked fs bs) else list_to_set (marked fs bs) ∖ {[f]}.
Proof.
  intros Hnd Hf Hi. apply set_eq. intros g.
  assert (∀ j : nat, fs !! j = Some f → j = i) as Huniq by (intros j Hj; by eapply NoDup_lookup).
  rewrite elem_of_list_to_set, elem_of_marked.
  transitivity ((b = true ∧ g = f) ∨ (g ≠ f ∧ g ∈ marked fs bs)).
  - rewrite elem_of_marked. split.
    + intros (j & Hj & Hb). destruct (decide (i = j)) as [->|Hne].
      * rewrite list_lookup_insert_eq in Hb by done. left. naive_solver.
      * rewrite list_lookup_insert_ne in Hb by done. right. split; [|by exists j].
        intros ->. by apply Hne, symmetry, Huniq.
    + intros [[-> ->]|[Hne (j & Hj & Hb)]].
      * exists i. by rewrite list_lookup_insert_eq.
      * exists j. rewrite list_lookup_insert_ne; [done|]. intros ->. naive_solver.
  - destruct b; rewrite ?elem_of_union, ?elem_of_difference, elem_of_singleton,
      elem_of_list_to_set; destruct (decide (g = f)); naive_solver.
Qed.

(** ** The boot allocator *)

Section boot.
Context {K : Type} `{RegionKind K} `{X86Addr}.

Definition boot_ok (fa : BootInfoFrameAllocator K) : Prop :=
  memory_map_ok (boot_memory_map fa).

Definition boot_taken (fa : BootInfoFrameAllocator K) : gset Z :=
  list_to_set (take (boot_next fa) (frame_addresses (boot_memory_map fa))).

#[export] Instance boot_source : FrameSource (BootInfoFrameAllocator K) := {|
  fs_ok := boot_ok;
  fs_pool fa := list_to_set (frame_addresses (boot_memory_map fa));
  fs_taken := boot_taken;
|}.

Context `{!X86AddrLaws}.

Lemma boot_allocate_done fa :
  boot_ok fa →
  boot_allocate_frame fa =
    (Done (frame_addresses (boot_memory_map fa) !! boot_next fa),
     mkBoot (boot_memory_map fa) (S (boot_next fa))).
Proof.
  intros Hok. unfold boot_allocate_frame. mred.
  rewrite usable_frames_done by done. rewrite iter_nth_done. by mred.
Qed.

#[export] Instance boot_source_laws : FrameSourceLaws (BootInfoFrameAllocator K).
Proof.
  split. intros fa Hok. unfold allocate_frame, boot_frame_allocator.
  rewrite boot_allocate_done by done. eexists _, _. split; [done|].
  split; [done|]. split; [done|]. simpl. unfold boot_taken; simpl.
  set (fs := frame_addresses (boot_memory_map fa)).
  destruct (fs !! boot_next fa) as [f|] eqn:E.
  - rewrite (take_S_r _ _ _ E). split_and!.
    + apply elem_of_list_to_set. by eapply list_elem_of_lookup_2.
    + rewrite elem_of_list_to_set. intros (j & Hj & Hlt)%elem_of_take.
      pose proof (NoDup_lookup fs _ _ _ (frame_addresses_nodup _ Hok) E Hj). lia.
    + rewrite list_to_set_app_L. set_solver.
  - apply lookup_ge_None in E. rewrite !take_ge by lia. split; [done|set_solver].
Qed.

End boot.

(** ** The bitmap allocator *)

Section bitmap.
Context {K : Type} `{RegionKind K} `{X86Addr} {V : Type} `{BitVecApi V}.

Definition bitmap_ok (fa : BitmapAllocator K V) : Prop :=
  memory_map_ok (bitmap_memory_map fa) ∧
  length (bv_bits (bitmap fa)) = length (frame_addresses (bitmap_memory_map fa)).

Definition bitmap_taken (fa : BitmapAllocator K V) : gset Z :=
  list_to_set (marked (frame_addresses (bitmap_memory_map fa)) (bv_bits (bitmap fa))).

#[export] Instance bitmap_source : FrameSource (BitmapAllocator K V) := {|
  fs_ok := bitmap_ok;
  fs_pool fa := list_to_set (frame_addresses (bitmap_memory_map fa));
  fs_taken := bitmap_taken;
|}.

Context `{!X86AddrLaws, !BitVecLaws V}.

(** The lowest frame whose bit is clear, if there is one. *)
Lemma bitmap_allocate_some fa i f :
  bitmap_ok fa → frame_addresses (bitmap_memory_map fa) !! i = Some f →
  bv_first_zero (bitmap fa) = Some i →
  ∃ v, bitmap_allocate_frame fa = (Done (Some f), mkBitmap (bitmap_memory_map fa) v) ∧
       bv_bits v = <[i := true]> (bv_bits (bitmap fa)).
Proof.
  intros [Hmm Hlen] Hf Hz. apply lookup_lt_Some in Hf as Hlt. rewrite <-Hlen in Hlt.
  destruct (bv_set_in i true (bitmap fa) Hlt) as (v & Hset & Hbits).
  exists v. split; [|done]. unfold bitmap_allocate_frame. mred. rewrite Hz, Hset. mred.
  rewrite usable_frames_done, iter_nth_done, Hf by done. done.
Qed.

Lemma bitmap_allocate_none fa :
  bv_first_zero (bitmap fa) = None → bitmap_allocate_frame fa = (Done None, fa).
Proof. intros Hz. unfold bitmap_allocate_frame. mred. by rewrite Hz. Qed.

(** The first clear bit belongs to a frame. *)
Lemma bitmap_zero_frame fa i :
  bitmap_ok fa → bv_first_zero (bitmap fa) = Some i →
  ∃ f, frame_addresses (bitmap_memory_map fa) !! i = Some f.
Proof.
  intros [_ Hlen] [Hi _]%bv_first_zero_some. apply lookup_lt_Some in Hi.
  rewrite Hlen in Hi. by apply lookup_lt_is_Some in Hi as [f ?]; exists f.
Qed.

Lemma bitmap_ok_bits fa v :
  bitmap_ok fa → length (bv_bits v) = length (bv_bits (bitmap fa)) →
  bitmap_ok (mkBitmap (bitmap_memory_map fa) v).
Proof. intros [? ?] Hv. split; simpl; [done|]. by rewrite Hv. Qed.

#[export] Instance bitmap_source_laws : FrameSourceLaws (BitmapAllocator K V).
Proof.
  split. intros fa Hok. unfold allocate_frame, bitmap_frame_allocator.
  destruct (bv_first_zero (bitmap fa)) as [i|] eqn:Hz.
  - destruct (bitmap_zero_frame fa i Hok Hz) as [f Hf].
    destruct (bitmap_allocate_some fa i f Hok Hf Hz) as (v & -> & Hbits).
    eexists _, _. split; [done|]. apply bv_first_zero_some in Hz as [Hi _].
    split; [apply bitmap_ok_bits; [done|by rewrite Hbits, length_insert]|].
    split; [done|]. simpl. unfold bitmap_taken; simpl. split_and!.
    + apply elem_of_list_to_set. by eapply list_elem_of_lookup_2.
    + rewrite elem_of_list_to_set, elem_of_marked. intros (j & Hj & Hb).
      destruct Hok as [Hmm _].
      pose proof (NoDup_lookup _ _ _ _ (frame_addresses_nodup _ Hmm) Hf Hj). naive_solver.
    + destruct Hok as [Hmm _]. rewrite Hbits.
      rewrite (marked_insert _ _ i f) by
        (by apply frame_addresses_nodup || done || by eapply lookup_lt_Some).
      done.
  - rewrite bitmap_allocate_none by done. eexists _, _. split; [done|].
    split; [done|]. split; [done|]. split; [done|]. intros f Hf; simpl in *.
    apply elem_of_list_to_set, list_elem_of_lookup in Hf as [i Hi].
    apply elem_of_list_to_set, elem_of_marked. exists i. split; [done|].
    apply bv_first_zero_none in Hz. destruct Hok as [_ Hlen].
    apply lookup_lt_Some in Hi. rewrite <-Hlen in Hi. apply lookup_lt_is_Some in Hi as [b Hb].
    rewrite Hb. f_equal. by eapply Forall_lookup_1 in Hz.
Qed.

Lemma bitmap_deallocate_done fa f i :
  bitmap_ok fa → frame_addresses (bitmap_memory_map fa) !! i = Some f →
  ∃ v, bitmap_deallocate_frame f fa = (Done (), mkBitmap (bitmap_memory_map fa) v) ∧
       bv_bits v = <[i := false]> (bv_bits (bitmap fa)).
Proof.
  intros [Hmm Hlen] Hf. apply lookup_lt_Some in Hf as Hlt. rewrite <-Hlen in Hlt.
  destruct (bv_set_in i false (bitmap fa) Hlt) as (v & Hset & Hbits).
  exists v. split; [|done]. unfold bitmap_deallocate_frame. mred.
  rewrite usable_frames_done by done.
  rewrite (iter_position_some f _ i); [|by apply frame_addresses_nodup|done].
  mred. rewrite Hset. by mred.
Qed.

Lemma bitmap_deallocate_unknown fa f :
  bitmap_ok fa → f ∉ frame_addresses (bitmap_memory_map fa) →
  bitmap_deallocate_frame f fa = (Panic "Frame not in memory_map", fa).
Proof.
  intros [Hmm _] Hf. unfold bitmap_deallocate_frame. mred.
  rewrite usable_frames_done, iter_position_none by done. by mred.
Qed.

(** The loop of [init] sets the first [n] bits. *)
Lemma set_first_done i n v :
  (i + n ≤ length (bv_bits v))%nat →
  ∃ v', set_first i n v = Done v' ∧ length (bv_bits v') = length (bv_bits v) ∧
    ∀ j, bv_bits v' !! j =
      if decide (i ≤ j < i + n)%nat then Some true else bv_bits v !! j.
Proof.
  revert i v. induction n as [|n IH]; intros i v Hle; simpl.
  { exists v. split_and!; [done..|]. intros j. by rewrite decide_False by lia. }
  destruct (bv_set_in i true v) as (v1 & -> & Hb1); [lia|]. simpl.
  destruct (IH (S i) v1) as (v2 & -> & Hlen & Hb2); [rewrite Hb1, length_insert; lia|].
  exists v2. split_and!; [done|by rewrite Hlen, Hb1, length_insert|].
  intros j. rewrite Hb2, Hb1. destruct (decide (j = i)) as [->|Hne].
  - rewrite decide_False, decide_True by lia. apply list_lookup_insert_eq. lia.
  - rewrite list_lookup_insert_ne by done. repeat case_decide; done || lia.
Qed.

Lemma set_first_panics i n v :
  (length (bv_bits v) < i + n)%nat → (i ≤ length (bv_bits v))%nat →
  ∃ w, set_first i n v = Panic w.
Proof.
  revert i v. induction n as [|n IH]; intros i v Hlt Hle; simpl; [lia|].
  destruct (decide (i = length (bv_bits v))) as [->|].
  - destruct (bv_set_out (length (bv_bits v)) true v) as [w ->]; [done|]. by exists w.
  - destruct (bv_set_in i true v) as (v1 & -> & Hb1); [lia|]. simpl.
    apply IH; rewrite Hb1, length_insert; lia.
Qed.

End bitmap.
