(* ===== verification/FrameSafety.v ===== *)
(** * What the frame allocators of kernel/src/memory.rs guarantee together.

    The system of this file runs the boot allocator, hands over to the bitmap allocator
    and goes on, with clients that return only frames they hold. *)

From S2P Require Import Prelude Crates CrateModels FrameSource Frames FramesSpec.

Local Open Scope Z_scope.

Section frame_system.
Context {K : Type} `{RegionKind K} `{X86Addr} {V : Type} `{BitVecApi V}.

(** The allocator in charge, and the frames handed out and not returned. *)
Record frame_system := mkFrames {
  fsys_allocator : BootInfoFrameAllocator K + BitmapAllocator K V;
  fsys_live : list Z;
}.

Definition hold (o : option Z) (live : list Z) : list Z := option_list o ++ live.

Inductive frame_step : frame_system → frame_system → Prop :=
  | step_boot_allocate fa fa' o live :
      boot_allocate_frame fa = (Done o, fa') →
      frame_step (mkFrames (inl fa) live) (mkFrames (inl fa') (hold o live))
  | step_hand_over {S} (info : string → M S ()) s s' fa fb live :
      BitmapAllocator_init info fa s = (Done fb, s') →
      frame_step (mkFrames (inl fa) live) (mkFrames (inr fb) live)
  | step_bitmap_allocate fb fb' o live :
      bitmap_allocate_frame fb = (Done o, fb') →
      frame_step (mkFrames (inr fb) live) (mkFrames (inr fb') (hold o live))
  | step_bitmap_deallocate fb fb' i f live :
      live !! i = Some f →
      bitmap_deallocate_frame f fb = (Done (), fb') →
      frame_step (mkFrames (inr fb) live) (mkFrames (inr fb') (delete i live)).

Inductive frame_reachable (mm : list (MemoryRegion K)) : frame_system → Prop :=
  | frame_reachable_boot :
      frame_reachable mm (mkFrames (inl (BootInfoFrameAllocator_init mm)) [])
  | frame_reachable_step s s' :
      frame_reachable mm s → frame_step s s' → frame_reachable mm s'.

(** ** The invariant *)

Definition fsys_map (s : frame_system) : list (MemoryRegion K) :=
  match fsys_allocator s with
  | inl fa => boot_memory_map fa
  | inr fb => bitmap_memory_map fb
  end.

Definition fsys_taken (s : frame_system) : gset Z :=
  match fsys_allocator s with
  | inl fa => boot_taken fa
  | inr fb => bitmap_taken fb
  end.

Definition fsys_ok (s : frame_system) : Prop :=
  match fsys_allocator s with
  | inl fa => boot_ok fa
  | inr fb => bitmap_ok fb
  end.

(** The allocator counts exactly the live frames as taken. *)
Definition frame_inv (mm : list (MemoryRegion K)) (s : frame_system) : Prop :=
  fsys_ok s ∧ fsys_map s = mm ∧ NoDup (fsys_live s) ∧
  fsys_taken s = list_to_set (fsys_live s).

Context `{!X86AddrLaws, !BitVecLaws V}.

Lemma boot_frames_done (fa : BootInfoFrameAllocator K) :
  boot_ok fa → frames fa = Done (length (frame_addresses (boot_memory_map fa))).
Proof. intros Hok. unfold frames. by rewrite usable_frames_done, iter_count_done. Qed.

(** The two branches of the hand-over. *)
Definition usable_count (fa : BootInfoFrameAllocator K) : nat :=
  length (frame_addresses (boot_memory_map fa)).

Lemma bitmap_init_run {S} (info : string → M S ()) (fa : BootInfoFrameAllocator K) s :
  boot_ok fa →
  BitmapAllocator_init (V := V) info fa s =
    (info (bitmap_message (usable_count fa));; liftO (take_over fa (usable_count fa))) s.
Proof.
  intros Hok. unfold BitmapAllocator_init. by rewrite boot_frames_done, liftO_done_bind.
Qed.

Lemma take_over_done (fa : BootInfoFrameAllocator K) :
  boot_ok fa → (boot_next fa ≤ usable_count fa)%nat →
  ∃ fb : BitmapAllocator K V, take_over fa (usable_count fa) = Done fb ∧
    bitmap_memory_map fb = boot_memory_map fa ∧ bitmap_ok fb ∧
    bitmap_taken fb = boot_taken fa.
Proof.
  intros Hok Hle. unfold take_over, usable_count in *.
  set (fs := frame_addresses (boot_memory_map fa)) in *.
  destruct (set_first_done 0 (boot_next fa) (bv_repeat (V := V) false (length fs)))
    as (v & -> & Hlen & Hv); [rewrite bv_bits_repeat, length_replicate; lia|].
  rewrite bv_bits_repeat, length_replicate in Hlen. rewrite done_bind.
  eexists. split; [done|]. split; [done|]. split; [by split|].
  unfold bitmap_taken, boot_taken; simpl. fold fs. apply set_eq. intros f.
  rewrite !elem_of_list_to_set, elem_of_marked, elem_of_take.
  split; intros (i & Hi & Hb); exists i; (split; [done|]).
  - rewrite Hv in Hb. case_decide; [lia|].
    rewrite bv_bits_repeat in Hb. by apply lookup_replicate in Hb as [? _].
  - rewrite Hv. by rewrite decide_True by lia.
Qed.

Lemma take_over_panics (fa : BootInfoFrameAllocator K) :
  (usable_count fa < boot_next fa)%nat →
  ∃ w, take_over (V := V) fa (usable_count fa) = Panic w.
Proof.
  intros Hlt. unfold take_over, usable_count in *.
  destruct (set_first_panics 0 (boot_next fa)
    (bv_repeat (V := V) false (length (frame_addresses (boot_memory_map fa))))) as [w ->];
    [rewrite bv_bits_repeat, length_replicate; lia|lia|]. by exists w.
Qed.

(** Freeing a frame clears exactly its bit. *)
Lemma bitmap_deallocate_taken (fb : BitmapAllocator K V) f :
  bitmap_ok fb → f ∈ frame_addresses (bitmap_memory_map fb) →
  ∃ fb', bitmap_deallocate_frame f fb = (Done (), fb') ∧
    bitmap_memory_map fb' = bitmap_memory_map fb ∧ bitmap_ok fb' ∧
    bitmap_taken fb' = bitmap_taken fb ∖ {[f]}.
Proof.
  intros Hok [i Hi]%list_elem_of_lookup.
  destruct (bitmap_deallocate_done fb f i Hok Hi) as (v & -> & Hbits).
  eexists. split; [done|]. split; [done|]. split.
  { apply bitmap_ok_bits; [done|]. by rewrite Hbits, length_insert. }
  destruct Hok as [Hmm Hlen]. unfold bitmap_taken; simpl. rewrite Hbits.
  apply lookup_lt_Some in Hi as Hlt. rewrite <-Hlen in Hlt.
  apply (marked_insert _ _ i f false); [by apply frame_addresses_nodup|done|done].
Qed.

(** A call to either allocator keeps the set of live frames exact. *)
Lemma hold_taken {FA} `{FrameSourceLaws FA} (fa fa' : FA) o live :
  fs_ok fa → NoDup live → fs_taken fa = list_to_set live →
  allocate_frame fa = (Done o, fa') →
  fs_ok fa' ∧ NoDup (hold o live) ∧ fs_taken fa' = list_to_set (hold o live).
Proof.
  intros Hok Hnd Ht E.
  destruct (allocate_frame_spec fa Hok) as (o' & fa1 & E' & Hok' & _ & Ho).
  rewrite E in E'. simplify_eq. split; [done|].
  destruct o' as [f|]; unfold hold; csimpl.
  - destruct Ho as (_ & Hf & ->). rewrite Ht in *. split; [|done].
    constructor; [|done]. intros Hin. by apply Hf, elem_of_list_to_set.
  - destruct Ho as [-> _]. by rewrite Ht.
Qed.

Lemma frame_step_inv mm s s' :
  frame_inv mm s → frame_step s s' → frame_inv mm s'.
Proof.
  intros (Hok & Hmm & Hnd & Ht) Hstep.
  destruct Hstep as [fa fa' o live E|S info t t' fa fb live E|fb fb' o live E|fb fb' i f live Hi E];
    unfold frame_inv, fsys_ok, fsys_map, fsys_taken in *; simpl in *.
  - destruct (hold_taken fa fa' o live) as (? & ? & ?); [done..|].
    split_and!; [done| |done|done].
    rewrite boot_allocate_done in E by done. by simplify_eq.
  - rewrite bitmap_init_run in E by done. apply mbind_inv_done in E as (? & t1 & _ & E).
    injection E as E _. destruct (decide (boot_next fa ≤ usable_count fa)%nat).
    + destruct (take_over_done fa) as (fb' & E' & Hmm' & Hok' & Ht'); [done..|].
      rewrite E in E'. simplify_eq. split_and!; [done|done|done|]. by rewrite Ht'.
    + destruct (take_over_panics fa) as [w E']; [lia|]. congruence.
  - destruct (hold_taken fb fb' o live) as (Hok' & ? & ?); [done..|].
    split_and!; [done| |done|done]. subst mm.
    destruct (bv_first_zero (bitmap fb)) as [i|] eqn:Hz.
    + destruct (bitmap_zero_frame fb i) as [f Hf]; [done..|].
      destruct (bitmap_allocate_some fb i f) as (v & E' & _); [done..|].
      rewrite E in E'. by simplify_eq.
    + rewrite bitmap_allocate_none in E by done. by simplify_eq.
  - assert (f ∈ frame_addresses (bitmap_memory_map fb)) as Hf.
    { assert (f ∈ bitmap_taken fb) as Hin.
      { rewrite Ht. apply elem_of_list_to_set. by eapply list_elem_of_lookup_2. }
      apply elem_of_list_to_set, elem_of_marked in Hin as (j & Hj & _).
      by eapply list_elem_of_lookup_2. }
    destruct (bitmap_deallocate_taken fb f) as (fb1 & E' & Hmm' & Hok' & Ht'); [done..|].
    rewrite E in E'. simplify_eq.
    pose proof (delete_Permutation live i f Hi) as Hp.
    remember (delete i live) as live' eqn:E1. clear E1. rewrite Hp in Hnd.
    apply NoDup_cons in Hnd as [Hfl Hnd]. split_and!; [done|done|done|].
    rewrite Ht', Ht. apply set_eq. intros g.
    rewrite elem_of_difference, elem_of_singleton, !elem_of_list_to_set, Hp, elem_of_cons.
    destruct (decide (g = f)) as [->|]; naive_solver.
Qed.

Lemma frame_reachable_inv mm s :
  memory_map_ok mm → frame_reachable mm s → frame_inv mm s.
Proof.
  intros Hmm. induction 1 as [|s s' _ IH Hstep].
  - split_and!; [done|done|constructor|done].
  - by apply (frame_step_inv mm s).
Qed.

(** Frames held at the same time lie in usable memory and share no byte. *)
Lemma live_frames_ok mm s :
  memory_map_ok mm → frame_inv mm s →
  Forall (λ f, f ∈ frame_addresses mm) (fsys_live s).
Proof.
  intros Hmm (Hok & <- & _ & Ht). apply Forall_forall. intros f Hf.
  apply (elem_of_list_to_set (C := gset Z)) in Hf. rewrite <-Ht in Hf.
  unfold fsys_taken, fsys_map in *. destruct (fsys_allocator s).
  - apply elem_of_list_to_set, elem_of_take in Hf as (i & ? & _).
    by eapply list_elem_of_lookup_2.
  - apply elem_of_list_to_set, elem_of_marked in Hf as (i & ? & _).
    by eapply list_elem_of_lookup_2.
Qed.

Lemma aligned_frames_disjoint f g :
  (page_size | f) → (page_size | g) → f ≠ g →
  disjoint_blocks (f, page_size) (g, page_size).
Proof.
  unfold page_size, disjoint_blocks; simpl. intros [i ->] [j ->] Hne.
  destruct (Ztrichotomy i j) as [?|[->|?]]; [lia|done|lia].
Qed.

Lemma aligned_frames_pairwise l :
  Forall (λ f, (page_size | f)) l → NoDup l →
  pairwise disjoint_blocks ((λ f, (f, page_size)) <$> l).
Proof.
  induction 1 as [|f l Hf Hl IH]; intros Hnd; [done|].
  apply NoDup_cons in Hnd as [Hfl Hnd]. split; [|by apply IH].
  rewrite Forall_fmap, Forall_forall in *. intros g Hg; simpl.
  apply aligned_frames_disjoint; [done|by apply Hl|]. by intros ->.
Qed.

End frame_system.
Arguments frame_system K V : clear implicits.

Section claims.
Context {K : Type} `{RegionKind K} `{X86AddrLaws} {V : Type} `{BitVecLaws V}.

(** The bitmap allocator hands out the frame of the lowest index that is not taken and
    marks it, and nothing else; it answers [None], unchanged, only when every frame is
    taken. *)
Theorem bitmap_allocates_lowest (fb : BitmapAllocator K V) :
  bitmap_ok fb →
  let fs := frame_addresses (bitmap_memory_map fb) in
  (∃ i f fb', bitmap_allocate_frame fb = (Done (Some f), fb') ∧
     fs !! i = Some f ∧ (f ∉ bitmap_taken fb) ∧
     (∀ j g, (j < i)%nat → fs !! j = Some g → g ∈ bitmap_taken fb) ∧
     bitmap_memory_map fb' = bitmap_memory_map fb ∧
     bitmap_taken fb' = {[f]} ∪ bitmap_taken fb) ∨
  (bitmap_allocate_frame fb = (Done None, fb) ∧ ∀ f, f ∈ fs → f ∈ bitmap_taken fb).
Proof.
  intros Hok fs. pose proof (allocate_frame_spec fb) as Hspec.
  destruct (Hspec Hok) as (o & fb' & E & Hok' & _ & Ho).
  unfold allocate_frame, bitmap_frame_allocator in E.
  destruct (bv_first_zero (bitmap fb)) as [i|] eqn:Hz.
  - destruct (bitmap_zero_frame fb i) as [f Hf]; [done..|].
    destruct (bitmap_allocate_some fb i f) as (v & E' & _); [done..|].
    rewrite E' in E. simplify_eq. destruct Ho as (_ & Hnew & Ht).
    left. eexists i, f, _. split_and!; [done..| |done|done].
    intros j g Hj Hg. apply bv_first_zero_some in Hz as [_ Hlow].
    apply elem_of_list_to_set, elem_of_marked. exists j. auto.
  - rewrite bitmap_allocate_none in * by done. simplify_eq. destruct Ho as [_ Hall].
    right. split; [done|]. intros f Hf. by apply Hall, elem_of_list_to_set.
Qed.

(** Returning a frame of the memory map clears its mark and no other, so the frame can
    be handed out again; a frame outside the map panics and changes nothing, and the boot
    allocator refuses every frame. *)
Theorem deallocate_frame_cases (fb : BitmapAllocator K V) (fa : BootInfoFrameAllocator K) f :
  bitmap_ok fb →
  (if decide (f ∈ frame_addresses (bitmap_memory_map fb)) then
     ∃ fb', bitmap_deallocate_frame f fb = (Done (), fb') ∧
       bitmap_memory_map fb' = bitmap_memory_map fb ∧
       bitmap_taken fb' = bitmap_taken fb ∖ {[f]}
   else bitmap_deallocate_frame f fb = (Panic "Frame not in memory_map", fb)) ∧
  boot_deallocate_frame f fa = (Panic "Cant deallocate frame using this allocator", fa).
Proof.
  intros Hok. split; [|done]. case_decide.
  - destruct (bitmap_deallocate_taken fb f) as (fb' & ? & ? & _ & ?); [done..|]. eauto.
  - by apply bitmap_deallocate_unknown.
Qed.

(** The bitmap allocator takes over exactly the frames the boot allocator handed out, after
    it has written its record; the hand-over panics when the boot allocator was asked for
    more frames than there are. *)
Theorem hand_over_keeps_taken {S} (info : string → M S ()) (fa : BootInfoFrameAllocator K) s s' :
  boot_ok fa → info (bitmap_message (usable_count fa)) s = (Done (), s') →
  if decide (boot_next fa ≤ usable_count fa)%nat then
    ∃ fb : BitmapAllocator K V, BitmapAllocator_init info fa s = (Done fb, s') ∧ bitmap_ok fb ∧
      bitmap_memory_map fb = boot_memory_map fa ∧ bitmap_taken fb = boot_taken fa
  else ∃ w, BitmapAllocator_init (V := V) info fa s = (Panic w, s').
Proof.
  intros Hok Hinfo. rewrite bitmap_init_run, (mbind_done _ _ _ _ _ Hinfo) by done. case_decide.
  - destruct (take_over_done fa) as (fb & -> & ? & ? & ?); [done..|]. eauto 10.
  - destruct (take_over_panics fa) as [w ->]; [lia|]. by exists w.
Qed.

(** C3: however boot allocations, the hand-over, later allocations and returns of held
    frames follow each other, the frames held at one time are whole pages of usable
    regions that share no byte, and the allocator in charge counts exactly them as taken. *)
Theorem frames_never_shared (mm : list (MemoryRegion K)) (s : frame_system K V) :
  memory_map_ok mm → frame_reachable mm s →
  pairwise disjoint_blocks ((λ f, (f, page_size)) <$> fsys_live s) ∧
  (∀ f, f ∈ fsys_live s → (page_size | f) ∧
     ∃ r, r ∈ mm ∧ mr_kind r = Usable ∧ mr_start r ≤ f ∧ f + page_size ≤ mr_end r) ∧
  fsys_taken s = list_to_set (fsys_live s).
Proof.
  intros Hmm Hs. pose proof (frame_reachable_inv mm s Hmm Hs) as Hinv.
  pose proof (live_frames_ok mm s Hmm Hinv) as Hl. rewrite Forall_forall in Hl.
  setoid_rewrite (elem_of_frame_addresses mm) in Hl; [|done].
  destruct Hinv as (_ & _ & Hnd & Ht). split_and!; [| |done].
  - apply aligned_frames_pairwise; [|done]. apply Forall_forall. naive_solver.
  - intros f (Hal & r & Hr & Hb)%Hl. split; [done|]. exists r.
    apply list_elem_of_filter in Hr as [? ?]. done.
Qed.

End claims.

(** ** The claims on a small machine: two usable regions and a reserved one *)

#[local] Existing Instance num_addr.
#[local] Existing Instance bool_kind.
#[local] Existing Instance list_bitvec.

Definition small_map : list (MemoryRegion bool) :=
  [Build_MemoryRegion 0x1000 0x3000 true; Build_MemoryRegion 0x3000 0x8000 false;
   Build_MemoryRegion 0x8000 0x9000 true].

(** The first frame went to the boot allocator's client; the second was taken later. *)
Definition small_boot : BootInfoFrameAllocator bool := mkBoot small_map 1.
Definition small_bitmap : BitmapAllocator bool (list bool) :=
  mkBitmap small_map [true; true; false].

Lemma small_map_ok : memory_map_ok small_map.
Proof.
  split; [|by_decide]. unfold region_ok. repeat constructor; simpl; try lia; by_decide.
Qed.

Lemma bitmap_allocates_lowest_witness :
  bitmap_ok small_bitmap ∧
  let fs := frame_addresses (bitmap_memory_map small_bitmap) in
  (∃ i f fb', bitmap_allocate_frame small_bitmap = (Done (Some f), fb') ∧
     fs !! i = Some f ∧ (f ∉ bitmap_taken small_bitmap) ∧
     (∀ j g, (j < i)%nat → fs !! j = Some g → g ∈ bitmap_taken small_bitmap) ∧
     bitmap_memory_map fb' = bitmap_memory_map small_bitmap ∧
     bitmap_taken fb' = {[f]} ∪ bitmap_taken small_bitmap) ∨
  (bitmap_allocate_frame small_bitmap = (Done None, small_bitmap) ∧
   ∀ f, f ∈ fs → f ∈ bitmap_taken small_bitmap).
Proof.
  assert (bitmap_ok small_bitmap) as Hok by (split; [apply small_map_ok|reflexivity]).
  split; [exact Hok|].
  exact (@bitmap_allocates_lowest bool _ _ num_addr_laws (list bool) _ list_bitvec_laws
    small_bitmap Hok).
Defined.

Lemma deallocate_frame_cases_witness :
  bitmap_ok small_bitmap ∧
  (∃ fb', bitmap_deallocate_frame 0x2000 small_bitmap = (Done (), fb') ∧
     bitmap_memory_map fb' = small_map ∧
     bitmap_taken fb' = bitmap_taken small_bitmap ∖ {[0x2000]}) ∧
  bitmap_deallocate_frame 0x3000 small_bitmap =
    (Panic "Frame not in memory_map", small_bitmap).
Proof.
  assert (bitmap_ok small_bitmap) as Hok by (split; [apply small_map_ok|reflexivity]).
  pose proof (@deallocate_frame_cases bool _ _ num_addr_laws (list bool) _ list_bitvec_laws
    small_bitmap small_boot) as Hcases.
  split; [exact Hok|]. split.
  - exact (proj1 (Hcases 0x2000 Hok)).
  - exact (proj1 (Hcases 0x3000 Hok)).
Defined.

(** A log that keeps the messages. *)
Definition note (message : string) : M (list string) () := modify_state (λ l, l ++ [message]).

Lemma hand_over_keeps_taken_witness :
  boot_ok small_boot ∧
  (∃ fb : BitmapAllocator bool (list bool),
     BitmapAllocator_init note small_boot [] = (Done fb, ["creating bitmap allocator with 3 frames"%string]) ∧
     bitmap_ok fb ∧ bitmap_memory_map fb = small_map ∧
     bitmap_taken fb = boot_taken small_boot) ∧
  (∃ w s', BitmapAllocator_init (V := list bool) note (mkBoot small_map 4) [] = (Panic w, s')).
Proof.
  split; [exact small_map_ok|]. split.
  - exact (@hand_over_keeps_taken bool _ _ num_addr_laws (list bool) _ list_bitvec_laws _ note
      small_boot [] _ small_map_ok eq_refl).
  - destruct (@hand_over_keeps_taken bool _ _ num_addr_laws (list bool) _ list_bitvec_laws _ note
      (mkBoot small_map 4) [] _ small_map_ok eq_refl) as [w E]. by eexists w, _.
Defined.

(** One frame at boot, the hand-over, a second frame, and the first one returned. *)
Definition small_run : frame_system bool (list bool) :=
  mkFrames (inr (mkBitmap small_map [false; true; false])) [0x2000].

Lemma small_run_reachable : frame_reachable small_map small_run.
Proof.
  apply (frame_reachable_step _ (mkFrames (inr small_bitmap) [0x2000; 0x1000])); last first.
  { by apply (step_bitmap_deallocate _ _ 1 0x1000). }
  apply (frame_reachable_step _
    (mkFrames (inr (mkBitmap small_map [true; false; false])) [0x1000])); last first.
  { by apply (step_bitmap_allocate _ _ (Some 0x2000)). }
  apply (frame_reachable_step _ (mkFrames (inl small_boot) [0x1000])); last first.
  { by eapply (step_hand_over note [] _). }
  eapply frame_reachable_step; [apply frame_reachable_boot|].
  by apply (step_boot_allocate _ _ (Some 0x1000)).
Qed.

Lemma frames_never_shared_witness :
  memory_map_ok small_map ∧ frame_reachable small_map small_run ∧
  pairwise disjoint_blocks ((λ f, (f, page_size)) <$> fsys_live small_run) ∧
  (∀ f, f ∈ fsys_live small_run → (page_size | f) ∧
     ∃ r, r ∈ small_map ∧ mr_kind r = Usable ∧ mr_start r ≤ f ∧ f + page_size ≤ mr_end r) ∧
  fsys_taken small_run = list_to_set (fsys_live small_run).
Proof.
  split; [exact small_map_ok|]. split; [exact small_run_reachable|].
  exact (@frames_never_shared bool _ _ num_addr_laws (list bool) _ list_bitvec_laws
    small_map small_run small_map_ok small_run_reachable).
Defined.

(** Page alignment of the regions matters: from a usable region that starts inside a
    page, [usable_frames] yields the frame of that page, which begins before the region. *)
Theorem unaligned_region_leaks_frame :
  boot_allocate_frame (BootInfoFrameAllocator_init
    [Build_MemoryRegion 0x9fc00 0xa0000 true]) =
  (Done (Some 0x9f000), mkBoot [Build_MemoryRegion 0x9fc00 0xa0000 true] 1).
Proof. reflexivity. Qed.
