(* ===== verification/Mapping.v ===== *)
(** * The page mapper, and the kernel's loop that maps a range of pages to new frames.

    [Mapper] is the part of x86_64's [OffsetPageTable] the kernel uses; its laws are stated
    against [FrameSource], so they hold for either frame allocator.  The loop "take a frame,
    map the page to it, stop at the first error" appears in [init_heap],
    [add_user_process] and [anon_allocate_syscall]; it is verified here once. *)

From S2P Require Import Prelude Crates FrameSource.

Local Open Scope Z_scope.

(** ** x86_64: [Mapper<Size4KiB>] *)

Inductive MapToError : Type :=
  | FrameAllocationFailed
  | ParentEntryHugePage
  | PageAlreadyMapped (frame : Z).

#[export] Instance MapToError_eq_dec : EqDecision MapToError.
Proof. solve_decision. Defined.

(** [PageTableFlags] *)
Definition PRESENT : Z := 1.
Definition WRITABLE : Z := 2.
Definition USER_ACCESSIBLE : Z := 4.

(** [map_to(page, frame, flags, frame_allocator)]; the rest of the class is the view of the
    page tables that the laws speak about: the pages mapped so far with their frames and
    flags, the frames that hold page tables, and the pages covered by a huge page.
    [page_present] and [page_writable] say on which pages a load or a store of the kernel does
    not fault. *)
Class Mapper (MP : Type) : Type := {
  map_to : ∀ {FA} `{FrameAllocator FA}, Z → Z → Z → M (MP * FA) (result () MapToError);
  phys_offset : MP → Z;
  mapped : MP → gmap Z (Z * Z);
  mapper_tables : MP → gset Z;
  under_huge_page : MP → Z → Prop;
  page_present : MP → Z → bool;
  page_writable : MP → Z → bool;
}.

Definition map_to_result {MP FA} `{Mapper MP, FrameSource FA} (page frame flags : Z)
    (s : MP * FA) (r : result () MapToError) (s' : MP * FA) : Prop :=
  phys_offset s'.1 = phys_offset s.1 ∧
  (∀ p, under_huge_page s'.1 p ↔ under_huge_page s.1 p) ∧
  (∃ l, frames_handed_out s.2 l s'.2 ∧
        mapper_tables s'.1 = list_to_set l ∪ mapper_tables s.1) ∧
  match r with
  | ROk _ => mapped s.1 !! page = None ∧ mapped s'.1 = <[page := (frame, flags)]> (mapped s.1)
  | RErr e =>
      mapped s'.1 = mapped s.1 ∧
      match e with
      | FrameAllocationFailed => fs_pool s'.2 ⊆ fs_taken s'.2
      | ParentEntryHugePage => under_huge_page s.1 page
      | PageAlreadyMapped _ => is_Some (mapped s.1 !! page)
      end
  end.

Class MapperLaws (MP : Type) `{Mapper MP} : Prop := {
  map_to_spec : ∀ {FA} `{FrameSourceLaws FA} page frame flags (s : MP * FA),
    fs_ok s.2 →
    ∃ r s', map_to page frame flags s = (Done r, s') ∧
            map_to_result page frame flags s r s';
  page_present_mapped : ∀ m page, is_Some (mapped m !! page) → page_present m page = true;
  page_writable_mapped : ∀ m page frame flags,
    mapped m !! page = Some (frame, flags) → Z.land flags WRITABLE ≠ 0 →
    page_writable m page = true;
}.

(** ** Faults *)

(** The exception that an access to the byte at [a] raises, if it does; [ok] is
    [page_present] for a load and [page_writable] for a store.  The exception panics
    (kernel/src/int.rs). *)
Definition byte_fault {MP} (ok : MP → Z → bool) (mp : MP) (a : Z) : option string :=
  if decide (canonical a) then
    if ok mp (round_down a page_size) then None else Some "EXCEPTION: PAGE FAULT"
  else Some "EXCEPTION: GENERAL PROTECTION FAULT".

(** The same for [n] bytes: the first that faults decides. *)
Definition block_fault {MP} (ok : MP → Z → bool) (mp : MP) (a n : Z) : option string :=
  head (omap (λ i, byte_fault ok mp (a + i)) (seqZ 0 n)).

Lemma block_fault_none {MP} (ok : MP → Z → bool) mp a n :
  block_fault ok mp a n = None ↔ ∀ b, a ≤ b < a + n → byte_fault ok mp b = None.
Proof.
  unfold block_fault. split.
  - intros Hn b Hb. destruct (byte_fault ok mp b) as [w|] eqn:E; [exfalso|done].
    assert (w ∈ omap (λ i, byte_fault ok mp (a + i)) (seqZ 0 n)) as Hw.
    { apply list_elem_of_omap. exists (b - a). split; [apply elem_of_seqZ; lia|].
      by replace (a + (b - a)) with b by lia. }
    apply head_None in Hn. rewrite Hn in Hw. by apply not_elem_of_nil in Hw.
  - intros Hall. apply head_None. destruct (omap _ _) as [|w l] eqn:E; [done|exfalso].
    assert (w ∈ omap (λ i, byte_fault ok mp (a + i)) (seqZ 0 n)) as Hw by (rewrite E; left).
    apply list_elem_of_omap in Hw as (i & Hi%elem_of_seqZ & Hf).
    by rewrite Hall in Hf by lia.
Qed.

(** ** The loop *)

Section loop.
Context {MP : Type} `{Mapper MP} {FA : Type} `{FrameAllocator FA}.

Definition on_frames {A} (m : M FA A) : M (MP * FA) A := zoom snd (λ fa s, (s.1, fa)) m.

(** The body: [allocate_frame().ok_or(FrameAllocationFailed)?], then [map_to(..)?.flush()]. *)
Definition map_new_page (flags page : Z) : M (MP * FA) (result () MapToError) :=
  o ← on_frames allocate_frame;
  match o with
  | None => mret (RErr FrameAllocationFailed)
  | Some frame => map_to page frame flags
  end.

Definition map_page_range (flags : Z) (pages : list Z) : M (MP * FA) (result () MapToError) :=
  for_each_try (map_new_page flags) pages.

End loop.

(** ** What the loop does *)

Section loop_spec.
Context {MP : Type} `{MapperLaws MP} {FA : Type} `{FrameSourceLaws FA}.
Implicit Types s : MP * FA.

(** No frame that can still be handed out holds a page table. *)
Definition tables_safe s : Prop :=
  ∀ f, f ∈ mapper_tables s.1 → f ∈ fs_pool s.2 → f ∈ fs_taken s.2.

(** [s'] is [s] with each page of [pages] mapped to the frame of [frames] at the same
    position; [frames] are new, distinct, and none of them holds a page table. *)
Definition pages_mapped (flags : Z) (pages frames : list Z) s s' : Prop :=
  length frames = length pages ∧ NoDup frames ∧
  (∀ f, f ∈ frames → f ∈ fs_pool s.2 ∧ (f ∉ fs_taken s.2) ∧
                     (f ∈ fs_taken s'.2) ∧ f ∉ mapper_tables s'.1) ∧
  mapped s'.1 = list_to_map (zip pages ((λ f, (f, flags)) <$> frames)) ∪ mapped s.1.

(** What every mapping operation keeps. *)
Definition mapping_kept s s' : Prop :=
  fs_ok s'.2 ∧ fs_pool s'.2 = fs_pool s.2 ∧ fs_taken s.2 ⊆ fs_taken s'.2 ∧
  mapper_tables s.1 ⊆ mapper_tables s'.1 ∧
  (∀ f, f ∈ mapper_tables s'.1 →
        f ∈ mapper_tables s.1 ∨ (f ∈ fs_pool s.2 ∧ (f ∉ fs_taken s.2) ∧ f ∈ fs_taken s'.2)) ∧
  phys_offset s'.1 = phys_offset s.1 ∧
  (∀ p, under_huge_page s'.1 p ↔ under_huge_page s.1 p).

Definition error_cause (e : MapToError) page s s' : Prop :=
  match e with
  | FrameAllocationFailed => fs_pool s'.2 ⊆ fs_taken s'.2
  | ParentEntryHugePage => under_huge_page s.1 page
  | PageAlreadyMapped _ => is_Some (mapped s.1 !! page)
  end.

Lemma mapping_kept_trans s1 s2 s3 :
  mapping_kept s1 s2 → mapping_kept s2 s3 → mapping_kept s1 s3.
Proof.
  intros (_ & Hp1 & Ht1 & Hm1 & Hn1 & Ho1 & Hh1) (Hok & Hp2 & Ht2 & Hm2 & Hn2 & Ho2 & Hh2).
  split_and!; [done|congruence|by etransitivity|by etransitivity| |congruence|].
  - intros f Hf. destruct (Hn2 f Hf) as [[|(?&?&?)]%Hn1|(Hp & Hnt & ?)]; [by left|right; auto|].
    rewrite Hp1 in Hp. right. split_and!; [done| |done]. by intros ?%Ht1.
  - intros p. by rewrite Hh2.
Qed.

Lemma mapping_kept_safe s s' : mapping_kept s s' → tables_safe s → tables_safe s'.
Proof.
  intros (_ & Hp & Ht & _ & Hn & _) Hs f Hf Hpool. rewrite Hp in Hpool.
  destruct (Hn f Hf) as [Hf'|(_ & _ & ?)]; [|done]. by apply Ht, Hs.
Qed.

(** One round of the loop. *)
Lemma map_new_page_spec flags page s :
  fs_ok s.2 → tables_safe s →
  ∃ r s', map_new_page flags page s = (Done r, s') ∧ mapping_kept s s' ∧
    match r with
    | ROk _ => mapped s.1 !! page = None ∧
               ∃ f, pages_mapped flags [page] [f] s s'
    | RErr e => mapped s'.1 = mapped s.1 ∧ error_cause e page s s'
    end.
Proof.
  intros Hok Hsafe. destruct s as [m fa]; simpl in *.
  destruct (allocate_frame_spec fa Hok) as (o & fa1 & E & Hok1 & Hp1 & Ho).
  unfold map_new_page.
  erewrite mbind_done; [|by apply zoom_done]. simpl. destruct o as [f|].
  2:{ destruct Ho as [Ht Hall]. eexists _, _. split; [done|].
      split; [split_and!; simpl; try done; [by rewrite Ht|naive_solver]|].
      simpl. split; [done|]. by rewrite Hp1, Ht. }
  destruct Ho as (Hf & Hnew & Ht).
  destruct (map_to_spec page f flags (m, fa1) Hok1)
    as (r & [m' fa2] & -> & Hoff & Hhuge & (l & Hl & Htab) & Hr); simpl in *.
  eexists _, _. split; [done|].
  destruct (frames_handed_out_spec _ _ _ Hl Hok1) as (Hok2 & Hp2 & Hnd & Ht2 & Hnl).
  assert (mapping_kept (m, fa) (m', fa2)) as Hkept.
  { split_and!; simpl; [done|congruence| | | |done|done].
    - rewrite Ht2, Ht. set_solver.
    - rewrite Htab. set_solver.
    - intros g Hg. rewrite Htab, elem_of_union, elem_of_list_to_set in Hg.
      destruct Hg as [Hg|Hg]; [right|by left]. destruct (Hnl g Hg) as [Hpg Htg].
      rewrite Ht in Htg. rewrite Hp1 in Hpg. split_and!; [done|set_solver|].
      rewrite Ht2. apply elem_of_union_l. by apply elem_of_list_to_set. }
  split; [exact Hkept|]. destruct r as [[]|e].
  - destruct Hr as [Hfree Hmap]. split; [done|]. exists f.
    split_and!; simpl; [done|by apply NoDup_singleton| |].
    + intros g ->%list_elem_of_singleton. split_and!; [done|done| |].
      * rewrite Ht2, Ht. set_solver.
      * rewrite Htab, not_elem_of_union, elem_of_list_to_set. split.
        -- intros [_ Hn]%Hnl. rewrite Ht in Hn. set_solver.
        -- intros Hg. by apply Hnew, (Hsafe f).
    + by rewrite Hmap, insert_empty, <-insert_union_singleton_l.
  - destruct Hr as [Hmap He]. split; [done|].
    by destruct e.
Qed.

Lemma pages_mapped_nil flags s : pages_mapped flags [] [] s s.
Proof.
  split_and!; [done|constructor|by intros ? ?%not_elem_of_nil|].
  simpl. by rewrite map_empty_union.
Qed.

Lemma mapping_kept_refl s : fs_ok s.2 → mapping_kept s s.
Proof. intros. split_and!; auto. Qed.

Lemma pages_mapped_cons flags p ps f fs s s1 s2 :
  p ∉ ps → pages_mapped flags [p] [f] s s1 → mapping_kept s s1 →
  pages_mapped flags ps fs s1 s2 → mapping_kept s1 s2 →
  pages_mapped flags (p :: ps) (f :: fs) s s2.
Proof.
  intros Hp (_ & _ & Hf & Hm1) (_ & Hp1 & Ht1 & _) (Hlen & Hnd & Hfs & Hm2)
    (_ & _ & Ht2 & _ & Hn2 & _).
  destruct (Hf f) as (Hfp & Hfn & Hft & Hftab); [by apply list_elem_of_singleton|].
  split_and!; [simpl; by rewrite Hlen| | |].
  - constructor; [|done]. by intros (_ & ? & _)%Hfs.
  - intros g [->|Hg]%elem_of_cons.
    + split_and!; [done|done|by apply Ht2|]. by intros [|(_ & ? & _)]%Hn2.
    + destruct (Hfs g Hg) as (Hgp & Hgn & ? & ?). rewrite Hp1 in Hgp.
      split_and!; [done| |done|done]. by intros ?%Ht1.
  - rewrite Hm2, Hm1. csimpl. rewrite insert_empty, <-insert_union_singleton_l.
    rewrite <-insert_union_r, insert_union_l; [done|].
    apply not_elem_of_list_to_map_1. rewrite fst_zip by (rewrite length_fmap; lia). done.
Qed.

Lemma mapped_other flags ps fs s s' p :
  pages_mapped flags ps fs s s' → p ∉ ps → mapped s'.1 !! p = mapped s.1 !! p.
Proof.
  intros (Hlen & _ & _ & ->) Hp. apply lookup_union_r, not_elem_of_list_to_map_1.
  rewrite fst_zip by (rewrite length_fmap; lia). done.
Qed.

(** One range after the other. *)
Lemma pages_mapped_app flags ps fs qs gs s s1 s2 :
  (∀ q, q ∈ qs → q ∉ ps) → pages_mapped flags ps fs s s1 → mapping_kept s s1 →
  pages_mapped flags qs gs s1 s2 → mapping_kept s1 s2 →
  pages_mapped flags (ps ++ qs) (fs ++ gs) s s2.
Proof.
  intros Hdisj (Hl1 & Hnd1 & Hf1 & Hm1) (_ & Hp1 & Ht1 & _) (Hl2 & Hnd2 & Hf2 & Hm2)
    (_ & _ & Ht2 & _ & Hn2 & _).
  split_and!; [rewrite !length_app; lia| | |].
  - apply NoDup_app. split_and!; [done| |done]. intros f (_ & _ & ? & _)%Hf1 (_ & ? & _)%Hf2. done.
  - intros f [Hf|Hf]%elem_of_app.
    + destruct (Hf1 f Hf) as (? & ? & ? & ?). split_and!; [done|done|by apply Ht2|].
      by intros [|(_ & ? & _)]%Hn2.
    + destruct (Hf2 f Hf) as (Hp & Hn & ? & ?). rewrite Hp1 in Hp.
      split_and!; [done| |done|done]. by intros ?%Ht1.
  - rewrite Hm2, Hm1, fmap_app, zip_with_app by (by rewrite length_fmap).
    rewrite list_to_map_app, (assoc_L (∪)). f_equal. apply map_union_comm.
    apply map_disjoint_spec. intros q a b Ha Hb.
    apply elem_of_list_to_map_2, elem_of_zip_l in Ha. apply elem_of_list_to_map_2, elem_of_zip_l in Hb.
    by eapply Hdisj.
Qed.

(** The loop maps the pages one by one and stops at the first error. *)
Lemma map_page_range_spec flags pages s :
  NoDup pages → fs_ok s.2 → tables_safe s →
  ∃ r s', map_page_range flags pages s = (Done r, s') ∧ mapping_kept s s' ∧
    match r with
    | ROk _ => Forall (λ p, mapped s.1 !! p = None) pages ∧
               ∃ frames, pages_mapped flags pages frames s s'
    | RErr e => ∃ ps p ps' frames s1, pages = ps ++ p :: ps' ∧
                Forall (λ p, mapped s.1 !! p = None) ps ∧ pages_mapped flags ps frames s s1 ∧ mapping_kept s s1 ∧ mapping_kept s1 s' ∧
                mapped s'.1 = mapped s1.1 ∧ error_cause e p s s'
    end.
Proof.
  revert s. induction pages as [|p ps IH]; intros s Hnd Hok Hsafe.
  { eexists _, s. split; [done|]. split; [by apply mapping_kept_refl|].
    split; [done|]. exists []. apply pages_mapped_nil. }
  apply NoDup_cons in Hnd as [Hp Hnd]. unfold map_page_range in *. cbn [for_each_try].
  destruct (map_new_page_spec flags p s Hok Hsafe) as (r & s1 & E & Hkept & Hr).
  erewrite mbind_done by exact E. destruct r as [[]|e]; simpl.
  2:{ eexists _, s1. split; [done|]. split; [done|]. destruct Hr as [Hm He].
      exists [], p, ps, [], s. split_and!; auto using pages_mapped_nil, mapping_kept_refl. }
  destruct Hr as (Hfree & f & Hpm). pose proof (mapping_kept_safe _ _ Hkept Hsafe) as Hsafe1.
  destruct (IH s1 Hnd (proj1 Hkept) Hsafe1) as (r & s2 & -> & Hkept2 & Hr).
  eexists _, s2. split; [done|]. split; [by eapply mapping_kept_trans|].
  assert (∀ l, p ∉ l → Forall (λ q, mapped s1.1 !! q = None) l →
    Forall (λ q, mapped s.1 !! q = None) l) as Hun.
  { intros l Hl Hall. rewrite Forall_forall in *. intros q Hq.
    rewrite <-(mapped_other _ _ _ _ _ q Hpm); [by apply Hall|].
    by intros ->%list_elem_of_singleton. }
  destruct r as [[]|e].
  - destruct Hr as (Hall & fs & Hpms). split; [by constructor; [done|apply Hun]|].
    exists (f :: fs). by eapply pages_mapped_cons.
  - destruct Hr as (ps1 & q & ps2 & fs & s3 & -> & Hall & Hpms & Hkept3 & Hkept4 & Hm & He).
    exists (p :: ps1), q, ps2, (f :: fs), s3. split_and!; [done| | | |done|done|].
    + constructor; [done|]. apply Hun; [set_solver|done].
    + eapply pages_mapped_cons; [|done..]. set_solver.
    + by eapply mapping_kept_trans.
    + destruct e; simpl in *; [done| |].
      * destruct Hkept as (_ & _ & _ & _ & _ & _ & Hh). by rewrite <-Hh.
      * rewrite <-(mapped_other _ _ _ _ _ q Hpm); [done|].
        intros ->%list_elem_of_singleton. set_solver.
Qed.

(** Pages are only added, and no frame that was in use is touched. *)
Definition space_grows s s' : Prop := mapping_kept s s' ∧ mapped s.1 ⊆ mapped s'.1.

Lemma space_grows_refl s : fs_ok s.2 → space_grows s s.
Proof. intros. split; [by apply mapping_kept_refl|done]. Qed.

Lemma space_grows_trans s1 s2 s3 : space_grows s1 s2 → space_grows s2 s3 → space_grows s1 s3.
Proof.
  intros [? ?] [? ?]. split; [by eapply mapping_kept_trans|by etransitivity].
Qed.

Lemma pages_mapped_grows flags ps frames s s' :
  Forall (λ p, mapped s.1 !! p = None) ps → pages_mapped flags ps frames s s' →
  mapped s.1 ⊆ mapped s'.1.
Proof.
  intros Hfree Hpm. apply map_subseteq_spec. intros p y Hp.
  rewrite (mapped_other _ _ _ _ _ p Hpm); [exact Hp|]. intros Hin.
  rewrite Forall_forall in Hfree. rewrite (Hfree p Hin) in Hp. discriminate.
Qed.

End loop_spec.
