(* ===== verification/MapperModel.v ===== *)
(** * A concrete page mapper: an instance of the interface of [Mapping.v].

    One level of tables, one table per 2 MiB.  It shows that the laws of [Mapper] can hold,
    and concrete runs use it; no theorem about the kernel assumes it. *)

From S2P Require Import Prelude Crates FrameSource Mapping.

Local Open Scope Z_scope.

Record table_mapper := mkTables {
  tm_offset : Z;
  tm_tables : list (Z * Z);
  tm_pages : gmap Z (Z * Z);
}.

Definition enter_page {FA} (page frame flags : Z) : M (table_mapper * FA) (result () MapToError) :=
  s ← get_state;
  match tm_pages s.1 !! page with
  | Some (g, _) => mret (RErr (PageAlreadyMapped g))
  | None =>
      put_state (mkTables (tm_offset s.1) (tm_tables s.1)
                          (<[page := (frame, flags)]> (tm_pages s.1)), s.2);;
      mret (ROk ())
  end.

Definition table_map_to {FA} `{FrameAllocator FA} (page frame flags : Z) :
    M (table_mapper * FA) (result () MapToError) :=
  s ← get_state;
  if decide (page / 2 ^ 21 ∈ (tm_tables s.1).*1) then enter_page page frame flags
  else
    o ← zoom snd (λ fa s, (s.1, fa)) allocate_frame;
    match o with
    | None => mret (RErr FrameAllocationFailed)
    | Some t =>
        modify_state (λ s, (mkTables (tm_offset s.1) ((page / 2 ^ 21, t) :: tm_tables s.1)
                                     (tm_pages s.1), s.2));;
        enter_page page frame flags
    end.

#[local] Instance simple_mapper : Mapper table_mapper := {|
  map_to := @table_map_to;
  phys_offset := tm_offset;
  mapped := tm_pages;
  mapper_tables m := list_to_set (tm_tables m).*2;
  under_huge_page _ _ := False;
  page_present m page := bool_decide (is_Some (tm_pages m !! page));
  page_writable m page :=
    match tm_pages m !! page with
    | Some (_, flags) => bool_decide (Z.land flags WRITABLE ≠ 0)
    | None => false
    end;
|}.

Lemma enter_page_spec {FA} page frame flags (m : table_mapper) (fa : FA) :
  ∃ r pages, enter_page page frame flags (m, fa) =
      (Done r, (mkTables (tm_offset m) (tm_tables m) pages, fa)) ∧
    match r with
    | ROk _ => tm_pages m !! page = None ∧ pages = <[page := (frame, flags)]> (tm_pages m)
    | RErr e => pages = tm_pages m ∧ is_Some (tm_pages m !! page) ∧ ∃ g, e = PageAlreadyMapped g
    end.
Proof.
  unfold enter_page. mred. simpl. destruct (tm_pages m !! page) as [[g b]|] eqn:E.
  - eexists _, (tm_pages m). split; [by destruct m|]. split_and!; [done|done|by exists g].
  - eexists _, _. split; [done|]. done.
Qed.

Lemma simple_mapper_laws : @MapperLaws table_mapper simple_mapper.
Proof.
  split; [|by intros m page ?; apply bool_decide_true|].
  2:{ intros m page f flags. simpl. intros ->. apply bool_decide_true. }
  intros FA ? ? ? page frame flags [m fa] Hok. unfold map_to; simpl.
  unfold table_map_to. mred. simpl. case_decide.
  { destruct (enter_page_spec page frame flags m fa) as (r & pages & -> & Hr).
    eexists _, _. split; [done|]. split_and!; [done|done| |].
    - exists []. split; [constructor|]. simpl. by rewrite (left_id_L ∅ (∪)).
    - destruct r as [|e]; [done|]. by destruct Hr as (-> & ? & g & ->). }
  destruct (allocate_frame_spec fa Hok) as (o & fa' & E & Ho).
  erewrite mbind_done; [|by apply zoom_done]. simpl. destruct o as [t|].
  2:{ eexists _, _. split; [done|]. split_and!; [done|done| |done|].
      - exists []. split; [eapply handed_none; [done|constructor]|].
        simpl. by rewrite (left_id_L ∅ (∪)).
      - destruct Ho as (_ & Hp & Ht & ?). simpl. by rewrite Hp, Ht. }
  rewrite modify_bind; simpl.
  edestruct (@enter_page_spec FA page frame flags) as (r & pages & -> & Hr); simpl in *.
  eexists _, _. split; [done|]. split_and!; [done|done| |].
  - exists [t]. split; [eapply handed_some; [done|constructor]|].
    simpl. by rewrite (right_id_L ∅ (∪)).
  - destruct r as [|e]; [done|]. by destruct Hr as (-> & ? & g & ->).
Qed.

(** ** A frame allocator that counts up *)

Record counter := mkCounter { ct_base : Z; ct_total : nat; ct_used : nat }.

Definition counter_frame (c : counter) (i : nat) : Z := ct_base c + page_size * Z.of_nat i.

#[local] Instance counter_allocator : FrameAllocator counter :=
  c ← get_state;
  if decide (ct_used c < ct_total c)%nat then
    put_state (mkCounter (ct_base c) (ct_total c) (S (ct_used c)));;
    mret (Some (counter_frame c (ct_used c)))
  else mret None.

#[local] Instance counter_source : FrameSource counter := {|
  fs_ok c := (ct_used c ≤ ct_total c)%nat;
  fs_pool c := list_to_set (counter_frame c <$> seq 0 (ct_total c));
  fs_taken c := list_to_set (counter_frame c <$> seq 0 (ct_used c));
|}.

Lemma counter_source_laws : @FrameSourceLaws counter _ counter_source.
Proof.
  split. intros c Hok. simpl in Hok. unfold allocate_frame, counter_allocator. mred.
  assert (∀ i n, counter_frame c i ∈ counter_frame c <$> seq 0 n ↔ (i < n)%nat) as Hin.
  { intros i n. rewrite list_elem_of_fmap. setoid_rewrite elem_of_seq.
    unfold counter_frame, page_size. split; [intros (j & ? & ?); lia|].
    intros. exists i. lia. }
  case_decide; eexists _, _; (split; [done|]).
  - split; [simpl; lia|]. split; [done|].
    change (fs_taken (mkCounter _ _ _)) with
      (list_to_set (C := gset Z) (counter_frame c <$> seq 0 (S (ct_used c)))).
    unfold fs_taken, fs_pool, counter_source. rewrite !elem_of_list_to_set, !Hin.
    split_and!; [lia|lia|]. rewrite seq_S, fmap_app, list_to_set_app_L. set_solver.
  - split; [done|]. split; [done|]. split; [done|]. simpl.
    by replace (ct_used c) with (ct_total c) by lia.
Qed.
