(* ===== verification/Paging.v ===== *)
(** * Paging: [init], [get_virtual_address] (kernel/src/memory.rs) and [init_heap]
    (kernel/src/allocator.rs). *)

From S2P Require Import Prelude Crates CrateModels FrameSource Mapping MapperModel.
From S2P Require Import Frames FramesSpec FrameSafety Allocator AllocatorSpec HeapSafety.

Local Open Scope Z_scope.

(** ** The kernel's page table *)

Section memory.
Context `{X86Addr} {MP : Type} `{Mapper MP} {L : Type} `{RawLock L}.

(** The pointer to the level-4 table; [cr3] is the start of the frame in CR3. *)
Definition active_level_4_table (cr3 physical_memory_offset : Z) : outcome Z :=
  VirtAddr_add physical_memory_offset cr3.

(** [OffsetPageTable::new] is the crate's. *)
Definition memory_init (OffsetPageTable_new : Z → Z → MP) (cr3 physical_memory_offset : Z) :
    outcome MP :=
  level_4_table ← active_level_4_table cr3 physical_memory_offset;
  Done (OffsetPageTable_new level_4_table physical_memory_offset).

(** The guard lives until the end of the expression, [unwrap] included. *)
Definition get_virtual_address (physical_address : Z) : M (locked L MP) Z :=
  with_lock (
    offset ← gets_state phys_offset;
    let ptr := (offset + physical_address) mod 2 ^ 64 in
    if decide (ptr = 0) then panic "called `Option::unwrap()` on a `None` value"
    else mret ptr).

End memory.

(** ** [init_heap] *)

Section init_heap.
Context `{BuildProfile} `{X86Addr} {L : Type} `{RawLock L}.
Context {MP : Type} `{Mapper MP} {FA : Type} `{FrameAllocator FA}.

Definition heap_page_range : outcome (list Z) :=
  heap_start ← VirtAddr_new HEAP_START;
  past_end ← VirtAddr_add heap_start HEAP_SIZE;
  heap_end ← VirtAddr_sub past_end 1;
  let heap_start_page := Page_containing_address heap_start in
  let heap_end_page := Page_containing_address heap_end in
  Done (Page_range_inclusive heap_start_page heap_end_page).

(** The state: the caller's mapper and frame allocator, and the static [ALLOCATOR]. *)
Definition init_heap : M ((MP * FA) * locked L LinkedListAllocator) (result () MapToError) :=
  page_range ← liftO heap_page_range;
  r ← zoom fst (λ x s, (x, s.2)) (map_page_range (Z.lor PRESENT WRITABLE) page_range);
  match r with
  | RErr e => mret (RErr e)
  | ROk _ =>
      zoom snd (λ x s, (s.1, x)) (with_lock (init HEAP_START HEAP_SIZE));;
      mret (ROk ())
  end.

End init_heap.

(** ** What they guarantee *)

(** The pages of the heap, in order. *)
Definition heap_pages : list Z := (λ i, HEAP_START + page_size * i) <$> seqZ 0 512.

Lemma heap_page_range_done `{X86AddrLaws} : heap_page_range = Done heap_pages.
Proof.
  unfold heap_page_range.
  assert (in_u64 HEAP_START ∧ in_u64 HEAP_SIZE) as [? ?] by (split; by_decide).
  rewrite VirtAddr_new_canonical, done_bind by (done || by_decide).
  rewrite VirtAddr_add_canonical, done_bind by (done || by_decide).
  rewrite VirtAddr_sub_canonical, done_bind by by_decide.
  rewrite !Page_containing_address_spec by by_decide.
  rewrite Page_range_inclusive_spec by by_decide. done.
Qed.

Lemma heap_pages_nodup : NoDup heap_pages.
Proof. apply NoDup_fmap_2; [|apply NoDup_seqZ]. unfold page_size. intros i j ?. lia. Qed.

(** A mapped page reads the frame at its position. *)
Lemma pages_mapped_lookup {MP FA} `{Mapper MP, FrameSource FA} flags pages frames
    (s s' : MP * FA) i p :
  NoDup pages → pages_mapped flags pages frames s s' → pages !! i = Some p →
  ∃ f, frames !! i = Some f ∧ mapped s'.1 !! p = Some (f, flags).
Proof.
  intros Hnd (Hlen & _ & _ & ->) Hp.
  assert (i < length frames)%nat as [f Hf]%lookup_lt_is_Some
    by (rewrite Hlen; by eapply lookup_lt_Some).
  exists f. split; [done|]. apply lookup_union_Some_l, elem_of_list_to_map_1.
  - rewrite fst_zip by (rewrite length_fmap; lia). done.
  - apply list_elem_of_lookup. exists i. apply lookup_zip_Some. split; [done|].
    rewrite list_lookup_fmap, Hf. done.
Qed.

Section claims.
Context `{BuildProfile} `{X86AddrLaws} {L : Type} `{RawLockLaws L}.
Context {MP : Type} `{MapperLaws MP} {FA : Type} `{FrameSourceLaws FA}.

(** The pages of the heap are mapped and the allocator booted, or the mapper's error comes
    back; what was mapped stays mapped. *)
Lemma init_heap_run (s : MP * FA) :
  fs_ok s.2 → tables_safe s →
  ∃ r s' a, init_heap (s, Locked (L := L) lock_free LinkedListAllocator_new) =
              (Done r, (s', a)) ∧ space_grows s s' ∧
    match r with
    | ROk _ =>
        heap_boot (Heap a []) ∧
        ∃ frames, pages_mapped (Z.lor PRESENT WRITABLE) heap_pages frames s s'
    | RErr e => a = Locked lock_free LinkedListAllocator_new ∧
        ∃ p, p ∈ heap_pages ∧ error_cause e p s s'
    end.
Proof.
  intros Hok Hsafe. unfold init_heap. rewrite heap_page_range_done. mred.
  destruct (map_page_range_spec (Z.lor PRESENT WRITABLE) heap_pages s heap_pages_nodup Hok
    Hsafe) as (r & s' & E & Hkept & Hr).
  erewrite mbind_done; [|by apply zoom_done]. simpl. destruct r as [[]|e].
  - destruct (init_done (L := L)) as (a & Ei & _). destruct Hr as [Hfree (frames & Hpm)].
    erewrite mbind_done; [|by apply zoom_done]. eexists _, _, _. split; [done|].
    split; [split; [done|by eapply pages_mapped_grows]|].
    split; [by split|by exists frames].
  - destruct Hr as (ps & p & ps' & frames & s1 & Heq & Hfree & Hpm & _ & _ & Hm & He).
    eexists _, _, _. split; [done|].
    split; [split; [done|rewrite Hm; by eapply pages_mapped_grows]|].
    split; [done|]. exists p. split; [|done]. rewrite Heq. set_solver.
Qed.

(** C20: [init_heap] either maps every page of the heap, writable, to a frame of its own
    that nobody else holds and that is no page table, leaves every other mapping alone and
    boots the heap allocator; or it returns the mapper's error, whose cause was present,
    and leaves the allocator without memory.  It never panics or hangs. *)
Theorem init_heap_cases (s : MP * FA) :
  fs_ok s.2 → tables_safe s →
  ∃ r s' a, init_heap (s, Locked (L := L) lock_free LinkedListAllocator_new) =
              (Done r, (s', a)) ∧
    match r with
    | ROk _ =>
        heap_boot (Heap a []) ∧
        (∃ frames, length frames = 512%nat ∧ NoDup frames ∧
           (∀ i f, frames !! i = Some f →
              mapped s'.1 !! (HEAP_START + page_size * Z.of_nat i) =
                Some (f, Z.lor PRESENT WRITABLE) ∧
              f ∈ fs_pool s.2 ∧ (f ∉ fs_taken s.2) ∧ (f ∈ fs_taken s'.2) ∧
              f ∉ mapper_tables s'.1)) ∧
        (∀ p, p ∉ heap_pages → mapped s'.1 !! p = mapped s.1 !! p) ∧ tables_safe s'
    | RErr e =>
        a = Locked lock_free LinkedListAllocator_new ∧
        ∃ p, p ∈ heap_pages ∧ error_cause e p s s'
    end.
Proof.
  intros Hok Hsafe. destruct (init_heap_run s Hok Hsafe) as (r & s' & a & E & [Hkept _] & Hr).
  exists r, s', a. split; [exact E|]. destruct r as [[]|e]; [|exact Hr].
  destruct Hr as [Hboot (frames & Hpm)]. pose proof Hpm as (Hlen & Hnd & Hf & _).
  split; [exact Hboot|]. split; [|split; [|by eapply mapping_kept_safe]].
  - exists frames. split_and!; [done..|]. intros i f Hi.
    assert (heap_pages !! i = Some (HEAP_START + page_size * Z.of_nat i)) as Hp.
    { apply lookup_lt_Some in Hi. rewrite Hlen in Hi. unfold heap_pages in *.
      rewrite list_lookup_fmap, lookup_seqZ_lt; [done|].
      rewrite length_fmap, length_seqZ in Hi. lia. }
    destruct (pages_mapped_lookup _ _ _ _ _ _ _ heap_pages_nodup Hpm Hp)
      as (g & Hg & Hmap). rewrite Hi in Hg. simplify_eq. split; [done|].
    apply Hf. by eapply list_elem_of_lookup_2.
  - intros p Hp. by eapply mapped_other.
Qed.

Lemma get_virtual_address_done (m : MP) addr :
  (phys_offset m + addr) mod 2 ^ 64 ≠ 0 →
  get_virtual_address addr (Locked (L := L) lock_free m) =
    (Done ((phys_offset m + addr) mod 2 ^ 64), Locked lock_free m).
Proof. intros Hptr. apply with_lock_done. mred. by rewrite decide_False. Qed.

Lemma get_virtual_address_null (m : MP) addr :
  (phys_offset m + addr) mod 2 ^ 64 = 0 →
  ∃ l w, get_virtual_address addr (Locked (L := L) lock_free m) = (Panic w, Locked l m) ∧
         try_acquire l = None.
Proof.
  intros Hptr. destruct try_acquire_free as (l & Hl & _). unfold get_virtual_address, with_lock; simpl.
  rewrite Hl. mred. rewrite decide_True by done.
  eexists l, _. split; [done|]. by eapply try_acquire_excl.
Qed.

(** The pointer for a physical address is the address shifted by the offset of the
    mapping, modulo 2^64; only when that sum wraps to zero does the routine panic, and then
    it leaves the mapper locked. *)
Theorem get_virtual_address_cases (m : MP) addr :
  let ptr := (phys_offset m + addr) mod 2 ^ 64 in
  if decide (ptr = 0) then
    ∃ l w, get_virtual_address addr (Locked (L := L) lock_free m) = (Panic w, Locked l m) ∧
           try_acquire l = None
  else get_virtual_address addr (Locked (L := L) lock_free m) =
         (Done ptr, Locked lock_free m).
Proof.
  intros ptr. case_decide; [by apply get_virtual_address_null|by apply get_virtual_address_done].
Qed.

End claims.

(** ** A run *)

#[local] Existing Instance debug_profile.
#[local] Existing Instance bit_lock.
#[local] Existing Instance num_addr.
#[local] Existing Instance simple_mapper.
#[local] Existing Instance counter_allocator.
#[local] Existing Instance counter_source.

(** Nothing mapped, and 513 frames: the heap's 512 and one for a page table. *)
Definition boot_machine : table_mapper * counter :=
  (mkTables 0 [] ∅, mkCounter 0x400000 513 0).

Definition boot_run :=
  init_heap (boot_machine, Locked false LinkedListAllocator_new).

Lemma boot_run_result :
  boot_run.1 = Done (ROk ()) ∧
  mapped boot_run.2.1.1 !! HEAP_START = Some (0x400000, Z.lor PRESENT WRITABLE).
Proof. split; vm_compute; reflexivity. Qed.

Lemma init_heap_cases_witness :
  ∃ s' a, boot_run = (Done (ROk ()), (s', a)) ∧ heap_boot (Heap a []) ∧
    mapped s'.1 !! HEAP_START = Some (0x400000, Z.lor PRESENT WRITABLE).
Proof.
  destruct (@init_heap_cases _ _ num_addr_laws bool _ bit_lock_laws _ _ simple_mapper_laws
    _ _ _ counter_source_laws boot_machine) as (r & s' & a & E & Hr).
  { simpl. lia. }
  { intros f Hf. apply elem_of_list_to_set in Hf. inversion Hf. }
  change (init_heap _) with boot_run in E.
  pose proof boot_run_result as [E1 E2]. rewrite E in E1, E2.
  injection E1 as ->. exists s', a. split; [exact E|]. split; [apply Hr|exact E2].
Defined.

Lemma get_virtual_address_cases_witness :
  get_virtual_address 0xfee00000 (Locked false (mkTables 0xffff800000000000 [] ∅)) =
    (Done 0xffff8000fee00000, Locked false (mkTables 0xffff800000000000 [] ∅)).
Proof.
  exact (@get_virtual_address_cases bool _ bit_lock_laws _ _
    (mkTables 0xffff800000000000 [] ∅) 0xfee00000).
Defined.
