(* ===== verification/Machine.v ===== *)
(** * Memory as bytes.

    Memory is a total map from addresses to bytes; multi-byte values are stored in little
    endian order, as on x86-64. *)

From stdpp Require Import list_numbers.
From S2P Require Import Prelude.

Local Open Scope Z_scope.

Definition memory : Type := Z → Z.

Definition load_bytes (m : memory) (a n : Z) : list Z := (λ i, m (a + i)) <$> seqZ 0 n.

Definition store_bytes (a : Z) (bs : list Z) (m : memory) : memory := λ x,
  if decide (a ≤ x < a + Z.of_nat (length bs)) then default (m x) (bs !! Z.to_nat (x - a))
  else m x.

(** Words of [n] bytes. *)
Definition load_word (n : Z) (m : memory) (a : Z) : Z :=
  little_endian_to_Z 8 (load_bytes m a n).
Definition store_word (n : Z) (a v : Z) (m : memory) : memory :=
  store_bytes a (Z_to_little_endian n 8 v) m.

Abbreviation load64 := (load_word 8).
Abbreviation load16 := (load_word 2).
Abbreviation store64 := (store_word 8).
Abbreviation store16 := (store_word 2).

(** ** Lemmas *)

Lemma length_load_bytes m a n : 0 ≤ n → Z.of_nat (length (load_bytes m a n)) = n.
Proof. intros. unfold load_bytes. rewrite length_fmap, length_seqZ. lia. Qed.

Lemma store_bytes_in a bs m x b :
  a ≤ x → bs !! Z.to_nat (x - a) = Some b → store_bytes a bs m x = b.
Proof.
  intros ? E. unfold store_bytes. rewrite decide_True, E; [done|].
  apply lookup_lt_Some in E. lia.
Qed.

Lemma store_bytes_out a bs m x :
  x < a ∨ a + Z.of_nat (length bs) ≤ x → store_bytes a bs m x = m x.
Proof.
  intros Hx. unfold store_bytes. by rewrite decide_False by lia.
Qed.

Lemma load_bytes_ext m m' a n :
  (∀ x, a ≤ x < a + n → m x = m' x) → load_bytes m a n = load_bytes m' a n.
Proof.
  intros Hm. apply list_fmap_ext. intros i j [-> ?]%lookup_seqZ. apply Hm. lia.
Qed.

Lemma load_store_bytes a bs m :
  load_bytes (store_bytes a bs m) a (Z.of_nat (length bs)) = bs.
Proof.
  apply list_eq. intros i. unfold load_bytes. rewrite list_lookup_fmap.
  destruct (decide (i < length bs)%nat) as [Hi|Hi].
  - rewrite lookup_seqZ_lt by lia. simpl.
    destruct (lookup_lt_is_Some_2 bs i Hi) as [b Hb]. rewrite Hb.
    f_equal. apply store_bytes_in; [lia|].
    by replace (Z.to_nat (a + (0 + Z.of_nat i) - a)) with i by lia.
  - rewrite lookup_seqZ_ge by lia. by rewrite lookup_ge_None_2 by lia.
Qed.

Lemma load_store_bytes_other a bs m a' n :
  a' + n ≤ a ∨ a + Z.of_nat (length bs) ≤ a' →
  load_bytes (store_bytes a bs m) a' n = load_bytes m a' n.
Proof. intros. apply load_bytes_ext. intros x ?. apply store_bytes_out. lia. Qed.

Lemma length_store_word n v : 0 ≤ n → Z.of_nat (length (Z_to_little_endian n 8 v)) = n.
Proof. intros. by rewrite length_Z_to_little_endian by lia. Qed.

Lemma load_store_word n a v m :
  0 ≤ n → 0 ≤ v < 2 ^ (8 * n) → load_word n (store_word n a v m) a = v.
Proof.
  intros Hn Hv. unfold load_word, store_word.
  pose proof (load_store_bytes a (Z_to_little_endian n 8 v) m) as E.
  rewrite length_store_word in E by done. rewrite E.
  rewrite little_endian_to_Z_to_little_endian by lia.
  apply Z.mod_small. by rewrite Z.mul_comm.
Qed.

Lemma load_store_word_other n a v m n' a' :
  0 ≤ n → a' + n' ≤ a ∨ a + n ≤ a' →
  load_word n' (store_word n a v m) a' = load_word n' m a'.
Proof.
  intros Hn Ha. unfold load_word, store_word. f_equal. apply load_store_bytes_other.
  by rewrite length_store_word.
Qed.

Lemma load_word_ext n m m' a :
  (∀ x, a ≤ x < a + n → m x = m' x) → load_word n m a = load_word n m' a.
Proof. intros. unfold load_word. f_equal. by apply load_bytes_ext. Qed.
