(* ===== verification/Statics.v ===== *)
(** * Statics behind a [OnceCell] and a lock.

    [PROCESS_LIST], [CURRENT_PROCESS], [FRAME_ALLOCATOR], [LAPIC] and [LOGGER] are cells
    that hold a lock around a value.  Taking the guard, using the value through it and
    dropping it are separate steps here, because the scheduler calls routines that take a
    guard it already holds. *)

From S2P Require Import Prelude Crates.

(** Where a component lies in a larger state. *)
Record lens (S T : Type) : Type := Lens { lget : S → T; lput : T → S → S }.
Arguments Lens {S T} lget lput.
Arguments lget {S T} _ _.
Arguments lput {S T} _ _ _.

(** Run code on the component alone. *)
Definition on {S T A} (x : lens S T) (m : M T A) : M S A := zoom (lget x) (lput x) m.

Definition fst_lens {A B} : lens (A * B) A := Lens fst (λ x s, (x, s.2)).
Definition snd_lens {A B} : lens (A * B) B := Lens snd (λ x s, (s.1, x)).

Lemma on_done {S T A} (x : lens S T) (m : M T A) s a t :
  m (lget x s) = (Done a, t) → on x m s = (Done a, lput x t s).
Proof. apply zoom_done. Qed.

Section statics.
Context {C : Type → Type} `{OnceCell C} {L T : Type}.

Definition unwrap_none : string := "called `Option::unwrap()` on a `None` value".

(** [CELL.get().unwrap()] and one more step on the lock inside; a step that cannot be
    taken can never be: nothing else runs. *)
Definition static_step (step : L → option L) : M (C (locked L T)) () :=
  c ← get_state;
  l ← liftO (expect unwrap_none (cell_get c));
  match step (lk_raw l) with
  | None => hang
  | Some h => put_state (cell_modify (λ l, Locked h (lk_data l)) c)
  end.

Definition static_acquire `{RawLock L} : M (C (locked L T)) () := static_step try_acquire.
Definition static_release `{RawLock L} : M (C (locked L T)) () :=
  static_step (λ l, Some (release l)).
Definition static_read `{RawRwLock L} : M (C (locked L T)) () := static_step try_read.
Definition static_unread `{RawRwLock L} : M (C (locked L T)) () :=
  static_step (λ l, Some (release_read l)).
Definition static_write `{RawRwLock L} : M (C (locked L T)) () := static_step try_write.
Definition static_unwrite `{RawRwLock L} : M (C (locked L T)) () :=
  static_step (λ l, Some (release_write l)).

(** The value behind the guard, and an update of it. *)
Definition guard_get : M (C (locked L T)) T :=
  c ← get_state;
  l ← liftO (expect unwrap_none (cell_get c));
  mret (lk_data l).
Definition guard_modify (f : T → T) : M (C (locked L T)) () :=
  modify_state (cell_modify (λ l, Locked (lk_raw l) (f (lk_data l)))).

(** The cell holds this lock and this value. *)
Definition cell_is (l : L) (d : T) (c : C (locked L T)) : Prop := cell_get c = Some (Locked l d).

Context `{!OnceCellLaws C}.

Lemma static_step_done step l h d c :
  cell_is l d c → step l = Some h →
  ∃ c', static_step step c = (Done (), c') ∧ cell_is h d c'.
Proof.
  intros Hc Hs. unfold static_step. mred. rewrite Hc. mred. simpl. rewrite Hs.
  eexists. split; [done|]. unfold cell_is in *. by rewrite cell_get_modify, Hc.
Qed.

Lemma static_step_hangs step l d c :
  cell_is l d c → step l = None → static_step step c = (Hang, c).
Proof. intros Hc Hs. unfold static_step. mred. rewrite Hc. mred. simpl. by rewrite Hs. Qed.

Lemma guard_get_done l d c : cell_is l d c → guard_get c = (Done d, c).
Proof. intros Hc. unfold guard_get. mred. rewrite Hc. by mred. Qed.

Lemma guard_modify_done f l d c :
  cell_is l d c → ∃ c', guard_modify f c = (Done (), c') ∧ cell_is l (f d) c'.
Proof.
  intros Hc. eexists. split; [done|]. unfold cell_is in *. by rewrite cell_get_modify, Hc.
Qed.

End statics.
