(* ===== verification/Sched.v ===== *)
(** * The scheduler: kernel/src/sched.rs, without the program loader (Loader.v). *)

From S2P Require Import Prelude Crates Statics Machine.

Local Open Scope Z_scope.

(** ** Data *)

Inductive Status := READY | RUNNING | DEAD.
#[export] Instance Status_eq_dec : EqDecision Status.
Proof. solve_decision. Defined.

(** [_kernel_stack] is the address of the box; [mapper] names a shared mapper. *)
Record Process := mkProcess {
  _id : Z;
  status : Status;
  rsp : Z;
  _kernel_stack : option Z;
  mapper : option nat;
  pages : option Z;
}.

Definition set_status (x : Status) (p : Process) : Process :=
  mkProcess (_id p) x (rsp p) (_kernel_stack p) (mapper p) (pages p).
Definition set_rsp (x : Z) (p : Process) : Process :=
  mkProcess (_id p) (status p) x (_kernel_stack p) (mapper p) (pages p).
Definition set_pages (x : option Z) (p : Process) : Process :=
  mkProcess (_id p) (status p) (rsp p) (_kernel_stack p) (mapper p) x.

Record sched (C : Type → Type) (L RW : Type) : Type := mkSched {
  PROCESS_LIST : C (locked L (list Process));
  CURRENT_PROCESS : C (locked RW nat);
}.
Arguments mkSched {C L RW} _ _.
Arguments PROCESS_LIST {C L RW} _.
Arguments CURRENT_PROCESS {C L RW} _.

(** [vec[i]] and [vec[i].field = ..] *)
Definition vec_index {A} (l : list A) (i : nat) : outcome A :=
  expect "index out of bounds" (l !! i).

Section sched.
Context {C : Type → Type} `{OnceCell C} {L RW : Type} `{RawLock L, RawRwLock RW}.

Definition PROCESS_LIST_lens : lens (sched C L RW) (C (locked L (list Process))) :=
  Lens PROCESS_LIST (λ x s, mkSched x (CURRENT_PROCESS s)).
Definition CURRENT_PROCESS_lens : lens (sched C L RW) (C (locked RW nat)) :=
  Lens CURRENT_PROCESS (λ x s, mkSched (PROCESS_LIST s) x).

Abbreviation on_list := (on PROCESS_LIST_lens).
Abbreviation on_current := (on CURRENT_PROCESS_lens).

Definition update_process (i : nat) (f : Process → Process) : M (sched C L RW) () :=
  procs ← on_list guard_get;
  _ ← liftO (vec_index procs i);
  on_list (guard_modify (alter f i)).

(** ** Operations *)

Definition sched_uninit : sched C L RW := mkSched cell_uninit cell_uninit.

Definition init : M (sched C L RW) () :=
  on_list (modify_state (cell_init_once
    (Locked lock_free [mkProcess 0 RUNNING 0 None None None])));;
  on_current (modify_state (cell_init_once (Locked rw_free 0%nat))).

(** [proc_list.push(process)] under the lock, interrupts off. *)
Definition push_process (p : Process) : M (sched C L RW) () :=
  on_list static_acquire;;
  on_list (guard_modify (λ procs, procs ++ [p]));;
  on_list static_release.

Definition delete_process (index : nat) : M (sched C L RW) () :=
  on_list static_acquire;;
  procs ← on_list guard_get;
  (if decide (index < length procs)%nat then on_list (guard_modify (delete index))
   else panic "removal index should be < len");;
  on_list static_release.

Definition mark_current_as_dead : M (sched C L RW) () :=
  on_list static_acquire;;
  on_current static_read;;
  index ← on_current guard_get;
  update_process index (set_status DEAD);;
  on_current static_unread;;
  on_list static_release.

(** The loop of [schedule].  Nothing else changes the list meanwhile, so a search that has
    met no ready process after as many rounds as there are processes never ends. *)
Fixpoint schedule_loop (fuel : nat) : M (sched C L RW) () :=
  match fuel with
  | O => hang
  | S fuel =>
      on_current (guard_modify S);;
      index ← on_current guard_get;
      procs ← on_list guard_get;
      (if decide (length procs ≤ index)%nat then on_current (guard_modify (λ _, 0%nat))
       else mret ());;
      index ← on_current guard_get;
      p ← liftO (vec_index procs index);
      if decide (status p = READY) then update_process index (set_status RUNNING)
      else schedule_loop fuel
  end.

Definition schedule (old_rsp : Z) : M (sched C L RW) Z :=
  on_current static_write;;
  on_list static_acquire;;
  index ← on_current guard_get;
  update_process index (set_rsp old_rsp);;
  procs ← on_list guard_get;
  p ← liftO (vec_index procs index);
  (if decide (status p ≠ DEAD) then update_process index (set_status READY)
   else delete_process index);;
  procs ← on_list guard_get;
  schedule_loop (length procs);;
  index ← on_current guard_get;
  procs ← on_list guard_get;
  p ← liftO (vec_index procs index);
  on_list static_release;;
  on_current static_unwrite;;
  mret (rsp p).

(** ** [add_process] *)

Context `{X86Addr, X86Segment}.

(** The fields of [InterruptStackFrameValue] by offset: [instruction_pointer] 0,
    [code_segment] 8, [cpu_flags] 16, [stack_pointer] 24, [stack_segment] 32. *)
Definition write_stack_frame (frame ip cs flags sp ss : Z) (m : memory) : memory :=
  store16 (frame + 32) ss (store64 (frame + 24) sp (store64 (frame + 16) flags
    (store16 (frame + 8) cs (store64 frame ip m)))).

Definition KERNEL_STACK_SIZE : Z := 0x4000.

(** [rflags] is what [rflags::read] returned and [kernel_stack] the address of the new
    box, which [Box::new] filled with zeros. *)
Definition add_process (entry rflags kernel_stack : Z) : M (sched C L RW * memory) () :=
  on fst_lens (on_list static_acquire);;
  let cpu_flags := Z.lor rflags INTERRUPT_FLAG in
  modify_state (λ s,
    (s.1, store_bytes kernel_stack (replicate (Z.to_nat KERNEL_STACK_SIZE) 0) s.2));;
  let frame := kernel_stack + 120 in
  ip ← liftO (VirtAddr_new entry);
  modify_state (λ s, (s.1, store64 (frame + 16) cpu_flags
    (store16 (frame + 8) (SegmentSelector_new 1 Ring0) (store64 frame ip s.2))));;
  sp ← liftO (VirtAddr_new (kernel_stack + KERNEL_STACK_SIZE));
  modify_state (λ s, (s.1, store16 (frame + 32) (SegmentSelector_new 2 Ring0)
    (store64 (frame + 24) sp s.2)));;
  on fst_lens (on_list (guard_modify (λ procs,
    procs ++ [mkProcess 1 READY kernel_stack (Some kernel_stack) None None])));;
  on fst_lens (on_list static_release).

End sched.
