(* ===== verification/SchedSpec.v ===== *)
(** * What the scheduler computes: a round-robin queue.

    [RoundRobin] is the specification on a plain list of processes; the lemmas show that
    the routines of kernel/src/sched.rs, locks and cells included, implement it. *)

From S2P Require Import Prelude Crates Statics Machine Sched.

(** ** Specification *)

Module RoundRobin.

(** The first index at or after [i], cyclically, whose process is ready. *)
Fixpoint next (fuel : nat) (procs : list Process) (i : nat) : option nat :=
  match fuel with
  | O => None
  | S fuel =>
      let j := if decide (length procs ≤ S i) then 0 else S i in
      match procs !! j with
      | Some p => if decide (status p = READY) then Some j else next fuel procs j
      | None => None
      end
  end.

(** The interrupted process becomes ready and keeps its stack pointer. *)
Definition suspend (cur : nat) (rsp : Z) (procs : list Process) : list Process :=
  alter (set_status READY) cur (alter (set_rsp rsp) cur procs).

Definition resume (j : nat) (procs : list Process) : list Process :=
  alter (set_status RUNNING) j procs.

End RoundRobin.

(** [next] finds the nearest ready process, and finds one if there is one. *)
Lemma next_nearest fuel procs i j :
  i < length procs → RoundRobin.next fuel procs i = Some j →
  ∃ d, 1 ≤ d ≤ fuel ∧ j = (i + d) `mod` length procs ∧
    (∃ p, procs !! j = Some p ∧ status p = READY) ∧
    ∀ d' p, 1 ≤ d' < d → procs !! ((i + d') `mod` length procs) = Some p → status p ≠ READY.
Proof.
  revert i. induction fuel as [|fuel IH]; intros i Hi Hn; simpl in Hn; [done|].
  set (k := if decide (length procs ≤ S i) then 0 else S i) in *.
  assert (k = (i + 1) `mod` length procs) as Hk.
  { unfold k. case_decide.
    - replace (i + 1) with (length procs) by lia. by rewrite Nat.Div0.mod_same.
    - rewrite Nat.mod_small; lia. }
  assert (k < length procs) as Hkl by (rewrite Hk; apply Nat.mod_upper_bound; lia).
  destruct (lookup_lt_is_Some_2 procs k Hkl) as [p Hp]. rewrite Hp in Hn.
  case_decide as Hr.
  - simplify_eq. exists 1. split_and!; [lia|lia|done|eauto|]. intros. lia.
  - destruct (IH k Hkl Hn) as (d & ? & -> & Hrd & Hno). exists (S d).
    assert (∀ x, (k + x) `mod` length procs = (i + S x) `mod` length procs) as Hs.
    { intros x. rewrite Hk, Nat.Div0.add_mod_idemp_l. f_equal. lia. }
    split_and!; [lia|lia|apply Hs|done|].
    intros [|d'] q ? Hq; [lia|]. destruct (decide (d' = 0)) as [->|].
    + rewrite <-Hk, Hp in Hq. by simplify_eq.
    + apply (Hno d'); [lia|]. by rewrite Hs.
Qed.

Lemma next_found fuel procs i d p :
  i < length procs → 1 ≤ d ≤ fuel →
  procs !! ((i + d) `mod` length procs) = Some p → status p = READY →
  ∃ j, RoundRobin.next fuel procs i = Some j.
Proof.
  revert i d. induction fuel as [|fuel IH]; intros i d Hi Hd Hp Hr; [lia|]. simpl.
  set (k := if decide (length procs ≤ S i) then 0 else S i).
  assert (k = (i + 1) `mod` length procs) as Hk.
  { unfold k. case_decide.
    - replace (i + 1) with (length procs) by lia. by rewrite Nat.Div0.mod_same.
    - rewrite Nat.mod_small; lia. }
  assert (k < length procs) as Hkl by (rewrite Hk; apply Nat.mod_upper_bound; lia).
  destruct (lookup_lt_is_Some_2 procs k Hkl) as [q Hq]. rewrite Hq.
  case_decide; [eauto|]. destruct (decide (d = 1)) as [->|].
  - rewrite <-Hk, Hq in Hp. by simplify_eq.
  - apply (IH k (d - 1)); [done|lia| |done].
    rewrite Hk, Nat.Div0.add_mod_idemp_l.
    by replace (i + 1 + (d - 1)) with (i + d) by lia.
Qed.

(** ** The routines on idle locks *)

Section steps.
Context {C : Type → Type} `{OnceCellLaws C} {L RW : Type} `{RawLock L, RawRwLock RW}.
Implicit Types s : sched C L RW.

(** The two statics: the state of each lock and the value behind it. *)
Definition sched_is (rl : L) (procs : list Process) (rc : RW) (cur : nat) s : Prop :=
  cell_is rl procs (PROCESS_LIST s) ∧ cell_is rc cur (CURRENT_PROCESS s).

Lemma list_step_done st rl h procs rc cur s :
  sched_is rl procs rc cur s → st rl = Some h →
  ∃ s', on PROCESS_LIST_lens (static_step st) s = (Done (), s') ∧ sched_is h procs rc cur s'.
Proof.
  intros [Hl Hc] Hst. destruct (static_step_done st rl h procs _ Hl Hst) as (c & E & Hc').
  eexists. split; [by apply zoom_done|]. by split.
Qed.

Lemma list_step_hangs st rl procs rc cur s :
  sched_is rl procs rc cur s → st rl = None →
  on PROCESS_LIST_lens (static_step st) s = (Hang, s).
Proof.
  intros [Hl _] Hst. unfold on, zoom. simpl.
  rewrite (static_step_hangs st rl procs _ Hl Hst). by destruct s.
Qed.

Lemma list_get_done rl procs rc cur s :
  sched_is rl procs rc cur s → on PROCESS_LIST_lens guard_get s = (Done procs, s).
Proof.
  intros [Hl _]. unfold on, zoom. simpl. rewrite (guard_get_done _ _ _ Hl). by destruct s.
Qed.

Lemma list_modify_done f rl procs rc cur s :
  sched_is rl procs rc cur s →
  ∃ s', on PROCESS_LIST_lens (guard_modify f) s = (Done (), s') ∧ sched_is rl (f procs) rc cur s'.
Proof.
  intros [Hl Hc]. destruct (guard_modify_done f rl procs _ Hl) as (c & E & Hc').
  eexists. split; [by apply zoom_done|]. by split.
Qed.

Lemma current_step_done st rl procs rc h cur s :
  sched_is rl procs rc cur s → st rc = Some h →
  ∃ s', on CURRENT_PROCESS_lens (static_step st) s = (Done (), s') ∧ sched_is rl procs h cur s'.
Proof.
  intros [Hl Hc] Hst. destruct (static_step_done st rc h cur _ Hc Hst) as (c & E & Hc').
  eexists. split; [by apply zoom_done|]. by split.
Qed.

Lemma current_step_hangs st rl procs rc cur s :
  sched_is rl procs rc cur s → st rc = None →
  on CURRENT_PROCESS_lens (static_step st) s = (Hang, s).
Proof.
  intros [_ Hc] Hst. unfold on, zoom. simpl.
  rewrite (static_step_hangs st rc cur _ Hc Hst). by destruct s.
Qed.

Lemma current_get_done rl procs rc cur s :
  sched_is rl procs rc cur s → on CURRENT_PROCESS_lens guard_get s = (Done cur, s).
Proof.
  intros [_ Hc]. unfold on, zoom. simpl. rewrite (guard_get_done _ _ _ Hc). by destruct s.
Qed.

Lemma current_modify_done f rl procs rc cur s :
  sched_is rl procs rc cur s →
  ∃ s', on CURRENT_PROCESS_lens (guard_modify f) s = (Done (), s') ∧
        sched_is rl procs rc (f cur) s'.
Proof.
  intros [Hl Hc]. destruct (guard_modify_done f rc cur _ Hc) as (c & E & Hc').
  eexists. split; [by apply zoom_done|]. by split.
Qed.

Lemma update_process_done i f p rl procs rc cur s :
  sched_is rl procs rc cur s → procs !! i = Some p →
  ∃ s', update_process i f s = (Done (), s') ∧ sched_is rl (alter f i procs) rc cur s'.
Proof.
  intros Hs Hp. unfold update_process, vec_index.
  rewrite (mbind_done _ _ _ _ _ (list_get_done _ _ _ _ _ Hs)), Hp. mred.
  by apply (list_modify_done (alter f i)).
Qed.

Lemma update_process_panics i f rl procs rc cur s :
  sched_is rl procs rc cur s → procs !! i = None →
  update_process i f s = (Panic "index out of bounds", s).
Proof.
  intros Hs Hp. unfold update_process, vec_index.
  rewrite (mbind_done _ _ _ _ _ (list_get_done _ _ _ _ _ Hs)), Hp. by mred.
Qed.

End steps.

(** Run the next call with the lemma [H] about it, which also takes the predicate from the
    state before to the state after. *)
Ltac sstep Hs H :=
  let s' := fresh "s" in let E := fresh "E" in let Hn := fresh "Hs" in
  destruct H as (s' & E & Hn); rewrite (mbind_done _ _ _ _ _ E); clear Hs E; rename Hn into Hs.
Ltac slast Hs H :=
  let s' := fresh "s" in let E := fresh "E" in let Hn := fresh "Hs" in
  destruct H as (s' & E & Hn); rewrite ?E; clear Hs E; rename Hn into Hs.
Ltac sget H := rewrite (mbind_done _ _ _ _ _ H).

Section schedule.
Context {C : Type → Type} `{OnceCellLaws C} {L RW : Type} `{RawLockLaws L, RawRwLockLaws RW}.
Implicit Types s : sched C L RW.

Lemma schedule_loop_done fuel rl procs rc cur s :
  sched_is rl procs rc cur s → 0 < length procs →
  match RoundRobin.next fuel procs cur with
  | Some j => ∃ s', schedule_loop fuel s = (Done (), s') ∧
                    sched_is rl (RoundRobin.resume j procs) rc j s'
  | None => cur < length procs →
      ∃ s' cur', schedule_loop fuel s = (Hang, s') ∧ sched_is rl procs rc cur' s'
  end.
Proof.
  intros Hs Hlen. revert s cur Hs. induction fuel as [|fuel IH]; intros s cur Hs.
  { simpl. intros _. by exists s, cur. }
  cbn [RoundRobin.next schedule_loop].
  sstep Hs (current_modify_done S _ _ _ _ _ Hs).
  sget (current_get_done _ _ _ _ _ Hs). sget (list_get_done _ _ _ _ _ Hs).
  set (j := if decide (length procs ≤ S cur) then 0 else S cur).
  assert (∃ s', (if decide (length procs ≤ S cur)
      then on CURRENT_PROCESS_lens (guard_modify (λ _, 0)) else mret ()) s0 = (Done (), s') ∧
      sched_is rl procs rc j s') as Hw.
  { unfold j. case_decide; [by apply (current_modify_done (λ _, 0) _ _ _ _ _ Hs)|].
    by exists s0. }
  sstep Hs Hw. sget (current_get_done _ _ _ _ _ Hs).
  assert (j < length procs) as Hj by (unfold j; case_decide; lia).
  destruct (lookup_lt_is_Some_2 procs j Hj) as [p Hp].
  unfold vec_index. rewrite Hp. mred. case_decide as Hr.
  - by apply (update_process_done j (set_status RUNNING) p _ _ _ _ _ Hs).
  - specialize (IH _ _ Hs). destruct (RoundRobin.next fuel procs j); [exact IH|].
    intros _. by apply IH.
Qed.

(** Nobody holds either lock. *)
Definition sched_idle (procs : list Process) (cur : nat) s : Prop :=
  sched_is lock_free procs rw_free cur s.

(** Both locks are held for ever. *)
Definition sched_stuck s : Prop :=
  ∃ rl procs rc cur, sched_is rl procs rc cur s ∧
    try_acquire rl = None ∧ try_write rc = None ∧ try_read rc = None.

Lemma suspend_lookup cur r procs p :
  procs !! cur = Some p →
  RoundRobin.suspend cur r procs !! cur = Some (set_status READY (set_rsp r p)).
Proof. intros Hp. unfold RoundRobin.suspend. by rewrite !list_lookup_alter_eq, Hp. Qed.

Lemma suspend_lookup_ne cur r procs i :
  i ≠ cur → RoundRobin.suspend cur r procs !! i = procs !! i.
Proof. intros. unfold RoundRobin.suspend. by rewrite !list_lookup_alter_ne. Qed.

Lemma suspend_length cur r procs : length (RoundRobin.suspend cur r procs) = length procs.
Proof. unfold RoundRobin.suspend. by rewrite !length_alter. Qed.

Lemma vec_index_alter {A} (f : A → A) (l : list A) i x :
  l !! i = Some x → vec_index (alter f i l) i = Done (f x).
Proof. intros Hx. unfold vec_index. by rewrite list_lookup_alter_eq, Hx. Qed.

(** Up to the test of the status. *)
Lemma schedule_prefix rsp1 procs cur p s :
  sched_idle procs cur s → procs !! cur = Some p →
  ∃ rl rc s', try_acquire lock_free = Some rl ∧ release rl = lock_free ∧
    try_write rw_free = Some rc ∧ release_write rc = rw_free ∧
    sched_is rl (alter (set_rsp rsp1) cur procs) rc cur s' ∧
    schedule rsp1 s =
      ((if decide (status p ≠ DEAD) then update_process cur (set_status READY)
        else delete_process cur);;
       procs ← on PROCESS_LIST_lens guard_get;
       schedule_loop (length procs);;
       index ← on CURRENT_PROCESS_lens guard_get;
       procs ← on PROCESS_LIST_lens guard_get;
       p ← liftO (vec_index procs index);
       on PROCESS_LIST_lens static_release;;
       on CURRENT_PROCESS_lens static_unwrite;;
       mret (rsp p)) s'.
Proof.
  intros Hs Hp. destruct try_acquire_free as (rl & Hrl & Hrel).
  destruct try_write_free as (rc & Hrc & Hrelc). unfold schedule, static_acquire, static_write.
  sstep Hs (current_step_done try_write _ _ _ rc _ _ Hs Hrc).
  sstep Hs (list_step_done try_acquire _ rl _ _ _ _ Hs Hrl).
  sget (current_get_done _ _ _ _ _ Hs).
  sstep Hs (update_process_done cur (set_rsp rsp1) p _ _ _ _ _ Hs Hp).
  sget (list_get_done _ _ _ _ _ Hs).
  rewrite (vec_index_alter _ _ _ p Hp), liftO_done_bind.
  exists rl, rc, s2. by split_and!.
Qed.

(** The interrupted process is alive: the switch always succeeds. *)
Lemma schedule_done rsp1 procs cur p s :
  sched_idle procs cur s → procs !! cur = Some p → status p ≠ DEAD →
  let procs1 := RoundRobin.suspend cur rsp1 procs in
  ∃ j q s', RoundRobin.next (length procs) procs1 cur = Some j ∧ procs1 !! j = Some q ∧
    schedule rsp1 s = (Done (rsp q), s') ∧ sched_idle (RoundRobin.resume j procs1) j s'.
Proof.
  intros Hidle Hp Hst procs1.
  destruct (schedule_prefix rsp1 procs cur p s Hidle Hp)
    as (rl & rc & s1 & Hrl & Hrel & Hrc & Hrelc & Hs & ->).
  apply lookup_lt_Some in Hp as Hcur. rewrite decide_True by done.
  sstep Hs (update_process_done cur (set_status READY) (set_rsp rsp1 p) _ _ _ _ _ Hs
    ltac:(by rewrite list_lookup_alter_eq, Hp)).
  change (alter (set_status READY) cur _) with procs1 in Hs.
  sget (list_get_done _ _ _ _ _ Hs).
  assert (length procs1 = length procs) as Hlen by apply suspend_length. rewrite Hlen.
  destruct (next_found (length procs) procs1 cur (length procs)
    (set_status READY (set_rsp rsp1 p))) as [j Hj]; [lia|lia| |done|].
  { rewrite Hlen, <-(Nat.mul_1_l (length procs)) at 1.
    rewrite Nat.Div0.mod_add, Nat.mod_small by lia. by apply suspend_lookup. }
  pose proof (schedule_loop_done (length procs) _ _ _ _ _ Hs ltac:(lia)) as Hloop.
  rewrite Hj in Hloop. sstep Hs Hloop.
  sget (current_get_done _ _ _ _ _ Hs). sget (list_get_done _ _ _ _ _ Hs).
  destruct (next_nearest (length procs) procs1 cur j ltac:(lia) Hj) as (_ & _ & _ & (q & Hq & _) & _).
  unfold RoundRobin.resume. rewrite (vec_index_alter _ _ _ q Hq), liftO_done_bind.
  sstep Hs (list_step_done (λ l, Some (release l)) _ (release rl) _ _ _ _ Hs eq_refl).
  sstep Hs (current_step_done (λ l, Some (release_write l)) _ _ _ (release_write rc) _ _ Hs
    eq_refl).
  rewrite Hrel, Hrelc in Hs. exists j, q, s4. split_and!; [done|done| |done]. by mred.
Qed.

(** The interrupted process is dead: [delete_process] waits for the list that [schedule]
    holds. *)
Lemma schedule_dead rsp1 procs cur p s :
  sched_idle procs cur s → procs !! cur = Some p → status p = DEAD →
  ∃ s', schedule rsp1 s = (Hang, s') ∧ sched_stuck s'.
Proof.
  intros Hidle Hp Hst.
  destruct (schedule_prefix rsp1 procs cur p s Hidle Hp)
    as (rl & rc & s1 & Hrl & _ & Hrc & _ & Hs & ->).
  rewrite decide_False by (intros Hn; by apply Hn).
  exists s1. split.
  - apply mbind_hang. apply mbind_hang. eapply list_step_hangs; [exact Hs|].
    by eapply try_acquire_excl.
  - destruct (try_write_excl _ _ Hrc) as [? ?].
    exists rl, (alter (set_rsp rsp1) cur procs), rc, cur. split_and!; [done| |done|done].
    by eapply try_acquire_excl.
Qed.

(** A list with the current index out of range cannot be scheduled. *)
Lemma schedule_out_of_range rsp1 procs cur s :
  sched_idle procs cur s → procs !! cur = None →
  ∃ s', schedule rsp1 s = (Panic "index out of bounds", s') ∧ sched_stuck s'.
Proof.
  intros Hs Hp. destruct try_acquire_free as (rl & Hrl & Hrel).
  destruct try_write_free as (rc & Hrc & Hrelc). unfold schedule, static_acquire, static_write.
  sstep Hs (current_step_done try_write _ _ _ rc _ _ Hs Hrc).
  sstep Hs (list_step_done try_acquire _ rl _ _ _ _ Hs Hrl).
  sget (current_get_done _ _ _ _ _ Hs).
  erewrite mbind_panic; [|by eapply update_process_panics].
  eexists. split; [done|]. destruct (try_write_excl _ _ Hrc).
  exists rl, procs, rc, cur. split_and!; [done| |done|done]. by eapply try_acquire_excl.
Qed.

(** Every routine that needs the list waits for ever once the locks are stuck. *)
Lemma stuck_hangs rsp1 p i s :
  sched_stuck s →
  schedule rsp1 s = (Hang, s) ∧ push_process p s = (Hang, s) ∧
  delete_process i s = (Hang, s) ∧ mark_current_as_dead s = (Hang, s).
Proof.
  intros (rl & procs & rc & cur & Hs & Hl & Hw & _).
  pose proof (list_step_hangs try_acquire _ _ _ _ _ Hs Hl) as Hlist.
  pose proof (current_step_hangs try_write _ _ _ _ _ Hs Hw) as Hcur.
  split_and!; by apply mbind_hang.
Qed.

Lemma push_process_done p procs cur s :
  sched_idle procs cur s →
  ∃ s', push_process p s = (Done (), s') ∧ sched_idle (procs ++ [p]) cur s'.
Proof.
  intros Hs. destruct try_acquire_free as (rl & Hrl & Hrel). unfold push_process, static_acquire.
  sstep Hs (list_step_done try_acquire _ rl _ _ _ _ Hs Hrl).
  sstep Hs (list_modify_done (λ l, l ++ [p]) _ _ _ _ _ Hs).
  destruct (list_step_done (λ l, Some (release l)) _ (release rl) _ _ _ _ Hs eq_refl)
    as (s' & E & Hs'). rewrite Hrel in Hs'. by exists s'.
Qed.

Lemma delete_process_done i procs cur s :
  sched_idle procs cur s → i < length procs →
  ∃ s', delete_process i s = (Done (), s') ∧ sched_idle (delete i procs) cur s'.
Proof.
  intros Hs Hi. destruct try_acquire_free as (rl & Hrl & Hrel).
  unfold delete_process, static_acquire.
  sstep Hs (list_step_done try_acquire _ rl _ _ _ _ Hs Hrl).
  sget (list_get_done _ _ _ _ _ Hs). rewrite decide_True by done.
  sstep Hs (list_modify_done (delete i) _ _ _ _ _ Hs).
  destruct (list_step_done (λ l, Some (release l)) _ (release rl) _ _ _ _ Hs eq_refl)
    as (s' & E & Hs'). rewrite Hrel in Hs'. by exists s'.
Qed.

Lemma mark_current_as_dead_done procs cur p s :
  sched_idle procs cur s → procs !! cur = Some p →
  ∃ s', mark_current_as_dead s = (Done (), s') ∧
        sched_idle (alter (set_status DEAD) cur procs) cur s'.
Proof.
  intros Hs Hp. destruct try_acquire_free as (rl & Hrl & Hrel).
  destruct try_read_free as (rc & Hrc & Hrelc).
  unfold mark_current_as_dead, static_acquire, static_read.
  sstep Hs (list_step_done try_acquire _ rl _ _ _ _ Hs Hrl).
  sstep Hs (current_step_done try_read _ _ _ rc _ _ Hs Hrc).
  sget (current_get_done _ _ _ _ _ Hs).
  sstep Hs (update_process_done cur (set_status DEAD) p _ _ _ _ _ Hs Hp).
  sstep Hs (current_step_done (λ l, Some (release_read l)) _ _ _ (release_read rc) _ _ Hs
    eq_refl).
  destruct (list_step_done (λ l, Some (release l)) _ (release rl) _ _ _ _ Hs eq_refl)
    as (s' & E & Hs'). rewrite Hrel, Hrelc in Hs'. by exists s'.
Qed.

Lemma init_done_idle s :
  cell_get (PROCESS_LIST s) = None → cell_get (CURRENT_PROCESS s) = None →
  ∃ s', init s = (Done (), s') ∧ sched_idle [mkProcess 0 RUNNING 0 None None None] 0 s'.
Proof.
  intros Hl Hc. eexists. split; [done|].
  split; unfold cell_is; simpl; by rewrite cell_get_init_once, ?Hl, ?Hc.
Qed.

End schedule.
