(* ===== verification/SchedSafety.v ===== *)
(** * What the scheduler guarantees.

    The system of this file boots the scheduler, adds processes, lets the timer interrupt them
    at any stack pointer and lets them mark themselves as dead. *)

From S2P Require Import Prelude Crates CrateModels Statics Machine Sched SchedSpec.

Section system.
Context {C : Type → Type} `{OnceCell C} {L RW : Type} `{RawLock L, RawRwLock RW}.
Context `{X86Addr, X86Segment}.
Implicit Types s : sched C L RW.

Inductive sched_step : sched C L RW → sched C L RW → Prop :=
  | step_tick rsp1 r s s' : schedule rsp1 s = (Done r, s') → sched_step s s'
  | step_add_process entry rflags stack m m' s s' :
      add_process entry rflags stack (s, m) = (Done (), (s', m')) → sched_step s s'
  | step_push_user p s s' :
      status p = READY → push_process p s = (Done (), s') → sched_step s s'
  | step_mark_dead s s' : mark_current_as_dead s = (Done (), s') → sched_step s s'.

Definition sched_reachable s : Prop :=
  ∃ s0, init sched_uninit = (Done (), s0) ∧ rtc sched_step s0 s.

(** Exactly the current process runs, and the others are ready. *)
Definition one_running (procs : list Process) (cur : nat) : Prop :=
  (∃ p, procs !! cur = Some p ∧ status p = RUNNING) ∧
  ∀ i q, i ≠ cur → procs !! i = Some q → status q = READY.

(** The current process [p] runs or has been marked dead, and the others are ready. *)
Definition current_is (procs : list Process) (cur : nat) (p : Process) : Prop :=
  procs !! cur = Some p ∧ (status p = RUNNING ∨ status p = DEAD) ∧
  ∀ i q, i ≠ cur → procs !! i = Some q → status q = READY.

(** Timer interrupts one after the other, with the stack pointers they find. *)
Fixpoint run_ticks (rsps : list Z) : M (sched C L RW) (list Z) :=
  match rsps with
  | [] => mret []
  | r :: rsps => x ← schedule r; xs ← run_ticks rsps; mret (x :: xs)
  end.

End system.

(** ** One tick *)

Lemma add_mod_ne i d n : i < n → 0 < d < n → (i + d) `mod` n ≠ i.
Proof.
  intros Hi Hd Heq. pose proof (Nat.div_mod_eq (i + d) n) as Hdm. rewrite Heq in Hdm.
  destruct ((i + d) / n); nia.
Qed.

(** All others being ready, the next process is the one after the current one. *)
Lemma next_successor fuel procs cur :
  cur < length procs → 0 < fuel →
  (∀ i q, procs !! i = Some q → status q = READY) →
  RoundRobin.next fuel procs cur = Some ((cur + 1) `mod` length procs).
Proof.
  intros Hcur Hf Hr. destruct fuel as [|fuel]; [lia|]. simpl.
  assert ((if decide (length procs ≤ S cur) then 0 else S cur) = (cur + 1) `mod` length procs)
    as ->.
  { case_decide.
    - replace (cur + 1) with (length procs) by lia. by rewrite Nat.Div0.mod_same.
    - rewrite Nat.mod_small; lia. }
  destruct (lookup_lt_is_Some_2 procs ((cur + 1) `mod` length procs)) as [p Hp].
  { apply Nat.mod_upper_bound. lia. }
  rewrite Hp. by rewrite decide_True by eauto.
Qed.

Lemma suspend_all_ready procs cur r :
  one_running procs cur →
  ∀ i q, RoundRobin.suspend cur r procs !! i = Some q → status q = READY.
Proof.
  intros [(p & Hp & _) Hothers] i q Hq. destruct (decide (i = cur)) as [->|Hne].
  - rewrite (suspend_lookup _ _ _ p Hp) in Hq. by simplify_eq.
  - rewrite suspend_lookup_ne in Hq by done. eauto.
Qed.

Lemma resume_one_running procs j :
  j < length procs → (∀ i q, procs !! i = Some q → status q = READY) →
  one_running (RoundRobin.resume j procs) j.
Proof.
  intros [p Hp]%lookup_lt_is_Some_2 Hr. unfold RoundRobin.resume. split.
  - exists (set_status RUNNING p). by rewrite list_lookup_alter_eq, Hp.
  - intros i q ?. rewrite list_lookup_alter_ne by done. apply Hr.
Qed.

Section ticks.
Context {C : Type → Type} `{OnceCellLaws C} {L RW : Type} `{RawLockLaws L, RawRwLockLaws RW}.
Implicit Types s : sched C L RW.

(** A tick moves to the successor. *)
Lemma tick_exact procs cur r s :
  sched_idle procs cur s → one_running procs cur →
  let j := (cur + 1) `mod` length procs in
  let procs1 := RoundRobin.suspend cur r procs in
  ∃ q s', procs1 !! j = Some q ∧ schedule r s = (Done (rsp q), s') ∧
    sched_idle (RoundRobin.resume j procs1) j s'.
Proof.
  intros Hidle Hone. pose proof Hone as [(p & Hp & Hst) _]. simpl.
  destruct (schedule_done r procs cur p s Hidle Hp) as (j' & q & s' & Hj & Hq & E & Hidle');
    [congruence|].
  apply lookup_lt_Some in Hp as Hcur.
  rewrite next_successor in Hj; [|by rewrite suspend_length|lia|by apply suspend_all_ready].
  rewrite suspend_length in Hj. simplify_eq. eauto.
Qed.

Lemma resume_rsp j procs i : rsp <$> RoundRobin.resume j procs !! i = rsp <$> procs !! i.
Proof.
  unfold RoundRobin.resume. destruct (decide (i = j)) as [->|].
  - rewrite list_lookup_alter_eq. by destruct (procs !! j).
  - by rewrite list_lookup_alter_ne.
Qed.

Lemma resume_length j procs : length (RoundRobin.resume j procs) = length procs.
Proof. apply length_alter. Qed.

(** The state after a tick, process by process. *)
Lemma tick procs cur r s :
  sched_idle procs cur s → one_running procs cur →
  let j := (cur + 1) `mod` length procs in
  ∃ q procs' s', schedule r s = (Done (rsp q), s') ∧ sched_idle procs' j s' ∧
    one_running procs' j ∧ length procs' = length procs ∧
    RoundRobin.suspend cur r procs !! j = Some q ∧
    ∀ i, rsp <$> procs' !! i = rsp <$> RoundRobin.suspend cur r procs !! i.
Proof.
  intros Hidle Hone j. destruct (tick_exact procs cur r s Hidle Hone) as (q & s' & Hq & E & Hs').
  eexists q, _, s'. split_and!; [done|done| | |done|intros i; apply resume_rsp].
  - apply resume_one_running; [by eapply lookup_lt_Some|by apply suspend_all_ready].
  - by rewrite resume_length, suspend_length.
Qed.

(** Any number of ticks. *)
Lemma run_ticks_done rsps procs cur s :
  sched_idle procs cur s → one_running procs cur →
  ∃ outs procs' s', run_ticks rsps s = (Done outs, s') ∧
    sched_idle procs' ((cur + length rsps) `mod` length procs) s' ∧
    one_running procs' ((cur + length rsps) `mod` length procs) ∧
    length procs' = length procs.
Proof.
  revert procs cur s. induction rsps as [|r rsps IH]; intros procs cur s Hidle Hone.
  - destruct (proj1 Hone) as (p & Hp%lookup_lt_Some & _). simpl.
    rewrite Nat.add_0_r, Nat.mod_small by done. eauto 10.
  - destruct (tick procs cur r s Hidle Hone)
      as (q & procs1 & s1 & E & Hidle1 & Hone1 & Hlen & _).
    destruct (IH _ _ _ Hidle1 Hone1) as (outs & procs2 & s2 & E2 & Hidle2 & Hone2 & Hlen2).
    rewrite Hlen, Nat.Div0.add_mod_idemp_l in *.
    simpl. replace (cur + S (length rsps)) with (cur + 1 + length rsps) by lia.
    eexists (rsp q :: outs), procs2, s2.
    rewrite (mbind_done _ _ _ _ _ E), (mbind_done _ _ _ _ _ E2).
    split_and!; [done|done|done|congruence].
Qed.

(** A suspended process waits its turn with its stack pointer untouched. *)
Lemma waiting_rsp d rsps procs cur r s :
  sched_idle procs cur s → one_running procs cur →
  length rsps = S d → S d < length procs →
  rsp <$> procs !! ((cur + S d) `mod` length procs) = Some r →
  ∃ outs s', run_ticks rsps s = (Done outs, s') ∧ last outs = Some r.
Proof.
  revert rsps procs cur s. induction d as [|d IH];
    intros [|r1 rsps] procs cur s Hidle Hone Hrsps Hd Hr; simplify_eq/=;
    destruct (tick procs cur r1 s Hidle Hone)
      as (q & procs1 & s1 & E & Hidle1 & Hone1 & Hlen & Hq & Hkeep);
    pose proof (proj1 Hone) as (p & Hp%lookup_lt_Some & _);
    rewrite (mbind_done _ _ _ _ _ E).
  - destruct rsps; [|done]. mred. eexists _, s1. split; [done|]. simpl. f_equal.
    rewrite suspend_lookup_ne in Hq; [by rewrite Hq in Hr; simplify_eq/=|].
    apply add_mod_ne; lia.
  - destruct (IH rsps procs1 ((cur + 1) `mod` length procs) s1) as (outs & s2 & E2 & Hlast);
      [done|done|lia|lia| |].
    + rewrite Hlen, Nat.Div0.add_mod_idemp_l, Hkeep.
      replace (cur + 1 + S d) with (cur + S (S d)) by lia.
      rewrite suspend_lookup_ne; [done|]. apply add_mod_ne; lia.
    + rewrite (mbind_done _ _ _ _ _ E2). mred. eexists _, s2. split; [done|].
      destruct outs; [done|]. done.
Qed.

Context `{X86AddrLaws, X86Segment}.

Lemma add_process_idle entry rflags stack m m' procs cur s s' :
  sched_idle procs cur s →
  add_process entry rflags stack (s, m) = (Done (), (s', m')) →
  sched_idle (procs ++ [mkProcess 1 READY stack (Some stack) None None]) cur s'.
Proof.
  intros Hs E. destruct try_acquire_free as (rl & Hrl & Hrel).
  unfold add_process, static_acquire, static_release in E.
  destruct (list_step_done try_acquire _ rl _ _ _ _ Hs Hrl) as (s1 & E1 & Hs1).
  rewrite (mbind_done _ _ _ _ _ (on_done fst_lens _ (s, m) _ _ E1)), modify_bind in E.
  apply liftO_inv_done in E as (ip & _ & E). rewrite modify_bind in E.
  apply liftO_inv_done in E as (sp & _ & E). rewrite modify_bind in E. cbn [fst snd lput fst_lens] in E.
  destruct (list_modify_done (λ procs, procs ++ [mkProcess 1 READY stack (Some stack) None None])
    _ _ _ _ _ Hs1) as (s2 & E2 & Hs2).
  rewrite (mbind_done _ _ _ _ _ (on_done fst_lens _ (s1, _) _ _ E2)) in E.
  cbn [fst snd lput fst_lens] in E.
  destruct (list_step_done (λ l, Some (release l)) _ (release rl) _ _ _ _ Hs2 eq_refl)
    as (s3 & E3 & Hs3).
  rewrite (on_done fst_lens _ (s2, _) _ _ E3) in E. apply (f_equal (λ x, x.2.1)) in E. cbn [fst snd] in E. subst s'.
  by rewrite Hrel in Hs3.
Qed.

(** With addresses that the processor accepts it returns. *)
Lemma add_process_run entry rflags stack m procs cur s :
  sched_idle procs cur s → in_u64 entry → canonical entry →
  in_u64 (stack + KERNEL_STACK_SIZE) → canonical (stack + KERNEL_STACK_SIZE) →
  ∃ s', add_process entry rflags stack (s, m) =
      (Done (), (s', write_stack_frame (stack + 120) entry (SegmentSelector_new 1 Ring0)
        (Z.lor rflags INTERRUPT_FLAG) (stack + KERNEL_STACK_SIZE) (SegmentSelector_new 2 Ring0)
        (store_bytes stack (replicate (Z.to_nat KERNEL_STACK_SIZE) 0%Z) m))) ∧
    sched_idle (procs ++ [mkProcess 1 READY stack (Some stack) None None]) cur s'.
Proof.
  intros Hs He Hce Hsp Hcs. destruct try_acquire_free as (rl & Hrl & Hrel).
  destruct (list_step_done try_acquire _ rl _ _ _ _ Hs Hrl) as (s1 & E1 & Hs1).
  destruct (list_modify_done (λ procs, procs ++ [mkProcess 1 READY stack (Some stack) None None])
    _ _ _ _ _ Hs1) as (s2 & E2 & Hs2).
  destruct (list_step_done (λ l, Some (release l)) _ (release rl) _ _ _ _ Hs2 eq_refl)
    as (s3 & E3 & Hs3). rewrite Hrel in Hs3.
  exists s3. split; [|exact Hs3]. unfold add_process, static_acquire, static_release.
  rewrite (mbind_done _ _ _ _ _ (on_done fst_lens _ (s, m) _ _ E1)), modify_bind.
  rewrite (VirtAddr_new_canonical entry), liftO_done_bind, modify_bind by done.
  rewrite (VirtAddr_new_canonical (stack + _)), liftO_done_bind, modify_bind by done.
  cbn [fst snd lput fst_lens].
  rewrite (mbind_done _ _ _ _ _ (on_done fst_lens _ (s1, _) _ _ E2)).
  cbn [fst snd lput fst_lens]. exact (on_done fst_lens _ (s2, _) _ _ E3).
Qed.

Lemma current_is_running procs cur p :
  current_is procs cur p → status p = RUNNING → one_running procs cur.
Proof. intros (Hp & _ & Hothers) Hst. split; [by exists p|exact Hothers]. Qed.

Lemma one_running_current procs cur :
  one_running procs cur → ∃ p, current_is procs cur p.
Proof. intros [(p & Hp & Hst) Hothers]. exists p. split_and!; auto. Qed.

Lemma current_is_push procs cur p q :
  current_is procs cur p → status q = READY → current_is (procs ++ [q]) cur p.
Proof.
  intros (Hp & Hst & Hothers) Hq. split_and!; [by apply lookup_app_l_Some|done|].
  intros i x Hi Hx. apply lookup_app_Some in Hx as [?|[_ Hx]]; [eauto|].
  by apply list_lookup_singleton_Some in Hx as [_ <-].
Qed.

Lemma current_is_dead procs cur p :
  current_is procs cur p → current_is (alter (set_status DEAD) cur procs) cur (set_status DEAD p).
Proof.
  intros (Hp & _ & Hothers). split_and!; [by rewrite list_lookup_alter_eq, Hp|by right|].
  intros i x Hi Hx. rewrite list_lookup_alter_ne in Hx by done. eauto.
Qed.

Lemma reachable_inv s :
  sched_reachable s → ∃ procs cur p, sched_idle procs cur s ∧ current_is procs cur p.
Proof.
  intros (s0 & E0 & Hsteps).
  destruct (init_done_idle (C := C) (L := L) (RW := RW) sched_uninit)
    as (s1 & E1 & Hidle); [apply cell_get_uninit..|].
  rewrite E0 in E1. simplify_eq.
  assert (∃ procs cur p, sched_idle procs cur s1 ∧ current_is procs cur p) as Hinv.
  { eexists _, _, _. split; [done|]. split; [done|]. split; [by left|].
    intros [|[|i]] q ?; done. }
  clear E0 Hidle. induction Hsteps as [|s1 s2 s3 Hstep _ IH]; [done|]. apply IH.
  destruct Hinv as (procs & cur & p & Hidle & Hcur).
  destruct Hstep as [r x sa sb E|entry rflags stack m m' sa sb E|q sa sb Hq E|sa sb E].
  - destruct (proj1 (proj2 Hcur)) as [Hst|Hst].
    + pose proof (current_is_running _ _ _ Hcur Hst) as Hone.
      destruct (tick procs cur r sa Hidle Hone) as (q & procs1 & s' & E' & ? & Hone1 & _).
      rewrite E in E'. simplify_eq. destruct (one_running_current _ _ Hone1). eauto.
    + destruct (schedule_dead r procs cur p sa Hidle (proj1 Hcur) Hst) as (s' & E' & _).
      by rewrite E in E'.
  - eapply add_process_idle in E; [|done]. eexists _, _, _. split; [done|].
    by apply current_is_push.
  - destruct (push_process_done q procs cur sa Hidle) as (s' & E' & ?).
    rewrite E in E'. simplify_eq. eexists _, _, _. split; [done|]. by apply current_is_push.
  - destruct (mark_current_as_dead_done procs cur p sa Hidle (proj1 Hcur)) as (s' & E' & ?).
    rewrite E in E'. simplify_eq. eexists _, _, _. split; [done|]. by apply current_is_dead.
Qed.

End ticks.

(** ** What the scheduler guarantees *)

Section claims.
Context {C : Type → Type} `{OnceCellLaws C} {L RW : Type} `{RawLockLaws L, RawRwLockLaws RW}.
Context `{X86AddrLaws, X86Segment}.
Implicit Types s : sched C L RW.

(** C19: on a live current process [schedule] saves its stack pointer, makes it ready, runs
    the nearest ready process after it in cyclic order (itself at the latest), returns that
    process's stack pointer and leaves both locks free. *)
Theorem schedule_picks_next_ready rsp1 procs cur p s :
  sched_idle procs cur s → procs !! cur = Some p → status p ≠ DEAD →
  let procs1 := RoundRobin.suspend cur rsp1 procs in
  let at_distance d := (cur + d) `mod` length procs in
  ∃ d q s', 1 ≤ d ≤ length procs ∧ procs1 !! at_distance d = Some q ∧ status q = READY ∧
    (∀ d' p', 1 ≤ d' < d → procs1 !! at_distance d' = Some p' → status p' ≠ READY) ∧
    schedule rsp1 s = (Done (rsp q), s') ∧
    sched_idle (RoundRobin.resume (at_distance d) procs1) (at_distance d) s'.
Proof.
  intros Hidle Hp Hst. simpl.
  destruct (schedule_done rsp1 procs cur p s Hidle Hp Hst) as (j & q & s' & Hj & Hq & E & Hs').
  apply lookup_lt_Some in Hp as Hcur.
  pose proof (next_nearest _ _ cur j ltac:(by rewrite suspend_length) Hj) as Hd.
  rewrite suspend_length in Hd. destruct Hd as (d & Hd & -> & (q' & Hq' & Hr) & Hno).
  simplify_eq. exists d, q, s'. split_and!; [lia|lia|done..].
Qed.

(** C4: from boot on, whatever processes are added, whenever the timer fires and even after the
    current process has marked itself dead, the locks are free between the operations, the
    current index is that of a process that runs or is dead, and all others are ready.  Adding
    a process of either kind and marking the current one dead return.  A tick returns if the
    current process runs: it cannot panic, spin or search for ever; it hangs if that process is
    dead.  ([delete_process] is called by [schedule] only, and only then.) *)
Theorem scheduler_invariant s :
  sched_reachable s →
  ∃ procs cur p, sched_idle procs cur s ∧ current_is procs cur p ∧
    (∀ rsp1, ∃ s', schedule rsp1 s =
       (if decide (status p = RUNNING)
        then Done (default 0%Z (rsp <$> RoundRobin.suspend cur rsp1 procs !! ((cur + 1) `mod` length procs)))
        else Hang, s')) ∧
    (∀ q, ∃ s', push_process q s = (Done (), s')) ∧
    (∃ s', mark_current_as_dead s = (Done (), s')) ∧
    ∀ entry rflags stack m,
      in_u64 entry → canonical entry →
      in_u64 (stack + KERNEL_STACK_SIZE) → canonical (stack + KERNEL_STACK_SIZE) →
      ∃ s' m', add_process entry rflags stack (s, m) = (Done (), (s', m')).
Proof.
  intros (procs & cur & p & Hidle & Hcur)%reachable_inv.
  exists procs, cur, p. split; [done|]. split; [done|]. split_and!.
  - intros r. case_decide as Hst.
    + destruct (tick procs cur r s Hidle (current_is_running _ _ _ Hcur Hst))
        as (q & _ & s' & E & _ & _ & _ & Hq & _). exists s'. by rewrite E, Hq.
    + destruct Hcur as (Hp & [?|Hdead] & _); [done|].
      destruct (schedule_dead r procs cur p s Hidle Hp Hdead) as (s' & E & _). eauto.
  - intros q. destruct (push_process_done q procs cur s Hidle) as (s' & E & _). eauto.
  - destruct (mark_current_as_dead_done procs cur p s Hidle (proj1 Hcur)) as (s' & E & _). eauto.
  - intros entry rflags stack m He Hce Hsp Hcs.
    destruct (add_process_run entry rflags stack m procs cur s Hidle) as (s' & E & _); eauto.
Qed.

(** C18: the scheduler is fair: [k] ticks advance the current process by [k] places, so each
    of [n] processes runs in every [n] consecutive ticks. *)
Theorem round_robin_fair procs cur s rsps :
  sched_idle procs cur s → one_running procs cur →
  (∃ outs procs' s', run_ticks rsps s = (Done outs, s') ∧
     sched_idle procs' ((cur + length rsps) `mod` length procs) s' ∧
     length procs' = length procs) ∧
  ∀ i, i < length procs →
    ∃ k, k < length procs ∧ (cur + k) `mod` length procs = i.
Proof.
  intros Hidle Hone. split.
  - destruct (run_ticks_done rsps procs cur s Hidle Hone) as (outs & procs' & s' & ? & ? & _ & ?).
    eauto 10.
  - intros i Hi. destruct (proj1 Hone) as (p & Hcur%lookup_lt_Some & _).
    destruct (decide (cur ≤ i)).
    + exists (i - cur). split; [lia|]. rewrite Nat.mod_small; lia.
    + exists (length procs + i - cur). split; [lia|].
      replace (cur + (length procs + i - cur)) with (i + 1 * length procs) by lia.
      rewrite Nat.Div0.mod_add, Nat.mod_small; lia.
Qed.

(** A process that the timer interrupts at stack pointer [r] is resumed, one round of
    all processes later, at exactly [r], whatever stack pointers the others had. *)
Theorem suspended_process_resumes procs cur s r rsps :
  sched_idle procs cur s → one_running procs cur → S (length rsps) = length procs →
  ∃ outs s', run_ticks (r :: rsps) s = (Done outs, s') ∧ last outs = Some r.
Proof.
  intros Hidle Hone Hlen.
  destruct (tick procs cur r s Hidle Hone)
    as (q & procs1 & s1 & E & Hidle1 & Hone1 & Hlen1 & Hq & Hkeep).
  pose proof (proj1 Hone) as (p & Hp & _). apply lookup_lt_Some in Hp as Hcur.
  simpl. rewrite (mbind_done _ _ _ _ _ E). destruct rsps as [|r1 rsps].
  - simpl in *. mred. eexists _, s1. split; [done|]. simpl. f_equal.
    assert ((cur + 1) `mod` length procs = cur) as Hc.
    { rewrite <-Hlen, Nat.mod_1_r. lia. }
    rewrite Hc, (suspend_lookup _ _ _ p Hp) in Hq. by simplify_eq/=.
  - destruct (waiting_rsp (length rsps) (r1 :: rsps) procs1 ((cur + 1) `mod` length procs) r s1)
      as (outs & s2 & E2 & Hlast); [done|done|done|simpl in Hlen; lia| |].
    + rewrite Hlen1, Nat.Div0.add_mod_idemp_l, Hkeep. simpl in Hlen.
      replace (cur + 1 + S (length rsps)) with (cur + 1 * length procs) by lia.
      rewrite Nat.Div0.mod_add, Nat.mod_small by done.
      by rewrite (suspend_lookup _ _ _ p Hp).
    + rewrite (mbind_done _ _ _ _ _ E2). mred. eexists _, s2. split; [done|].
      by destruct outs.
Qed.

(** C28: marking the current process dead stops the machine: the next tick takes the process
    list and then calls [delete_process], which waits for the same lock, so the dead process
    is never removed and every later use of the scheduler hangs too. *)
Theorem dead_process_deadlocks procs cur p s rsp1 :
  sched_idle procs cur s → procs !! cur = Some p →
  ∃ s1 s2, mark_current_as_dead s = (Done (), s1) ∧ schedule rsp1 s1 = (Hang, s2) ∧
    ∀ rsp2 p2 i, schedule rsp2 s2 = (Hang, s2) ∧ push_process p2 s2 = (Hang, s2) ∧
      delete_process i s2 = (Hang, s2) ∧ mark_current_as_dead s2 = (Hang, s2).
Proof.
  intros Hidle Hp. destruct (mark_current_as_dead_done procs cur p s Hidle Hp) as (s1 & E1 & Hs1).
  destruct (schedule_dead rsp1 (alter (set_status DEAD) cur procs) cur (set_status DEAD p) s1 Hs1)
    as (s2 & E2 & Hstuck); [by rewrite list_lookup_alter_eq, Hp|done|].
  exists s1, s2. split_and!; [done|done|]. intros. by apply stuck_hangs.
Qed.

(** [delete_process] does not adjust the current index: deleting a process before the
    current one makes the index name the next process, and when the current process was the
    last, the next tick indexes the list out of bounds and panics with both locks held. *)
Theorem delete_process_shifts_current procs cur p i s rsp1 :
  sched_idle procs cur s → procs !! cur = Some p → i < cur →
  ∃ s1, delete_process i s = (Done (), s1) ∧ sched_idle (delete i procs) cur s1 ∧
    delete i procs !! cur = procs !! S cur ∧
    (S cur = length procs →
       ∃ s2, schedule rsp1 s1 = (Panic "index out of bounds", s2) ∧ sched_stuck s2).
Proof.
  intros Hidle Hp Hi. apply lookup_lt_Some in Hp as Hcur.
  destruct (delete_process_done i procs cur s Hidle) as (s1 & E & Hs1); [lia|].
  exists s1. rewrite list_lookup_delete_ge by lia. split_and!; [done..|].
  intros Hlast. eapply schedule_out_of_range; [exact Hs1|].
  rewrite list_lookup_delete_ge by lia. apply lookup_ge_None_2. lia.
Qed.

End claims.

(** ** Runs *)

#[local] Existing Instance option_cell.
#[local] Existing Instance bit_lock.
#[local] Existing Instance count_rw_lock.
#[local] Existing Instance num_addr.
#[local] Existing Instance num_segment.

Definition boot_sched : sched option bool (option nat) := (init sched_uninit).2.

(** The boot thread, a kernel thread and a user process. *)
Definition kernel_thread : Process := mkProcess 1 READY 0x9000 (Some 0x9000%Z) None None.
Definition user_process : Process :=
  mkProcess 2 READY 0x1fc008 None (Some 0) (Some 0x100000000%Z).
Definition three_procs : list Process :=
  [mkProcess 0 RUNNING 0 None None None; kernel_thread; user_process].
Definition three_sched : sched option bool (option nat) :=
  mkSched (Some (Locked false three_procs)) (Some (Locked (Some 0) 0)).

Lemma three_idle : sched_idle three_procs 0 three_sched.
Proof. by split. Qed.

Lemma three_one_running : one_running three_procs 0.
Proof. split; [by eexists|]. intros [|[|[|i]]] q ? ?; by simplify_eq/=. Qed.

Lemma three_reachable : sched_reachable three_sched.
Proof.
  exists boot_sched. split; [done|].
  eapply rtc_l; [by apply (step_push_user kernel_thread)|].
  eapply rtc_l; [by apply (step_push_user user_process)|]. apply rtc_refl.
Qed.

Lemma schedule_picks_next_ready_witness :
  ∃ s', schedule 0x5000 three_sched = (Done 0x9000%Z, s').
Proof.
  destruct (@schedule_picks_next_ready option _ option_cell_laws _ _ _ bit_lock_laws _
    count_rw_lock_laws 0x5000 three_procs 0 _ three_sched three_idle eq_refl ltac:(done))
    as (d & q & s' & _ & _ & _ & _ & E & _).
  exists s'. rewrite E. f_equal. transitivity (schedule 0x5000 three_sched).1; [by rewrite E|].
  by vm_compute.
Defined.

Lemma scheduler_invariant_witness :
  sched_reachable three_sched ∧
  ∃ procs cur p s', sched_idle procs cur three_sched ∧ current_is procs cur p ∧
    mark_current_as_dead three_sched = (Done (), s').
Proof.
  split; [exact three_reachable|].
  destruct (@scheduler_invariant option _ option_cell_laws _ _ _ bit_lock_laws _
    count_rw_lock_laws _ num_addr_laws _ three_sched three_reachable)
    as (procs & cur & p & ? & ? & _ & _ & (s' & ?) & _).
  by exists procs, cur, p, s'.
Defined.

Lemma round_robin_fair_witness :
  ∃ outs procs' s', run_ticks [0x5000; 0x9100; 0x1fb000; 0x5100; 0x9200]%Z three_sched =
    (Done outs, s') ∧ sched_idle procs' 2 s' ∧ length procs' = 3.
Proof.
  exact (proj1 (@round_robin_fair option _ option_cell_laws _ _ _ bit_lock_laws _
    count_rw_lock_laws three_procs 0 three_sched [0x5000; 0x9100; 0x1fb000; 0x5100; 0x9200]%Z
    three_idle three_one_running)).
Defined.

Lemma suspended_process_resumes_witness :
  ∃ outs s', run_ticks [0x5000; 0x9100; 0x1fb000]%Z three_sched = (Done outs, s') ∧
    last outs = Some 0x5000%Z.
Proof.
  exact (@suspended_process_resumes option _ option_cell_laws _ _ _ bit_lock_laws _
    count_rw_lock_laws three_procs 0 three_sched 0x5000 [0x9100; 0x1fb000]%Z
    three_idle three_one_running eq_refl).
Defined.

Lemma dead_process_deadlocks_witness :
  ∃ s1 s2, mark_current_as_dead three_sched = (Done (), s1) ∧ schedule 0x5000 s1 = (Hang, s2).
Proof.
  destruct (@dead_process_deadlocks option _ option_cell_laws _ _ _ bit_lock_laws _
    count_rw_lock_laws three_procs 0 _ three_sched 0x5000 three_idle eq_refl)
    as (s1 & s2 & E1 & E2 & _).
  by exists s1, s2.
Defined.

(** The user process runs. *)
Definition third_sched : sched option bool (option nat) :=
  mkSched (Some (Locked false three_procs)) (Some (Locked (Some 0) 2)).

Lemma delete_process_shifts_current_witness :
  ∃ s1 s2, delete_process 1 third_sched = (Done (), s1) ∧
    schedule 0x1fb000 s1 = (Panic "index out of bounds", s2).
Proof.
  destruct (@delete_process_shifts_current option _ option_cell_laws _ _ _ bit_lock_laws _
    count_rw_lock_laws three_procs 2 user_process 1 third_sched 0x1fb000
    (conj eq_refl eq_refl) eq_refl ltac:(lia)) as (s1 & E & _ & _ & Hp).
  destruct (Hp eq_refl) as (s2 & E2 & _). by exists s1, s2.
Defined.
