(* ===== verification/Asm.v ===== *)
(** * The x86-64 subset of the kernel's assembly.

    Registers, a stack in memory, and the instructions of [timer_handler]
    (kernel/src/int.rs) and [syscall_entry] (kernel/src/syscall.rs), as the processor
    manuals define them. *)

From S2P Require Import Prelude Machine.

Local Open Scope Z_scope.

(** ** Machine state *)

Inductive reg :=
  | RAX | RBX | RCX | RDX | RSI | RDI | RBP | RSP
  | R8 | R9 | R10 | R11 | R12 | R13 | R14 | R15.
#[export] Instance reg_eq_dec : EqDecision reg.
Proof. solve_decision. Defined.

Record cpu := mkCpu { regs : reg → Z; rip : Z; cs : Z; rflags : Z; ss : Z }.

Definition set_reg (r : reg) (v : Z) (c : cpu) : cpu :=
  mkCpu (λ x, if decide (x = r) then v else regs c x) (rip c) (cs c) (rflags c) (ss c).

Lemma set_reg_eq r v c : regs (set_reg r v c) r = v.
Proof. simpl. by rewrite decide_True. Qed.
Lemma set_reg_ne r x v c : x ≠ r → regs (set_reg r v c) x = regs c x.
Proof. intros. simpl. by rewrite decide_False. Qed.

(** Registers, memory, and the state [K] of the kernel's own data structures, which only
    the routines called from assembly touch. *)
Definition machine (K : Type) : Type := cpu * memory * K.

Section instructions.
Context {K : Type}.

Definition get_reg (r : reg) : M (machine K) Z := gets_state (λ s, regs s.1.1 r).
Definition put_reg (r : reg) (v : Z) : M (machine K) () :=
  modify_state (λ s, (set_reg r v s.1.1, s.1.2, s.2)).

Definition push64 (v : Z) : M (machine K) () :=
  modify_state (λ s,
    let sp := (regs s.1.1 RSP - 8) mod 2 ^ 64 in
    (set_reg RSP sp s.1.1, store64 sp v s.1.2, s.2)).

Definition pop64 : M (machine K) Z := λ s,
  let sp := regs s.1.1 RSP in
  (Done (load64 s.1.2 sp), (set_reg RSP ((sp + 8) mod 2 ^ 64) s.1.1, s.1.2, s.2)).

(** ** Instructions *)

(** [Call ret f]: [ret] is the address of the next instruction, [f] what the routine does. *)
Inductive instr :=
  | Push (r : reg)
  | Pop (r : reg)
  | Mov (dst src : reg)
  | Call (ret : Z) (f : M (machine K) ())
  | Iretq
  | Sysretq (user_cs user_ss : Z).

Definition exec (i : instr) : M (machine K) () :=
  match i with
  | Push r => v ← get_reg r; push64 v
  | Pop r => v ← pop64; put_reg r v
  | Mov dst src => v ← get_reg src; put_reg dst v
  | Call ret f => push64 ret;; f;; _ ← pop64; mret ()
  | Iretq =>
      ip ← pop64; c ← pop64; f ← pop64; sp ← pop64; st ← pop64;
      modify_state (λ s,
        (mkCpu (regs (set_reg RSP sp s.1.1)) ip (c mod 2 ^ 16) f (st mod 2 ^ 16),
         s.1.2, s.2))
  | Sysretq user_cs user_ss =>
      modify_state (λ s,
        let c := s.1.1 in
        (mkCpu (regs c) (regs c RCX) user_cs (regs c R11) user_ss, s.1.2, s.2))
  end.

Definition run (code : list instr) : M (machine K) () := for_each exec code.

(** Delivery of an interrupt through a gate without an IST: a change to ring 0 switches to
    the stack of the TSS, the stack is aligned, and the interrupted context is pushed.  The
    gate clears the interrupt flag and loads the handler's address and selector. *)
Definition interrupt_stack (tss_rsp0 : Z) (c : cpu) : Z :=
  round_down (if decide (cs c mod 4 = 3) then tss_rsp0 else regs c RSP) 16.

Definition deliver (tss_rsp0 handler kernel_cs : Z) : M (machine K) () :=
  s ← get_state;
  let c := s.1.1 in
  put_reg RSP (interrupt_stack tss_rsp0 c);;
  push64 (ss c);; push64 (regs c RSP);; push64 (rflags c);; push64 (cs c);; push64 (rip c);;
  modify_state (λ s,
    (mkCpu (regs s.1.1) handler kernel_cs (Z.land (rflags c) (not64 512))
           (if decide (cs c mod 4 = 3) then 0 else ss c), s.1.2, s.2)).

End instructions.
Arguments instr K : clear implicits.

(** ** Words on a stack *)

(** The words [ws] lie at [a] and upwards. *)
Definition words_at (m : memory) (a : Z) (ws : list Z) : Prop :=
  ∀ i w, ws !! i = Some w → load64 m (a + 8 * Z.of_nat i) = w.

Definition is_word (v : Z) : Prop := 0 ≤ v < 2 ^ 64.

Lemma words_at_cons m a w ws :
  words_at m a (w :: ws) ↔ load64 m a = w ∧ words_at m (a + 8) ws.
Proof.
  split.
  - intros Hw. split.
    + rewrite <-(Hw 0%nat w) by done. f_equal. lia.
    + intros i x Hx. rewrite <-(Hw (S i) x) by done. f_equal. lia.
  - intros [Hw Hws] [|i] x Hx; simpl in Hx.
    + simplify_eq. f_equal. lia.
    + rewrite <-(Hws i x) by done. f_equal. lia.
Qed.

Lemma words_at_ext m m' a ws :
  (∀ x, a ≤ x < a + 8 * Z.of_nat (length ws) → m x = m' x) →
  words_at m a ws → words_at m' a ws.
Proof.
  intros Hm Hw i w Hi. rewrite <-(Hw i w Hi). apply load_word_ext. intros x Hx.
  apply lookup_lt_Some in Hi. symmetry. apply Hm. lia.
Qed.

Lemma words_at_push m a v ws :
  is_word v → words_at m (a + 8) ws → words_at (store64 a v m) a (v :: ws).
Proof.
  intros Hv Hw. apply words_at_cons. split; [by apply load_store_word|].
  intros i w Hi. rewrite load_store_word_other by lia. by apply Hw.
Qed.

(** ** Running pushes and pops *)

Section run.
Context {K : Type}.
Implicit Types k : K.

Lemma run_cons (i : instr K) code s s' :
  exec i s = (Done (), s') → run (i :: code) s = run code s'.
Proof. intros E. unfold run. cbn [for_each]. by rewrite (mbind_done _ _ _ _ _ E). Qed.

Lemma run_app (code1 code2 : list (instr K)) s s' :
  run code1 s = (Done (), s') → run (code1 ++ code2) s = run code2 s'.
Proof.
  revert s. induction code1 as [|i code1 IH]; intros s E; [by injection E as ->|].
  apply mbind_inv_done in E as ([] & s1 & E1 & E). simpl.
  rewrite (run_cons _ _ _ _ E1). by apply IH.
Qed.

Lemma push64_done v c m k a ws :
  regs c RSP = a → words_at m a ws → is_word v → 8 ≤ a < 2 ^ 64 →
  ∃ m', push64 v (c, m, k) = (Done (), (set_reg RSP (a - 8) c, m', k)) ∧
    words_at m' (a - 8) (v :: ws) ∧
    ∀ x, x < a - 8 ∨ a ≤ x → m' x = m x.
Proof.
  intros Ha Hws Hv Hr. eexists. split.
  { unfold push64, modify_state. simpl. rewrite Ha. by rewrite Z.mod_small by lia. }
  split.
  - apply words_at_push; [done|]. by replace (a - 8 + 8) with a by lia.
  - intros x Hx. apply store_bytes_out. rewrite length_store_word by lia. lia.
Qed.

Lemma pop64_done c m k a w ws :
  regs c RSP = a → words_at m a (w :: ws) → 0 ≤ a < 2 ^ 64 - 8 →
  pop64 (c, m, k) = (Done w, (set_reg RSP (a + 8) c, m, k)) ∧ words_at m (a + 8) ws.
Proof.
  intros Ha [Hw Hws]%words_at_cons Hr. split; [|done].
  unfold pop64. simpl. by rewrite Ha, Z.mod_small, Hw by lia.
Qed.

(** Registers that hold words. *)
Definition cpu_ok (c : cpu) : Prop :=
  (∀ r, is_word (regs c r)) ∧ is_word (rip c) ∧ is_word (rflags c) ∧
  0 ≤ cs c < 2 ^ 16 ∧ 0 ≤ ss c < 2 ^ 16.

(** A sequence of pushes of registers other than the stack pointer. *)
Lemma run_pushes rs c m k a ws :
  RSP ∉ rs → (∀ r, is_word (regs c r)) → regs c RSP = a → words_at m a ws →
  8 * Z.of_nat (length rs) ≤ a < 2 ^ 64 →
  ∃ c' m', run (Push <$> rs) (c, m, k) = (Done (), (c', m', k)) ∧
    regs c' RSP = a - 8 * Z.of_nat (length rs) ∧
    (∀ r, r ≠ RSP → regs c' r = regs c r) ∧ rip c' = rip c ∧ cs c' = cs c ∧
    rflags c' = rflags c ∧ ss c' = ss c ∧
    words_at m' (a - 8 * Z.of_nat (length rs)) (reverse (regs c <$> rs) ++ ws) ∧
    ∀ x, x < a - 8 * Z.of_nat (length rs) ∨ a ≤ x → m' x = m x.
Proof.
  revert c m a ws. induction rs as [|r rs IH]; intros c m a ws Hrs Hc Ha Hws Hr.
  { exists c, m. simpl. rewrite Z.sub_0_r. split_and!; [done..]. }
  apply not_elem_of_cons in Hrs as [Hr0 Hrs]. rewrite fmap_cons. simpl length in Hr.
  destruct (push64_done (regs c r) c m k a ws) as (m1 & E & Hw1 & Hm1);
    [done..|apply Hc|lia|].
  rewrite (run_cons _ _ _ (set_reg RSP (a - 8) c, m1, k)) by (unfold exec, get_reg; by mred).
  destruct (IH (set_reg RSP (a - 8) c) m1 (a - 8) (regs c r :: ws))
    as (c' & m' & E' & Hsp & Hregs & ? & ? & ? & ? & Hw & Hm); [done| | |done|lia|].
  - intros x. simpl. case_decide; [unfold is_word in *; lia|apply Hc].
  - done.
  - exists c', m'. simpl length. rewrite Nat2Z.inj_succ.
    replace (a - 8 * Z.succ (Z.of_nat (length rs))) with (a - 8 - 8 * Z.of_nat (length rs))
      by lia.
    assert (regs (set_reg RSP (a - 8) c) <$> rs = regs c <$> rs) as Hfm.
    { apply list_fmap_ext. intros i x Hx. simpl. rewrite decide_False; [done|].
      intros ->. by apply Hrs, (list_elem_of_lookup_2 _ i). }
    split_and!; try done.
    + intros x Hx. rewrite Hregs by done. simpl. by rewrite decide_False.
    + rewrite fmap_cons, reverse_cons, <-(assoc_L (++)). simpl. by rewrite <-Hfm.
    + intros x Hx. rewrite Hm by lia. apply Hm1. lia.
Qed.

(** A sequence of pops into distinct registers other than the stack pointer. *)
Lemma run_pops rs c m k a vs ws :
  RSP ∉ rs → NoDup rs → regs c RSP = a → words_at m a (vs ++ ws) → length vs = length rs →
  0 ≤ a < 2 ^ 64 - 8 * Z.of_nat (length rs) →
  ∃ c', run (Pop <$> rs) (c, m, k) = (Done (), (c', m, k)) ∧
    regs c' RSP = a + 8 * Z.of_nat (length rs) ∧
    words_at m (a + 8 * Z.of_nat (length rs)) ws ∧
    (∀ i r, rs !! i = Some r → Some (regs c' r) = vs !! i) ∧
    (∀ r, r ≠ RSP → r ∉ rs → regs c' r = regs c r) ∧
    rip c' = rip c ∧ cs c' = cs c ∧ rflags c' = rflags c ∧ ss c' = ss c.
Proof.
  revert c a vs. induction rs as [|r rs IH]; intros c a [|v vs] Hrs Hnd Ha Hws Hlen Hr; try done.
  { exists c. simpl. rewrite Z.add_0_r. split_and!; [done..]. }
  apply not_elem_of_cons in Hrs as [Hr0 Hrs]. apply NoDup_cons in Hnd as [Hrr Hnd].
  rewrite fmap_cons. simpl length in Hr. simpl in Hws.
  destruct (pop64_done c m k a v (vs ++ ws)) as [E Hw1]; [done|done|lia|].
  set (c1 := set_reg r v (set_reg RSP (a + 8) c)).
  rewrite (run_cons _ _ _ (c1, m, k)) by (simpl; by rewrite (mbind_done _ _ _ _ _ E)).
  destruct (IH c1 (a + 8) vs) as (c' & E' & Hsp & Hw & Hregs & Hothers & ? & ? & ? & ?);
    [done|done| |done|by injection Hlen|lia|].
  - simpl. by rewrite decide_False.
  - exists c'. simpl length. rewrite Nat2Z.inj_succ.
    replace (a + 8 * Z.succ (Z.of_nat (length rs))) with (a + 8 + 8 * Z.of_nat (length rs))
      by lia.
    split_and!; try done.
    + intros [|i] x Hx; simpl in *; [|by apply Hregs]. simplify_eq.
      rewrite Hothers by done. simpl. by rewrite decide_True.
    + intros x Hx [? ?]%not_elem_of_cons. rewrite Hothers by done. simpl.
      by rewrite !decide_False.
Qed.

End run.
