(* ===== verification/ContextSwitch.v ===== *)
(** * Preemption: [timer_handler] and [send_eoi] (kernel/src/int.rs) around [schedule].

    The timer interrupt pushes the interrupted context on the stack, asks the scheduler for
    another stack and pops the context found there. *)

From S2P Require Import Prelude Crates Statics Machine Asm Sched.

Local Open Scope Z_scope.

(** ** The routines the handler calls *)

(** What compiled code does besides its result: it may change the registers that the System V
    ABI lets it change, and the stack below the stack pointer, down to [depth] bytes. *)
Definition caller_saved : list reg := [RAX; RCX; RDX; RSI; RDI; R8; R9; R10; R11].

Definition sysv_abi (depth : Z) (clobber : cpu * memory → cpu * memory) : Prop :=
  ∀ c m, let '(c', m') := clobber (c, m) in
    (∀ r, r ∉ caller_saved → regs c' r = regs c r) ∧
    ∀ x, x < regs c RSP - depth ∨ regs c RSP ≤ x → m' x = m x.

(** A call of a Rust function: the first argument is in RDI, the result in RAX. *)
Definition rust_call {K} (clobber : cpu * memory → cpu * memory) (f : Z → M K Z) :
    M (machine K) () :=
  arg ← get_reg RDI;
  res ← on snd_lens (f arg);
  modify_state (λ s, (clobber s.1, s.2));;
  put_reg RAX res.

(** The statics the handler works on; [LAPIC] is the array of the local APIC's registers. *)
Record kernel (C : Type → Type) (L RW : Type) : Type := mkKernel {
  k_sched : sched C L RW;
  LAPIC : C (locked L (list Z));
}.
Arguments mkKernel {C L RW} _ _.
Arguments k_sched {C L RW} _.
Arguments LAPIC {C L RW} _.

Section handler.
Context {C : Type → Type} `{OnceCell C} {L RW : Type} `{RawLock L, RawRwLock RW}.

Definition sched_lens : lens (kernel C L RW) (sched C L RW) :=
  Lens k_sched (λ x k, mkKernel x (LAPIC k)).
Definition LAPIC_lens : lens (kernel C L RW) (C (locked L (list Z))) :=
  Lens LAPIC (λ x k, mkKernel (k_sched k) x).

Definition send_eoi : M (kernel C L RW) () :=
  on LAPIC_lens static_acquire;;
  on LAPIC_lens (guard_modify <[44%nat := 0]>);;
  on LAPIC_lens static_release.

Definition send_eoi_call (clobber : cpu * memory → cpu * memory) :
    M (machine (kernel C L RW)) () :=
  rust_call clobber (λ _, send_eoi;; mret 0).

Definition schedule_call (clobber : cpu * memory → cpu * memory) :
    M (machine (kernel C L RW)) () :=
  rust_call clobber (λ rsp1, on sched_lens (schedule rsp1)).

(** [ret1], [ret2]: the return addresses of the two calls. *)
Definition timer_handler (ret1 ret2 : Z) (clobber1 clobber2 : cpu * memory → cpu * memory) :
    list (instr (kernel C L RW)) :=
  [Push RAX; Push RCX; Push RDX; Push RBX; Push RBP; Push RSI; Push RDI; Push R8; Push R9;
   Push R10; Push R11; Push R12; Push R13; Push R14; Push R15;
   Call ret1 (send_eoi_call clobber1);
   Mov RDI RSP;
   Call ret2 (schedule_call clobber2);
   Mov RSP RAX;
   Pop R15; Pop R14; Pop R13; Pop R12; Pop R11; Pop R10; Pop R9; Pop R8; Pop RDI; Pop RSI;
   Pop RBP; Pop RBX; Pop RDX; Pop RCX; Pop RAX;
   Iretq].

(** A timer interrupt, from delivery to the return. *)
Definition timer_interrupt (tss_rsp0 handler kernel_cs ret1 ret2 : Z)
    (clobber1 clobber2 : cpu * memory → cpu * memory) : M (machine (kernel C L RW)) () :=
  deliver tss_rsp0 handler kernel_cs;;
  run (timer_handler ret1 ret2 clobber1 clobber2).

End handler.

(** Only the register 44 of the local APIC changes. *)
Lemma send_eoi_run {C : Type → Type} `{OnceCellLaws C} {L RW : Type} `{RawLockLaws L} regs
    (k : kernel C L RW) :
  cell_is lock_free regs (LAPIC k) →
  ∃ c, send_eoi k = (Done (), lput LAPIC_lens c k) ∧
       cell_is lock_free (<[44%nat := 0]> regs) c.
Proof.
  intros Hl. destruct try_acquire_free as (h & Hh & Hrel).
  destruct (static_step_done try_acquire _ h _ _ Hl Hh) as (c1 & E1 & Hc1).
  destruct (guard_modify_done <[44%nat := 0]> _ _ _ Hc1) as (c2 & E2 & Hc2).
  destruct (static_step_done (λ l, Some (release l)) _ (release h) _ _ Hc2 eq_refl)
    as (c3 & E3 & Hc3).
  set (k1 := lput LAPIC_lens c1 k). set (k2 := lput LAPIC_lens c2 k1).
  exists c3. rewrite Hrel in Hc3. split; [|exact Hc3].
  unfold send_eoi. rewrite (mbind_done _ _ _ _ _ (on_done LAPIC_lens _ k _ _ E1)).
  rewrite (mbind_done _ _ _ _ _ (on_done LAPIC_lens _ k1 _ _ E2)).
  exact (on_done LAPIC_lens _ k2 _ _ E3).
Qed.

(** ** Saved contexts *)

Definition timer_saved : list reg :=
  [RAX; RCX; RDX; RBX; RBP; RSI; RDI; R8; R9; R10; R11; R12; R13; R14; R15].

(** The twenty words of a suspended context, from the lowest address. *)
Definition context_words (c : cpu) : list Z :=
  reverse (regs c <$> timer_saved) ++ [rip c; cs c; rflags c; regs c RSP; ss c].

Definition context_saved (c : cpu) (m : memory) (a : Z) : Prop := words_at m a (context_words c).

Definition frame_bytes : Z := 160.

Definition same_context (c d : cpu) : Prop :=
  (∀ r, regs c r = regs d r) ∧ rip c = rip d ∧ cs c = cs d ∧ rflags c = rflags d ∧ ss c = ss d.

Lemma timer_saved_all r : r ≠ RSP → r ∈ reverse timer_saved.
Proof. intros Hr. destruct r; try (by_decide); by destruct Hr. Qed.

Section steps.
Context {K : Type}.
Implicit Types k : K.

Lemma deliver_done tss handler kcs c m k top :
  cpu_ok c → top = interrupt_stack tss c → 40 ≤ top < 2 ^ 64 →
  ∃ c1 m1, deliver tss handler kcs (c, m, k) = (Done (), (c1, m1, k)) ∧
    regs c1 RSP = top - 40 ∧ (∀ r, r ≠ RSP → regs c1 r = regs c r) ∧
    words_at m1 (top - 40) [rip c; cs c; rflags c; regs c RSP; ss c] ∧
    ∀ x, x < top - 40 ∨ top ≤ x → m1 x = m x.
Proof.
  intros (Hregs & Hrip & Hfl & Hcs & Hss) Htop Hr. unfold deliver. rewrite get_bind. cbv zeta. cbn [fst snd].
  rewrite <-Htop. unfold put_reg. mred. cbn [fst snd].
  set (c0 := set_reg RSP top c). set (c1 := set_reg RSP (top - 8) c0).
  set (c2 := set_reg RSP (top - 8 - 8) c1). set (c3 := set_reg RSP (top - 8 - 8 - 8) c2).
  set (c4 := set_reg RSP (top - 8 - 8 - 8 - 8) c3).
  destruct (push64_done (ss c) c0 m k top []) as (m1 & E1 & W1 & F1);
    [done|by intros ? ? ?|unfold is_word; lia|lia|].
  destruct (push64_done (regs c RSP) c1 m1 k _ _ eq_refl W1) as (m2 & E2 & W2 & F2);
    [apply Hregs|simpl; lia|].
  destruct (push64_done (rflags c) c2 m2 k _ _ eq_refl W2) as (m3 & E3 & W3 & F3); [done|simpl; lia|].
  destruct (push64_done (cs c) c3 m3 k _ _ eq_refl W3) as (m4 & E4 & W4 & F4);
    [unfold is_word; lia|simpl; lia|].
  destruct (push64_done (rip c) c4 m4 k _ _ eq_refl W4) as (m5 & E5 & W5 & F5); [done|simpl; lia|].
  rewrite (mbind_done _ _ _ _ _ E1), (mbind_done _ _ _ _ _ E2), (mbind_done _ _ _ _ _ E3),
    (mbind_done _ _ _ _ _ E4), (mbind_done _ _ _ _ _ E5).
  eexists _, m5. split; [done|]. simpl.
  replace (top - 40) with (top - 8 - 8 - 8 - 8 - 8) by lia. split_and!; [done| |done|].
  - intros r Hne. simpl. by rewrite !decide_False.
  - intros x Hx. simpl in F1, F2, F3, F4, F5.
    by rewrite F5, F4, F3, F2, F1 by lia.
Qed.

(** [mov rsp, rax], the pops and [iretq] on twenty words at the address in RAX. *)
Lemma restore_words (c : cpu) m k a vs ip cs1 fl sp ss1 :
  words_at m a (vs ++ [ip; cs1; fl; sp; ss1]) → length vs = 15%nat →
  0 ≤ a < 2 ^ 64 - frame_bytes → regs c RAX = a →
  ∃ c', run ([Mov RSP RAX] ++ (Pop <$> reverse timer_saved) ++ [Iretq]) (c, m, k) =
          (Done (), (c', m, k)) ∧
    rip c' = ip ∧ cs c' = cs1 mod 2 ^ 16 ∧ rflags c' = fl ∧ regs c' RSP = sp ∧
    ss c' = ss1 mod 2 ^ 16 ∧
    ∀ i r, reverse timer_saved !! i = Some r → Some (regs c' r) = vs !! i.
Proof.
  intros Hsaved Hlen Ha Hrax. unfold frame_bytes in Ha.
  set (c1 := set_reg RSP a c). cbn [app].
  rewrite (run_cons _ _ _ (c1, m, k)) by (unfold exec, get_reg; mred; simpl; by rewrite Hrax).
  destruct (run_pops (reverse timer_saved) c1 m k a vs [ip; cs1; fl; sp; ss1])
    as (c2 & E & Hsp & Hw & Hpop & _); [by_decide|by_decide|done|done| |simpl; lia|].
  { by rewrite length_reverse, Hlen. }
  rewrite (run_app _ _ _ _ E). simpl in Hsp, Hw.
  change (8 * Z.of_nat 15) with 120 in Hsp, Hw.
  set (d1 := set_reg RSP (a + 120 + 8) c2). set (d2 := set_reg RSP (a + 120 + 8 + 8) d1).
  set (d3 := set_reg RSP (a + 120 + 8 + 8 + 8) d2).
  set (d4 := set_reg RSP (a + 120 + 8 + 8 + 8 + 8) d3).
  destruct (pop64_done c2 m k _ _ _ Hsp Hw) as [E1 W1]; [lia|].
  destruct (pop64_done d1 m k _ _ _ eq_refl W1) as [E2 W2]; [simpl; lia|].
  destruct (pop64_done d2 m k _ _ _ eq_refl W2) as [E3 W3]; [simpl; lia|].
  destruct (pop64_done d3 m k _ _ _ eq_refl W3) as [E4 W4]; [simpl; lia|].
  destruct (pop64_done d4 m k _ _ _ eq_refl W4) as [E5 _]; [simpl; lia|].
  eexists. split.
  - apply (run_cons Iretq []). cbn [exec].
    erewrite mbind_done by exact E1. erewrite mbind_done by exact E2.
    erewrite mbind_done by exact E3. erewrite mbind_done by exact E4.
    erewrite mbind_done by exact E5. done.
  - cbn [rip cs rflags ss regs fst snd]. split; [reflexivity|]. split; [reflexivity|].
    split; [reflexivity|]. split; [apply set_reg_eq|]. split; [reflexivity|].
    intros i r Hi. assert (r ≠ RSP) as Hr.
    { intros ->. assert (RSP ∉ reverse timer_saved) as Hn by by_decide.
      by apply Hn, (list_elem_of_lookup_2 _ i). }
    unfold d4, d3, d2, d1. rewrite !set_reg_ne by exact Hr. by apply Hpop.
Qed.

(** On a saved context they bring that context back. *)
Lemma restore_done (c d : cpu) m k a :
  cpu_ok d → context_saved d m a → 0 ≤ a < 2 ^ 64 - frame_bytes → regs c RAX = a →
  ∃ c', run ([Mov RSP RAX] ++ (Pop <$> reverse timer_saved) ++ [Iretq]) (c, m, k) =
          (Done (), (c', m, k)) ∧ same_context c' d.
Proof.
  intros (_ & _ & _ & Hcs & Hss) Hsaved Ha Hrax.
  destruct (restore_words c m k a (reverse (regs d <$> timer_saved)) _ _ _ _ _ Hsaved)
    as (c' & E & Hrip & Hc & Hfl & Hsp & Hs & Hregs); [done|exact Ha|exact Hrax|].
  exists c'. split; [exact E|].
  rewrite (Z.mod_small (cs d)) in Hc by assumption. rewrite (Z.mod_small (ss d)) in Hs by assumption.
  split; [|split; [exact Hrip|split; [exact Hc|split; [exact Hfl|exact Hs]]]].
  intros r. destruct (decide (r = RSP)) as [->|Hr]; [exact Hsp|].
  pose proof (timer_saved_all r Hr) as [i Hi]%list_elem_of_lookup.
  specialize (Hregs i r Hi). rewrite <-fmap_reverse, list_lookup_fmap, Hi in Hregs.
  injection Hregs as Hregs. exact Hregs.
Qed.

(** A call keeps the stack pointer and everything above it. *)
Lemma call_rust_done (clobber : cpu * memory → cpu * memory) depth ret (f : Z → M K Z) c m k
    res k' a :
  sysv_abi depth clobber → f (regs c RDI) k = (Done res, k') → is_word ret →
  regs c RSP = a → 8 ≤ a < 2 ^ 64 → 0 ≤ depth →
  ∃ c' m', exec (Call ret (rust_call clobber f)) (c, m, k) = (Done (), (c', m', k')) ∧
    regs c' RSP = a ∧ regs c' RAX = res ∧
    ∀ x, x < a - 8 - depth ∨ a ≤ x → m' x = m x.
Proof.
  intros Habi Hf Hret Ha Hr Hd.
  destruct (push64_done ret c m k a [] Ha) as (m1 & E1 & _ & F1); [by intros ? ? ?|done|lia|].
  set (c1 := set_reg RSP (a - 8) c). pose proof (Habi c1 m1) as Hclob.
  destruct (clobber (c1, m1)) as [c2 m2] eqn:Ecl. destruct Hclob as [Hregs Hm].
  assert (regs c2 RSP = a - 8) as Hsp by (rewrite Hregs by by_decide; done).
  eexists _, m2. split; [|split; [|split]].
  - simpl. rewrite (mbind_done _ _ _ _ _ E1). fold c1. unfold rust_call, get_reg. mred. simpl.
    erewrite mbind_done; [|apply (on_done snd_lens _ (c1, m1, k)); exact Hf].
    mred. simpl. rewrite Ecl. simpl. unfold put_reg. mred. done.
  - simpl. rewrite Hsp. rewrite Z.mod_small; lia.
  - done.
  - intros x Hx. change (regs c1 RSP) with (a - 8) in Hm. rewrite Hm by lia. apply F1. lia.
Qed.

End steps.
