(* ===== verification/Preemption.v ===== *)
(** * Preemption is transparent.

    Every process has a stack of its own.  Between two timer interrupts the context of each
    process that waits lies on its stack, at the stack pointer the scheduler keeps for it;
    an interrupt saves the running context there and brings back the next one unchanged. *)

From S2P Require Import Prelude Crates CrateModels Statics Machine Asm.
From S2P Require Import Sched SchedSpec SchedSafety ContextSwitch.

Local Open Scope Z_scope.

Section preemption.
Context {C : Type → Type} `{OnceCellLaws C} {L RW : Type} `{RawLockLaws L, RawRwLockLaws RW}.
Implicit Types k : kernel C L RW.

Definition kernel_idle (procs : list Process) (cur : nat) k : Prop :=
  sched_idle procs cur (k_sched k) ∧ ∃ lapic, cell_is lock_free lapic (LAPIC k).

(** A waiting process: its context is saved on its stack [(lo, hi)]. *)
Definition waits_on (stk : Z * Z) (d : cpu) (m : memory) (sp : Z) : Prop :=
  cpu_ok d ∧ context_saved d m sp ∧ stk.1 ≤ sp ∧ sp + frame_bytes ≤ stk.2.

Definition stacks_ok (n : nat) (stk : nat → Z * Z) : Prop :=
  (∀ i, (i < n)%nat → 0 ≤ (stk i).1 ∧ (stk i).2 < 2 ^ 64) ∧
  ∀ i j, (i < n)%nat → (j < n)%nat → i ≠ j →
    (stk i).2 ≤ (stk j).1 ∨ (stk j).2 ≤ (stk i).1.

(** [ctx i]: the context of process [i] when it was last suspended. *)
Definition contexts_inv (stk : nat → Z * Z) (ctx : nat → cpu) (procs : list Process)
    (cur : nat) (m : memory) k : Prop :=
  kernel_idle procs cur k ∧ one_running procs cur ∧ stacks_ok (length procs) stk ∧
  ∀ i p, i ≠ cur → procs !! i = Some p → waits_on (stk i) (ctx i) m (rsp p).

(** The end-of-interrupt register of the local APIC has been written. *)
Definition eoi_sent k k' : Prop :=
  ∀ lapic, cell_is lock_free lapic (LAPIC k) →
    cell_is lock_free (<[44%nat := 0]> lapic) (LAPIC k').

Lemma send_eoi_done procs cur k :
  kernel_idle procs cur k →
  ∃ k', send_eoi k = (Done (), k') ∧ kernel_idle procs cur k' ∧ eoi_sent k k'.
Proof.
  intros [Hs (lapic & Hl)]. destruct (send_eoi_run lapic k Hl) as (c & E & Hc).
  exists (lput LAPIC_lens c k). split; [exact E|]. split; [split; [exact Hs|by eexists]|].
  intros lapic' Hl'. unfold cell_is in Hl, Hl'. rewrite Hl in Hl'. injection Hl' as <-. exact Hc.
Qed.

(** The handler up to the switch of stacks: the interrupted context is saved below [top]
    and the scheduler is asked with its address. *)
Lemma timer_prefix depth clobber1 clobber2 tss handler kcs ret1 ret2 c m k procs cur r (Post : kernel C L RW → Prop) top :
  sysv_abi depth clobber1 → sysv_abi depth clobber2 → is_word ret1 → is_word ret2 → 0 ≤ depth →
  cpu_ok c → top = interrupt_stack tss c → frame_bytes + 8 ≤ top < 2 ^ 64 →
  kernel_idle procs cur k →
  (∀ k1, kernel_idle procs cur k1 → eoi_sent k k1 →
     ∃ s2, schedule (top - frame_bytes) (k_sched k1) = (Done r, s2) ∧
           Post (lput sched_lens s2 k1)) →
  ∃ c' m' k', timer_interrupt tss handler kcs ret1 ret2 clobber1 clobber2 (c, m, k) =
      run ([Mov RSP RAX] ++ (Pop <$> reverse timer_saved) ++ [Iretq]) (c', m', k') ∧
    regs c' RAX = r ∧ Post k' ∧ context_saved c m' (top - frame_bytes) ∧
    ∀ x, x < top - frame_bytes - 8 - depth ∨ top ≤ x → m' x = m x.
Proof.
  intros Habi1 Habi2 Hret1 Hret2 Hdepth Hc Htop Hr Hk Hsched. unfold frame_bytes in *.
  destruct (deliver_done tss handler kcs c m k top Hc Htop) as (c1 & m1 & E1 & Hsp1 & Hregs1 & W1 & F1);
    [lia|].
  destruct (run_pushes timer_saved c1 m1 k (top - 40)
    [rip c; cs c; rflags c; regs c RSP; ss c]) as
    (c2 & m2 & E2 & Hsp2 & Hregs2 & _ & _ & _ & _ & W2 & F2);
    [by_decide| |exact Hsp1|exact W1|simpl; lia|].
  { intros x. destruct (decide (x = RSP)) as [->|]; [rewrite Hsp1; unfold is_word; lia|].
    rewrite Hregs1 by done. apply Hc. }
  change (8 * Z.of_nat (length timer_saved)) with 120 in *.
  replace (top - 40 - 120) with (top - 160) in * by lia.
  assert (regs c1 <$> timer_saved = regs c <$> timer_saved) as Hfm.
  { simpl. by rewrite !Hregs1 by done. }
  rewrite Hfm in W2. fold (context_words c) in W2.
  destruct (send_eoi_done procs cur k Hk) as (k1 & Eeoi & Hk1 & Heoi).
  destruct (call_rust_done clobber1 depth ret1 (λ _, send_eoi;; mret 0) c2 m2 k 0 k1 (top - 160))
    as (c3 & m3 & E3 & Hsp3 & _ & F3); [exact Habi1|by rewrite (mbind_done _ _ _ _ _ Eeoi)|exact Hret1|exact Hsp2|lia|exact Hdepth|].
  destruct (Hsched k1 Hk1 Heoi) as (s2 & Es & Hk2).
  destruct (call_rust_done clobber2 depth ret2 (λ rsp1, on sched_lens (schedule rsp1))
    (set_reg RDI (top - 160) c3) m3 k1 r (lput sched_lens s2 k1) (top - 160))
    as (c4 & m4 & E4 & Hsp4 & Hrax4 & F4); [exact Habi2| |exact Hret2|exact Hsp3|lia|exact Hdepth|].
  { rewrite set_reg_eq. by apply (on_done sched_lens). }
  exists c4, m4, (lput sched_lens s2 k1). split; [|split; [done|split; [done|split]]].
  - unfold timer_interrupt. rewrite (mbind_done _ _ _ _ _ E1).
    change (timer_handler ret1 ret2 clobber1 clobber2) with ((Push <$> timer_saved) ++
      Call ret1 (send_eoi_call clobber1) :: Mov RDI RSP :: Call ret2 (schedule_call clobber2) ::
      ([Mov RSP RAX] ++ (Pop <$> reverse timer_saved) ++ [Iretq])).
    rewrite (run_app _ _ _ _ E2), (run_cons _ _ _ _ E3).
    rewrite (run_cons _ _ _ (set_reg RDI (top - 160) c3, m3, k1)).
    2:{ unfold exec, get_reg. mred. cbn [fst snd]. by rewrite Hsp3. }
    by rewrite (run_cons _ _ _ _ E4).
  - eapply words_at_ext; [|exact W2]. intros x Hx. simpl in Hx.
    rewrite F4 by lia. rewrite F3 by lia. done.
  - intros x Hx. rewrite F4 by lia. rewrite F3 by lia. rewrite F2 by lia. apply F1. lia.
Qed.

Lemma waits_on_ext stk d m m' sp :
  (∀ x, stk.1 ≤ x < stk.2 → m' x = m x) → waits_on stk d m sp → waits_on stk d m' sp.
Proof.
  unfold frame_bytes. intros Hm (Hd & Hs & ? & ?). split_and!; [done| |done|done].
  eapply words_at_ext; [|exact Hs]. intros x Hx.
  change (8 * Z.of_nat (length (context_words d))) with 160 in Hx.
  symmetry. apply Hm. unfold frame_bytes in *. lia.
Qed.

(** C1: preemption is transparent.  When the timer interrupts the running process, whose
    stack has room for the handler, the next process continues with every register, flag
    and pointer as it was when it was suspended, and the interrupted process waits in turn:
    its context is saved on its own stack and no other stack was touched. *)
Theorem preemption_transparent depth clobber1 clobber2 tss handler kcs ret1 ret2
    stk ctx procs cur c m k :
  sysv_abi depth clobber1 → sysv_abi depth clobber2 → is_word ret1 → is_word ret2 → 0 ≤ depth →
  cpu_ok c → contexts_inv stk ctx procs cur m k →
  (stk cur).1 + frame_bytes + 8 + depth ≤ interrupt_stack tss c ≤ (stk cur).2 →
  let ctx' i := if decide (i = cur) then c else ctx i in
  let next := ((cur + 1) `mod` length procs)%nat in
  ∃ c' m' k' procs',
    timer_interrupt tss handler kcs ret1 ret2 clobber1 clobber2 (c, m, k) =
      (Done (), (c', m', k')) ∧
    same_context c' (ctx' next) ∧ contexts_inv stk ctx' procs' next m' k' ∧
    length procs' = length procs.
Proof.
  intros Habi1 Habi2 Hret1 Hret2 Hdepth Hc (Hk & Hone & [Hrange Hdisj] & Hwait) Hroom ctx' next.
  set (top := interrupt_stack tss c) in *. set (a := top - frame_bytes).
  pose proof (proj1 Hone) as (p & Hp & _). apply lookup_lt_Some in Hp as Hcur.
  destruct (Hrange cur Hcur) as [Hlo Hhi].
  set (procs1 := RoundRobin.suspend cur a procs).
  destruct (tick_exact procs cur a (k_sched k) (proj1 Hk) Hone) as (q & _ & Hq & _ & _).
  fold next procs1 in Hq. set (procs' := RoundRobin.resume next procs1).
  destruct (timer_prefix depth clobber1 clobber2 tss handler kcs ret1 ret2 c m k procs cur (rsp q)
    (kernel_idle procs' next) top Habi1 Habi2 Hret1 Hret2 Hdepth Hc eq_refl ltac:(lia) Hk)
    as (c1 & m1 & k1 & E & Hrax & Hk1 & Hsaved & Hm).
  { intros k1 [Hs1 Hl1] _. destruct (tick_exact procs cur a (k_sched k1) Hs1 Hone)
      as (q' & s2 & Hq' & Es & Hs2). fold next procs1 in Hq', Hs2. simplify_eq.
    exists s2. split; [exact Es|]. by split. }
  fold a in Hsaved, Hm.
  assert (∀ i x, i ≠ cur → procs !! i = Some x → waits_on (stk i) (ctx i) m1 (rsp x)) as Hothers.
  { intros i x Hi Hx. eapply waits_on_ext; [|by apply Hwait]. intros z Hz. apply Hm.
    apply lookup_lt_Some in Hx. unfold frame_bytes in *.
    destruct (Hdisj i cur Hx Hcur Hi); unfold a, frame_bytes; lia. }
  assert (∀ i x, procs1 !! i = Some x → waits_on (stk i) (ctx' i) m1 (rsp x)) as Hall.
  { intros i x Hx. unfold ctx'. case_decide as Hi.
    - subst i. unfold procs1 in Hx. rewrite (suspend_lookup _ _ _ p Hp) in Hx.
      injection Hx as <-. simpl. split_and!; [done|done|unfold a, frame_bytes in *; lia..].
    - unfold procs1 in Hx. rewrite suspend_lookup_ne in Hx by done. by apply Hothers. }
  destruct (Hall next q Hq) as (Hd & Hds & Hl & Hh).
  assert (next < length procs)%nat as Hnext by (apply Nat.mod_upper_bound; lia).
  destruct (Hrange next Hnext) as [? ?].
  destruct (restore_done c1 (ctx' next) m1 k1 (rsp q) Hd Hds) as (c2 & E2 & Hsame);
    [unfold frame_bytes in *; lia|exact Hrax|].
  exists c2, m1, k1, procs'. rewrite E. split; [exact E2|]. split; [exact Hsame|]. split.
  - split; [done|]. assert (length procs' = length procs) as Hlen.
    { unfold procs', procs1. by rewrite resume_length, suspend_length. }
    split; [|split; [rewrite Hlen; exact (conj Hrange Hdisj)|]].
    + apply resume_one_running; [by eapply lookup_lt_Some|by apply suspend_all_ready].
    + intros i x _ Hx. pose proof (resume_rsp next procs1 i) as Hr. fold procs' in Hr.
      rewrite Hx in Hr. destruct (procs1 !! i) as [y|] eqn:Hy; [|done].
      injection Hr as ->. by apply Hall.
  - unfold procs', procs1. by rewrite resume_length, suspend_length.
Qed.

(** C29: but user processes share one stack for this, the one the TSS names.  Whichever
    process the timer interrupts in user mode, the scheduler is given the same address for
    it; so when the next process also waits there, the interrupt overwrites its context and
    "resumes" it with the registers of the process that was just interrupted. *)
Theorem user_contexts_collide depth clobber1 clobber2 tss handler kcs ret1 ret2
    procs cur q (d : cpu) m k :
  sysv_abi depth clobber1 → sysv_abi depth clobber2 → is_word ret1 → is_word ret2 → 0 ≤ depth →
  cpu_ok d → cs d mod 4 = 3 →
  frame_bytes + 8 ≤ round_down tss 16 < 2 ^ 64 →
  kernel_idle procs cur k → one_running procs cur →
  let next := ((cur + 1) `mod` length procs)%nat in
  let frame := round_down tss 16 - frame_bytes in
  next ≠ cur → procs !! next = Some q → rsp q = frame →
  ∃ c' m' k' procs',
    timer_interrupt tss handler kcs ret1 ret2 clobber1 clobber2 (d, m, k) =
      (Done (), (c', m', k')) ∧
    kernel_idle procs' next k' ∧ rsp <$> procs' !! cur = Some frame ∧ same_context c' d.
Proof.
  intros Habi1 Habi2 Hret1 Hret2 Hdepth Hd Hring Htop Hk Hone next frame Hne Hq Hrsp.
  assert (interrupt_stack tss d = round_down tss 16) as Hstk
    by (unfold interrupt_stack; by rewrite decide_True).
  set (procs1 := RoundRobin.suspend cur frame procs).
  assert (procs1 !! next = Some q) as Hq1 by (unfold procs1; by rewrite suspend_lookup_ne).
  set (procs' := RoundRobin.resume next procs1).
  pose proof (proj1 Hone) as (p & Hp & _).
  destruct (timer_prefix depth clobber1 clobber2 tss handler kcs ret1 ret2 d m k procs cur frame
    (kernel_idle procs' next) (round_down tss 16) Habi1 Habi2 Hret1 Hret2 Hdepth Hd
    (eq_sym Hstk) Htop Hk) as (c1 & m1 & k1 & E & Hrax & Hk1 & Hsaved & _).
  { intros k1 [Hs1 Hl1] _. destruct (tick_exact procs cur frame (k_sched k1) Hs1 Hone)
      as (q' & s2 & Hq' & Es & Hs2). fold next procs1 in Hq', Hs2. simplify_eq.
    exists s2. split; [by rewrite Es, Hrsp|]. by split. }
  destruct (restore_done c1 d m1 k1 frame Hd Hsaved) as (c2 & E2 & Hsame);
    [unfold frame, frame_bytes in *; lia|exact Hrax|].
  exists c2, m1, k1, procs'. rewrite E. split; [exact E2|]. split; [exact Hk1|].
  split; [|exact Hsame]. unfold procs'. rewrite resume_rsp. unfold procs1.
  by rewrite (suspend_lookup _ _ _ p Hp).
Qed.

End preemption.
