(* ===== verification/NewThread.v ===== *)
(** * A new kernel thread: the stack that [add_process] builds is a context of
    [timer_handler]. *)

From S2P Require Import Prelude Crates CrateModels Statics Machine Asm.
From S2P Require Import Sched SchedSpec SchedSafety ContextSwitch Preemption.

Local Open Scope Z_scope.

(** Zeroed registers, the entry point and the end of the new stack. *)
Definition fresh_context (entry flags stack : Z) : cpu :=
  mkCpu (λ r, if decide (r = RSP) then stack + KERNEL_STACK_SIZE else 0)
        entry 8 (Z.lor flags INTERRUPT_FLAG) 16.

Lemma lor_word a b : is_word a → is_word b → is_word (Z.lor a b).
Proof.
  intros [Ha0 Ha] [Hb0 Hb]. split; [by apply Z.lor_nonneg|].
  destruct (decide (Z.lor a b = 0)) as [->|Hne]; [lia|].
  assert (0 ≤ Z.lor a b) by (by apply Z.lor_nonneg).
  apply Z.log2_lt_pow2; [lia|]. rewrite Z.log2_lor by done.
  assert (∀ x, 0 ≤ x < 2 ^ 64 → Z.log2 x < 64) as Hl.
  { intros x [? ?]. destruct (decide (x = 0)) as [->|]; [simpl; lia|].
    apply Z.log2_lt_pow2; lia. }
  apply Z.max_lub_lt; by apply Hl.
Qed.

(** ** Reading back the new stack *)

Lemma load64_zero m a : (∀ x, a ≤ x < a + 8 → m x = 0) → load64 m a = 0.
Proof. intros Hm. by rewrite (load_word_ext 8 m (λ _, 0) a). Qed.

(** A 16-bit field with zeros behind it. *)
Lemma load64_of_16 m a v :
  load16 m a = v → (∀ x, a + 2 ≤ x < a + 8 → m x = 0) → load64 m a = v.
Proof.
  intros <- Hm. unfold load_word, load_bytes.
  change (seqZ 0 8) with [0; 1; 2; 3; 4; 5; 6; 7]. change (seqZ 0 2) with [0; 1].
  cbn [fmap list_fmap]. by rewrite (Hm (a + 2)), (Hm (a + 3)), (Hm (a + 4)), (Hm (a + 5)),
    (Hm (a + 6)), (Hm (a + 7)) by lia.
Qed.

Lemma store_word_out n a v m x : 0 ≤ n → x < a ∨ a + n ≤ x → store_word n a v m x = m x.
Proof. intros. apply store_bytes_out. rewrite length_store_word by done. lia. Qed.

Lemma store_zeros a n m x :
  a ≤ x < a + Z.of_nat n → store_bytes a (replicate n 0) m x = 0.
Proof.
  intros Hx. apply (store_bytes_in _ _ _ _ 0); [lia|]. apply lookup_replicate. split; [done|lia].
Qed.

(** The words of a zeroed stack with an interrupt frame at offset 120. *)
Lemma new_stack_words entry flags stack sp m :
  is_word entry → is_word flags → is_word sp →
  let m1 := store_bytes stack (replicate (Z.to_nat KERNEL_STACK_SIZE) 0) m in
  let m2 := write_stack_frame (stack + 120) entry 8 flags sp 16 m1 in
  words_at m2 stack (replicate 15 0 ++ [entry; 8; flags; sp; 16]) ∧
  ∀ x, x < stack ∨ stack + KERNEL_STACK_SIZE ≤ x → m2 x = m x.
Proof.
  intros He Hf Hsp m1 m2.
  assert (∀ x, stack ≤ x < stack + KERNEL_STACK_SIZE → m1 x = 0) as Hzero.
  { intros x Hx. apply store_zeros. unfold KERNEL_STACK_SIZE in *. lia. }
  assert (∀ x, x < stack + 120 ∨ stack + 154 ≤ x → m2 x = m1 x) as Hout.
  { intros x Hx. unfold m2, write_stack_frame. by rewrite !store_word_out by lia. }
  assert (∀ x, stack + 130 ≤ x < stack + 136 ∨ stack + 154 ≤ x < stack + 160 → m2 x = 0) as Hpad.
  { intros x Hx. unfold m2, write_stack_frame. rewrite !store_word_out by lia.
    apply Hzero. unfold KERNEL_STACK_SIZE. lia. }
  assert (load64 m2 (stack + 120) = entry ∧ load64 m2 (stack + 128) = 8 ∧
    load64 m2 (stack + 136) = flags ∧ load64 m2 (stack + 144) = sp ∧
    load64 m2 (stack + 152) = 16) as (W1 & W2 & W3 & W4 & W5).
  { replace (stack + 128) with (stack + 120 + 8) by lia.
    replace (stack + 136) with (stack + 120 + 16) by lia.
    replace (stack + 144) with (stack + 120 + 24) by lia.
    replace (stack + 152) with (stack + 120 + 32) by lia.
    split_and!; [| apply load64_of_16; [|intros x Hx; apply Hpad; lia] | |
      |apply load64_of_16; [|intros x Hx; apply Hpad; lia]];
    unfold m2, write_stack_frame.
    - rewrite !load_store_word_other by lia. by apply load_store_word.
    - rewrite !load_store_word_other by lia. by apply load_store_word.
    - rewrite !load_store_word_other by lia. by apply load_store_word.
    - rewrite !load_store_word_other by lia. by apply load_store_word.
    - by apply load_store_word. }
  split.
  - intros i w Hw. destruct (decide (i < 15)%nat) as [Hi|Hi].
    + rewrite lookup_app_l in Hw by (by rewrite length_replicate).
      apply lookup_replicate in Hw as [-> _]. apply load64_zero. intros x Hx.
      rewrite Hout by lia. apply Hzero. unfold KERNEL_STACK_SIZE. lia.
    + rewrite lookup_app_r, length_replicate in Hw by (rewrite length_replicate; lia).
      remember (i - 15)%nat as j eqn:Ej. replace i with (15 + j)%nat by lia.
      do 5 (destruct j as [|j]; [injection Hw as <-; first [exact W1|exact W2|exact W3|exact W4|exact W5]|]).
      done.
  - intros x Hx. unfold KERNEL_STACK_SIZE in *. rewrite Hout by lia.
    apply store_bytes_out. rewrite length_replicate. lia.
Qed.

Section claims.
Context {C : Type → Type} `{OnceCellLaws C} {L RW : Type} `{RawLockLaws L, RawRwLockLaws RW}.
Context `{X86AddrLaws, X86SegmentLaws}.

Lemma add_process_done entry flags stack m procs cur (s : sched C L RW) :
  sched_idle procs cur s → is_word entry → canonical entry → is_word flags →
  0 < stack → stack + KERNEL_STACK_SIZE < 2 ^ 64 → canonical (stack + KERNEL_STACK_SIZE) →
  ∃ s' m', add_process entry flags stack (s, m) = (Done (), (s', m')) ∧
    sched_idle (procs ++ [mkProcess 1 READY stack (Some stack) None None]) cur s' ∧
    waits_on (stack, stack + KERNEL_STACK_SIZE) (fresh_context entry flags stack) m' stack ∧
    ∀ x, x < stack ∨ stack + KERNEL_STACK_SIZE ≤ x → m' x = m x.
Proof.
  intros Hs He Hce Hf Hlo Hhi Hcs.
  assert (is_word (stack + KERNEL_STACK_SIZE)) as Hsp
    by (unfold is_word, KERNEL_STACK_SIZE in *; lia).
  assert (is_word (Z.lor flags INTERRUPT_FLAG)) as Hfl by (by apply lor_word).
  destruct (add_process_run entry flags stack m procs cur s Hs He Hce Hsp Hcs) as (s3 & E & Hs3).
  rewrite !SegmentSelector_new_spec in E by by_decide.
  destruct (new_stack_words entry (Z.lor flags INTERRUPT_FLAG) stack (stack + KERNEL_STACK_SIZE) m
    He Hfl Hsp) as [Hw Hout].
  eexists s3, _. split; [exact E|split; [exact Hs3|split; [|exact Hout]]].
  split; [|split; [exact Hw|split; simpl; unfold frame_bytes, KERNEL_STACK_SIZE; lia]].
  split; [|split; [exact He|split; [exact Hfl|split; by_decide]]].
  intros r. simpl. case_decide; [exact Hsp|]. by_decide.
Qed.

(** C21: [add_process] appends a ready process whose saved stack pointer is the start of its
    new stack, and lays out there exactly the context that [timer_handler] pops: the first
    switch to it enters the function with zeroed registers, interrupts enabled, the kernel
    segments and the stack pointer at the end of the stack.  No other memory changes. *)
Theorem new_thread_starts_at_entry entry flags stack m procs cur (s : sched C L RW) :
  sched_idle procs cur s → is_word entry → canonical entry → is_word flags →
  0 < stack → stack + KERNEL_STACK_SIZE < 2 ^ 64 → canonical (stack + KERNEL_STACK_SIZE) →
  ∃ s' m', add_process entry flags stack (s, m) = (Done (), (s', m')) ∧
    sched_idle (procs ++ [mkProcess 1 READY stack (Some stack) None None]) cur s' ∧
    waits_on (stack, stack + KERNEL_STACK_SIZE) (fresh_context entry flags stack) m' stack ∧
    ∀ x, x < stack ∨ stack + KERNEL_STACK_SIZE ≤ x → m' x = m x.
Proof. apply add_process_done. Qed.

End claims.

(** ** Runs *)

#[local] Existing Instance option_cell.
#[local] Existing Instance bit_lock.
#[local] Existing Instance count_rw_lock.
#[local] Existing Instance num_addr.
#[local] Existing Instance num_segment.

Definition boot_thread : Process := mkProcess 0 RUNNING 0 None None None.
Definition one_sched : sched option bool (option nat) :=
  mkSched (Some (Locked false [boot_thread])) (Some (Locked (Some 0%nat) 0%nat)).

Definition thread_entry : Z := 0xffffffff80001000.
Definition thread_stack : Z := 0xffffffff7fe10000.

Definition one_sched_added : outcome () * (sched option bool (option nat) * memory) :=
  add_process thread_entry 2 thread_stack (one_sched, λ _, 0xff).

Lemma new_thread_starts_at_entry_witness :
  ∃ s' m', one_sched_added = (Done (), (s', m')) ∧
    sched_idle [boot_thread; mkProcess 1 READY thread_stack (Some thread_stack) None None] 0 s' ∧
    waits_on (thread_stack, thread_stack + KERNEL_STACK_SIZE)
      (fresh_context thread_entry 2 thread_stack) m' thread_stack.
Proof.
  destruct (@new_thread_starts_at_entry option _ option_cell_laws _ _ _ bit_lock_laws _ _
    num_addr_laws _ num_segment_laws thread_entry 2 thread_stack (λ _, 0xff) [boot_thread] 0
    one_sched) as (s' & m' & E & Hs & Hw & _); [by split|by_decide..|].
  exists s', m'. split; [exact E|]. split; [exact Hs|exact Hw].
Defined.

(** The boot thread is interrupted while its registers hold their own numbers. *)
Definition boot_cpu : cpu :=
  mkCpu (λ r, if decide (r = RSP) then 0xffff80000000fff0 else 7) 0xffffffff80002345 8 0x202 16.

Definition two_stacks (i : nat) : Z * Z :=
  match i with
  | O => (0xffff80000000f000, 0xffff800000010000)
  | _ => (thread_stack, thread_stack + KERNEL_STACK_SIZE)
  end.

Definition two_contexts (i : nat) : cpu :=
  match i with O => boot_cpu | _ => fresh_context thread_entry 2 thread_stack end.

Lemma two_contexts_inv :
  ∃ procs m k, length procs = 2%nat ∧ contexts_inv two_stacks two_contexts procs 0 m k.
Proof.
  destruct (@add_process_done option _ option_cell_laws _ _ _ bit_lock_laws _ _
    num_addr_laws _ num_segment_laws thread_entry 2 thread_stack (λ _, 0xff) [boot_thread] 0
    one_sched) as (s' & m' & _ & Hs & Hw & _); [by split|by_decide..|].
  exists [boot_thread; mkProcess 1 READY thread_stack (Some thread_stack) None None], m',
    (mkKernel s' (Some (Locked false (replicate 252 0)))).
  split; [|split; [|split; [|split]]].
  - done.
  - split; [exact Hs|]. by eexists.
  - split; [by eexists|]. intros [|[|i]] q ? ?; by simplify_eq/=.
  - split.
    + intros [|[|i]] Hi; [by_decide..|simpl in Hi; lia].
    + intros [|[|i]] [|[|j]] Hi Hj Hij; simpl in *; try lia; by_decide.
  - intros [|[|i]] q ? Hq; try done. injection Hq as <-. exact Hw.
Qed.

Lemma no_clobber_abi depth : sysv_abi depth id.
Proof. done. Qed.

Lemma boot_cpu_ok : cpu_ok boot_cpu.
Proof.
  split; [|split; [by_decide|split; [by_decide|split; by_decide]]].
  intros r. simpl. case_decide; by_decide.
Qed.

Lemma preemption_transparent_witness :
  ∃ m k c' s', timer_interrupt 0 0 8 0x100 0x200 id id (boot_cpu, m, k) =
      (Done (), (c', s'.1, s'.2)) ∧ rip c' = thread_entry ∧
    regs c' RSP = thread_stack + KERNEL_STACK_SIZE.
Proof.
  destruct two_contexts_inv as (procs & m & k & Hlen & Hinv).
  destruct (@preemption_transparent option _ option_cell_laws _ _ _ bit_lock_laws _
    count_rw_lock_laws 0x800 id id 0 0 8 0x100 0x200 two_stacks two_contexts procs 0 boot_cpu m k
    (no_clobber_abi _) (no_clobber_abi _)) as (c' & m' & k' & procs' & E & Hsame & _);
    [by_decide..|exact boot_cpu_ok|exact Hinv|by_decide|].
  exists m, k, c', (m', k'). split; [exact E|]. rewrite Hlen in Hsame.
  destruct Hsame as (Hregs & Hrip & _). rewrite Hrip, Hregs. by split.
Defined.

(** Two user processes; the second waits where the first will be saved. *)
Definition user_cpu : cpu :=
  mkCpu (λ r, if decide (r = RSP) then 0x1ff000 else 9) 0x401000 0x33 0x202 0x2b.
Definition two_users : list Process :=
  [mkProcess 2 RUNNING 0x1fc008 None (Some 0%nat) None;
   mkProcess 2 READY (0x6000 - frame_bytes) None (Some 0%nat) None].
Definition two_users_kernel : kernel option bool (option nat) :=
  mkKernel (mkSched (Some (Locked false two_users)) (Some (Locked (Some 0%nat) 0%nat)))
           (Some (Locked false (replicate 252 0))).

Lemma user_contexts_collide_witness :
  ∃ c' m' k', timer_interrupt 0x6000 0 8 0x100 0x200 id id (user_cpu, λ _, 0, two_users_kernel) =
    (Done (), (c', m', k')) ∧ same_context c' user_cpu.
Proof.
  destruct (@user_contexts_collide option _ option_cell_laws _ _ _ bit_lock_laws _
    count_rw_lock_laws 0x800 id id 0x6000 0 8 0x100 0x200 two_users 0
    (mkProcess 2 READY (0x6000 - frame_bytes) None (Some 0%nat) None) user_cpu (λ _, 0)
    two_users_kernel (no_clobber_abi _) (no_clobber_abi _))
    as (c' & m' & k' & procs' & E & _ & _ & Hsame); [by_decide..| | |by_decide| | | | | |].
  - split; [|split; [by_decide|split; [by_decide|split; by_decide]]].
    intros r. simpl. case_decide; by_decide.
  - done.
  - split; [by split|]. by eexists.
  - split; [by eexists|]. intros [|[|i]] q ? ?; by simplify_eq/=.
  - done.
  - done.
  - done.
  - exists c', m', k'. split; [exact E|exact Hsame].
Defined.
