(* ===== verification/Pipe.v ===== *)
(** * The input pipe: kernel/src/vfs/mod.rs and kernel/src/vfs/pipe.rs.

    A bounded queue of bytes between the keyboard interrupt handler, which writes, and a
    process, which reads by spinning.  The interrupt can come between any two attempts of
    the reader, so a run is given by the bytes that arrive before each attempt. *)

From S2P Require Import Prelude Crates CrateModels Statics Machine.

Section pipe.
Context {Q : Type} `{ArrayQueueApi Q}.

Record Pipe := mkPipe { array : Q }.

Definition Pipe_new (size : nat) : outcome Pipe :=
  q ← aq_new size;
  Done (mkPipe q).

Definition array_lens : lens Pipe Q := Lens array (λ q _, mkPipe q).

(** [self.array.push(c).expect("Pipe is full")] *)
Definition push_byte (c : Z) : M Pipe () :=
  r ← on array_lens (call (aq_push c));
  match r with
  | ROk _ => mret ()
  | RErr _ => panic "Pipe is full"
  end.

(** [write(_offset, size, buffer)]; the memory is the one [buffer] points into. *)
Definition write (m : memory) (size : nat) (buffer : Z) : M Pipe () :=
  for_each (λ i, push_byte (m (buffer + i)%Z)) (seqZ 0 (Z.of_nat size)).

(** [read(_offset, size, buffer)] from byte [i] on; [fault] says which stores to memory fault,
    and how.  Each element of [arrivals] is one round
    of the inner loop: the bytes the interrupt handler writes, then one [pop].  The result
    is whether the routine has returned when the rounds are over. *)
Fixpoint read_from (fault : Z → option string) (arrivals : list (list Z)) (i size : nat) (buffer : Z) :
    M (Pipe * memory) nat :=
  if decide (size ≤ i) then mret i
  else
    match arrivals with
    | [] => mret i
    | keys :: arrivals =>
        on fst_lens (for_each push_byte keys);;
        c ← on fst_lens (on array_lens (call aq_pop));
        match c with
        | Some c =>
            (if fault (buffer + Z.of_nat i)%Z is Some w then panic w
             else on snd_lens (modify_state (store_bytes (buffer + Z.of_nat i)%Z [c])));;
            read_from fault arrivals (S i) size buffer
        | None => read_from fault arrivals i size buffer
        end
    end.

Definition read (fault : Z → option string) (arrivals : list (list Z)) (size : nat) (buffer : Z) :
    M (Pipe * memory) nat :=
  read_from fault arrivals 0 size buffer.

End pipe.
Arguments Pipe Q : clear implicits.

(** ** The queue behind the pipe *)

Section spec.
Context {Q : Type} `{ArrayQueueLaws Q}.

(** A pipe of capacity [cap] that holds the bytes [xs], oldest first. *)
Definition pipe_is (cap : nat) (xs : list Z) (p : Pipe Q) : Prop :=
  aq_view (array p) = xs ∧ aq_capacity (array p) = cap.

Lemma push_byte_done cap xs p c :
  pipe_is cap xs p → length xs < cap →
  ∃ p', push_byte c p = (Done (), p') ∧ pipe_is cap (xs ++ [c]) p'.
Proof.
  intros [Hv Hc] Hlt. subst. destruct (aq_push_room c (array p) Hlt) as (q & E & ? & ?).
  exists (mkPipe q). split; [|by split].
  unfold push_byte.
  by rewrite (mbind_done _ _ _ _ _ (on_done array_lens _ _ _ _ (call_done _ _ _ _ E))).
Qed.

Lemma push_byte_full cap xs p c :
  pipe_is cap xs p → cap ≤ length xs →
  ∃ p', push_byte c p = (Panic "Pipe is full", p') ∧ pipe_is cap xs p'.
Proof.
  intros [Hv Hc] Hlt. subst. destruct (aq_push_full c (array p) Hlt) as (q & E & ? & ?).
  exists (mkPipe q). split; [|by split].
  unfold push_byte.
  by rewrite (mbind_done _ _ _ _ _ (on_done array_lens _ _ _ _ (call_done _ _ _ _ E))).
Qed.

Lemma push_bytes_cases cap xs p {A} (f : A → Z) keys :
  pipe_is cap xs p → length xs ≤ cap →
  if decide (length xs + length keys ≤ cap) then
    ∃ p', for_each (λ i, push_byte (f i)) keys p = (Done (), p') ∧
          pipe_is cap (xs ++ (f <$> keys)) p'
  else
    ∃ p', for_each (λ i, push_byte (f i)) keys p = (Panic "Pipe is full", p') ∧
          pipe_is cap (xs ++ (f <$> take (cap - length xs) keys)) p'.
Proof.
  revert xs p. induction keys as [|c keys IH]; intros xs p Hp Hle; simpl.
  { rewrite decide_True by lia. exists p. by rewrite app_nil_r. }
  destruct (decide (length xs < cap)) as [Hlt|Hfull].
  - destruct (push_byte_done cap xs p (f c) Hp Hlt) as (p1 & E & Hp1).
    specialize (IH (xs ++ [f c]) p1 Hp1). rewrite length_app in IH. simpl in IH.
    specialize (IH ltac:(lia)). rewrite (mbind_done _ _ _ _ _ E).
    destruct (decide (length xs + 1 + length keys ≤ cap)).
    + rewrite decide_True by lia. by rewrite <-(assoc_L (++)) in IH.
    + rewrite decide_False by lia. destruct (cap - length xs) as [|k] eqn:Ek; [lia|].
      replace (cap - (length xs + 1)) with k in IH by lia.
      by rewrite <-(assoc_L (++)) in IH.
  - rewrite decide_False by lia. replace (cap - length xs) with 0 by lia.
    destruct (push_byte_full cap xs p (f c) Hp) as (p1 & E & Hp1); [lia|].
    exists p1. rewrite (mbind_panic _ _ _ _ _ E). by rewrite app_nil_r.
Qed.

Lemma pop_empty cap p :
  pipe_is cap [] p →
  ∃ p', on array_lens (call aq_pop) p = (Done None, p') ∧ pipe_is cap [] p'.
Proof.
  intros [Hv Hc]. destruct (aq_pop_empty _ Hv) as (q & E & ? & ?).
  exists (mkPipe q). split; [|split; simpl; congruence].
  apply (on_done array_lens), call_done, E.
Qed.

Lemma pop_cons cap p x xs :
  pipe_is cap (x :: xs) p →
  ∃ p', on array_lens (call aq_pop) p = (Done (Some x), p') ∧ pipe_is cap xs p'.
Proof.
  intros [Hv Hc]. destruct (aq_pop_cons _ _ _ Hv) as (q & E & ? & ?).
  exists (mkPipe q). split; [|split; simpl; congruence].
  apply (on_done array_lens), call_done, E.
Qed.

Lemma read_from_finished fault b i size buffer s :
  size ≤ i → read_from fault b i size buffer s = (Done i, s).
Proof. intros. destruct b; simpl; by rewrite decide_True. Qed.

(** More rounds continue where the first ones stopped. *)
Lemma read_from_app fault a b i size buffer s :
  read_from fault (a ++ b) i size buffer s =
  (j ← read_from fault a i size buffer; read_from fault b j size buffer) s.
Proof.
  revert i s. induction a as [|keys a IH]; intros i s; simpl.
  - by case_decide.
  - case_decide; [by rewrite mret_bind, read_from_finished|].
    rewrite mbind_assoc. apply mbind_ext. intros [] s1.
    rewrite mbind_assoc. apply mbind_ext. intros [c|] s2; [|apply IH].
    rewrite mbind_assoc. apply mbind_ext. intros [] s3. apply IH.
Qed.

Lemma store_bytes_cons a b bs m x :
  store_bytes (a + 1) bs (store_bytes a [b] m) x = store_bytes a (b :: bs) m x.
Proof.
  destruct (decide (x = a)) as [->|Hne].
  { rewrite store_bytes_out by lia. rewrite !(store_bytes_in a _ _ a b) by (lia || by rewrite Z.sub_diag).
    done. }
  destruct (decide (a < x < a + 1 + Z.of_nat (length bs))%Z).
  - destruct (lookup_lt_is_Some_2 bs (Z.to_nat (x - (a + 1)))) as [c Hc]; [lia|].
    rewrite (store_bytes_in (a + 1) bs _ x c), (store_bytes_in a (b :: bs) m x c); try done; try lia.
    by replace (Z.to_nat (x - a)) with (S (Z.to_nat (x - (a + 1)))) by lia.
  - by rewrite !store_bytes_out by (simpl; lia).
Qed.

(** No byte is lost, duplicated or reordered between the writers, the queue and the
    buffer. *)
Lemma read_from_done fault cap arrivals i size buffer xs p m :
  pipe_is cap xs p → length xs + length (concat arrivals) ≤ cap → i ≤ size →
  (∀ j, i ≤ j < size → fault (buffer + Z.of_nat j)%Z = None) →
  ∃ got rest k p' m',
    read_from fault arrivals i size buffer (p, m) = (Done (i + length got), (p', m')) ∧
    pipe_is cap rest p' ∧ i + length got ≤ size ∧
    xs ++ concat (take k arrivals) = got ++ rest ∧ k ≤ length arrivals ∧
    (i + length got < size → k = length arrivals) ∧
    ∀ x, m' x = store_bytes (buffer + Z.of_nat i) got m x.
Proof.
  revert i xs p m. induction arrivals as [|keys arrivals IH]; intros i xs p m Hp Hcap Hi Hf.
  { exists [], xs, 0, p, m. simpl. rewrite Nat.add_0_r, app_nil_r.
    split_and!; [by case_decide|done|done|done|done|done|].
    intros x. by rewrite store_bytes_out by (simpl; lia). }
  simpl in Hcap. rewrite length_app in Hcap. simpl read_from. case_decide.
  { exists [], xs, 0, p, m. simpl. rewrite Nat.add_0_r, app_nil_r.
    split_and!; [done|done|done|done|lia|lia|].
    intros x. by rewrite store_bytes_out by (simpl; lia). }
  pose proof (push_bytes_cases cap xs p id keys Hp ltac:(lia)) as Hpush.
  rewrite decide_True, list_fmap_id in Hpush by lia. destruct Hpush as (p1 & E1 & Hp1).
  rewrite (mbind_done _ _ _ _ _ (on_done fst_lens _ (p, m) _ _ E1)). simpl.
  destruct (xs ++ keys) as [|c ys] eqn:Exs.
  - destruct (pop_empty cap p1 Hp1) as (p2 & E2 & Hp2).
    rewrite (mbind_done _ _ _ _ _ (on_done fst_lens _ (p1, m) _ _ E2)). simpl.
    destruct (IH i [] p2 m Hp2) as (got & rest & k & p3 & m3 & E3 & ? & ? & Heq & ? & ? & ?);
      [simpl; lia|done|exact Hf|].
    exists got, rest, (S k), p3, m3. simpl.
    split_and!; [done|done|done| |lia|lia|done].
    rewrite (assoc_L (++)), Exs. done.
  - destruct (pop_cons cap p1 c ys Hp1) as (p2 & E2 & Hp2).
    rewrite (mbind_done _ _ _ _ _ (on_done fst_lens _ (p1, m) _ _ E2)). simpl.
    rewrite Hf by lia.
    rewrite (mbind_done _ _ _ _ _ (on_done snd_lens (modify_state _) (p2, m) () _ eq_refl)). simpl.
    apply (f_equal length) in Exs as Hlen. rewrite length_app in Hlen. simpl in Hlen.
    destruct (IH (S i) ys p2 (store_bytes (buffer + Z.of_nat i) [c] m) Hp2)
      as (got & rest & k & p3 & m3 & E3 & ? & ? & Heq & ? & Hall & Hm3); [lia|lia|intros j ?; apply Hf; lia|].
    exists (c :: got), rest, (S k), p3, m3. simpl. rewrite <-!plus_n_Sm in *.
    split_and!; [done|done|lia| |lia|intros; f_equal; apply Hall; lia|].
    + rewrite (assoc_L (++)), Exs. simpl. by rewrite Heq.
    + intros x. rewrite Hm3, <-store_bytes_cons.
      by replace (buffer + Z.of_nat (S i))%Z with (buffer + Z.of_nat i + 1)%Z by lia.
Qed.

(** Once enough bytes are queued every round delivers one. *)
Lemma read_from_enough fault cap arrivals i size buffer xs p m :
  pipe_is cap xs p → length xs + length (concat arrivals) ≤ cap → i ≤ size →
  (∀ j, i ≤ j < size → fault (buffer + Z.of_nat j)%Z = None) →
  size - i ≤ length xs → size - i ≤ length arrivals →
  ∃ s', read_from fault arrivals i size buffer (p, m) = (Done size, s').
Proof.
  revert i xs p m. induction arrivals as [|keys arrivals IH];
    intros i xs p m Hp Hcap Hi Hf Hxs Hlen; simpl in *.
  { assert (i = size) as -> by lia. rewrite decide_True by done. by eexists. }
  rewrite length_app in Hcap. case_decide; [assert (i = size) as -> by lia; by eexists|].
  pose proof (push_bytes_cases cap xs p id keys Hp ltac:(lia)) as Hpush.
  rewrite decide_True, list_fmap_id in Hpush by lia. destruct Hpush as (p1 & E1 & Hp1).
  rewrite (mbind_done _ _ _ _ _ (on_done fst_lens _ (p, m) _ _ E1)). simpl.
  destruct xs as [|c ys]; simpl in *; [lia|].
  destruct (pop_cons cap p1 c (ys ++ keys) Hp1) as (p2 & E2 & Hp2).
  rewrite (mbind_done _ _ _ _ _ (on_done fst_lens _ (p1, m) _ _ E2)). simpl.
  rewrite Hf by lia.
  rewrite (mbind_done _ _ _ _ _ (on_done snd_lens (modify_state _) (p2, m) () _ eq_refl)). simpl.
  apply (IH (S i) (ys ++ keys)); rewrite ?length_app; try done; try lia.
  intros j ?. apply Hf. lia.
Qed.

End spec.

(** ** What the pipe guarantees *)

Section claims.
Context {Q : Type} `{ArrayQueueLaws Q}.

(** A read delivers the bytes in the order they were written: what was queued, followed
    by what arrived while it ran, is what it stored in the buffer followed by what is still
    queued; it stores exactly [size] bytes from the start of the buffer, nothing else, and
    returns only then. *)
Theorem read_is_fifo fault cap arrivals size buffer xs (p : Pipe Q) m :
  pipe_is cap xs p → length xs + length (concat arrivals) ≤ cap →
  (∀ j, j < size → fault (buffer + Z.of_nat j)%Z = None) →
  ∃ got rest k p' m',
    read fault arrivals size buffer (p, m) = (Done (length got), (p', m')) ∧
    pipe_is cap rest p' ∧ length got ≤ size ∧
    xs ++ concat (take k arrivals) = got ++ rest ∧
    (length got < size → k = length arrivals) ∧
    ∀ x, m' x = store_bytes buffer got m x.
Proof.
  intros Hp Hcap Hf.
  destruct (read_from_done fault cap arrivals 0 size buffer xs p m Hp Hcap)
    as (got & rest & k & p' & m' & E & ? & ? & ? & _ & ? & Hm); [lia|intros; apply Hf; lia|].
  exists got, rest, k, p', m'. split_and!; try done.
  intros x. by rewrite Hm, Z.add_0_r.
Qed.

(** A read returns within [size] rounds from the moment [size] bytes have arrived, and
    spins for as long as fewer have. *)
Theorem read_returns_iff_enough fault cap early late size buffer xs (p : Pipe Q) m :
  pipe_is cap xs p → length xs + length (concat (early ++ late)) ≤ cap →
  (∀ j, j < size → fault (buffer + Z.of_nat j)%Z = None) →
  (size ≤ length xs + length (concat early) → size ≤ length late →
     ∃ s', read fault (early ++ late) size buffer (p, m) = (Done size, s')) ∧
  (length xs + length (concat early) < size →
     ∃ n s', n < size ∧ read fault early size buffer (p, m) = (Done n, s')).
Proof.
  intros Hp Hcap Hf. rewrite concat_app, length_app in Hcap.
  destruct (read_from_done fault cap early 0 size buffer xs p m Hp)
    as (got & rest & k & p' & m' & E & Hp' & Hle & Heq & Hk & Hall & _);
    [lia|lia|intros; apply Hf; lia|].
  unfold read. apply (f_equal length) in Heq. rewrite !length_app in Heq.
  simpl in *. split.
  - intros Henough Hlate. rewrite read_from_app, (mbind_done _ _ _ _ _ E).
    destruct (decide (length got < size)) as [Hlt|].
    + rewrite (Hall Hlt), take_ge in Heq by done.
      apply (read_from_enough fault cap late (length got) size buffer rest p' m');
        [done|lia|lia|intros; apply Hf; lia|lia|lia].
    + rewrite read_from_finished by lia. assert (length got = size) as -> by lia. by eexists.
  - intros Hfew. exists (length got), (p', m'). split; [|done].
    destruct (decide (length got < size)); [done|].
    assert (length (concat (take k early)) ≤ length (concat early)); [|lia].
    rewrite <-(take_drop k early) at 2. rewrite concat_app, length_app. lia.
Qed.

(** A write queues all its bytes if they fit; otherwise it queues the first ones that
    fit and panics on the next, for any writer, the keyboard interrupt included. *)
Theorem write_fits_or_panics cap m size buffer xs (p : Pipe Q) :
  pipe_is cap xs p → length xs ≤ cap →
  if decide (length xs + size ≤ cap) then
    ∃ p', write m size buffer p = (Done (), p') ∧
          pipe_is cap (xs ++ load_bytes m buffer (Z.of_nat size)) p'
  else
    ∃ p', write m size buffer p = (Panic "Pipe is full", p') ∧
          pipe_is cap (xs ++ load_bytes m buffer (Z.of_nat (cap - length xs))) p'.
Proof.
  intros Hp Hle.
  pose proof (push_bytes_cases cap xs p (λ i, m (buffer + i)%Z) (seqZ 0 (Z.of_nat size)) Hp Hle)
    as Hw. rewrite length_seqZ, Nat2Z.id in Hw. unfold write, load_bytes.
  case_decide; [done|]. destruct Hw as (p' & E & Hp'). exists p'. split; [done|].
  replace (take (cap - length xs) (seqZ 0 (Z.of_nat size)))
    with (seqZ 0 (Z.of_nat (cap - length xs))) in Hp'; [done|].
  unfold seqZ. rewrite <-fmap_take, take_seq, !Nat2Z.id. f_equal. f_equal. lia.
Qed.

End claims.

#[local] Existing Instance list_array_queue.

Definition half_full : Pipe list_queue := mkPipe (ListQueue [104; 105]%Z 4).

Definition blank : memory := λ _, 0%Z.

(** Every store goes through. *)
Definition no_fault : Z → option string := λ _, None.

Lemma read_is_fifo_witness :
  ∃ rest p' m', read no_fault [[]; [10]; [33]]%Z 3 0x2000 (half_full, blank) = (Done 3, (p', m')) ∧
    pipe_is 4 rest p' ∧ m' 0x2002%Z = 10%Z.
Proof.
  destruct (@read_is_fifo list_queue _ list_array_queue_laws no_fault 4 [[]; [10]; [33]]%Z 3 0x2000
    [104; 105]%Z half_full blank (conj eq_refl eq_refl)) as
    (got & rest & k & p' & m' & E & Hp & _ & _ & _ & _); [simpl; lia|done|].
  assert (Done (length got) = Done 3) as Hg.
  { transitivity (read no_fault [[]; [10]; [33]]%Z 3 0x2000 (half_full, blank)).1; [by rewrite E|].
    by vm_compute. }
  assert (m' 0x2002%Z = 10%Z) as Hm.
  { transitivity ((read no_fault [[]; [10]; [33]]%Z 3 0x2000 (half_full, blank)).2.2 0x2002%Z);
      [by rewrite E|]. by vm_compute. }
  rewrite Hg in E. by exists rest, p', m'.
Defined.

Lemma read_returns_iff_enough_witness :
  (∃ s', read no_fault [[]; [10]; []; []; []]%Z 3 0x2000 (half_full, blank) = (Done 3, s')) ∧
  (∃ n s', n < 5 ∧ read no_fault [[]; [10]]%Z 5 0x2000 (half_full, blank) = (Done n, s')).
Proof.
  pose proof (λ l size, @read_returns_iff_enough list_queue _ list_array_queue_laws no_fault 4
    [[]; [10]]%Z l size 0x2000 [104; 105]%Z half_full blank (conj eq_refl eq_refl)) as H.
  split.
  - apply (H [[]; []; []] 3); simpl; (done || lia).
  - apply (H [] 5); simpl; (done || lia).
Defined.

Lemma write_fits_or_panics_witness :
  (∃ p', write (λ _, 65%Z) 2 0x3000 half_full = (Done (), p')) ∧
  (∃ p', write (λ _, 65%Z) 3 0x3000 half_full = (Panic "Pipe is full", p')).
Proof.
  pose proof (λ size, @write_fits_or_panics list_queue _ list_array_queue_laws 4 (λ _, 65%Z) size
    0x3000 [104; 105]%Z half_full (conj eq_refl eq_refl)) as H.
  split.
  - destruct (H 2) as (p' & E & _); [simpl; lia|]. by exists p'.
  - destruct (H 3) as (p' & E & _); [simpl; lia|]. by exists p'.
Defined.
