(* ===== verification/Framebuffer.v ===== *)
(** * The screen: kernel/src/framebuffer.rs. *)

From S2P Require Import Prelude Crates CrateModels Statics.

Local Open Scope Z_scope.

(** ** bootloader_api: the description of the frame buffer *)

Inductive PixelFormat := Rgb | Bgr | U8 | OtherFormat (code : Z).
#[export] Instance PixelFormat_eq_dec : EqDecision PixelFormat.
Proof. solve_decision. Defined.

Record FrameBufferInfo := mkInfo {
  width : Z;
  height : Z;
  pixel_format : PixelFormat;
  bytes_per_pixel : Z;
  stride : Z;
}.

Definition set_format (f : PixelFormat) (i : FrameBufferInfo) : FrameBufferInfo :=
  mkInfo (width i) (height i) f (bytes_per_pixel i) (stride i).

(** ** noto_sans_mono_bitmap: rasters *)

Record RasterizedChar := mkRaster { raster : list (list Z); raster_width : Z }.

(** [get_raster] at the weight and height of [font_constants]; [get_raster_width] there. *)
Class Font : Type := {
  get_raster : Z → option RasterizedChar;
  CHAR_RASTER_WIDTH : Z;
}.

Definition CHAR_RASTER_HEIGHT : Z := 16.
Definition BACKUP_CHAR : Z := 0xFFFD.

Definition raster_ok (w : Z) (r : RasterizedChar) : Prop :=
  Z.of_nat (length (raster r)) = CHAR_RASTER_HEIGHT ∧ raster_width r = w ∧
  Forall (λ row, Z.of_nat (length row) = w) (raster r).

Class FontLaws `{Font} : Prop := {
  get_raster_ok : ∀ c r, get_raster c = Some r → raster_ok CHAR_RASTER_WIDTH r;
  get_raster_backup : is_Some (get_raster BACKUP_CHAR);
  CHAR_RASTER_WIDTH_pos : 0 < CHAR_RASTER_WIDTH < 2 ^ 16;
}.

(** ** The writer *)

Definition LINE_SPACING : Z := 2.
Definition LETTER_SPACING : Z := 0.
Definition BORDER_PADDING : Z := 1.

Record FrameBufferWriter := mkWriter {
  framebuffer : list Z;
  info : FrameBufferInfo;
  x_pos : Z;
  y_pos : Z;
}.

Definition set_framebuffer (b : list Z) (w : FrameBufferWriter) : FrameBufferWriter :=
  mkWriter b (info w) (x_pos w) (y_pos w).
Definition set_info (i : FrameBufferInfo) (w : FrameBufferWriter) : FrameBufferWriter :=
  mkWriter (framebuffer w) i (x_pos w) (y_pos w).
Definition set_x (x : Z) (w : FrameBufferWriter) : FrameBufferWriter :=
  mkWriter (framebuffer w) (info w) x (y_pos w).
Definition set_y (y : Z) (w : FrameBufferWriter) : FrameBufferWriter :=
  mkWriter (framebuffer w) (info w) (x_pos w) y.

Definition clear : M FrameBufferWriter () :=
  modify_state (set_x BORDER_PADDING);;
  modify_state (set_y BORDER_PADDING);;
  modify_state (λ w, set_framebuffer (replicate (length (framebuffer w)) 0) w).

Definition FrameBufferWriter_new (fb : list Z) (i : FrameBufferInfo) : FrameBufferWriter :=
  (clear (mkWriter fb i 0 0)).2.

Definition carriage_return : M FrameBufferWriter () := modify_state (set_x BORDER_PADDING).

(** The bytes of a pixel of this intensity, for the formats the code knows. *)
Definition color_of (f : PixelFormat) (intensity : Z) : option (list Z) :=
  match f with
  | Rgb => Some [intensity; intensity; intensity / 2; 0]
  | Bgr => Some [intensity / 2; intensity; intensity; 0]
  | U8 => Some [if decide (200 < intensity) then 0xf else 0; 0; 0; 0]
  | OtherFormat _ => None
  end.

(** [buf[off..off + len].copy_from_slice(src)] *)
Definition copy_from_slice (off : Z) (src : list Z) (buf : list Z) : outcome (list Z) :=
  if decide (off + Z.of_nat (length src) ≤ Z.of_nat (length buf))
  then Done (list_inserts (Z.to_nat off) src buf)
  else Panic "range end index out of range for slice".

Section writer.
Context `{BuildProfile} `{Font}.

Definition newline : M FrameBufferWriter () :=
  w ← get_state;
  step ← liftO (add64 CHAR_RASTER_HEIGHT LINE_SPACING);
  y ← liftO (add64 (y_pos w) step);
  modify_state (set_y y);;
  carriage_return.

Definition write_pixel (x y intensity : Z) : M FrameBufferWriter () :=
  w ← get_state;
  row ← liftO (mul64 y (stride (info w)));
  pixel_offset ← liftO (add64 row x);
  match color_of (pixel_format (info w)) intensity with
  | None =>
      modify_state (set_info (set_format Rgb (info w)));;
      panic "pixel format not supported in logger"
  | Some color =>
      let bpp := bytes_per_pixel (info w) in
      byte_offset ← liftO (mul64 pixel_offset bpp);
      byte_end ← liftO (add64 byte_offset bpp);
      if decide (Z.of_nat (length (framebuffer w)) < byte_end)
      then panic "range end index out of range for slice"
      else if decide (Z.of_nat (length color) < bpp)
      then panic "range end index out of range for slice"
      else
        fb ← liftO (copy_from_slice byte_offset (take (Z.to_nat bpp) color) (framebuffer w));
        modify_state (set_framebuffer fb);;
        (* the volatile read of the pixel's first byte *)
        if decide (byte_offset < Z.of_nat (length fb)) then mret ()
        else panic "index out of bounds"
  end.

(** [for (y, row) in raster { for (x, byte) in row { write_pixel(..) } }] *)
Definition write_row (y : Z) (row : list Z) : M FrameBufferWriter () :=
  for_each (λ '(x, byte),
    w ← get_state;
    px ← liftO (add64 (x_pos w) x);
    py ← liftO (add64 (y_pos w) y);
    write_pixel px py byte) (zip (seqZ 0 (Z.of_nat (length row))) row).

Definition write_rendered_char (rendered_char : RasterizedChar) : M FrameBufferWriter () :=
  for_each (λ '(y, row), write_row y row)
    (zip (seqZ 0 (Z.of_nat (length (raster rendered_char)))) (raster rendered_char));;
  w ← get_state;
  advance ← liftO (add64 (raster_width rendered_char) LETTER_SPACING);
  x ← liftO (add64 (x_pos w) advance);
  modify_state (set_x x).

Definition get_char_raster (c : Z) : outcome RasterizedChar :=
  match get_raster c with
  | Some r => Done r
  | None => expect "Should get raster of backup char." (get_raster BACKUP_CHAR)
  end.

Definition NEWLINE : Z := 10.
Definition RETURN : Z := 13.

Definition write_char (c : Z) : M FrameBufferWriter () :=
  if decide (c = NEWLINE) then newline
  else if decide (c = RETURN) then carriage_return
  else
    w ← get_state;
    new_xpos ← liftO (add64 (x_pos w) CHAR_RASTER_WIDTH);
    (if decide (width (info w) ≤ new_xpos) then newline else mret ());;
    w ← get_state;
    y ← liftO (add64 (y_pos w) CHAR_RASTER_HEIGHT);
    new_ypos ← liftO (add64 y BORDER_PADDING);
    (if decide (height (info w) ≤ new_ypos) then clear else mret ());;
    r ← liftO (get_char_raster c);
    write_rendered_char r.

(** [fmt::Write::write_str]: the characters of the string, one by one. *)
Definition write_str (s : list Z) : M FrameBufferWriter () := for_each write_char s.

(** ** The logger *)

Context {C : Type → Type} `{OnceCell C} {L : Type} `{RawLock L}.

(** [Log::log] on [LOGGER]: the record's text, formatted by core, and a line end. *)
Definition log (text : list Z) : M (C (locked L FrameBufferWriter)) () :=
  static_acquire;;
  c ← get_state;
  l ← liftO (expect unwrap_none (cell_get c));
  let '(o, w) := write_str (text ++ [NEWLINE]) (lk_data l) in
  put_state (cell_modify (λ l, Locked (lk_raw l) w) c);;
  liftO o;;
  static_release.

End writer.
