(* ===== verification/FramebufferSpec.v ===== *)
(** * What the screen writer does: it stays in bounds and paints glyphs. *)

From S2P Require Import Prelude Crates CrateModels Statics Framebuffer.

Local Open Scope Z_scope.

(** ** Pixels *)

Definition pixel_offset (i : FrameBufferInfo) (px py : Z) : Z :=
  (py * stride i + px) * bytes_per_pixel i.

(** The bytes that show this intensity. *)
Definition shown (i : FrameBufferInfo) (v : Z) : list Z :=
  take (Z.to_nat (bytes_per_pixel i)) (default [] (color_of (pixel_format i) v)).

(** The pixel at these coordinates has these bytes. *)
Definition pixel_is (i : FrameBufferInfo) (fb : list Z) (px py : Z) (bytes : list Z) : Prop :=
  ∀ b, (b < Z.to_nat (bytes_per_pixel i))%nat →
    fb !! (Z.to_nat (pixel_offset i px py) + b)%nat = bytes !! b.

(** Byte [n] is no byte of the pixel. *)
Definition outside_pixel (i : FrameBufferInfo) (px py : Z) (n : nat) : Prop :=
  Z.of_nat n < pixel_offset i px py ∨
  pixel_offset i px py + bytes_per_pixel i ≤ Z.of_nat n.

(** A supported mode whose visible pixels lie in the buffer, with room for one character. *)
Definition info_ok `{Font} (len : Z) (i : FrameBufferInfo) : Prop :=
  (match pixel_format i with OtherFormat _ => False | _ => True end) ∧
  1 ≤ bytes_per_pixel i ≤ 4 ∧ width i ≤ stride i ∧
  BORDER_PADDING + CHAR_RASTER_WIDTH ≤ width i ∧
  BORDER_PADDING + CHAR_RASTER_HEIGHT ≤ height i ∧
  height i * stride i * bytes_per_pixel i ≤ len ∧ len < 2 ^ 62.

Definition writer_ok `{Font} (w : FrameBufferWriter) : Prop :=
  info_ok (Z.of_nat (length (framebuffer w))) (info w) ∧
  0 ≤ x_pos w ≤ width (info w) ∧ 0 ≤ y_pos w.

(** The pixel [(x, y)] set to intensity [v]. *)
Definition paint (i : FrameBufferInfo) (cell : Z * Z * Z) (fb : list Z) : list Z :=
  list_inserts (Z.to_nat (pixel_offset i cell.1.1 cell.1.2)) (shown i cell.2) fb.

Section pixels.
Context `{BuildProfile} `{FontLaws}.

Lemma length_shown i v len :
  info_ok len i → length (shown i v) = Z.to_nat (bytes_per_pixel i).
Proof.
  intros (Hf & Hb & _). unfold shown. rewrite length_take.
  assert (length (default [] (color_of (pixel_format i) v)) = 4%nat) as ->
    by (by destruct (pixel_format i)). lia.
Qed.

Lemma pixel_offset_bound i len px py :
  info_ok len i → 0 ≤ px < stride i → 0 ≤ py < height i →
  0 ≤ py * stride i ∧ 0 ≤ pixel_offset i px py ∧
  pixel_offset i px py + bytes_per_pixel i ≤ len.
Proof.
  intros (_ & Hb & _ & _ & _ & Hlen & _) Hx Hy. unfold pixel_offset.
  assert (0 ≤ py * stride i) by nia.
  assert (py * stride i + px + 1 ≤ height i * stride i) as Hle by nia.
  apply (Z.mul_le_mono_nonneg_r _ _ (bytes_per_pixel i)) in Hle; [|lia].
  split_and!; [done|nia|]. lia.
Qed.

(** Two pixels of the buffer share no byte. *)
Lemma pixels_disjoint i len px py qx qy :
  info_ok len i → 0 ≤ px < stride i → 0 ≤ qx < stride i → 0 ≤ py → 0 ≤ qy →
  (px, py) ≠ (qx, qy) →
  pixel_offset i px py + bytes_per_pixel i ≤ pixel_offset i qx qy ∨
  pixel_offset i qx qy + bytes_per_pixel i ≤ pixel_offset i px py.
Proof.
  intros (_ & Hb & _) Hpx Hqx Hpy Hqy Hne. unfold pixel_offset.
  assert (py * stride i + px + 1 ≤ qy * stride i + qx ∨
          qy * stride i + qx + 1 ≤ py * stride i + px) as Hsep.
  { destruct (Ztrichotomy py qy) as [?|[->|?]]; [left; nia| |right; nia].
    destruct (Ztrichotomy px qx) as [?|[->|?]]; [left; lia|done|right; lia]. }
  destruct Hsep; [left|right]; nia.
Qed.

Lemma write_pixel_done w px py v :
  writer_ok w → 0 ≤ px < width (info w) → 0 ≤ py < height (info w) →
  write_pixel px py v w = (Done (), set_framebuffer (paint (info w) (px, py, v) (framebuffer w)) w).
Proof.
  intros (Hi & _) Hx Hy. pose proof Hi as (Hf & Hb & Hws & _ & _ & Hlen & Hmax).
  destruct (pixel_offset_bound (info w) _ px py Hi) as (? & ? & Hoff); [lia|lia|].
  unfold pixel_offset in *. set (len := Z.of_nat (length (framebuffer w))) in *.
  assert (py * stride (info w) + px ≤ len) by nia.
  unfold write_pixel. rewrite get_bind, mul64_done, liftO_done_bind by lia.
  rewrite add64_done, liftO_done_bind by lia.
  destruct (color_of (pixel_format (info w)) v) as [col|] eqn:Ecol;
    [|by destruct (pixel_format (info w))].
  rewrite mul64_done, liftO_done_bind by lia. rewrite add64_done, liftO_done_bind by lia.
  assert (length col = 4%nat) as Hcol by (destruct (pixel_format (info w)); by simplify_eq/=).
  fold len. rewrite decide_False, Hcol, decide_False by lia.
  unfold copy_from_slice. fold len. rewrite length_take, Hcol, decide_True by lia.
  rewrite liftO_done_bind, modify_bind, length_inserts. fold len. rewrite decide_True by lia.
  unfold paint, pixel_offset, shown. cbn [fst snd]. by rewrite Ecol.
Qed.

Lemma paint_length i cell fb : length (paint i cell fb) = length fb.
Proof. apply length_inserts. Qed.

Lemma paint_in i cell fb :
  info_ok (Z.of_nat (length fb)) i → 0 ≤ cell.1.1 < stride i → 0 ≤ cell.1.2 < height i →
  pixel_is i (paint i cell fb) cell.1.1 cell.1.2 (shown i cell.2).
Proof.
  intros Hi Hx Hy b Hb. destruct (pixel_offset_bound i _ _ _ Hi Hx Hy) as (_ & ? & ?).
  unfold paint. rewrite list_lookup_inserts.
  - f_equal. lia.
  - rewrite (length_shown _ _ _ Hi). lia.
  - lia.
Qed.

Lemma paint_out i len cell fb n :
  info_ok len i → 0 ≤ pixel_offset i cell.1.1 cell.1.2 →
  outside_pixel i cell.1.1 cell.1.2 n → paint i cell fb !! n = fb !! n.
Proof.
  intros Hi Hpos Hout. unfold paint, outside_pixel in *.
  pose proof Hi as (_ & Hb & _). destruct Hout.
  - apply list_lookup_inserts_lt. lia.
  - apply list_lookup_inserts_ge. rewrite (length_shown _ _ _ Hi). lia.
Qed.

(** Painting cells with distinct coordinates. *)
Definition in_screen (i : FrameBufferInfo) (cell : Z * Z * Z) : Prop :=
  0 ≤ cell.1.1 < stride i ∧ 0 ≤ cell.1.2 < height i.

Lemma paint_all_out i cells fb n :
  info_ok (Z.of_nat (length fb)) i → Forall (in_screen i) cells →
  (∀ cell, cell ∈ cells → outside_pixel i cell.1.1 cell.1.2 n) →
  foldl (flip (paint i)) fb cells !! n = fb !! n.
Proof.
  revert fb. induction cells as [|cell cells IH]; intros fb Hi Hs Hout; [done|]. simpl.
  apply Forall_cons in Hs as [[Hx Hy] Hs].
  rewrite IH; [|by rewrite paint_length|done|].
  - eapply paint_out; [exact Hi| |apply Hout, list_elem_of_here].
    by apply (pixel_offset_bound i _ _ _ Hi Hx Hy).
  - intros c Hc. by apply Hout, list_elem_of_further.
Qed.

Lemma paint_all_in i cells fb cell :
  info_ok (Z.of_nat (length fb)) i → Forall (in_screen i) cells → NoDup cells.*1 →
  cell ∈ cells →
  pixel_is i (foldl (flip (paint i)) fb cells) cell.1.1 cell.1.2 (shown i cell.2).
Proof.
  revert fb. induction cells as [|c cells IH]; intros fb Hi Hs Hnd Hin;
    [by apply not_elem_of_nil in Hin|].
  apply Forall_cons in Hs as [[Hx Hy] Hs]. rewrite fmap_cons in Hnd.
  apply NoDup_cons in Hnd as [Hc Hnd]. simpl.
  apply elem_of_cons in Hin as [->|Hin]; [|by apply IH; rewrite ?paint_length].
  intros b Hb. rewrite paint_all_out; [by apply paint_in|by rewrite paint_length|done|].
  intros d Hd. rewrite Forall_forall in Hs. destruct (Hs d Hd) as [Hdx Hdy].
  destruct (pixel_offset_bound i _ _ _ Hi Hx Hy) as (_ & ? & _).
  destruct (pixels_disjoint i _ c.1.1 c.1.2 d.1.1 d.1.2 Hi) as [?|?]; [lia..| | |].
  - intros Heq. apply Hc. apply list_elem_of_fmap. exists d. split; [|done].
    destruct c as [[] ?], d as [[] ?]; simpl in *; congruence.
  - left. lia.
  - right. lia.
Qed.

End pixels.

(** ** Characters *)

Section chars.
Context `{BuildProfile} `{FontLaws}.

(** The cells of a row and of a glyph at [(X, Y)], in drawing order. *)
Definition row_cells (X Y : Z) (p : Z * list Z) : list (Z * Z * Z) :=
  (λ q, (X + q.1, Y + p.1, q.2)) <$> zip (seqZ 0 (Z.of_nat (length p.2))) p.2.
Definition glyph_cells (X Y : Z) (r : RasterizedChar) : list (Z * Z * Z) :=
  zip (seqZ 0 (Z.of_nat (length (raster r)))) (raster r) ≫= row_cells X Y.

Lemma elem_of_zip_seqZ {A} (l : list A) i x :
  (i, x) ∈ zip (seqZ 0 (Z.of_nat (length l))) l ↔ 0 ≤ i ∧ l !! Z.to_nat i = Some x.
Proof.
  rewrite list_elem_of_lookup. setoid_rewrite lookup_zip_Some. split.
  - intros (j & [-> ?]%lookup_seqZ & Hx). split; [lia|].
    by replace (Z.to_nat (0 + Z.of_nat j)) with j by lia.
  - intros [Hi Hx]. exists (Z.to_nat i). split; [|done].
    apply lookup_lt_Some in Hx as ?. apply lookup_seqZ. lia.
Qed.

Lemma elem_of_glyph_cells X Y r cell :
  cell ∈ glyph_cells X Y r ↔
  ∃ i j row v, 0 ≤ i ∧ 0 ≤ j ∧ raster r !! Z.to_nat j = Some row ∧
    row !! Z.to_nat i = Some v ∧ cell = (X + i, Y + j, v).
Proof.
  unfold glyph_cells. rewrite list_elem_of_bind. split.
  - intros ([j row] & Hc & [Hj Hrow]%elem_of_zip_seqZ).
    apply list_elem_of_fmap in Hc as ([i v] & -> & [Hi Hv]%elem_of_zip_seqZ).
    exists i, j, row, v. split_and!; done.
  - intros (i & j & row & v & Hi & Hj & Hrow & Hv & ->). exists (j, row). split.
    + apply list_elem_of_fmap. exists (i, v). split; [done|]. by apply elem_of_zip_seqZ.
    + by apply elem_of_zip_seqZ.
Qed.

Lemma seqZ_zip_fst {A} (l : list A) s :
  (zip (seqZ s (Z.of_nat (length l))) l).*1 = seqZ s (Z.of_nat (length l)).
Proof. apply fst_zip. rewrite length_seqZ. lia. Qed.

Lemma glyph_cells_nodup X Y r : NoDup (glyph_cells X Y r).*1.
Proof.
  unfold glyph_cells. generalize (seqZ_zip_fst (raster r) 0).
  pose proof (NoDup_seqZ 0 (Z.of_nat (length (raster r)))) as Hnd. intros Hfst.
  rewrite <-Hfst in Hnd. clear Hfst. induction (zip _ _) as [|[j row] l IH]; csimpl; [constructor|].
  rewrite fmap_cons in Hnd. apply NoDup_cons in Hnd as [Hj Hnd]. rewrite fmap_app.
  apply NoDup_app. split_and!.
  - unfold row_cells. rewrite <-list_fmap_compose.
    rewrite (list_fmap_ext _ ((λ i, (X + i, Y + j)) ∘ fst)) by done.
    rewrite list_fmap_compose, seqZ_zip_fst. apply NoDup_fmap_2; [|apply NoDup_seqZ].
    intros x y [= ?]. lia.
  - intros c Hc1 Hc2. apply list_elem_of_fmap in Hc1 as (c1 & -> & Hc1).
    apply list_elem_of_fmap in Hc1 as (q1 & -> & _).
    apply list_elem_of_fmap in Hc2 as (c2 & Heq & Hc2).
    apply list_elem_of_bind in Hc2 as ([j' row'] & Hc2 & Hin).
    apply list_elem_of_fmap in Hc2 as (q2 & -> & _). simpl in Heq.
    injection Heq as _ Heq. apply Hj, list_elem_of_fmap. exists (j', row').
    split; [simpl; lia|done].
  - by apply IH.
Qed.

Lemma info_bounds len i : info_ok len i → 0 < width i < 2 ^ 62 ∧ 0 < height i < 2 ^ 62.
Proof.
  intros (_ & Hb & Hws & Hw & Hh & Hlen & Hmax). pose proof CHAR_RASTER_WIDTH_pos.
  unfold BORDER_PADDING, CHAR_RASTER_HEIGHT in *.
  assert (stride i ≤ height i * stride i ∧ height i ≤ height i * stride i) as [? ?]
    by (split; nia).
  assert (height i * stride i ≤ height i * stride i * bytes_per_pixel i) by nia. lia.
Qed.

(** Where a character may be drawn. *)
Definition char_fits (w : FrameBufferWriter) : Prop :=
  x_pos w + CHAR_RASTER_WIDTH ≤ width (info w) ∧ y_pos w + CHAR_RASTER_HEIGHT ≤ height (info w).

Lemma glyph_in_screen w r :
  writer_ok w → char_fits w → raster_ok CHAR_RASTER_WIDTH r →
  ∀ cell, cell ∈ glyph_cells (x_pos w) (y_pos w) r →
    x_pos w ≤ cell.1.1 < width (info w) ∧ y_pos w ≤ cell.1.2 < height (info w) ∧
    cell.1.1 < x_pos w + CHAR_RASTER_WIDTH ∧ cell.1.2 < y_pos w + CHAR_RASTER_HEIGHT.
Proof.
  intros Hw [Hfx Hfy] (Hrows & _ & Hcols) cell Hc.
  apply elem_of_glyph_cells in Hc as (i & j & row & v & Hi & Hj & Hrow & Hv & ->). simpl.
  rewrite Forall_forall in Hcols. specialize (Hcols row (list_elem_of_lookup_2 _ _ _ Hrow)).
  apply lookup_lt_Some in Hrow, Hv. lia.
Qed.

(** The loops of [write_rendered_char] paint the cells one after the other. *)
Lemma write_rendered_char_done w r :
  writer_ok w → char_fits w → raster_ok CHAR_RASTER_WIDTH r →
  write_rendered_char r w =
    (Done (), mkWriter (foldl (flip (paint (info w))) (framebuffer w)
                          (glyph_cells (x_pos w) (y_pos w) r))
                       (info w) (x_pos w + CHAR_RASTER_WIDTH) (y_pos w)).
Proof.
  intros Hw Hfit Hr. pose proof (glyph_in_screen w r Hw Hfit Hr) as Hscreen.
  pose proof Hw as (_ & HX & HY). set (X := x_pos w) in *. set (Y := y_pos w) in *.
  set (same s := writer_ok s ∧ info s = info w ∧ x_pos s = X ∧ y_pos s = Y ∧
                 length (framebuffer s) = length (framebuffer w)).
  set (step cell s := set_framebuffer (paint (info s) cell (framebuffer s)) s).
  assert (∀ cell s, same s → same (step cell s)) as Hstep.
  { intros cell s ((Hi & Hp) & ? & ? & ? & ?). unfold step, same, writer_ok in *. simpl.
    rewrite paint_length. split; [split; [exact Hi|exact Hp]|]. split_and!; assumption. }
  assert (∀ rows s, (∀ p, p ∈ rows → p ∈ zip (seqZ 0 (Z.of_nat (length (raster r)))) (raster r)) →
    same s → for_each (λ '(y, row), write_row y row) rows s =
      (Done (), foldl (flip step) s (rows ≫= row_cells X Y)) ∧
      same (foldl (flip step) s (rows ≫= row_cells X Y))) as Hrows.
  { intros rows s Hsub Hs. rewrite foldl_bind.
    apply (for_each_fold same (λ p s, foldl (flip step) s (row_cells X Y p))); [done|].
    intros [j row] s1 Hp Hs1. unfold row_cells, write_row. rewrite foldl_fmap.
    apply (for_each_fold same (λ q s, step (X + q.1, Y + j, q.2) s)); [done|].
    intros [i v] s2 Hq Hs2. split; [|by apply Hstep].
    destruct (Hscreen (X + i, Y + j, v)) as (? & ? & _).
    { apply list_elem_of_bind. exists (j, row). split; [|by apply Hsub].
      apply list_elem_of_fmap. by exists (i, v). }
    destruct Hs2 as (Hw2 & Hi2 & Hx2 & Hy2 & _). simpl in *. rewrite get_bind.
    destruct (info_bounds _ _ (proj1 Hw)) as [? ?].
    rewrite Hx2, Hy2, (add64_done X i), liftO_done_bind by lia.
    rewrite (add64_done Y j), liftO_done_bind by lia.
    rewrite write_pixel_done; [done|done|rewrite Hi2; lia|rewrite Hi2; lia]. }
  destruct (Hrows (zip (seqZ 0 (Z.of_nat (length (raster r)))) (raster r)) w (λ _ Hp, Hp))
    as [E Hs]; [by split_and!|].
  fold (glyph_cells X Y r) in E, Hs.
  assert (∀ cells s, info s = info w →
    foldl (flip step) s cells =
      set_framebuffer (foldl (flip (paint (info w))) (framebuffer s) cells) s) as Hfold.
  { induction cells as [|c cells IH]; intros s Hi; simpl; [by destruct s|].
    rewrite IH by done. unfold step. by rewrite Hi. }
  unfold write_rendered_char. rewrite (mbind_done _ _ _ _ _ E), get_bind, Hfold by done.
  destruct Hr as (_ & -> & _). destruct (info_bounds _ _ (proj1 Hw)) as [? ?].
  pose proof CHAR_RASTER_WIDTH_pos.
  rewrite add64_done, liftO_done_bind by (unfold LETTER_SPACING; lia).
  unfold set_framebuffer at 1. cbn [x_pos]. fold X.
  rewrite add64_done, liftO_done_bind by (unfold LETTER_SPACING; lia).
  unfold modify_state, set_x, set_framebuffer; simpl. fold X Y. unfold LETTER_SPACING.
  by rewrite Z.add_0_r.
Qed.

End chars.
