(* ===== verification/Screen.v ===== *)
(** * What the screen guarantees, and what a panic does to the logger. *)

From S2P Require Import Prelude Crates CrateModels Statics Framebuffer FramebufferSpec.

Local Open Scope Z_scope.

Section place.
Context `{BuildProfile} `{FontLaws}.

(** Where a printable character goes: on a new line when it does not fit, on a cleared screen
    when the line does not fit. *)
Definition wrapped (w : FrameBufferWriter) : FrameBufferWriter :=
  if decide (width (info w) ≤ x_pos w + CHAR_RASTER_WIDTH)
  then set_x BORDER_PADDING (set_y (y_pos w + (CHAR_RASTER_HEIGHT + LINE_SPACING)) w) else w.

Definition placed (w : FrameBufferWriter) : FrameBufferWriter :=
  let w := wrapped w in
  if decide (height (info w) ≤ y_pos w + CHAR_RASTER_HEIGHT + BORDER_PADDING)
  then mkWriter (replicate (length (framebuffer w)) 0) (info w) BORDER_PADDING BORDER_PADDING
  else w.

Lemma newline_done w :
  y_pos w < 2 ^ 63 →
  newline w = (Done (), set_x BORDER_PADDING
                         (set_y (y_pos w + (CHAR_RASTER_HEIGHT + LINE_SPACING)) w)).
Proof.
  intros Hy. unfold newline, CHAR_RASTER_HEIGHT, LINE_SPACING.
  rewrite get_bind, add64_done, liftO_done_bind by lia.
  by rewrite add64_done, liftO_done_bind by lia.
Qed.

Lemma wrapped_run w :
  y_pos w < 2 ^ 63 →
  (if decide (width (info w) ≤ x_pos w + CHAR_RASTER_WIDTH) then newline else mret ()) w =
    (Done (), wrapped w).
Proof. intros Hy. unfold wrapped. case_decide; [by apply newline_done|done]. Qed.

Lemma placed_run w :
  (if decide (height (info (wrapped w)) ≤
              y_pos (wrapped w) + CHAR_RASTER_HEIGHT + BORDER_PADDING)
   then clear else mret ()) (wrapped w) = (Done (), placed w).
Proof. unfold placed. cbv zeta. by case_decide. Qed.

(** The place does not depend on the pixel format. *)
Lemma placed_set_format f w :
  placed (set_info (set_format f (info w)) w) =
  set_info (set_format f (info w)) (placed w).
Proof.
  unfold placed, wrapped. simpl. repeat case_decide; try done; unfold set_info; simpl; done.
Qed.

Lemma wrapped_ok w :
  writer_ok w → y_pos w < 2 ^ 63 →
  writer_ok (wrapped w) ∧ info (wrapped w) = info w ∧
  length (framebuffer (wrapped w)) = length (framebuffer w) ∧
  x_pos (wrapped w) + CHAR_RASTER_WIDTH ≤ width (info w) ∧
  y_pos (wrapped w) ≤ y_pos w + 18.
Proof.
  intros ([Hi1 Hi2] & Hx & Hy) Hy63. pose proof Hi2 as (_ & _ & Hroom & _).
  pose proof CHAR_RASTER_WIDTH_pos. unfold wrapped. case_decide.
  - unfold BORDER_PADDING, CHAR_RASTER_HEIGHT, LINE_SPACING in *.
    split; [split; [by split|simpl; lia]|]. simpl. split_and!; [done|done|lia|lia].
  - split; [by split|]. split_and!; [done|done|lia|lia].
Qed.

Lemma placed_ok w :
  writer_ok w → y_pos w < 2 ^ 63 →
  writer_ok (placed w) ∧ char_fits (placed w) ∧ info (placed w) = info w ∧
  length (framebuffer (placed w)) = length (framebuffer w) ∧ y_pos (placed w) ≤ y_pos w + 18.
Proof.
  intros Hw Hy. destruct (wrapped_ok w Hw Hy) as (Hw1 & Hi1 & Hl1 & Hx1 & Hy1).
  pose proof CHAR_RASTER_WIDTH_pos. destruct Hw as (_ & _ & Hy0).
  unfold placed, char_fits. set (w1 := wrapped w) in *. case_decide.
  - destruct Hw1 as (Hi & _ & _). pose proof Hi as (_ & _ & _ & Hroom & Hroom' & _).
    unfold writer_ok. cbn [framebuffer info x_pos y_pos]. rewrite length_replicate.
    unfold BORDER_PADDING, CHAR_RASTER_HEIGHT in *.
    split; [split; [exact Hi|lia]|]. split; [lia|]. split; [exact Hi1|]. split; [exact Hl1|lia].
  - unfold BORDER_PADDING, CHAR_RASTER_HEIGHT in *. rewrite Hi1.
    split; [exact Hw1|]. split; [rewrite Hi1 in *; lia|]. split; [done|]. split; [exact Hl1|lia].
Qed.

Lemma get_char_raster_done c :
  ∃ r, get_char_raster c = Done r ∧ raster_ok CHAR_RASTER_WIDTH r.
Proof.
  unfold get_char_raster. destruct (get_raster c) as [r|] eqn:E.
  - exists r. split; [done|]. by eapply get_raster_ok.
  - destruct get_raster_backup as [r Hr]. exists r. rewrite Hr. split; [done|].
    by eapply get_raster_ok.
Qed.

(** A printable character is its glyph, painted where it is placed. *)
Lemma write_char_done c w r :
  c ≠ NEWLINE → c ≠ RETURN → get_char_raster c = Done r →
  writer_ok w → y_pos w < 2 ^ 63 →
  write_char c w =
    (Done (), mkWriter (foldl (flip (paint (info w))) (framebuffer (placed w))
                          (glyph_cells (x_pos (placed w)) (y_pos (placed w)) r))
                       (info w) (x_pos (placed w) + CHAR_RASTER_WIDTH) (y_pos (placed w))).
Proof.
  intros Hc1 Hc2 Hr Hw Hy.
  assert (raster_ok CHAR_RASTER_WIDTH r) as Hrok.
  { destruct (get_char_raster_done c) as (r' & Hr' & ?). rewrite Hr in Hr'.
    by injection Hr' as ->. }
  destruct (wrapped_ok w Hw Hy) as (Hw1 & Hi1 & Hl1 & Hx1 & Hy1).
  destruct (placed_ok w Hw Hy) as (Hw2 & Hfit & Hi2 & _).
  pose proof CHAR_RASTER_WIDTH_pos. destruct (info_bounds _ _ (proj1 Hw)) as [? ?].
  pose proof Hw as (_ & Hx & _).
  unfold write_char. rewrite !decide_False by done.
  rewrite get_bind, add64_done, liftO_done_bind by lia.
  rewrite (mbind_done _ _ _ _ _ (wrapped_run w Hy)), get_bind.
  rewrite add64_done, liftO_done_bind by (unfold CHAR_RASTER_HEIGHT; lia).
  rewrite add64_done, liftO_done_bind by (unfold CHAR_RASTER_HEIGHT, BORDER_PADDING; lia).
  erewrite (mbind_done _ _ _ () (placed w)); [|by apply placed_run].
  rewrite Hr, liftO_done_bind, write_rendered_char_done by done. by rewrite Hi2.
Qed.

(** In an unsupported mode the first pixel panics. *)
Lemma write_char_unsupported c w code :
  c ≠ NEWLINE → c ≠ RETURN → writer_ok (set_info (set_format Rgb (info w)) w) →
  y_pos w < 2 ^ 62 → pixel_format (info w) = OtherFormat code →
  ∃ w', write_char c w = (Panic "pixel format not supported in logger", w') ∧
    pixel_format (info w') = Rgb.
Proof.
  intros Hc1 Hc2 Hw Hy Hf. assert (y_pos w < 2 ^ 63) as Hy' by lia.
  set (w0 := set_info (set_format Rgb (info w)) w) in *.
  destruct (wrapped_ok w0 Hw Hy') as (_ & _ & _ & _ & Hy1).
  destruct (placed_ok w0 Hw Hy') as ((Hi2 & HX & HY) & [Hfx Hfy] & Hi & _).
  destruct (info_bounds _ _ Hi2) as [? ?]. pose proof CHAR_RASTER_WIDTH_pos.
  pose proof Hw as (_ & Hx & _). pose proof Hi2 as (_ & Hb & Hws & _ & _ & Hlen & Hmax).
  assert (placed w0 = set_info (set_format Rgb (info w)) (placed w)) as Hp
    by apply placed_set_format.
  rewrite Hp in *. cbn [info x_pos y_pos set_info framebuffer] in *.
  change (info w0) with (set_format Rgb (info w)) in *.
  cbn [width height stride bytes_per_pixel set_format] in *.
  assert (info (placed w) = info w) as Hi'
    by (unfold placed, wrapped; by repeat case_decide).
  destruct (get_char_raster_done c) as (r & Hr & Hrows & _ & Hcols).
  destruct (raster r) as [|row rows] eqn:Er; [done|].
  apply Forall_cons in Hcols as [Hrow _]. destruct row as [|v row]; [simpl in Hrow; lia|].
  unfold CHAR_RASTER_HEIGHT in *.
  assert (y_pos (wrapped w) < 2 ^ 63) as Hy2.
  { unfold wrapped. case_decide; [|lia]. simpl. unfold CHAR_RASTER_HEIGHT, LINE_SPACING. lia. }
  unfold write_char. rewrite !decide_False by done.
  rewrite get_bind, add64_done, liftO_done_bind by (simpl in Hx; lia).
  rewrite (mbind_done _ _ _ _ _ (wrapped_run w Hy')), get_bind.
  rewrite add64_done, liftO_done_bind by (unfold CHAR_RASTER_HEIGHT; lia).
  rewrite add64_done, liftO_done_bind by (unfold CHAR_RASTER_HEIGHT, BORDER_PADDING; lia).
  rewrite (mbind_done _ _ _ _ _ (placed_run w)), Hr, liftO_done_bind.
  set (w' := set_info (set_format Rgb (info (placed w))) (placed w)).
  exists w'. split; [|done]. unfold write_rendered_char. apply mbind_panic. rewrite Er.
  rewrite (seqZ_cons 0) by (simpl; lia). cbn [zip zip_with for_each]. apply mbind_panic.
  unfold write_row. rewrite (seqZ_cons 0) by (simpl; lia). cbn [zip zip_with for_each].
  apply mbind_panic. rewrite get_bind, (add64_done (x_pos (placed w)) 0), liftO_done_bind by lia.
  rewrite (add64_done (y_pos (placed w)) 0), liftO_done_bind by lia. rewrite !Z.add_0_r.
  destruct (pixel_offset_bound _ _ (x_pos (placed w)) (y_pos (placed w)) Hi2)
    as (? & ? & Hoff); [simpl; lia|simpl; lia|]. unfold pixel_offset in *. simpl in *.
  assert (y_pos (placed w) * stride (info w) + x_pos (placed w) < 2 ^ 62).
  { generalize dependent (y_pos (placed w) * stride (info w)). clear -Hb HX Hmax. nia. }
  unfold write_pixel. rewrite get_bind, Hi', mul64_done, liftO_done_bind by lia.
  rewrite add64_done, liftO_done_bind by lia. rewrite Hf. cbn [color_of].
  by rewrite modify_bind, <-Hi'.
Qed.

Lemma write_char_ok c w :
  writer_ok w → y_pos w < 2 ^ 63 →
  ∃ w', write_char c w = (Done (), w') ∧ writer_ok w' ∧ info w' = info w ∧
    length (framebuffer w') = length (framebuffer w) ∧ y_pos w' ≤ y_pos w + 18.
Proof.
  intros Hw Hy. pose proof Hw as (Hi & Hx & Hy0). pose proof Hi as (_ & _ & _ & Hroom & _).
  pose proof CHAR_RASTER_WIDTH_pos.
  destruct (decide (c = NEWLINE)) as [->|Hc1].
  { eexists. split; [unfold write_char; rewrite decide_True by done; by apply newline_done|].
    unfold BORDER_PADDING, CHAR_RASTER_HEIGHT, LINE_SPACING in *.
    split; [split; [exact Hi|simpl; lia]|]. split; [done|]. split; [done|]. simpl. lia. }
  destruct (decide (c = RETURN)) as [->|Hc2].
  { eexists. split; [done|]. unfold BORDER_PADDING in *.
    split; [split; [exact Hi|simpl; lia]|]. split; [done|]. split; [done|]. simpl. lia. }
  destruct (get_char_raster_done c) as (r & Hr & Hrok).
  eexists. split; [by apply write_char_done|].
  destruct (placed_ok w Hw Hy) as (Hw2 & [Hfx Hfy] & Hi2 & Hl2 & Hy2).
  assert (∀ cells fb, length (foldl (flip (paint (info w))) fb cells) = length fb) as Hlen.
  { induction cells as [|cell cells IH]; intros fb; simpl; [done|].
    by rewrite IH, paint_length. }
  destruct Hw2 as (Hi3 & Hx3 & Hy3). rewrite Hi2 in *.
  unfold writer_ok. cbn [framebuffer info x_pos y_pos]. rewrite Hlen, Hl2.
  split; [split; [exact Hi|lia]|]. split; [done|]. split; [done|exact Hy2].
Qed.

Lemma write_str_run s w :
  writer_ok w → y_pos w + 18 * Z.of_nat (length s) < 2 ^ 63 →
  ∃ w', write_str s w = (Done (), w') ∧ writer_ok w' ∧ info w' = info w ∧
    length (framebuffer w') = length (framebuffer w) ∧
    y_pos w' ≤ y_pos w + 18 * Z.of_nat (length s).
Proof.
  revert w. induction s as [|c s IH]; intros w Hw Hy.
  { exists w. split_and!; try done. simpl. lia. }
  simpl length in *.
  destruct (write_char_ok c w Hw) as (w1 & E1 & Hw1 & Hi1 & Hl1 & Hy1); [lia|].
  destruct (IH w1 Hw1) as (w2 & E2 & Hw2 & Hi2 & Hl2 & Hy2); [lia|].
  exists w2. unfold write_str in *. cbn [for_each]. rewrite (mbind_done _ _ _ _ _ E1).
  split; [exact E2|]. split; [exact Hw2|]. split; [congruence|]. split; [congruence|lia].
Qed.

Lemma write_str_ok s w :
  writer_ok w → y_pos w + 18 * Z.of_nat (length s) < 2 ^ 63 →
  ∃ w', write_str s w = (Done (), w') ∧ writer_ok w' ∧ info w' = info w ∧
    length (framebuffer w') = length (framebuffer w).
Proof.
  intros Hw Hy. destruct (write_str_run s w Hw Hy) as (w' & ? & ? & ? & ? & _). by exists w'.
Qed.

Lemma write_str_app s t w : write_str (s ++ t) w = (write_str s;; write_str t) w.
Proof. apply for_each_app. Qed.

End place.

(** ** The claims *)

Section claims.
Context `{BuildProfile} `{FontLaws}.

(** C22: printing any string, control characters included, stays inside the frame buffer: no
    slice index is out of range and no arithmetic overflows, the mode and the size of the
    buffer stay as they are, and the writer is fit for the next string. *)
Theorem write_str_in_bounds s w :
  writer_ok w → y_pos w + 18 * Z.of_nat (length s) < 2 ^ 63 →
  ∃ w', write_str s w = (Done (), w') ∧ writer_ok w' ∧ info w' = info w ∧
    length (framebuffer w') = length (framebuffer w).
Proof. apply write_str_ok. Qed.

(** C23: a printable character shows exactly its glyph at its place: every pixel of the
    glyph's box has the color of the raster's intensity in the mode's format, every byte
    outside the box is as it was (or zero, if the screen was cleared for it), and the cursor
    moves right by the width of the box. *)
Theorem write_char_paints_glyph c w r :
  c ≠ NEWLINE → c ≠ RETURN → get_char_raster c = Done r →
  writer_ok w → y_pos w < 2 ^ 63 →
  let X := x_pos (placed w) in
  let Y := y_pos (placed w) in
  ∃ w', write_char c w = (Done (), w') ∧
    x_pos w' = X + CHAR_RASTER_WIDTH ∧ y_pos w' = Y ∧ info w' = info w ∧
    (∀ i j row v, 0 ≤ i → 0 ≤ j → raster r !! Z.to_nat j = Some row →
       row !! Z.to_nat i = Some v →
       pixel_is (info w) (framebuffer w') (X + i) (Y + j) (shown (info w) v)) ∧
    ∀ n, (∀ px py, X ≤ px < X + CHAR_RASTER_WIDTH → Y ≤ py < Y + CHAR_RASTER_HEIGHT →
            outside_pixel (info w) px py n) →
         framebuffer w' !! n = framebuffer (placed w) !! n.
Proof.
  intros Hc1 Hc2 Hr Hw Hy X Y. rewrite (write_char_done c w r) by done.
  eexists. split; [done|]. cbn [framebuffer info x_pos y_pos].
  destruct (placed_ok w Hw Hy) as (Hw2 & Hfit & Hi2 & Hl2 & _).
  assert (raster_ok CHAR_RASTER_WIDTH r) as Hrok.
  { destruct (get_char_raster_done c) as (r' & Hr' & ?). rewrite Hr in Hr'.
    by injection Hr' as ->. }
  pose proof (glyph_in_screen (placed w) r Hw2 Hfit Hrok) as Hcells. fold X Y in Hcells |- *.
  destruct Hw2 as (Hi & HX & HY). rewrite Hi2 in *.
  pose proof Hi as (_ & _ & Hws & _).
  assert (Forall (in_screen (info w)) (glyph_cells X Y r)) as Hscreen.
  { apply Forall_forall. intros cell Hc. specialize (Hcells cell Hc). fold X Y in HX, HY.
    unfold in_screen. lia. }
  split; [done|]. split; [done|]. split; [done|]. split.
  - intros i j row v Hi0 Hj0 Hrow Hv.
    apply (paint_all_in (info w) (glyph_cells X Y r) _ (X + i, Y + j, v)); [done|done| |].
    + apply glyph_cells_nodup.
    + apply elem_of_glyph_cells. by exists i, j, row, v.
  - intros n Hn. apply paint_all_out; [done|done|]. intros cell Hc.
    specialize (Hcells cell Hc). apply Hn; lia.
Qed.

Context {C : Type → Type} `{OnceCellLaws C} {L : Type} `{RawLockLaws L}.

(** A record on an idle logger is printed with a line end, and the logger is idle again. *)
Lemma log_done text w (x : C (locked L _)) :
  cell_is lock_free w x → writer_ok w → y_pos w + 18 * Z.of_nat (S (length text)) < 2 ^ 63 →
  ∃ x' w', log text x = (Done (), x') ∧ cell_is lock_free w' x' ∧ writer_ok w' ∧
    write_str (text ++ [NEWLINE]) w = (Done (), w') ∧
    y_pos w' ≤ y_pos w + 18 * Z.of_nat (S (length text)).
Proof.
  intros Hx Hw Hy. destruct try_acquire_free as (h & Hh & Hrel).
  destruct (static_step_done try_acquire _ h w x Hx Hh) as (x1 & E1 & Hx1).
  assert (length (text ++ [NEWLINE]) = S (length text)) as Hlen
    by (rewrite length_app; simpl; lia).
  destruct (write_str_run (text ++ [NEWLINE]) w Hw) as (w' & E & Hw' & _ & _ & Hyw).
  { by rewrite Hlen. }
  rewrite Hlen in Hyw.
  set (x2 := cell_modify (λ l : locked L FrameBufferWriter, Locked (lk_raw l) w') x1).
  assert (cell_is h w' x2) as Hx2
    by (unfold x2, cell_is in *; by rewrite cell_get_modify, Hx1).
  destruct (static_step_done (λ l, Some (release l)) h (release h) w' x2 Hx2 eq_refl)
    as (x3 & E3 & Hx3). rewrite Hrel in Hx3.
  exists x3, w'. split; [|by split_and!]. unfold log, static_acquire.
  rewrite (mbind_done _ _ _ _ _ E1), get_bind, Hx1, expect_some, liftO_done_bind. cbn [lk_data].
  rewrite E, (mbind_done _ _ _ () x2) by reflexivity. rewrite liftO_done_bind. exact E3.
Qed.

(** A record while the logger is held never comes to an end. *)
Lemma log_held text l h w (x : C (locked L FrameBufferWriter)) :
  cell_is h w x → try_acquire l = Some h → log text x = (Hang, x).
Proof.
  intros Hx Hl. unfold log. apply mbind_hang. eapply static_step_hangs; [exact Hx|].
  by eapply try_acquire_excl.
Qed.

(** C32: the guard against a double panic does not help.  In an unsupported pixel format the
    first printable character sets the format to [Rgb] and panics, but with the logger
    locked; [panic_handler] then logs through the same lock and spins for ever. *)
Theorem unsupported_format_hangs_panic_handler code c text text2 w (x : C (locked L _)) :
  cell_is lock_free w x → writer_ok (set_info (set_format Rgb (info w)) w) →
  y_pos w < 2 ^ 62 → pixel_format (info w) = OtherFormat code → c ≠ NEWLINE → c ≠ RETURN →
  ∃ x' h w', log (c :: text) x = (Panic "pixel format not supported in logger", x') ∧
    cell_is h w' x' ∧ pixel_format (info w') = Rgb ∧ log text2 x' = (Hang, x').
Proof.
  intros Hx Hw Hy Hf Hc1 Hc2. destruct try_acquire_free as (h & Hh & _).
  destruct (static_step_done try_acquire _ h w x Hx Hh) as (x1 & E1 & Hx1).
  destruct (write_char_unsupported c w code Hc1 Hc2 Hw Hy Hf) as (w' & E & Hf').
  set (x2 := cell_modify (λ l : locked L FrameBufferWriter, Locked (lk_raw l) w') x1).
  assert (cell_is h w' x2) as Hx2
    by (unfold x2, cell_is in *; by rewrite cell_get_modify, Hx1).
  exists x2, h, w'. split; [|split; [exact Hx2|split; [done|]]].
  - unfold log, static_acquire. rewrite (mbind_done _ _ _ _ _ E1), get_bind, Hx1.
    rewrite expect_some, liftO_done_bind. cbn [lk_data]. unfold write_str. cbn [app for_each].
    rewrite (mbind_panic _ _ _ _ _ E). done.
  - by eapply log_held.
Qed.

End claims.

(** ** A small screen *)

#[local] Existing Instance debug_profile.
#[local] Existing Instance option_cell.
#[local] Existing Instance bit_lock.

(** A font of two pixels by sixteen: every letter is a bright left column. *)
#[local] Instance bar_font : Font := {|
  get_raster c := Some (mkRaster (replicate 16 [255; 0]) 2);
  CHAR_RASTER_WIDTH := 2;
|}.

Lemma bar_font_laws : @FontLaws bar_font.
Proof.
  split; [|by eexists|by_decide].
  intros c r [= <-]. split; [done|]. split; [done|]. by repeat constructor.
Qed.

(** Eight by forty pixels of four bytes. *)
Definition small_info (f : PixelFormat) : FrameBufferInfo := mkInfo 6 40 f 4 8.
Definition small_writer (f : PixelFormat) : FrameBufferWriter :=
  FrameBufferWriter_new (replicate 1280 7) (small_info f).

Lemma small_writer_ok : writer_ok (small_writer Bgr).
Proof. split; [split; [done|by_decide]|by_decide]. Qed.

Lemma write_str_in_bounds_witness :
  ∃ w', write_str [72; 10; 105; 33; 13; 72; 72; 72; 10; 72] (small_writer Bgr) = (Done (), w') ∧
    writer_ok w' ∧ length (framebuffer w') = 1280%nat.
Proof.
  destruct (@write_str_in_bounds debug_profile bar_font bar_font_laws
    [72; 10; 105; 33; 13; 72; 72; 72; 10; 72] (small_writer Bgr) small_writer_ok)
    as (w' & E & Hw & _ & Hl); [by_decide|].
  exists w'. split; [exact E|]. split; [exact Hw|exact Hl].
Defined.

Lemma write_char_paints_glyph_witness :
  ∃ w', write_char 72 (small_writer Bgr) = (Done (), w') ∧
    pixel_is (small_info Bgr) (framebuffer w') 1 1 [127; 255; 255; 0].
Proof.
  destruct (@write_char_paints_glyph debug_profile bar_font bar_font_laws 72 (small_writer Bgr)
    (mkRaster (replicate 16 [255; 0]) 2)) as (w' & E & _ & _ & _ & Hin & _);
    [done|done|done|exact small_writer_ok|by_decide|].
  exists w'. split; [exact E|].
  exact (Hin 0 0 [255; 0] 255 ltac:(done) ltac:(done) eq_refl eq_refl).
Defined.

Lemma unsupported_format_hangs_panic_handler_witness :
  ∃ x', log [72] (Some (Locked false (small_writer (OtherFormat 0)))) =
      (Panic "pixel format not supported in logger", x') ∧
    log [80] x' = (Hang, x').
Proof.
  destruct (@unsupported_format_hangs_panic_handler debug_profile bar_font bar_font_laws
    option _ option_cell_laws bool _ bit_lock_laws 0 72 [] [80] (small_writer (OtherFormat 0))
    (Some (Locked false (small_writer (OtherFormat 0))))) as (x' & h & w' & E & _ & _ & E2);
    [done| |by_decide|done|done|done|].
  { split; [split; [done|by_decide]|by_decide]. }
  exists x'. split; [exact E|exact E2].
Defined.
