(* ===== verification/Syscall.v ===== *)
(** * System calls: kernel/src/syscall.rs. *)

From S2P Require Import Prelude Crates Statics Machine Asm FrameSource Mapping.
From S2P Require Import Sched ContextSwitch Pipe Framebuffer.

Local Open Scope Z_scope.

(** ** [core::str::from_utf8] *)

Definition is_cont (b : Z) : Prop := 0x80 ≤ b ≤ 0xBF.
#[export] Instance is_cont_dec b : Decision (is_cont b).
Proof. unfold is_cont. apply _. Defined.

Definition cont_bits (b : Z) : Z := Z.land b 0x3F.

(** The characters of a byte string in UTF-8, [None] if it is not valid. *)
Fixpoint from_utf8 (bs : list Z) : option (list Z) :=
  match bs with
  | [] => Some []
  | b0 :: bs0 =>
      if decide (b0 < 0x80) then cons b0 <$> from_utf8 bs0
      else match bs0 with
      | b1 :: bs1 =>
          if decide (0xC2 ≤ b0 ≤ 0xDF ∧ is_cont b1) then
            cons (Z.shiftl (Z.land b0 0x1F) 6 + cont_bits b1) <$> from_utf8 bs1
          else match bs1 with
          | b2 :: bs2 =>
              if decide (0xE0 ≤ b0 ≤ 0xEF ∧ is_cont b1 ∧ is_cont b2 ∧
                         (b0 = 0xE0 → 0xA0 ≤ b1) ∧ (b0 = 0xED → b1 ≤ 0x9F)) then
                cons (Z.shiftl (Z.land b0 0x0F) 12 + Z.shiftl (cont_bits b1) 6 +
                      cont_bits b2) <$> from_utf8 bs2
              else match bs2 with
              | b3 :: bs3 =>
                  if decide (0xF0 ≤ b0 ≤ 0xF4 ∧ is_cont b1 ∧ is_cont b2 ∧ is_cont b3 ∧
                             (b0 = 0xF0 → 0x90 ≤ b1) ∧ (b0 = 0xF4 → b1 ≤ 0x8F)) then
                    cons (Z.shiftl (Z.land b0 0x07) 18 + Z.shiftl (cont_bits b1) 12 +
                          Z.shiftl (cont_bits b2) 6 + cont_bits b3) <$> from_utf8 bs3
                  else None
              | [] => None
              end
          | [] => None
          end
      | [] => None
      end
  end.

(** ** The statics and the memory the handlers work on *)

(** A shared mapper ([Arc<Spinlock<OffsetPageTable>>]) is named by a number. *)
Record kstate (C : Type → Type) (L RW MP FA Q : Type) : Type := mkState {
  ks_sched : sched C L RW;
  FRAME_ALLOCATOR : C (locked L FA);
  ks_mappers : gmap nat (locked L MP);
  INPUT_PIPE : C (Pipe Q);
  LOGGER : C (locked L FrameBufferWriter);
  ks_memory : memory;
}.
Arguments mkState {C L RW MP FA Q} _ _ _ _ _ _.
Arguments ks_sched {C L RW MP FA Q} _.
Arguments FRAME_ALLOCATOR {C L RW MP FA Q} _.
Arguments ks_mappers {C L RW MP FA Q} _.
Arguments INPUT_PIPE {C L RW MP FA Q} _.
Arguments LOGGER {C L RW MP FA Q} _.
Arguments ks_memory {C L RW MP FA Q} _.

Section syscall.
Context `{BuildProfile} `{Font} `{X86Addr}.
Context {C : Type → Type} `{OnceCell C} {L RW : Type} `{RawLock L, RawRwLock RW}.
Context {MP : Type} `{Mapper MP} {FA : Type} `{FrameAllocator FA} {Q : Type} `{ArrayQueueApi Q}.

Abbreviation K := (kstate C L RW MP FA Q).

Definition ks_sched_lens : lens K (sched C L RW) :=
  Lens ks_sched (λ x s, mkState x (FRAME_ALLOCATOR s) (ks_mappers s) (INPUT_PIPE s)
                                (LOGGER s) (ks_memory s)).
Definition FRAME_ALLOCATOR_lens : lens K (C (locked L FA)) :=
  Lens FRAME_ALLOCATOR (λ x s, mkState (ks_sched s) x (ks_mappers s) (INPUT_PIPE s)
                                       (LOGGER s) (ks_memory s)).
Definition ks_mappers_lens : lens K (gmap nat (locked L MP)) :=
  Lens ks_mappers (λ x s, mkState (ks_sched s) (FRAME_ALLOCATOR s) x (INPUT_PIPE s)
                                  (LOGGER s) (ks_memory s)).
Definition INPUT_PIPE_lens : lens K (C (Pipe Q)) :=
  Lens INPUT_PIPE (λ x s, mkState (ks_sched s) (FRAME_ALLOCATOR s) (ks_mappers s) x
                                  (LOGGER s) (ks_memory s)).
Definition LOGGER_lens : lens K (C (locked L FrameBufferWriter)) :=
  Lens LOGGER (λ x s, mkState (ks_sched s) (FRAME_ALLOCATOR s) (ks_mappers s) (INPUT_PIPE s)
                              x (ks_memory s)).
Definition ks_memory_lens : lens K memory :=
  Lens ks_memory (λ x s, mkState (ks_sched s) (FRAME_ALLOCATOR s) (ks_mappers s)
                                 (INPUT_PIPE s) (LOGGER s) x).

(** ** Memory of the caller *)

(** The pointers come from user mode unchecked.  [cr3] names the mapper of the page tables in
    use; the kernel never changes them.  An access that faults panics on the spot, with all
    the locks that are held then. *)
Definition user_access (cr3 : nat) (fault : MP → option string) : M K () :=
  s ← get_state;
  match ks_mappers s !! cr3 with
  | None => liftO Ub
  | Some l => if fault (lk_data l) is Some w then panic w else mret ()
  end.

(** What goes wrong when a [u64] is stored through [ptr]: a build with debug assertions checks
    the pointer first. *)
Definition store_fault64 (ptr : Z) (mp : MP) : option string :=
  if overflow_checks && bool_decide (ptr mod 8 ≠ 0) then Some "misaligned pointer dereference"
  else if overflow_checks && bool_decide (ptr = 0) then
    Some "null pointer dereference occurred"
  else block_fault page_writable mp ptr 8.

(** [*ptr = v] *)
Definition store_user64 (cr3 : nat) (ptr v : Z) : M K () :=
  user_access cr3 (store_fault64 ptr);;
  on ks_memory_lens (modify_state (store64 ptr v)).

(** A buffer of [n] bytes.  A slice over memory that is not all there is undefined behaviour in
    Rust; here it faults when it is read, whatever byte the reader might stop at. *)
Definition load_user (cr3 : nat) (buf n : Z) : M K (list Z) :=
  user_access cr3 (λ mp, block_fault page_present mp buf n);;
  gets_state (λ s, load_bytes (ks_memory s) buf n).

(** ** [anon_allocate_syscall] *)

(** [mapper.lock()] through the handle, and the drop of that guard. *)
Definition mapper_step (step : L → option L) (h : nat) : M (gmap nat (locked L MP)) () :=
  ms ← get_state;
  match ms !! h with
  | None => liftO Ub
  | Some l =>
      match step (lk_raw l) with
      | None => hang
      | Some raw => put_state (<[h := Locked raw (lk_data l)]> ms)
      end
  end.

(** Code on the mapper and the frame allocator behind their guards. *)
Definition with_mapper {A} (h : nat) (m : M (MP * FA) A) : M K A := λ s,
  match ks_mappers s !! h, cell_get (FRAME_ALLOCATOR s) with
  | Some lm, Some lf =>
      let '(o, (mp, fa)) := m (lk_data lm, lk_data lf) in
      (o, mkState (ks_sched s)
            (cell_modify (λ l, Locked (lk_raw l) fa) (FRAME_ALLOCATOR s))
            (<[h := Locked (lk_raw lm) mp]> (ks_mappers s)) (INPUT_PIPE s) (LOGGER s)
            (ks_memory s))
  | _, _ => (Ub, s)
  end.

Definition USER_PAGE : Z := Z.lor (Z.lor PRESENT WRITABLE) USER_ACCESSIBLE.

(** The body of the loop, with its two [unwrap]s. *)
Definition map_user_page (page : Z) : M (MP * FA) () :=
  o ← on snd_lens allocate_frame;
  frame ← liftO (expect unwrap_none o);
  r ← map_to page frame USER_PAGE;
  match r with
  | ROk _ => mret ()
  | RErr _ => panic "called `Result::unwrap()` on an `Err` value"
  end.

(** The first and the last page of the request. *)
Definition anon_range (start size : Z) : outcome (Z * Z) :=
  range_start ← VirtAddr_new start;
  past_end ← VirtAddr_add range_start size;
  range_end ← VirtAddr_sub past_end 1;
  Done (Page_containing_address range_start, Page_containing_address range_end).

(** The request of the process [p], the current one, whose free pages begin at
    [page_range_start]; the guards of the list and of the index are held and dropped last. *)
Definition anon_allocate_for (cr3 cur_proc : nat) (p : Process) (page_range_start size ptr : Z) :
    M K () :=
  range ← liftO (anon_range page_range_start size);
  h ← liftO (expect unwrap_none (mapper p));
  on ks_mappers_lens (mapper_step try_acquire h);;
  on FRAME_ALLOCATOR_lens static_acquire;;
  with_mapper h (for_each map_user_page (Page_range_inclusive range.1 range.2));;
  on FRAME_ALLOCATOR_lens static_release;;
  on ks_mappers_lens (mapper_step (λ l, Some (release l)) h);;
  store_user64 cr3 ptr page_range_start;;
  next ← liftO (add64 page_range_start (PageRangeInclusive_size range.1 range.2));
  on ks_sched_lens (update_process cur_proc (set_pages (Some next)));;
  on ks_sched_lens (on CURRENT_PROCESS_lens static_unread);;
  on ks_sched_lens (on PROCESS_LIST_lens static_release).

(** Interrupts are off throughout: nothing runs between the steps. *)
Definition anon_allocate_syscall (cr3 : nat) (size ptr : Z) : M K () :=
  on ks_sched_lens (on PROCESS_LIST_lens static_acquire);;
  on ks_sched_lens (on CURRENT_PROCESS_lens static_read);;
  procs ← on ks_sched_lens (on PROCESS_LIST_lens guard_get);
  cur_proc ← on ks_sched_lens (on CURRENT_PROCESS_lens guard_get);
  p ← liftO (vec_index procs cur_proc);
  page_range_start ← liftO (expect unwrap_none (pages p));
  anon_allocate_for cr3 cur_proc p page_range_start size ptr.

(** ** [read_syscall] and [write_syscall] *)

(** [arrivals]: what the keyboard interrupt writes into the pipe meanwhile (Pipe.v).  When
    these rounds are over before the read is, the call is still spinning. *)
Definition read_syscall (cr3 : nat) (arrivals : list (list Z)) (fd buf : Z) (count : nat) : M K () :=
  if decide (fd = 0) then
    s ← get_state;
    pipe ← liftO (expect unwrap_none (cell_get (INPUT_PIPE s)));
    l ← liftO (if ks_mappers s !! cr3 is Some l then Done l else Ub);
    let '(o, (pipe', m')) :=
      read (byte_fault page_writable (lk_data l)) arrivals count buf (pipe, ks_memory s) in
    on INPUT_PIPE_lens (modify_state (cell_modify (λ _, pipe')));;
    on ks_memory_lens (put_state m');;
    n ← liftO o;
    if decide (n = count) then mret () else hang
  else mret ().

(** [write!(writer, "{}", buffer)] through the guard. *)
Definition guard_write_str (buffer : list Z) : M (C (locked L FrameBufferWriter)) () :=
  c ← get_state;
  l ← liftO (expect unwrap_none (cell_get c));
  let '(o, w) := write_str buffer (lk_data l) in
  put_state (cell_modify (λ l, Locked (lk_raw l) w) c);;
  liftO o.

(** The slice is made first, but its bytes are read by [from_utf8], with the logger locked. *)
Definition write_syscall (cr3 : nat) (fd buf count : Z) : M K () :=
  if decide (fd = 1) then
    on LOGGER_lens static_acquire;;
    bytes ← load_user cr3 buf count;
    match from_utf8 bytes with
    | Some buffer => on LOGGER_lens (guard_write_str buffer)
    | None => mret ()
    end;;
    on LOGGER_lens static_release
  else mret ().

(** ** The dispatcher *)

(** [hex]: the text of the log record, formatted by core. *)
Definition syscall_handler (cr3 : nat) (arrivals : list (list Z)) (hex : Z → list Z)
    (index arg0 arg1 arg2 _arg3 _arg4 _arg5 : Z) : M K () :=
  if decide (index = 0) then read_syscall cr3 arrivals arg0 arg1 (Z.to_nat arg2)
  else if decide (index = 1) then write_syscall cr3 arg0 arg1 arg2
  else if decide (index = 2) then anon_allocate_syscall cr3 arg0 arg1
  else on LOGGER_lens (log (hex index)).

(** ** [syscall_entry] *)

(** The call of [syscall_handler]: six arguments in registers, the seventh above the return
    address; the handler works on the kernel state and on memory. *)
Definition syscall_handler_call (clobber : cpu * memory → cpu * memory)
    (handler : list Z → M (memory * K) ()) : M (machine K) () := λ s,
  let c := s.1.1 in
  let args := [regs c RDI; regs c RSI; regs c RDX; regs c RCX; regs c R8; regs c R9;
               load64 s.1.2 (regs c RSP + 8)] in
  let '(o, (m, k)) := handler args (s.1.2, s.2) in
  (o, (clobber (c, m), k)).

Definition syscall_entry (ret user_cs user_ss : Z) (clobber : cpu * memory → cpu * memory)
    (handler : list Z → M (memory * K) ()) : list (instr K) :=
  [Push RBP; Push R15; Push R14; Push R13; Push R12; Push R11; Push RCX;
   Push R9;
   Mov R9 R8; Mov R8 R10; Mov RCX RDX; Mov RDX RSI; Mov RSI RDI; Mov RDI RAX;
   Call ret (syscall_handler_call clobber handler);
   Pop RAX;
   Pop RCX; Pop R11; Pop R12; Pop R13; Pop R14; Pop R15; Pop RBP;
   Sysretq user_cs user_ss].

(** The handler on the processor's memory: the seven arguments of [syscall_handler]. *)
Definition syscall_rust (cr3 : nat) (arrivals : list (list Z)) (hex : Z → list Z) (args : list Z) :
    M (memory * K) () := λ s,
  match args with
  | [index; arg0; arg1; arg2; arg3; arg4; arg5] =>
      let '(o, k) := syscall_handler cr3 arrivals hex index arg0 arg1 arg2 arg3 arg4 arg5
                       (lput ks_memory_lens s.1 s.2) in
      (o, (ks_memory k, k))
  | _ => (Ub, s)
  end.

End syscall.
