(* ===== verification/Utf8.v ===== *)
(** * UTF-8: what [write_syscall] takes for text.

    The encoding of Unicode scalar values, and a proof that [from_utf8] (Syscall.v) accepts
    exactly the encodings and gives the encoded characters back. *)

From S2P Require Import Prelude Syscall.

Local Open Scope Z_scope.

Definition is_scalar (c : Z) : Prop := 0 ≤ c < 0xD800 ∨ 0xE000 ≤ c < 0x110000.
#[export] Instance is_scalar_dec c : Decision (is_scalar c).
Proof. unfold is_scalar. apply _. Defined.

Definition cont_byte (c : Z) : Z := 0x80 + c mod 64.

Definition utf8_char (c : Z) : list Z :=
  if decide (c < 0x80) then [c]
  else if decide (c < 0x800) then [0xC0 + c / 64; cont_byte c]
  else if decide (c < 0x10000) then [0xE0 + c / 4096; cont_byte (c / 64); cont_byte c]
  else [0xF0 + c / 262144; cont_byte (c / 4096); cont_byte (c / 64); cont_byte c].

Definition utf8 (text : list Z) : list Z := text ≫= utf8_char.

(** ** Bits as arithmetic *)

Ltac zify_divs :=
  change (2 ^ 6) with 64 in *; change (2 ^ 12) with 4096 in *; change (2 ^ 18) with 262144 in *;
  unfold cont_byte, is_cont, is_scalar in *; Z.div_mod_to_equations; lia.

Lemma cont_bits_mod b : cont_bits b = b mod 64.
Proof. by apply (Z.land_ones b 6). Qed.

Lemma lead2_mod b : Z.land b 0x1F = b mod 32.
Proof. by apply (Z.land_ones b 5). Qed.
Lemma lead3_mod b : Z.land b 0x0F = b mod 16.
Proof. by apply (Z.land_ones b 4). Qed.
Lemma lead4_mod b : Z.land b 0x07 = b mod 8.
Proof. by apply (Z.land_ones b 3). Qed.

Ltac bits_as_arith :=
  rewrite ?cont_bits_mod, ?lead2_mod, ?lead3_mod, ?lead4_mod, ?Z.shiftl_mul_pow2 by lia.

(** ** Decoding *)

Lemma from_utf8_char c bs :
  is_scalar c → from_utf8 (utf8_char c ++ bs) = cons c <$> from_utf8 bs.
Proof.
  intros Hc. unfold utf8_char. repeat case_decide; cbn [app from_utf8].
  - by rewrite decide_True.
  - rewrite decide_False by zify_divs. rewrite decide_True by zify_divs.
    bits_as_arith. f_equal. f_equal. zify_divs.
  - rewrite decide_False by zify_divs. rewrite decide_False by zify_divs.
    rewrite decide_True by zify_divs. bits_as_arith. f_equal. f_equal. zify_divs.
  - rewrite decide_False by zify_divs. rewrite decide_False by zify_divs.
    rewrite decide_False by zify_divs. rewrite decide_True by zify_divs.
    bits_as_arith. f_equal. f_equal. zify_divs.
Qed.

Lemma from_utf8_utf8 text : Forall is_scalar text → from_utf8 (utf8 text) = Some text.
Proof.
  induction 1 as [|c text Hc _ IH]; [done|].
  change (utf8 (c :: text)) with (utf8_char c ++ utf8 text).
  by rewrite from_utf8_char, IH.
Qed.

(** What is decoded first, and the rest. *)
Lemma from_utf8_cons bs text :
  Forall (λ b, 0 ≤ b < 256) bs → from_utf8 bs = Some text → bs ≠ [] →
  ∃ c bs' text', bs = utf8_char c ++ bs' ∧ is_scalar c ∧ text = c :: text' ∧
    from_utf8 bs' = Some text'.
Proof.
  intros Hb E Hne. destruct bs as [|b0 bs0]; [done|]. clear Hne.
  apply Forall_cons in Hb as [H0 Hb]. cbn [from_utf8] in E.
  assert (∀ c bs', cons c <$> from_utf8 bs' = Some text →
    ∃ text', text = c :: text' ∧ from_utf8 bs' = Some text') as Hinv.
  { intros c bs' Hm. destruct (from_utf8 bs') as [t|]; [|done]. injection Hm as <-. eauto. }
  case_decide as Hd0.
  { destruct (Hinv _ _ E) as (t & -> & ?). exists b0, bs0, t.
    unfold utf8_char. rewrite decide_True by done. split_and!; [done|zify_divs|done|done]. }
  destruct bs0 as [|b1 bs1]; [done|]. apply Forall_cons in Hb as [H1 Hb].
  case_decide as Hd1.
  { revert E. bits_as_arith. intros E. destruct (Hinv _ _ E) as (t & -> & ?).
    eexists _, bs1, t. split; [|split; [|split; [reflexivity|done]]]; [|zify_divs].
    unfold utf8_char. rewrite decide_False by zify_divs. rewrite decide_True by zify_divs.
    cbn [app]. do 2 (f_equal; try zify_divs). }
  destruct bs1 as [|b2 bs2]; [done|]. apply Forall_cons in Hb as [H2 Hb].
  case_decide as Hd2.
  { revert E. bits_as_arith. intros E. destruct (Hinv _ _ E) as (t & -> & ?).
    eexists _, bs2, t. split; [|split; [|split; [reflexivity|done]]]; [|zify_divs].
    unfold utf8_char. rewrite decide_False by zify_divs. rewrite decide_False by zify_divs.
    rewrite decide_True by zify_divs. cbn [app]. do 3 (f_equal; try zify_divs). }
  destruct bs2 as [|b3 bs3]; [done|]. apply Forall_cons in Hb as [H3 Hb].
  case_decide as Hd3; [|done].
  revert E. bits_as_arith. intros E. destruct (Hinv _ _ E) as (t & -> & ?).
  eexists _, bs3, t. split; [|split; [|split; [reflexivity|done]]]; [|zify_divs].
  unfold utf8_char. rewrite !decide_False by zify_divs. cbn [app].
  do 4 (f_equal; try zify_divs).
Qed.

(** Valid UTF-8 is the encoding of some text, and that text is what it decodes to. *)
Lemma from_utf8_iff bs text :
  Forall (λ b, 0 ≤ b < 256) bs →
  from_utf8 bs = Some text ↔ bs = utf8 text ∧ Forall is_scalar text.
Proof.
  intros Hb. split; [|by intros [-> ?%from_utf8_utf8]]. revert bs Hb.
  induction text as [|c text IH]; intros bs Hb E.
  - destruct bs; [done|].
    by destruct (from_utf8_cons _ _ Hb E) as (? & ? & ? & _ & _ & ? & _).
  - destruct bs as [|b bs]; [done|].
    destruct (from_utf8_cons _ _ Hb E) as (c' & bs' & t & Hbs & Hc & [= <- <-] & E'); [done|].
    rewrite Hbs in Hb |- *. apply Forall_app in Hb as [_ Hb].
    destruct (IH bs' Hb E') as [-> ?]. split; [done|]. by constructor.
Qed.

Lemma utf8_char_length c : (1 ≤ length (utf8_char c))%nat.
Proof. unfold utf8_char. repeat case_decide; simpl; lia. Qed.

Lemma utf8_length text : (length text ≤ length (utf8 text))%nat.
Proof.
  induction text as [|c text IH]; [done|].
  change (utf8 (c :: text)) with (utf8_char c ++ utf8 text).
  rewrite length_app. pose proof (utf8_char_length c). simpl. lia.
Qed.
