(* ===== verification/SyscallEntry.v ===== *)
(** * The system call convention of [syscall_entry]. *)

From S2P Require Import Prelude Crates CrateModels Statics Machine Asm FrameSource Mapping.
From S2P Require Import Sched ContextSwitch Pipe Framebuffer Syscall.

Local Open Scope Z_scope.

Lemma run_mov {K} dst src code c m (k : K) :
  run (Mov dst src :: code) (c, m, k) = run code (set_reg dst (regs c src) c, m, k).
Proof. by apply run_cons. Qed.

Definition syscall_saved : list reg := [RBP; R15; R14; R13; R12; R11; RCX; R9].

(** The arguments of the handler in the caller's registers. *)
Definition syscall_args (c : cpu) : list Z :=
  regs c <$> [RAX; RDI; RSI; RDX; R10; R8; R9].

Section entry.
Context {C : Type → Type} {L RW MP FA Q : Type}.
Abbreviation K := (kstate C L RW MP FA Q).
Implicit Types k : K.

(** The moves before the call. *)
Definition shuffled (c : cpu) : cpu :=
  set_reg RDI (regs c RAX) (set_reg RSI (regs c RDI) (set_reg RDX (regs c RSI)
    (set_reg RCX (regs c RDX) (set_reg R8 (regs c R10) (set_reg R9 (regs c R8) c))))).

Lemma shuffle_done c m k code :
  run (Mov R9 R8 :: Mov R8 R10 :: Mov RCX RDX :: Mov RDX RSI :: Mov RSI RDI ::
       Mov RDI RAX :: code) (c, m, k) = run code (shuffled c, m, k).
Proof. by rewrite !run_mov. Qed.

Lemma shuffled_other c r :
  r ∉ [RDI; RSI; RDX; RCX; R8; R9] → regs (shuffled c) r = regs c r.
Proof.
  intros Hr. unfold shuffled.
  rewrite !set_reg_ne; [done|by intros ->; apply Hr; by_decide..].
Qed.

(** C11: [syscall_entry] calls the handler with the system call number and the caller's six
    arguments, whatever the handler does below and outside its seven saved words; on return
    to the caller's next instruction the flags, the stack pointer and the registers that the
    convention preserves are as they were, but RAX, where the caller looks for the result,
    holds the caller's own sixth argument. *)
Theorem syscall_entry_convention depth ret user_cs user_ss clobber handler c
    (m : memory) k a :
  sysv_abi depth clobber → cpu_ok c → is_word ret → 0 ≤ depth →
  regs c RSP = a → 72 ≤ a < 2 ^ 64 →
  (∀ m1 : memory, (∀ x, x < a - 72 ∨ a ≤ x → m1 x = m x) →
     ∃ (m2 : memory) k2, handler (syscall_args c) (m1, k) = (Done (), (m2, k2)) ∧
              ∀ x, a - 64 ≤ x < a → m2 x = m1 x) →
  ∃ (m1 m2 : memory) c' (m' : memory) k',
    handler (syscall_args c) (m1, k) = (Done (), (m2, k')) ∧
    (∀ x, x < a - 72 ∨ a ≤ x → m1 x = m x) ∧
    (∀ x, x < a - 72 - depth ∨ a - 72 ≤ x → m' x = m2 x) ∧
    run (syscall_entry ret user_cs user_ss clobber handler) (c, m, k) =
      (Done (), (c', m', k')) ∧
    (∀ r, r ∈ [RBX; RBP; RSP; R12; R13; R14; R15; RCX; R11] → regs c' r = regs c r) ∧
    rip c' = regs c RCX ∧ rflags c' = regs c R11 ∧ cs c' = user_cs ∧ ss c' = user_ss ∧
    regs c' RAX = regs c R9.
Proof.
  intros Habi Hc Hret Hdepth Ha Hr Hhandler.
  destruct (run_pushes syscall_saved c m k a []) as
    (c1 & m1 & E1 & Hsp1 & Hregs1 & _ & _ & _ & _ & W1 & F1);
    [by_decide|apply Hc|exact Ha|by intros ? ? ?|simpl; lia|].
  change (8 * Z.of_nat (length syscall_saved)) with 64 in *.
  set (c2 := shuffled c1).
  assert (regs c2 RSP = a - 64) as Hsp2 by (unfold c2; by rewrite shuffled_other by by_decide).
  destruct (push64_done ret c2 m1 k (a - 64) _ Hsp2 W1) as (m2 & E2 & W2 & F2); [done|lia|].
  apply words_at_cons, proj2 in W2. replace (a - 64 - 8 + 8) with (a - 64) in W2 by lia.
  destruct (Hhandler m2) as (m3 & k3 & E3 & F3).
  { intros x Hx. rewrite F2 by lia. apply F1. lia. }
  set (c3 := set_reg RSP (a - 64 - 8) c2).
  pose proof (Habi c3 m3) as Hclob. destruct (clobber (c3, m3)) as [c4 m4] eqn:Ecl.
  destruct Hclob as [Hregs4 F4]. change (regs c3 RSP) with (a - 64 - 8) in F4.
  assert (regs c4 RSP = a - 64 - 8) as Hsp4 by (rewrite Hregs4 by by_decide; done).
  set (c5 := set_reg RSP (a - 64 - 8 + 8) c4).
  assert (exec (Call ret (syscall_handler_call clobber handler)) (c2, m1, k) =
    (Done (), (c5, m4, k3))) as Ecall.
  { cbn [exec]. rewrite (mbind_done _ _ _ _ _ E2). fold c3.
    assert (syscall_handler_call clobber handler (c3, m2, k) = (Done (), (c4, m4, k3))) as Eh.
    { unfold syscall_handler_call. cbn [fst snd].
      change (regs c3 RSP) with (a - 64 - 8). replace (a - 64 - 8 + 8) with (a - 64) by lia.
      apply words_at_cons in W2 as [W2 _]. rewrite W2.
      assert ([regs c3 RDI; regs c3 RSI; regs c3 RDX; regs c3 RCX; regs c3 R8; regs c3 R9;
        regs c R9] = syscall_args c) as ->.
      { unfold c3, c2, shuffled, syscall_args. simpl. by rewrite !Hregs1 by done. }
      by rewrite E3, Ecl. }
    rewrite (mbind_done _ _ _ _ _ Eh). unfold mbind, M_bind, pop64. cbn [fst snd].
    rewrite Hsp4, Z.mod_small by lia. done. }
  destruct (run_pops [RAX; RCX; R11; R12; R13; R14; R15; RBP] c5 m4 k3 (a - 64)
    (reverse (regs c <$> syscall_saved)) []) as (c6 & E6 & Hsp6 & _ & Hpop & Hkeep & _);
    [by_decide|by_decide| | |done|simpl; lia|].
  { unfold c5. rewrite set_reg_eq. lia. }
  { eapply words_at_ext; [|exact W2]. intros x Hx. simpl in Hx.
    rewrite F4 by lia. symmetry. apply F3. lia. }
  assert (regs c6 RAX = regs c R9 ∧ regs c6 RCX = regs c RCX ∧ regs c6 R11 = regs c R11 ∧
    regs c6 R12 = regs c R12 ∧ regs c6 R13 = regs c R13 ∧ regs c6 R14 = regs c R14 ∧
    regs c6 R15 = regs c R15 ∧ regs c6 RBP = regs c RBP)
    as (P0 & P1 & P2 & P3 & P4 & P5 & P6 & P7).
  { pose proof (Hpop 0%nat _ eq_refl) as P0. pose proof (Hpop 1%nat _ eq_refl) as P1.
    pose proof (Hpop 2%nat _ eq_refl) as P2. pose proof (Hpop 3%nat _ eq_refl) as P3.
    pose proof (Hpop 4%nat _ eq_refl) as P4. pose proof (Hpop 5%nat _ eq_refl) as P5.
    pose proof (Hpop 6%nat _ eq_refl) as P6. pose proof (Hpop 7%nat _ eq_refl) as P7.
    injection P0 as ->. injection P1 as ->. injection P2 as ->. injection P3 as ->.
    injection P4 as ->. injection P5 as ->. injection P6 as ->. injection P7 as ->.
    split_and!; reflexivity. }
  exists m2, m3. eexists _, m4, k3. split; [exact E3|]. split.
  { intros x Hx. rewrite F2 by lia. apply F1. lia. }
  split; [intros x Hx; apply F4; lia|]. split.
  { change (syscall_entry ret user_cs user_ss clobber handler) with ((Push <$> syscall_saved) ++
      Mov R9 R8 :: Mov R8 R10 :: Mov RCX RDX :: Mov RDX RSI :: Mov RSI RDI :: Mov RDI RAX ::
      Call ret (syscall_handler_call clobber handler) ::
      ((Pop <$> [RAX; RCX; R11; R12; R13; R14; R15; RBP]) ++ [Sysretq user_cs user_ss])).
    rewrite (run_app _ _ _ _ E1), shuffle_done, (run_cons _ _ _ _ Ecall), (run_app _ _ _ _ E6).
    reflexivity. }
  cbn [regs rip rflags cs ss fst snd]. rewrite P0, P1, P2. split; [|split_and!; reflexivity].
  intros r Hr'.
  assert (regs c6 RBX = regs c RBX) as Hrbx.
  { rewrite Hkeep by by_decide. unfold c5. rewrite set_reg_ne by done.
    rewrite Hregs4 by by_decide. unfold c3. rewrite set_reg_ne by done.
    unfold c2. rewrite shuffled_other by by_decide. by apply Hregs1. }
  assert (regs c6 RSP = regs c RSP) as Hrsp by (rewrite Hsp6, Ha; simpl; lia).
  repeat (apply elem_of_cons in Hr' as [->|Hr']; [assumption|]).
  by apply not_elem_of_nil in Hr'.
Qed.

End entry.
