(* ===== verification/SyscallSpec.v ===== *)
(** * What [anon_allocate_syscall] does to the kernel's state. *)

From S2P Require Import Prelude Crates CrateModels Statics Machine Asm FrameSource Mapping Paging.
From S2P Require Import Sched SchedSpec ContextSwitch Pipe Framebuffer Syscall.

Local Open Scope Z_scope.

Section spec.
Context `{BuildProfile} `{Font} `{X86AddrLaws}.
Context {C : Type → Type} `{OnceCellLaws C} {L RW : Type} `{RawLockLaws L, RawRwLockLaws RW}.
Context {MP : Type} `{MapperLaws MP} {FA : Type} `{FrameSourceLaws FA} {Q : Type}.

Abbreviation K := (kstate C L RW MP FA Q).
Implicit Types s : kstate C L RW MP FA Q.

(** The statics, the mapper [h] and the memory; a lock state for each lock. *)
Record call_is (rl : L) (rc : RW) (lm lf : L) (procs : list Process) (cur h : nat)
    (x : MP * FA) (m : memory) s : Prop := {
  ci_sched : sched_is rl procs rc cur (ks_sched s);
  ci_mapper : ks_mappers s !! h = Some (Locked lm x.1);
  ci_frames : cell_is lf x.2 (FRAME_ALLOCATOR s);
  ci_memory : ks_memory s = m;
}.

(** All locks free. *)
Definition call_idle := call_is lock_free rw_free lock_free lock_free.

Lemma sched_lift_cur {A} (f : M (sched C L RW) A) rl rc lm lf procs cur h x m s a rl' procs' rc' cur' :
  call_is rl rc lm lf procs cur h x m s →
  (sched_is rl procs rc cur (ks_sched s) →
   ∃ t, f (ks_sched s) = (Done a, t) ∧ sched_is rl' procs' rc' cur' t) →
  ∃ s', on ks_sched_lens f s = (Done a, s') ∧ call_is rl' rc' lm lf procs' cur' h x m s'.
Proof.
  intros [Hs Hm Hf Hmem] Hf'. destruct (Hf' Hs) as (t & E & Ht).
  eexists. split; [by apply (on_done ks_sched_lens)|]. by split.
Qed.

Lemma sched_lift {A} (f : M (sched C L RW) A) rl rc lm lf procs cur h x m s a rl' procs' rc' :
  call_is rl rc lm lf procs cur h x m s →
  (sched_is rl procs rc cur (ks_sched s) →
   ∃ t, f (ks_sched s) = (Done a, t) ∧ sched_is rl' procs' rc' cur t) →
  ∃ s', on ks_sched_lens f s = (Done a, s') ∧ call_is rl' rc' lm lf procs' cur h x m s'.
Proof. apply sched_lift_cur. Qed.

Lemma sched_read {A} (f : M (sched C L RW) A) rl rc lm lf procs cur h x m s a :
  call_is rl rc lm lf procs cur h x m s →
  (sched_is rl procs rc cur (ks_sched s) → f (ks_sched s) = (Done a, ks_sched s)) →
  on ks_sched_lens f s = (Done a, s).
Proof.
  intros [Hs _ _ _] Hf. rewrite (on_done ks_sched_lens _ _ _ _ (Hf Hs)). by destruct s.
Qed.

Lemma mapper_step_done st raw rl rc lm lf procs cur h x m s :
  call_is rl rc lm lf procs cur h x m s → st lm = Some raw →
  ∃ s', on ks_mappers_lens (mapper_step st h) s = (Done (), s') ∧
        call_is rl rc raw lf procs cur h x m s'.
Proof.
  intros [Hs Hm Hf Hmem] Hst. eexists. split.
  - apply (on_done ks_mappers_lens). unfold mapper_step. rewrite get_bind. simpl.
    rewrite Hm. simpl. by rewrite Hst.
  - split; [done| |done|done]. simpl. by rewrite lookup_insert_eq.
Qed.

Lemma frames_step_done st raw rl rc lm lf procs cur h x m s :
  call_is rl rc lm lf procs cur h x m s → st lf = Some raw →
  ∃ s', on FRAME_ALLOCATOR_lens (static_step st) s = (Done (), s') ∧
        call_is rl rc lm raw procs cur h x m s'.
Proof.
  intros [Hs Hm Hf Hmem] Hst. destruct (static_step_done st lf raw _ _ Hf Hst) as (c & E & Hc).
  eexists. split; [by apply (on_done FRAME_ALLOCATOR_lens)|]. by split.
Qed.

Lemma with_mapper_run {A} (f : M (MP * FA) A) rl rc lm lf procs cur h x m s o x' :
  call_is rl rc lm lf procs cur h x m s → f x = (o, x') →
  ∃ s', with_mapper h f s = (o, s') ∧ call_is rl rc lm lf procs cur h x' m s'.
Proof.
  intros [Hs Hm Hf Hmem] E. destruct x as [mp fa], x' as [mp' fa'].
  unfold with_mapper. rewrite Hm. unfold cell_is in Hf. rewrite Hf. cbn [lk_data lk_raw fst snd] in *.
  rewrite E. eexists. split; [done|]. split; simpl; [done|by rewrite lookup_insert_eq| |done].
  unfold cell_is. by rewrite cell_get_modify, Hf.
Qed.

(** The store through the pointer of the caller. *)
Lemma store_user64_run ptr v rl rc lm lf procs cur h x m s :
  call_is rl rc lm lf procs cur h x m s →
  match store_fault64 ptr x.1 with
  | None => ∃ s', store_user64 h ptr v s = (Done (), s') ∧
      call_is rl rc lm lf procs cur h x (store64 ptr v m) s'
  | Some w => store_user64 h ptr v s = (Panic w, s)
  end.
Proof.
  intros [Hs Hm Hf Hmem]. unfold store_user64, user_access.
  rewrite mbind_assoc, get_bind, Hm. cbn [lk_data].
  destruct (store_fault64 ptr x.1); [done|]. eexists. rewrite mret_bind.
  split; [by apply (on_done ks_memory_lens)|]. by split; [..|simpl; rewrite Hmem].
Qed.

(** Up to the request proper: the list and the index are taken. *)
Lemma anon_start cr3 size ptr procs cur h p start lm lf x m s :
  call_is lock_free rw_free lm lf procs cur h x m s → procs !! cur = Some p →
  pages p = Some start →
  ∃ rl rc s', anon_allocate_syscall cr3 size ptr s = anon_allocate_for cr3 cur p start size ptr s' ∧
    try_acquire rl = None ∧ try_write rc = None ∧ release rl = lock_free ∧
    release_read rc = rw_free ∧ call_is rl rc lm lf procs cur h x m s'.
Proof.
  intros Hs Hp Hpages. destruct try_acquire_free as (rl & Hrl & Hrel).
  destruct try_read_free as (rc & Hrc & Hrelc). unfold anon_allocate_syscall.
  sstep Hs (sched_lift (on PROCESS_LIST_lens static_acquire) _ _ _ _ _ _ _ _ _ _ () _ _ _ Hs
    (λ H, list_step_done try_acquire _ rl _ _ _ _ H Hrl)).
  sstep Hs (sched_lift (on CURRENT_PROCESS_lens static_read) _ _ _ _ _ _ _ _ _ _ () _ _ _ Hs
    (λ H, current_step_done try_read _ _ _ rc _ _ H Hrc)).
  sget (sched_read _ _ _ _ _ _ _ _ _ _ _ procs Hs (list_get_done _ _ _ _ _)).
  sget (sched_read _ _ _ _ _ _ _ _ _ _ _ cur Hs (current_get_done _ _ _ _ _)).
  unfold vec_index. rewrite Hp, expect_some, liftO_done_bind.
  rewrite Hpages, expect_some, liftO_done_bind.
  exists rl, rc. eexists. split; [reflexivity|]. split; [by eapply try_acquire_excl|].
  split; [by eapply try_read_excl|]. split; [exact Hrel|]. split; [exact Hrelc|exact Hs].
Qed.

(** A lock that is held cannot be waited for. *)
Lemma mapper_step_hangs st rl rc lm lf procs cur h x m s :
  call_is rl rc lm lf procs cur h x m s → st lm = None →
  ∃ s', on ks_mappers_lens (mapper_step st h) s = (Hang, s') ∧
        call_is rl rc lm lf procs cur h x m s'.
Proof.
  intros [Hs Hm Hf Hmem] Hst. eexists. split.
  - unfold on, zoom, mapper_step. rewrite get_bind. simpl. rewrite Hm. simpl. rewrite Hst.
    reflexivity.
  - by split.
Qed.

(** ** The loop with [unwrap] *)

Lemma map_user_pages l (x x' : MP * FA) r :
  map_page_range USER_PAGE l x = (Done r, x') →
  match r with
  | ROk _ => for_each map_user_page l x = (Done (), x')
  | RErr _ => ∃ w, for_each map_user_page l x = (Panic w, x')
  end.
Proof.
  revert x. unfold map_page_range. induction l as [|p l IH]; intros x E; cbn [for_each_try for_each] in *.
  { by injection E as <- <-. }
  apply mbind_inv_done in E as (r1 & x1 & E1 & E).
  unfold map_new_page in E1. apply mbind_inv_done in E1 as (o & x2 & E2 & E1).
  assert (on snd_lens allocate_frame x = (Done o, x2)) as E2' by exact E2.
  assert (match r1 with
          | ROk _ => map_user_page p x = (Done (), x1)
          | RErr _ => ∃ w, map_user_page p x = (Panic w, x1)
          end) as Hp.
  { unfold map_user_page. destruct o as [f|].
    - destruct r1; [|eexists]; rewrite (mbind_done _ _ _ _ _ E2'), expect_some, liftO_done_bind,
        (mbind_done _ _ _ _ _ E1); reflexivity.
    - injection E1 as <- <-. eexists.
      by rewrite (mbind_done _ _ _ _ _ E2'), expect_none, liftO_panic_bind. }
  destruct r1 as [[]|e].
  - specialize (IH x1 E). destruct r; by rewrite (mbind_done _ _ _ _ _ Hp).
  - injection E as <- <-. destruct Hp as [w Hp]. exists w. by apply mbind_panic.
Qed.

(** ** The range of pages *)

Definition anon_pages (start size : Z) : list Z :=
  (λ i, start + page_size * i) <$> seqZ 0 (round_up size page_size / page_size).

Lemma last_page start size :
  (page_size | start) →
  round_down (start + size - 1) page_size = start + round_up size page_size - page_size.
Proof.
  intros [q ->]. unfold round_down, round_up, page_size.
  replace (q * 4096 + size - 1) with (size - 1 + q * 4096) by lia.
  replace (size + 4096 - 1) with (size - 1 + 1 * 4096) by lia.
  rewrite !Z.div_add by lia. lia.
Qed.

Lemma anon_range_done start size :
  (page_size | start) → 0 < start → 0 ≤ size → start + size < 2 ^ 47 →
  ∃ range, anon_range start size = Done range ∧
    Page_range_inclusive range.1 range.2 = anon_pages start size ∧
    PageRangeInclusive_size range.1 range.2 = round_up size page_size.
Proof.
  intros Hal Hpos Hsz Hend. unfold anon_range.
  assert (∀ a, 0 ≤ a < 2 ^ 47 → in_u64 a ∧ canonical a) as Hlow
    by (intros a ?; unfold in_u64, canonical; lia).
  rewrite VirtAddr_new_canonical, done_bind by (apply Hlow; lia).
  rewrite VirtAddr_add_canonical, done_bind by (apply Hlow || lia; lia).
  rewrite VirtAddr_sub_canonical, done_bind by (apply Hlow || lia; (lia || by_decide)).
  rewrite !Page_containing_address_spec by (apply Hlow; lia).
  rewrite (round_down_id start), last_page by (done || unfold page_size; lia).
  pose proof (round_up_ge size page_size ltac:(done)). pose proof (round_up_lt size page_size ltac:(done)).
  destruct (round_up_divide size page_size) as [k Hk].
  set (e := start + round_up size page_size - page_size).
  assert (page_size | e) as Hde.
  { unfold e. rewrite Hk. destruct Hal as [q ->]. exists (q + k - 1). lia. }
  assert (0 ≤ e) as He.
  { unfold e, page_size in *. destruct Hal as [q ->]. lia. }
  assert (e < 2 ^ 47) as He' by (unfold e; lia).
  eexists. split; [done|]. cbn [fst snd]. split.
  - rewrite Page_range_inclusive_spec; [|apply Hlow; lia|apply Hlow; lia|done|done|by left].
    unfold anon_pages. f_equal. f_equal. unfold e.
    replace (start + round_up size page_size - page_size - start)
      with (round_up size page_size + (-1) * page_size) by lia.
    rewrite Z.div_add by done. lia.
  - rewrite PageRangeInclusive_size_spec; [|apply Hlow; lia|apply Hlow; lia|done|done|by left].
    unfold e. lia.
Qed.

Lemma anon_pages_nodup start size : NoDup (anon_pages start size).
Proof. apply NoDup_fmap_2; [|apply NoDup_seqZ]. unfold page_size. intros i j ?. lia. Qed.

End spec.
