(* ===== verification/SyscallSafety.v ===== *)
(** * What the system calls guarantee to a process, and what a process can do with them. *)

From S2P Require Import Prelude Crates CrateModels Statics Machine Asm FrameSource Mapping.
From S2P Require Import MapperModel Paging Sched SchedSpec ContextSwitch Pipe.
From S2P Require Import Framebuffer FramebufferSpec Screen Syscall Utf8 SyscallEntry SyscallSpec.

Local Open Scope Z_scope.

Section requests.
Context `{BuildProfile} `{Font} `{X86AddrLaws}.
Context {C : Type → Type} `{OnceCellLaws C} {L RW : Type} `{RawLockLaws L, RawRwLockLaws RW}.
Context {MP : Type} `{MapperLaws MP} {FA : Type} `{FrameSourceLaws FA} {Q : Type} `{ArrayQueueApi Q}.

Implicit Types s : kstate C L RW MP FA Q.
Implicit Types x : MP * FA.

(** The current process [cur] owns the mapper [h], and its next free page is at [start]. *)
Definition process_is (procs : list Process) (cur h : nat) (start : Z) : Prop :=
  ∃ p, procs !! cur = Some p ∧ pages p = Some start ∧ mapper p = Some h.

(** A request of [size] bytes that stays in the lower half of the address space. *)
Definition request_ok (start size : Z) : Prop :=
  (page_size | start) ∧ 0 < start ∧ 0 ≤ size ∧ start + size < 2 ^ 47.

(** After the call: every lock the call took is taken for ever, so that no process is ever
    scheduled again and no memory is ever mapped again. *)
Definition all_held (rl : L) (rc : RW) (lm lf : L) : Prop :=
  try_acquire rl = None ∧ try_write rc = None ∧ try_acquire lm = None ∧ try_acquire lf = None.

(** The locks of the scheduler alone are taken for ever. *)
Definition scheduler_held (rl : L) (rc : RW) : Prop :=
  try_acquire rl = None ∧ try_write rc = None.

(** The part of the call that takes the locks and computes the range. *)
Lemma anon_prefix size ptr procs cur h start x s :
  call_idle procs cur h x (ks_memory s) s → process_is procs cur h start →
  request_ok start size →
  ∃ rl rc lm lf range s', all_held rl rc lm lf ∧ release rl = lock_free ∧
    release_read rc = rw_free ∧ release lm = lock_free ∧ release lf = lock_free ∧
    call_is rl rc lm lf procs cur h x (ks_memory s) s' ∧
    Page_range_inclusive range.1 range.2 = anon_pages start size ∧
    PageRangeInclusive_size range.1 range.2 = round_up size page_size ∧
    anon_allocate_syscall h size ptr s =
     (with_mapper h (for_each map_user_page (anon_pages start size));;
      on FRAME_ALLOCATOR_lens static_release;;
      on ks_mappers_lens (mapper_step (λ l, Some (release l)) h);;
      store_user64 h ptr start;;
      next ← liftO (add64 start (round_up size page_size));
      on ks_sched_lens (update_process cur (set_pages (Some next)));;
      on ks_sched_lens (on CURRENT_PROCESS_lens static_unread);;
      on ks_sched_lens (on PROCESS_LIST_lens static_release)) s'.
Proof.
  intros Hs (p & Hp & Hpages & Hmapper) (Hal & Hpos & Hsz & Hend).
  destruct (anon_start h size ptr procs cur h p start _ _ _ _ _ Hs Hp Hpages)
    as (rl & rc & s1 & -> & Hrl & Hrc & Hrel & Hrelc & Hs1).
  destruct try_acquire_free as (lk & Hlk & Hlrel).
  destruct (anon_range_done start size Hal Hpos Hsz Hend) as (range & Er & Epages & Esize).
  unfold anon_allocate_for. rewrite Er, liftO_done_bind, Hmapper, expect_some, liftO_done_bind.
  sstep Hs1 (mapper_step_done try_acquire lk _ _ _ _ _ _ _ _ _ _ Hs1 Hlk).
  sstep Hs1 (frames_step_done try_acquire lk _ _ _ _ _ _ _ _ _ _ Hs1 Hlk).
  rewrite Epages, Esize. exists rl, rc, lk, lk, range. eexists.
  split; [split; [exact Hrl|split; [exact Hrc|split; by eapply try_acquire_excl]]|].
  split; [exact Hrel|]. split; [exact Hrelc|]. split; [exact Hlrel|]. split; [exact Hlrel|].
  split; [exact Hs1|]. split; [exact Epages|]. split; [exact Esize|]. reflexivity.
Qed.

(** The rest of the call once the pages are mapped. *)
Lemma anon_suffix size ptr procs cur h start rl rc lm lf x m s :
  call_is rl rc lm lf procs cur h x m s → process_is procs cur h start →
  request_ok start size →
  release rl = lock_free → release_read rc = rw_free →
  release lm = lock_free → release lf = lock_free →
  ∃ o s', (on FRAME_ALLOCATOR_lens static_release;;
      on ks_mappers_lens (mapper_step (λ l, Some (release l)) h);;
      store_user64 h ptr start;;
      next ← liftO (add64 start (round_up size page_size));
      on ks_sched_lens (update_process cur (set_pages (Some next)));;
      on ks_sched_lens (on CURRENT_PROCESS_lens static_unread);;
      on ks_sched_lens (on PROCESS_LIST_lens static_release)) s = (o, s') ∧
    match store_fault64 ptr x.1 with
    | None => o = Done () ∧
        call_idle (alter (set_pages (Some (start + round_up size page_size))) cur procs) cur h x
          (store64 ptr start m) s'
    | Some w => o = Panic w ∧ call_is rl rc lock_free lock_free procs cur h x m s'
    end.
Proof.
  intros Hs (p & Hp & _) (Hal & Hpos & Hsz & Hend) Hrl Hrc Hlm Hlf.
  pose proof (round_up_lt size page_size ltac:(done)). unfold page_size in *.
  sstep Hs (frames_step_done (λ l, Some (release l)) _ _ _ _ _ _ _ _ _ _ _ Hs eq_refl).
  sstep Hs (mapper_step_done (λ l, Some (release l)) _ _ _ _ _ _ _ _ _ _ _ Hs eq_refl).
  pose proof (store_user64_run ptr start _ _ _ _ _ _ _ _ _ _ Hs) as Hstore.
  destruct (store_fault64 ptr x.1) as [w|].
  { rewrite (mbind_panic _ _ _ _ _ Hstore). eexists _, _. split; [reflexivity|].
    split; [reflexivity|]. rewrite Hlm, Hlf in Hs. exact Hs. }
  sstep Hs Hstore. rewrite (add64_done start), liftO_done_bind by lia.
  sstep Hs (sched_lift (update_process cur _) _ _ _ _ _ _ _ _ _ _ () _ _ _ Hs
    (λ H, update_process_done cur (set_pages (Some (start + round_up size 4096))) p
      _ _ _ _ _ H Hp)).
  sstep Hs (sched_lift (on CURRENT_PROCESS_lens static_unread) _ _ _ _ _ _ _ _ _ _ () _ _ _ Hs
    (λ H, current_step_done (λ l, Some (release_read l)) _ _ _ (release_read rc) _ _ H eq_refl)).
  destruct (sched_lift (on PROCESS_LIST_lens static_release) _ _ _ _ _ _ _ _ _ _ () _ _ _ Hs
    (λ H, list_step_done (λ l, Some (release l)) _ (release rl) _ _ _ _ H eq_refl))
    as (s' & E & Hs').
  exists (Done ()), s'. split; [exact E|]. split; [reflexivity|].
  rewrite Hrl, Hrc, Hlm, Hlf in Hs'. exact Hs'.
Qed.

(** A successful loop makes a successful call; a failing one makes the kernel panic. *)
Lemma anon_allocate_run size ptr procs cur h start x s r x' :
  call_idle procs cur h x (ks_memory s) s → process_is procs cur h start →
  request_ok start size →
  map_page_range USER_PAGE (anon_pages start size) x = (Done r, x') →
  match r with
  | ROk _ =>
      match store_fault64 ptr x'.1 with
      | None => ∃ s', anon_allocate_syscall h size ptr s = (Done (), s') ∧
          call_idle (alter (set_pages (Some (start + round_up size page_size))) cur procs) cur h x'
            (store64 ptr start (ks_memory s)) s'
      | Some w => ∃ s' rl rc, anon_allocate_syscall h size ptr s = (Panic w, s') ∧
          call_is rl rc lock_free lock_free procs cur h x' (ks_memory s) s' ∧
          scheduler_held rl rc
      end
  | RErr _ => ∃ w s' rl rc lm lf, anon_allocate_syscall h size ptr s = (Panic w, s') ∧
      call_is rl rc lm lf procs cur h x' (ks_memory s) s' ∧ all_held rl rc lm lf
  end.
Proof.
  intros Hs Hp Hreq Hmap.
  destruct (anon_prefix size ptr procs cur h start x s Hs Hp Hreq)
    as (rl & rc & lm & lf & range & s1 & Hheld & Hrl & Hrc & Hlm & Hlf & Hs1 & _ & _ & E).
  pose proof (map_user_pages _ _ _ _ Hmap) as Hloop. destruct r as [[]|e].
  - destruct (with_mapper_run _ _ _ _ _ _ _ _ _ _ _ _ _ Hs1 Hloop) as (s2 & E2 & Hs2).
    rewrite (mbind_done _ _ _ _ _ E2) in E.
    destruct (anon_suffix size ptr procs cur h start rl rc lm lf x' (ks_memory s) s2)
      as (o & s' & E3 & Hs'); [assumption..|].
    destruct (store_fault64 ptr x'.1) as [w|]; destruct Hs' as [-> Hs'].
    + exists s', rl, rc. split; [by rewrite E, E3|]. split; [exact Hs'|].
      by destruct Hheld as (? & ? & _).
    + exists s'. split; [by rewrite E, E3|exact Hs'].
  - destruct Hloop as [w Hloop].
    destruct (with_mapper_run _ _ _ _ _ _ _ _ _ _ _ _ _ Hs1 Hloop) as (s2 & E2 & Hs2).
    exists w, s2, rl, rc, lm, lf. split; [|by split].
    rewrite E. by apply mbind_panic.
Qed.

(** ** Memory *)

(** C7: an allocation either gives the process a new block or stops the kernel.  The block
    starts where the last one ended and covers the size rounded up to pages; each of its pages
    was unmapped and is now mapped, writable and open to user mode, to a frame of its own that
    nobody else holds; the address is stored through the pointer, nothing else in memory
    changes, and every lock is free again.  If a page cannot be mapped the kernel panics with
    the locks of the scheduler, the page tables and the frames all taken.  If the pages are
    mapped but the process's pointer cannot be written through, the kernel panics too, with the
    locks of the scheduler taken, and the process is not given the pages. *)
Theorem anon_allocate_cases size ptr procs cur h start x s :
  call_idle procs cur h x (ks_memory s) s → process_is procs cur h start →
  request_ok start size → fs_ok x.2 → tables_safe x →
  ∃ x', mapping_kept x x' ∧
  ((∃ s' frames, anon_allocate_syscall h size ptr s = (Done (), s') ∧
      store_fault64 ptr x'.1 = None ∧
      call_idle (alter (set_pages (Some (start + round_up size page_size))) cur procs) cur h x'
        (store64 ptr start (ks_memory s)) s' ∧ load64 (ks_memory s') ptr = start ∧
      Forall (λ p, mapped x.1 !! p = None) (anon_pages start size) ∧
      pages_mapped USER_PAGE (anon_pages start size) frames x x') ∨
   (∃ w s' rl rc frames, anon_allocate_syscall h size ptr s = (Panic w, s') ∧
      store_fault64 ptr x'.1 = Some w ∧
      call_is rl rc lock_free lock_free procs cur h x' (ks_memory s) s' ∧ scheduler_held rl rc ∧
      pages_mapped USER_PAGE (anon_pages start size) frames x x') ∨
   (∃ w s' rl rc lm lf e page, anon_allocate_syscall h size ptr s = (Panic w, s') ∧
      call_is rl rc lm lf procs cur h x' (ks_memory s) s' ∧ all_held rl rc lm lf ∧
      page ∈ anon_pages start size ∧ error_cause e page x x')).
Proof.
  intros Hs Hp Hreq Hok Hsafe.
  destruct (map_page_range_spec USER_PAGE (anon_pages start size) x (anon_pages_nodup _ _) Hok
    Hsafe) as (r & x' & E & Hkept & Hr).
  pose proof (anon_allocate_run size ptr procs cur h start x s r x' Hs Hp Hreq E) as Hrun.
  exists x'. split; [exact Hkept|]. destruct r as [[]|e].
  - destruct Hr as (Hfree & frames & Hpm).
    destruct (store_fault64 ptr x'.1) as [w|] eqn:Hfault.
    { right; left. destruct Hrun as (s' & rl & rc & Erun & Hs' & Hheld).
      exists w, s', rl, rc, frames. by split_and!. }
    left. destruct Hrun as (s' & Erun & Hs').
    exists s', frames. split; [exact Erun|]. split; [reflexivity|]. split; [exact Hs'|]. split; [|by split].
    destruct Hs' as [_ _ _ ->]. destruct Hreq as (_ & ? & ? & ?). apply load_store_word; lia.
  - right; right. destruct Hrun as (w & s' & rl & rc & lm & lf & Erun & Hs' & Hheld).
    destruct Hr as (ps & page & ps' & _ & _ & Heq & _ & _ & _ & _ & _ & He).
    exists w, s', rl, rc, lm, lf, e, page. split; [exact Erun|]. split; [exact Hs'|].
    split; [exact Hheld|]. split; [rewrite Heq; set_solver|exact He].
Qed.

Lemma anon_allocate_done_inv size ptr procs cur h start x s s' :
  call_idle procs cur h x (ks_memory s) s → process_is procs cur h start →
  request_ok start size → fs_ok x.2 → tables_safe x →
  anon_allocate_syscall h size ptr s = (Done (), s') →
  ∃ x' frames, mapping_kept x x' ∧
    call_idle (alter (set_pages (Some (start + round_up size page_size))) cur procs) cur h x'
      (store64 ptr start (ks_memory s)) s' ∧
    pages_mapped USER_PAGE (anon_pages start size) frames x x'.
Proof.
  intros Hs Hp Hreq Hok Hsafe Erun.
  destruct (map_page_range_spec USER_PAGE (anon_pages start size) x (anon_pages_nodup _ _) Hok
    Hsafe) as (r & x' & E & Hkept & Hr).
  pose proof (anon_allocate_run size ptr procs cur h start x s r x' Hs Hp Hreq E) as Hrun.
  destruct r as [[]|e].
  - destruct (store_fault64 ptr x'.1) as [w|];
      [destruct Hrun as (s1 & ? & ? & E1 & _); by rewrite Erun in E1|].
    destruct Hrun as (s1 & E1 & Hs'). rewrite Erun in E1. injection E1 as <-.
    destruct Hr as (_ & frames & Hpm). by exists x', frames.
  - destruct Hrun as (w & s1 & ? & ? & ? & ? & E1 & _). by rewrite Erun in E1.
Qed.

Lemma anon_pages_bound start size p :
  p ∈ anon_pages start size → start ≤ p < start + round_up size page_size.
Proof.
  unfold anon_pages. intros (i & -> & Hi)%list_elem_of_fmap. apply elem_of_seqZ in Hi.
  destruct (round_up_divide size page_size) as [k Hk]. rewrite Hk in *.
  rewrite Z.div_mul in Hi by done. unfold page_size in *. nia.
Qed.

(** C9: two allocations of a process never share anything: the blocks are disjoint, so are
    the frames behind them, and after the second allocation every page of either block is
    mapped to its own frame. *)
Theorem allocations_disjoint size1 ptr1 size2 ptr2 procs cur h start x s s1 s2 :
  let start2 := start + round_up size1 page_size in
  let pages1 := anon_pages start size1 in
  let pages2 := anon_pages start2 size2 in
  call_idle procs cur h x (ks_memory s) s → process_is procs cur h start →
  request_ok start size1 → request_ok start2 size2 → fs_ok x.2 → tables_safe x →
  anon_allocate_syscall h size1 ptr1 s = (Done (), s1) →
  anon_allocate_syscall h size2 ptr2 s1 = (Done (), s2) →
  ∃ x' frames, NoDup (pages1 ++ pages2) ∧ NoDup frames ∧
    ks_mappers s2 !! h = Some (Locked lock_free x'.1) ∧
    ks_memory s2 = store64 ptr2 start2 (store64 ptr1 start (ks_memory s)) ∧
    ∀ i p, (pages1 ++ pages2) !! i = Some p →
      ∃ f, frames !! i = Some f ∧ mapped x'.1 !! p = Some (f, USER_PAGE).
Proof.
  intros start2 pages1 pages2 Hs Hp Hreq1 Hreq2 Hok Hsafe E1 E2.
  destruct (anon_allocate_done_inv size1 ptr1 procs cur h start x s s1)
    as (x1 & fs1 & Hkept1 & Hs1 & Hpm1); [assumption..|].
  pose proof (ci_memory _ _ _ _ _ _ _ _ _ _ Hs1) as Hm1. rewrite <-Hm1 in Hs1.
  destruct (anon_allocate_done_inv size2 ptr2 (alter (set_pages (Some start2)) cur procs) cur h
    start2 x1 s1 s2) as (x2 & fs2 & Hkept2 & Hs2 & Hpm2).
  { exact Hs1. }
  { destruct Hp as (p & Hp & _ & Hmap). exists (set_pages (Some start2) p).
    by rewrite list_lookup_alter_eq, Hp. }
  { exact Hreq2. }
  { apply Hkept1. }
  { by eapply mapping_kept_safe. }
  { exact E2. }
  exists x2, (fs1 ++ fs2).
  assert (∀ p, p ∈ pages1 → p ∉ pages2) as Hdisj.
  { intros p Hp1%anon_pages_bound Hp2%anon_pages_bound. unfold start2 in *. lia. }
  pose proof Hpm1 as (Hlen1 & Hnd1 & Hf1 & _).
  pose proof Hpm2 as (Hlen2 & Hnd2 & Hf2 & _).
  split; [apply NoDup_app; split;
    [apply anon_pages_nodup|split; [exact Hdisj|apply anon_pages_nodup]]|].
  split; [apply NoDup_app; split; [exact Hnd1|split; [|exact Hnd2]]|].
  { intros f Hin1 Hin2. destruct (Hf1 f Hin1) as (_ & _ & Ht & _).
    by destruct (Hf2 f Hin2) as (_ & Hn & _). }
  split; [apply (ci_mapper _ _ _ _ _ _ _ _ _ _ Hs2)|].
  split; [by rewrite (ci_memory _ _ _ _ _ _ _ _ _ _ Hs2), Hm1|].
  intros i p [Hi|[Hge Hi]]%lookup_app_Some.
  - destruct (pages_mapped_lookup USER_PAGE pages1 fs1 x x1 i p (anon_pages_nodup _ _))
      as (f & Hf & Hmap); [exact Hpm1|exact Hi|].
    exists f. split; [by apply lookup_app_l_Some|].
    rewrite (mapped_other _ _ _ _ _ p Hpm2); [done|].
    by eapply Hdisj, list_elem_of_lookup_2.
  - destruct (pages_mapped_lookup USER_PAGE pages2 fs2 x1 x2 _ p (anon_pages_nodup _ _) Hpm2 Hi)
      as (f & Hf & Hmap).
    exists f. split; [|exact Hmap].
    rewrite lookup_app_r by (rewrite Hlen1; exact Hge). rewrite Hlen1. exact Hf.
Qed.

(** C30: a process can stop the machine: a request whose end overflows or is not a canonical
    address makes the kernel panic, and with the process list and the current index taken, so that
    neither the scheduler nor anything else that needs the list ever runs again. *)
Theorem oversized_request_panics cr3 size ptr procs cur h start x s :
  call_idle procs cur h x (ks_memory s) s → process_is procs cur h start →
  0 ≤ start < 2 ^ 47 → in_u64 size → 2 ^ 64 ≤ start + size ∨ ¬ canonical (start + size) →
  ∃ w s' rl rc, anon_allocate_syscall cr3 size ptr s = (Panic w, s') ∧
    call_is rl rc lock_free lock_free procs cur h x (ks_memory s) s' ∧
    try_acquire rl = None ∧ try_write rc = None ∧
    ∀ rsp1 q, schedule rsp1 (ks_sched s') = (Hang, ks_sched s') ∧
      push_process q (ks_sched s') = (Hang, ks_sched s') ∧
      mark_current_as_dead (ks_sched s') = (Hang, ks_sched s').
Proof.
  intros Hs (p & Hp & Hpages & _) Hst Hsz Hend.
  destruct (anon_start cr3 size ptr procs cur h p start _ _ _ _ _ Hs Hp Hpages)
    as (rl & rc & s1 & -> & Hrl & Hrc & _ & _ & Hs1).
  unfold anon_allocate_for, anon_range.
  rewrite VirtAddr_new_canonical, done_bind by (unfold in_u64, canonical; lia).
  destruct (VirtAddr_add_panics start size) as [w Hw];
    [unfold in_u64; lia|exact Hsz|exact Hend|].
  rewrite Hw. exists w, s1, rl, rc. split; [reflexivity|]. split; [exact Hs1|].
  split; [exact Hrl|]. split; [exact Hrc|]. intros rsp1 q.
  pose proof (ci_sched _ _ _ _ _ _ _ _ _ _ Hs1) as Hsched.
  split; [|split]; apply mbind_hang;
    [eapply current_step_hangs|eapply list_step_hangs..]; (exact Hsched || assumption).
Qed.

End requests.

(** ** Text *)

Section output.
Context `{BuildProfile} `{FontLaws}.
Context {C : Type → Type} `{OnceCellLaws C} {L RW : Type} `{RawLockLaws L}.
Context {MP : Type} `{Mapper MP} {FA Q : Type}.

Implicit Types s : kstate C L RW MP FA Q.





End output.

(** ** A small kernel *)

#[local] Existing Instance debug_profile.
#[local] Existing Instance num_addr.
#[local] Existing Instance option_cell.
#[local] Existing Instance bit_lock.
#[local] Existing Instance count_rw_lock.
#[local] Existing Instance list_array_queue.
#[local] Existing Instance bar_font.
#[local] Existing Instance simple_mapper.
#[local] Existing Instance counter_allocator.
#[local] Existing Instance counter_source.

(** One user process with pages at 0x1000 and 0x3000, whose next page is at 4 MiB, eight
    frames, an empty screen, and the text "Hi" at 0x3000. *)
Definition one_user : list Process :=
  [mkProcess 2 RUNNING 0x1fc008 None (Some 7%nat) (Some 0x400000)].
Definition user_space : table_mapper * counter := 
  (mkTables 0 [] {[0x1000 := (0x50000, USER_PAGE); 0x3000 := (0x51000, USER_PAGE)]},
   mkCounter 0x100000 8 0).
Definition hi_memory : memory := store_bytes 0x3000 [72; 105] (λ _, 0).
Definition small_kernel : kstate option bool (option nat) table_mapper counter list_queue :=
  mkState (mkSched (Some (Locked false one_user)) (Some (Locked (Some 0%nat) 0%nat)))
          (Some (Locked false user_space.2)) {[7%nat := Locked false user_space.1]}
          (Some (mkPipe (ListQueue [] 64))) (Some (Locked false (small_writer Bgr))) hi_memory.

Lemma small_kernel_idle : call_idle one_user 0 7 user_space hi_memory small_kernel.
Proof. by repeat split. Qed.

Lemma small_kernel_process : process_is one_user 0 7 0x400000.
Proof. by eexists. Qed.

Lemma user_space_safe : tables_safe user_space.
Proof. intros f Hf. simpl in Hf. set_solver. Qed.

Lemma user_space_ok : fs_ok user_space.2.
Proof. simpl. lia. Qed.

Lemma anon_allocate_cases_witness :
  ∃ s', anon_allocate_syscall 7 5000 0x1000 small_kernel = (Done (), s') ∧
    load64 (ks_memory s') 0x1000 = 0x400000.
Proof.
  destruct (@anon_allocate_cases debug_profile num_addr num_addr_laws option _ option_cell_laws
    bool _ _ bit_lock_laws _ count_rw_lock_laws table_mapper _ simple_mapper_laws counter _ _
    counter_source_laws list_queue 5000 0x1000 one_user 0 7 0x400000 user_space small_kernel)
    as (x' & _ & [(s' & frames & E & _ & _ & Hl & _)|
      [(w & s' & ? & ? & ? & E & _)|(w & s' & ? & ? & ? & ? & ? & ? & E & _)]]).
  - exact small_kernel_idle.
  - exact small_kernel_process.
  - split; [by_decide|split; [done|split; by_decide]].
  - exact user_space_ok.
  - exact user_space_safe.
  - exists s'. split; [exact E|exact Hl].
  - assert ((anon_allocate_syscall 7 5000 0x1000 small_kernel).1 = Done ()) as Hd by by vm_compute.
    rewrite E in Hd. discriminate.
  - assert ((anon_allocate_syscall 7 5000 0x1000 small_kernel).1 = Done ()) as Hd by by vm_compute.
    rewrite E in Hd. discriminate.
Defined.

Lemma allocations_disjoint_witness :
  ∃ s1 s2, anon_allocate_syscall 7 5000 0x1000 small_kernel = (Done (), s1) ∧
    anon_allocate_syscall 7 1 0x1008 s1 = (Done (), s2) ∧
    ks_memory s2 = store64 0x1008 0x402000 (store64 0x1000 0x400000 hi_memory).
Proof.
  destruct (anon_allocate_syscall 7 5000 0x1000 small_kernel) as [o1 s1] eqn:E1.
  assert (o1 = Done ()) as ->.
  { transitivity (anon_allocate_syscall 7 5000 0x1000 small_kernel).1; [by rewrite E1|].
    by vm_compute. }
  destruct (anon_allocate_syscall 7 1 0x1008 s1) as [o2 s2] eqn:E2.
  assert (o2 = Done ()) as ->.
  { transitivity (anon_allocate_syscall 7 1 0x1008
      (anon_allocate_syscall 7 5000 0x1000 small_kernel).2).1; [by rewrite E1; simpl; rewrite E2|].
    by vm_compute. }
  destruct (@allocations_disjoint debug_profile num_addr num_addr_laws option _ option_cell_laws
    bool _ _ bit_lock_laws _ count_rw_lock_laws table_mapper _ simple_mapper_laws counter _ _
    counter_source_laws list_queue 5000 0x1000 1 0x1008 one_user 0 7 0x400000 user_space
    small_kernel s1 s2) as (x' & frames & _ & _ & _ & Hm & _).
  - exact small_kernel_idle.
  - exact small_kernel_process.
  - split; [by_decide|split; [done|split; by_decide]].
  - split; [by_decide|split; [done|split; by_decide]].
  - exact user_space_ok.
  - exact user_space_safe.
  - exact E1.
  - exact E2.
  - exists s1, s2. split; [reflexivity|]. split; [exact E2|]. exact Hm.
Defined.

Lemma oversized_request_panics_witness :
  ∃ w s', anon_allocate_syscall 7 (2 ^ 47) 0x1000 small_kernel = (Panic w, s') ∧
    schedule 0x5000 (ks_sched s') = (Hang, ks_sched s').
Proof.
  destruct (@oversized_request_panics debug_profile num_addr num_addr_laws option _
    option_cell_laws bool _ _ bit_lock_laws _ count_rw_lock_laws table_mapper _ counter _
    list_queue 7 (2 ^ 47) 0x1000 one_user 0 7 0x400000 user_space small_kernel)
    as (w & s' & rl & rc & E & _ & _ & _ & Hsch).
  - exact small_kernel_idle.
  - exact small_kernel_process.
  - lia.
  - unfold in_u64. lia.
  - right. unfold canonical. lia.
  - exists w, s'. split; [exact E|]. apply (Hsch 0x5000 (mkProcess 0 READY 0 None None None)).
Defined.


(** A process that reads from descriptor 5. *)
Definition caller_cpu : cpu :=
  mkCpu (λ r, if decide (r = RSP) then 0x9000 else if decide (r = RAX) then 0 else 5)
        0x401000 0x33 0x202 0x2b.

Lemma syscall_entry_convention_witness :
  ∃ c' m' k', run (syscall_entry 0x8000 0x33 0x2b id (syscall_rust 7 [] (λ _, [])))
      (caller_cpu, hi_memory, small_kernel) = (Done (), (c', m', k')) ∧
    regs c' RSP = 0x9000 ∧ rip c' = 5 ∧ regs c' RAX = 5.
Proof.
  destruct (@syscall_entry_convention option bool (option nat) table_mapper counter list_queue 0x800
    0x8000 0x33 0x2b id (syscall_rust 7 [] (λ _, [])) caller_cpu hi_memory small_kernel 0x9000)
    as (m1 & m2 & c' & m' & k' & _ & _ & _ & E & Hregs & Hrip & _ & _ & _ & Hrax).
  - done.
  - split; [|split; [by_decide|split; [by_decide|split; by_decide]]].
    intros r. simpl. repeat case_decide; by_decide.
  - by_decide.
  - done.
  - reflexivity.
  - by_decide.
  - intros m1 _. eexists m1, _. split; [reflexivity|reflexivity].
  - exists c', m', k'. split; [exact E|]. split; [apply Hregs; by_decide|].
    split; [exact Hrip|exact Hrax].
Defined.
