(* ===== verification/Elf.v ===== *)
(** * ELF images in memory: kernel/src/elf.rs.

    Both structures are [repr(C, packed)]: the fields lie one after the other. *)

From S2P Require Import Prelude Machine.

Local Open Scope Z_scope.

Record Header := mkHeader {
  e_ident : list Z;
  e_type : Z;
  e_machine : Z;
  e_version : Z;
  e_entry : Z;
  e_phoff : Z;
  e_shoff : Z;
  e_flags : Z;
  e_ehsize : Z;
  e_phentsize : Z;
  e_phnum : Z;
  e_shentsize : Z;
  e_shnum : Z;
  e_shstrndx : Z;
}.

Record Program := mkProgram {
  p_type : Z;
  p_flags : Z;
  p_offset : Z;
  p_vaddr : Z;
  p_paddr : Z;
  p_filesz : Z;
  p_memsz : Z;
  p_align : Z;
}.

(** [*(a as *const Header)] and [*(a as *const Program)]. *)
Definition Header_at (m : memory) (a : Z) : Header := {|
  e_ident := load_bytes m a 16;
  e_type := load_word 2 m (a + 16);
  e_machine := load_word 2 m (a + 18);
  e_version := load_word 4 m (a + 20);
  e_entry := load_word 8 m (a + 24);
  e_phoff := load_word 8 m (a + 32);
  e_shoff := load_word 8 m (a + 40);
  e_flags := load_word 4 m (a + 48);
  e_ehsize := load_word 2 m (a + 52);
  e_phentsize := load_word 2 m (a + 54);
  e_phnum := load_word 2 m (a + 56);
  e_shentsize := load_word 2 m (a + 58);
  e_shnum := load_word 2 m (a + 60);
  e_shstrndx := load_word 2 m (a + 62);
|}.

Definition Program_at (m : memory) (a : Z) : Program := {|
  p_type := load_word 4 m a;
  p_flags := load_word 4 m (a + 4);
  p_offset := load_word 8 m (a + 8);
  p_vaddr := load_word 8 m (a + 16);
  p_paddr := load_word 8 m (a + 24);
  p_filesz := load_word 8 m (a + 32);
  p_memsz := load_word 8 m (a + 40);
  p_align := load_word 8 m (a + 48);
|}.

(** [size_of::<Program>()] *)
Definition Program_size : Z := 56.
