(* ===== verification/Loader.v ===== *)
(** * The program loader: [add_user_process] (kernel/src/sched.rs).

    The loader works on the address space that is in use: memory is seen through the page
    tables, and an access to a page that is not present is a page fault, which panics
    (kernel/src/int.rs).  What a page shows when it is first mapped is arbitrary. *)

From S2P Require Import Prelude Crates Statics Machine FrameSource Mapping Sched Elf.
From S2P Require Import ContextSwitch Pipe Framebuffer Syscall.

Local Open Scope Z_scope.

Section loader.
Context `{BuildProfile} `{X86Addr} `{X86Segment}.
Context {C : Type → Type} `{OnceCell C} {L RW : Type} `{RawLock L, RawRwLock RW}.
Context {MP : Type} `{Mapper MP} {FA : Type} `{FrameAllocator FA} {Q : Type}.

Abbreviation K := (kstate C L RW MP FA Q).

(** ** Memory behind the page tables *)

Definition space : Type := MP * FA * memory.

Definition byte_present (x : MP) (a : Z) : bool := page_present x (round_down a page_size).

(** An access to [n] bytes at [a]. *)
Definition access (a n : Z) : M space () :=
  s ← get_state;
  if forallb (λ i, byte_present s.1.1 (a + i)) (seqZ 0 n) then mret ()
  else panic "EXCEPTION: PAGE FAULT".

Definition read_field (n a : Z) : M space Z :=
  access a n;;
  gets_state (λ s, load_word n s.2 a).

Definition store_byte (a v : Z) : M space () :=
  access a 1;;
  on snd_lens (modify_state (store_bytes a [v])).

(** [core::ptr::copy_nonoverlapping] and [core::ptr::write_bytes] *)
Definition copy_nonoverlapping (src dst n : Z) : M space () :=
  for_each (λ i,
    access (src + i) 1;;
    v ← gets_state (λ s, s.2 (src + i));
    store_byte (dst + i) v) (seqZ 0 n).

Definition write_bytes (dst v n : Z) : M space () :=
  for_each (λ i, store_byte (dst + i) v) (seqZ 0 n).

(** ** Loading the image *)

Definition map_user_range (first last : Z) : M space (result () MapToError) :=
  on fst_lens (map_page_range USER_PAGE
    (Page_range_inclusive (Page_containing_address first) (Page_containing_address last))).

(** The body of the loop, for the program header at [p]. *)
Definition load_segment (efi p : Z) : M space (result () MapToError) :=
  ty ← read_field 4 p;
  if decide (ty = 1) then
    p_vaddr ← read_field 8 (p + 16);
    first ← liftO (VirtAddr_new p_vaddr);
    p_memsz ← read_field 8 (p + 40);
    past_end ← liftO (add64 p_vaddr p_memsz);
    last ← liftO (sub64 past_end 1);
    last ← liftO (VirtAddr_new last);
    r ← map_user_range first last;
    match r with
    | RErr e => mret (RErr e)
    | ROk _ =>
        p_offset ← read_field 8 (p + 8);
        src ← liftO (add64 efi p_offset);
        copy_nonoverlapping src p_vaddr p_memsz;;
        p_memsz ← read_field 8 (p + 40);
        p_filesz ← read_field 8 (p + 32);
        (if decide (p_filesz < p_memsz) then
           p_vaddr ← read_field 8 (p + 16);
           dst ← liftO (add64 p_vaddr p_filesz);
           write_bytes dst 0 (p_memsz - p_filesz)
         else mret ());;
        mret (ROk ())
    end
  else mret (ROk ()).

Definition load_segments (efi : Z) : M space (result () MapToError) :=
  e_phoff ← read_field 8 (efi + 32);
  programs ← liftO (add64 efi e_phoff);
  e_phnum ← read_field 2 (efi + 56);
  for_each_try (λ i, load_segment efi (programs + Program_size * i)) (seqZ 0 e_phnum).

Definition USER_STACK_TOP : Z := 0x200000.
Definition USER_STACK_FRAME : Z := USER_STACK_TOP - 0x4000.

(** The context the process starts in, and the first word of its thread control block. *)
Definition start_context (efi rflags : Z) : M space () :=
  e_entry ← read_field 8 (efi + 24);
  ip ← liftO (VirtAddr_new e_entry);
  sp ← liftO (VirtAddr_new USER_STACK_TOP);
  access (USER_STACK_FRAME + 128) 40;;
  on snd_lens (modify_state (write_stack_frame (USER_STACK_FRAME + 128) ip
    (SegmentSelector_new 6 Ring3) (Z.lor rflags INTERRUPT_FLAG) sp (SegmentSelector_new 5 Ring3)));;
  access USER_STACK_FRAME 8;;
  on snd_lens (modify_state (store64 USER_STACK_FRAME USER_STACK_FRAME)).

Definition load_image (efi rflags : Z) : M space (result () MapToError) :=
  r ← load_segments efi;
  match r with
  | RErr e => mret (RErr e)
  | ROk _ =>
      first ← liftO (VirtAddr_new (USER_STACK_TOP - 0x5000));
      last ← liftO (VirtAddr_new (USER_STACK_TOP - 1));
      r ← map_user_range first last;
      match r with
      | RErr e => mret (RErr e)
      | ROk _ => start_context efi rflags;; mret (ROk ())
      end
  end.

(** ** The whole routine *)

(** Code on the mapper [h], the frame allocator and memory, behind the two guards. *)
Definition with_space {A} (h : nat) (m : M space A) : M K A := λ s,
  match ks_mappers s !! h, cell_get (FRAME_ALLOCATOR s) with
  | Some lm, Some lf =>
      let '(o, (mp, fa, mem)) := m (lk_data lm, lk_data lf, ks_memory s) in
      (o, mkState (ks_sched s)
            (cell_modify (λ l, Locked (lk_raw l) fa) (FRAME_ALLOCATOR s))
            (<[h := Locked (lk_raw lm) mp]> (ks_mappers s)) (INPUT_PIPE s) (LOGGER s) mem)
  | _, _ => (Ub, s)
  end.

Definition user_process (h : nat) : Process :=
  mkProcess 2 READY (USER_STACK_FRAME + 8) None (Some h) (Some 0x100000000).

(** Up to the return value, with the guards of the mapper and the allocator still held. *)
Definition load_and_push (efi : Z) (h : nat) (rflags : Z) : M K (result () MapToError) :=
  on ks_mappers_lens (mapper_step try_acquire h);;
  on FRAME_ALLOCATOR_lens static_acquire;;
  r ← with_space h (load_image efi rflags);
  match r with
  | RErr e => mret (RErr e)
  | ROk _ => on ks_sched_lens (push_process (user_process h));; mret (ROk ())
  end.

(** The [frame_allocator] passed is the one behind [FRAME_ALLOCATOR] (kernel/src/main.rs).
    [rflags] is what [rflags::read] returned. *)
Definition add_user_process (efi : Z) (h : nat) (rflags : Z) : M K (result () MapToError) :=
  r ← load_and_push efi h rflags;
  on FRAME_ALLOCATOR_lens static_release;;
  on ks_mappers_lens (mapper_step (λ l, Some (release l)) h);;
  mret r.

End loader.
