(* ===== verification/LoaderSpec.v ===== *)
(** * What the program loader does to the address space. *)

From stdpp Require Import list_numbers.
From S2P Require Import Prelude Crates Statics Machine FrameSource Mapping Paging Sched Elf.
From S2P Require Import ContextSwitch Pipe Framebuffer Syscall Loader.

Local Open Scope Z_scope.

(** The page of an address. *)
Definition page_of (a : Z) : Z := round_down a page_size.

Lemma page_of_mono a b : a ≤ b → page_of a ≤ page_of b.
Proof.
  intros. unfold page_of, round_down, page_size. apply Z.mul_le_mono_nonneg_r; [lia|].
  apply Z.div_le_mono; lia.
Qed.

(** The pages of the addresses from [first] to [last]. *)
Definition page_list (first last : Z) : list Z :=
  (λ i, page_of first + page_size * i) <$>
    seqZ 0 ((page_of last - page_of first) / page_size + 1).

Lemma page_list_nodup first last : NoDup (page_list first last).
Proof. apply NoDup_fmap_2; [|apply NoDup_seqZ]. unfold page_size. intros i j ?. lia. Qed.

Lemma elem_of_page_list first last a :
  first ≤ a ≤ last → page_of a ∈ page_list first last.
Proof.
  intros Ha. pose proof (page_of_mono first a ltac:(lia)). pose proof (page_of_mono a last ltac:(lia)).
  unfold page_list, page_of, round_down, page_size in *.
  apply list_elem_of_fmap. exists (a / 4096 - first / 4096). split; [lia|].
  apply elem_of_seqZ.
  replace (last / 4096 * 4096 - first / 4096 * 4096)
    with ((last / 4096 - first / 4096) * 4096) by lia.
  rewrite Z.div_mul by lia. lia.
Qed.

Section space.
Context `{BuildProfile} `{X86AddrLaws} `{X86Segment}.
Context {MP : Type} `{MapperLaws MP} {FA : Type} `{FrameSourceLaws FA}.
Implicit Types x : MP * FA.
Implicit Types m : memory.

(** Every byte of the block lies on a mapped page. *)
Definition readable x (a n : Z) : Prop :=
  ∀ b, a ≤ b < a + n → is_Some (mapped x.1 !! page_of b).

Lemma readable_sub x a n b k : readable x a n → a ≤ b → b + k ≤ a + n → readable x b k.
Proof. intros Hr ? ? c ?. apply Hr. lia. Qed.

Lemma access_done x m a n : readable x a n → access a n (x, m) = (Done (), (x, m)).
Proof.
  intros Hr. unfold access. rewrite get_bind. cbn [fst].
  assert (forallb (λ i, byte_present x.1 (a + i)) (seqZ 0 n) = true) as ->; [|reflexivity].
  apply Is_true_true, forallb_True, Forall_forall. intros i [? ?]%elem_of_seqZ.
  apply Is_true_true, page_present_mapped, Hr. lia.
Qed.

Lemma read_field_done x m n a :
  readable x a n → read_field n a (x, m) = (Done (load_word n m a), (x, m)).
Proof. intros Hr. unfold read_field. by rewrite (mbind_done _ _ _ _ _ (access_done _ m _ _ Hr)). Qed.

Lemma store_byte_done x m a v :
  readable x a 1 → store_byte a v (x, m) = (Done (), (x, store_bytes a [v] m)).
Proof. intros Hr. unfold store_byte. by rewrite (mbind_done _ _ _ _ _ (access_done _ m _ _ Hr)). Qed.

Lemma store_one a v m b : store_bytes a [v] m b = if decide (b = a) then v else m b.
Proof.
  case_decide as Hb.
  - apply store_bytes_in; [lia|]. subst. by rewrite Z.sub_diag.
  - apply store_bytes_out. simpl. lia.
Qed.

(** Memory [m] with the bytes of the block at [dst] given by [f]. *)
Definition patched (dst n : Z) (f : Z → Z) m : memory := λ a,
  if decide (dst ≤ a < dst + n) then f (a - dst) else m a.

Lemma patched_step dst i f m m1 :
  0 ≤ i → (∀ a, m1 a = patched dst i f m a) →
  ∀ a, store_bytes (dst + i) [f i] m1 a = patched dst (i + 1) f m a.
Proof.
  intros Hi Hm1 a. rewrite store_one, Hm1. unfold patched.
  repeat case_decide; try lia; try reflexivity. f_equal. lia.
Qed.

Lemma copy_done x m src dst n :
  0 ≤ n → readable x src n → readable x dst n → (src + n ≤ dst ∨ dst + n ≤ src) →
  ∃ m', copy_nonoverlapping src dst n (x, m) = (Done (), (x, m')) ∧
    ∀ a, m' a = patched dst n (λ i, m (src + i)) m a.
Proof.
  intros Hn Hsrc Hdst Hdisj.
  destruct (for_each_seqZ (λ i (s : space), s.1 = x ∧
    ∀ a, s.2 a = patched dst i (λ i, m (src + i)) m a)
    (λ i, access (src + i) 1;; v ← gets_state (λ s, s.2 (src + i)); store_byte (dst + i) v)
    n (x, m)) as ([x' m'] & E & [Hx Hm']).
  - exact Hn.
  - split; [reflexivity|]. intros a. unfold patched. rewrite decide_False by lia. reflexivity.
  - intros i [x1 m1] Hi [Hx1 Hm1]. cbn [fst snd] in *. subst x1.
    rewrite (mbind_done _ _ _ _ _ (access_done x m1 (src + i) 1
      (readable_sub x src n (src + i) 1 Hsrc ltac:(lia) ltac:(lia)))).
    rewrite gets_bind. cbn [snd].
    rewrite store_byte_done by (eapply readable_sub; [exact Hdst|lia|lia]).
    eexists. split; [reflexivity|]. split; [reflexivity|]. cbn [snd].
    assert (m1 (src + i) = m (src + i)) as ->.
    { rewrite Hm1. unfold patched. by rewrite decide_False by lia. }
    apply (patched_step dst i (λ i, m (src + i))); [lia|exact Hm1].
  - cbn [fst snd] in *. subst x'. exists m'. by split.
Qed.

Lemma write_bytes_done x m dst v n :
  0 ≤ n → readable x dst n →
  ∃ m', write_bytes dst v n (x, m) = (Done (), (x, m')) ∧
    ∀ a, m' a = patched dst n (λ _, v) m a.
Proof.
  intros Hn Hdst.
  destruct (for_each_seqZ (λ i (s : space), s.1 = x ∧ ∀ a, s.2 a = patched dst i (λ _, v) m a)
    (λ i, store_byte (dst + i) v) n (x, m)) as ([x' m'] & E & [Hx Hm']).
  - exact Hn.
  - split; [reflexivity|]. intros a. unfold patched. rewrite decide_False by lia. reflexivity.
  - intros i [x1 m1] Hi [Hx1 Hm1]. cbn [fst snd] in *. subst x1.
    rewrite store_byte_done by (eapply readable_sub; [exact Hdst|lia|lia]).
    eexists. split; [reflexivity|]. split; [reflexivity|].
    apply (patched_step dst i (λ _, v)); [lia|exact Hm1].
  - cbn [fst snd] in *. subst x'. exists m'. by split.
Qed.

(** ** Mapping a range *)

(** The pages [ps], all different, were unmapped in [x]; in [x'] each of them is mapped, open to
    user mode, to a frame of its own that nobody else holds, and nothing else has been mapped. *)
Definition newly_mapped (ps : list Z) x x' : Prop :=
  NoDup ps ∧ Forall (λ p, mapped x.1 !! p = None) ps ∧
  ∃ frames, pages_mapped USER_PAGE ps frames x x'.

Lemma newly_mapped_nil x : newly_mapped [] x x.
Proof.
  split; [constructor|]. split; [constructor|]. exists []. apply pages_mapped_nil.
Qed.

Lemma newly_mapped_app ps qs x x1 x2 :
  newly_mapped ps x x1 → mapping_kept x x1 → newly_mapped qs x1 x2 → mapping_kept x1 x2 →
  newly_mapped (ps ++ qs) x x2.
Proof.
  intros (Hnd1 & Hfree1 & fs & Hpm1) Hk1 (Hnd2 & Hfree2 & gs & Hpm2) Hk2.
  rewrite Forall_forall in Hfree2.
  assert (∀ q, q ∈ qs → q ∉ ps) as Hdisj.
  { intros q Hq [i Hi]%list_elem_of_lookup.
    destruct (pages_mapped_lookup USER_PAGE ps fs x x1 i q Hnd1 Hpm1 Hi) as (f & _ & Hf).
    by rewrite Hfree2 in Hf. }
  split; [apply NoDup_app; split_and!; [done| |done]; intros q ? ?; by eapply Hdisj|].
  split; [|exists (fs ++ gs); by eapply pages_mapped_app].
  apply Forall_app. split; [done|]. apply Forall_forall. intros q Hq.
  rewrite <-(mapped_other _ _ _ _ _ q Hpm1) by (by apply Hdisj). by apply Hfree2.
Qed.

Lemma space_grows_readable x x' a n : space_grows x x' → readable x a n → readable x' a n.
Proof.
  intros [_ Hs] Hr b Hb. destruct (Hr b Hb) as [y Hy]. exists y. by eapply lookup_weaken.
Qed.

Lemma map_user_range_done first last x m :
  0 ≤ first < 2 ^ 47 → 0 ≤ last < 2 ^ 47 → fs_ok x.2 → tables_safe x →
  ∃ r x', map_user_range first last (x, m) = (Done r, (x', m)) ∧ space_grows x x' ∧
    match r with
    | ROk _ => (∀ a, first ≤ a ≤ last → mapped x.1 !! page_of a = None ∧
                                        is_Some (mapped x'.1 !! page_of a)) ∧
               newly_mapped (page_list first last) x x'
    | RErr e => ∃ p, p ∈ page_list first last ∧ error_cause e p x x'
    end.
Proof.
  intros Hf Hl Hok Hsafe. unfold map_user_range.
  assert (∀ a, 0 ≤ a < 2 ^ 47 → in_u64 a) as Hlow by (intros; unfold in_u64; lia).
  assert (∀ a, 0 ≤ a < 2 ^ 47 → 0 ≤ page_of a < 2 ^ 47) as Hpage.
  { intros a Ha. unfold page_of, round_down, page_size. Z.div_mod_to_equations. lia. }
  rewrite !Page_containing_address_spec by auto. fold (page_of first) (page_of last).
  rewrite Page_range_inclusive_spec; [|apply Hlow; auto|apply Hlow; auto|apply round_down_divide
    |apply round_down_divide|left; apply Hpage; exact Hl].
  fold (page_list first last).
  destruct (map_page_range_spec USER_PAGE (page_list first last) x (page_list_nodup _ _) Hok Hsafe)
    as (r & x' & E & Hkept & Hr).
  exists r, x'. split; [by apply (on_done fst_lens _ (x, m))|]. destruct r as [[]|e].
  - destruct Hr as (Hfree & frames & Hpm).
    split; [split; [exact Hkept|by eapply pages_mapped_grows]|].
    split; [|split; [apply page_list_nodup|split; [exact Hfree|by exists frames]]].
    intros a Ha. pose proof (elem_of_page_list _ _ _ Ha) as Hin.
    split; [rewrite Forall_forall in Hfree; by apply Hfree|].
    apply list_elem_of_lookup in Hin as [i Hi].
    destruct (pages_mapped_lookup USER_PAGE (page_list first last) frames x x' i (page_of a)
      (page_list_nodup _ _) Hpm Hi) as (f & _ & Hf'). by exists (f, USER_PAGE).
  - destruct Hr as (ps & p & ps' & frames & x1 & Heq & Hfree & Hpm & _ & _ & Hm & He).
    split.
    + split; [exact Hkept|]. rewrite Hm. by eapply pages_mapped_grows.
    + exists p. split; [|exact He]. rewrite Heq. set_solver.
Qed.

End space.
