(* ===== verification/LoaderSafety.v ===== *)
(** * What the program loader guarantees. *)

From stdpp Require Import list_numbers.
From S2P Require Import Prelude Crates CrateModels Statics Machine Asm FrameSource Mapping.
From S2P Require Import MapperModel Sched SchedSpec ContextSwitch Pipe Framebuffer Elf.
From S2P Require Import Screen Syscall SyscallSpec SyscallSafety Loader LoaderSpec NewThread.

Local Open Scope Z_scope.

(** The byte of the segment at offset [i], from the file at [efi] and zeros behind it. *)
Definition segment_byte (m : memory) (efi : Z) (p : Program) (i : Z) : Z :=
  if decide (i < p_filesz p) then m (efi + p_offset p + i) else 0.

Definition segment_loaded (m : memory) (efi : Z) (p : Program) (m' : memory) : Prop :=
  ∀ i, 0 ≤ i < p_memsz p → m' (p_vaddr p + i) = segment_byte m efi p i.

(** ** The start context *)

(** The low half-word of a word. *)
Lemma load64_low m a : load64 m a mod 2 ^ 16 = load16 m a mod 2 ^ 16.
Proof.
  unfold load_word, load_bytes. change (seqZ 0 8) with (seqZ 0 2 ++ seqZ 2 6).
  rewrite fmap_app. change (seqZ 0 2) with [0; 1]. cbn [fmap list_fmap app].
  generalize ((λ i, m (a + i)) <$> seqZ 2 6) as bs. intros bs. cbn [little_endian_to_Z].
  rewrite <-!Z.land_ones by lia. apply Z.bits_inj'. intros n Hn.
  rewrite !Z.land_spec. destruct (decide (n < 16)).
  - f_equal. rewrite !Z.lor_spec, !Z.shiftl_spec by lia. f_equal.
    destruct (decide (n < 8)).
    + by rewrite !(Z.testbit_neg_r _ (n - 8)) by lia.
    + rewrite !Z.lor_spec, !Z.shiftl_spec by lia.
      by rewrite !(Z.testbit_neg_r _ (n - 8 - 8)) by lia.
  - rewrite (Z.ones_spec_high 16 n) by lia. by rewrite !andb_false_r.
Qed.

(** The five words that [iretq] pops, the selectors in the low half-words. *)
Definition user_frame (m : memory) (entry flags : Z) : Prop :=
  words_at m (USER_STACK_FRAME + 128)
    [entry; load64 m (USER_STACK_FRAME + 136); flags; USER_STACK_TOP;
     load64 m (USER_STACK_FRAME + 160)] ∧
  load64 m (USER_STACK_FRAME + 136) mod 2 ^ 16 = 0x33 ∧
  load64 m (USER_STACK_FRAME + 160) mod 2 ^ 16 = 0x2b ∧
  load64 m USER_STACK_FRAME = USER_STACK_FRAME.

Definition start_memory (entry flags : Z) (m : memory) : memory :=
  store64 USER_STACK_FRAME USER_STACK_FRAME
    (write_stack_frame (USER_STACK_FRAME + 128) entry 0x33 flags USER_STACK_TOP 0x2b m).

Lemma start_memory_frame entry flags m :
  is_word entry → is_word flags → user_frame (start_memory entry flags m) entry flags.
Proof.
  intros He Hf. unfold start_memory. set (m1 := write_stack_frame _ _ _ _ _ _ m).
  assert (∀ n a, USER_STACK_FRAME + 8 ≤ a →
    load_word n (store64 USER_STACK_FRAME USER_STACK_FRAME m1) a = load_word n m1 a) as Hout
    by (intros; by apply load_store_word_other; [|right]).
  unfold user_frame. rewrite !load64_low, !Hout by lia.
  assert (load64 m1 (USER_STACK_FRAME + 128) = entry ∧
    load16 m1 (USER_STACK_FRAME + 136) = 0x33 ∧ load64 m1 (USER_STACK_FRAME + 144) = flags ∧
    load64 m1 (USER_STACK_FRAME + 152) = USER_STACK_TOP ∧
    load16 m1 (USER_STACK_FRAME + 160) = 0x2b) as (W1 & W2 & W3 & W4 & W5).
  { unfold m1, write_stack_frame. split; [|split; [|split; [|split]]].
    - rewrite !load_store_word_other by lia. by apply load_store_word.
    - rewrite !load_store_word_other by lia. by apply load_store_word.
    - rewrite !load_store_word_other by lia. by apply load_store_word.
    - rewrite !load_store_word_other by lia. by apply load_store_word.
    - by apply load_store_word. }
  split; [|split; [by rewrite W2|split; [by rewrite W5|by apply load_store_word]]].
  intros i w Hw. rewrite Hout by lia.
  do 5 (destruct i as [|i]; [injection Hw as <-;
    first [exact W1|exact W3|exact W4|reflexivity]|]).
  done.
Qed.

Lemma start_memory_out entry flags m a :
  a < USER_STACK_FRAME ∨ USER_STACK_FRAME + 0x1000 ≤ a → start_memory entry flags m a = m a.
Proof.
  intros Ha. unfold start_memory, write_stack_frame, USER_STACK_FRAME, USER_STACK_TOP in *.
  by rewrite !store_word_out by lia.
Qed.

(** The frame is in the 168 bytes from [USER_STACK_FRAME]. *)
Lemma user_frame_ext m m' entry flags :
  (∀ a, USER_STACK_FRAME ≤ a < USER_STACK_FRAME + 168 → m' a = m a) →
  user_frame m entry flags → user_frame m' entry flags.
Proof.
  intros Hm (Hw & Hcs & Hss & Hself).
  assert (∀ i, 0 ≤ i ≤ 160 → load64 m' (USER_STACK_FRAME + i) = load64 m (USER_STACK_FRAME + i))
    as Hl by (intros i Hi; apply load_word_ext; intros a Ha; apply Hm; lia).
  pose proof (Hl 0 ltac:(lia)) as H0. rewrite Z.add_0_r in H0.
  split; [|by rewrite !Hl, H0 by lia]. rewrite !Hl by lia.
  eapply words_at_ext; [|exact Hw]. intros a Ha. symmetry. apply Hm.
  change (8 * Z.of_nat _) with 40 in Ha. lia.
Qed.

Section space.
Context `{BuildProfile} `{X86AddrLaws} `{X86SegmentLaws}.
Context {MP : Type} `{MapperLaws MP} {FA : Type} `{FrameSourceLaws FA}.
Implicit Types x : MP * FA.
Implicit Types m : memory.

(** What the loader needs of a loadable segment: it lies in the lower half of the address
    space, and [p_memsz] bytes of the file can be read. *)
Definition program_ok x (efi : Z) (p : Program) : Prop :=
  p_type p = 1 →
  0 ≤ p_vaddr p < 2 ^ 47 ∧ 0 ≤ p_memsz p ∧ 1 ≤ p_vaddr p + p_memsz p ≤ 2 ^ 47 ∧
  0 ≤ p_filesz p ∧ efi + p_offset p < 2 ^ 64 ∧ readable x (efi + p_offset p) (p_memsz p).

(** Memory that was mapped is as it was. *)
Definition memory_kept x m m' : Prop :=
  ∀ a, is_Some (mapped x.1 !! page_of a) → m' a = m a.

Lemma memory_kept_trans x1 x2 m1 m2 m3 :
  space_grows x1 x2 → memory_kept x1 m1 m2 → memory_kept x2 m2 m3 → memory_kept x1 m1 m3.
Proof.
  intros [_ Hs] H1' H2' a [y Ha]. rewrite H2', H1'; [reflexivity|by exists y|].
  exists y. by eapply lookup_weaken.
Qed.

Lemma load_kept x m m' n a :
  readable x a n → memory_kept x m m' → load_word n m' a = load_word n m a.
Proof. intros Hr Hk. apply load_word_ext. intros b Hb. by apply Hk, Hr. Qed.

Lemma Program_at_kept x m m' a :
  readable x a Program_size → memory_kept x m m' → Program_at m' a = Program_at m a.
Proof.
  intros Hr Hk. unfold Program_at, Program_size in *.
  rewrite !(load_kept x m m') by (exact Hk || (eapply readable_sub; [exact Hr|lia|lia])).
  reflexivity.
Qed.

(** Writing to pages that were not mapped keeps what was mapped. *)
Lemma patched_kept x m m' dst n f :
  (∀ a, dst ≤ a < dst + n → mapped x.1 !! page_of a = None) →
  (∀ a, m' a = patched dst n f m a) → memory_kept x m m'.
Proof.
  intros Hnew Hm' a [y Ha]. rewrite Hm'. unfold patched. case_decide as Hd; [|reflexivity].
  by rewrite Hnew in Ha.
Qed.

(** A mapped block and a block of unmapped pages. *)
Lemma mapped_apart x src dst n :
  readable x src n → (∀ a, dst ≤ a < dst + n → mapped x.1 !! page_of a = None) →
  src + n ≤ dst ∨ dst + n ≤ src.
Proof.
  intros Hsrc Hnew. destruct (decide (src + n ≤ dst)); [by left|right].
  destruct (decide (dst + n ≤ src)); [done|exfalso].
  destruct (Hsrc (Z.max src dst)) as [y Hy]; [lia|]. rewrite Hnew in Hy by lia. discriminate.
Qed.

(** The copy of [p_memsz] bytes followed by the zeros. *)
Lemma copy_and_clear x x' m efi (p : Program) :
  space_grows x x' → program_ok x efi p → p_type p = 1 →
  readable x' (p_vaddr p) (p_memsz p) →
  (∀ a, p_vaddr p ≤ a < p_vaddr p + p_memsz p → mapped x.1 !! page_of a = None) →
  ∃ m1 m2, copy_nonoverlapping (efi + p_offset p) (p_vaddr p) (p_memsz p) (x', m) =
      (Done (), (x', m1)) ∧
    (if decide (p_filesz p < p_memsz p)
     then write_bytes (p_vaddr p + p_filesz p) 0 (p_memsz p - p_filesz p) (x', m1) =
          (Done (), (x', m2))
     else m2 = m1) ∧
    memory_kept x m m1 ∧ memory_kept x m m2 ∧ segment_loaded m efi p m2.
Proof.
  intros Hgrow Hok Hty Hdst Hnew. destruct (Hok Hty) as (Hv & Hm & Hend & Hf & _ & Hsrc).
  destruct (copy_done x' m (efi + p_offset p) (p_vaddr p) (p_memsz p)) as (m1 & E1 & Hm1).
  { exact Hm. }
  { by eapply space_grows_readable. }
  { exact Hdst. }
  { by apply (mapped_apart x). }
  assert (memory_kept x m m1) as Hk1 by (by eapply patched_kept).
  case_decide as Hlt.
  - destruct (write_bytes_done x' m1 (p_vaddr p + p_filesz p) 0 (p_memsz p - p_filesz p))
      as (m2 & E2 & Hm2); [lia|eapply readable_sub; [exact Hdst|lia|lia]|].
    exists m1, m2. split; [exact E1|]. split; [exact E2|]. split; [exact Hk1|]. split.
    + intros a Ha. rewrite <-(Hk1 a Ha).
      apply (patched_kept x m1 m2 (p_vaddr p + p_filesz p) (p_memsz p - p_filesz p) (λ _, 0));
        [|exact Hm2|exact Ha]. intros b Hb. apply Hnew. lia.
    + intros i Hi. rewrite Hm2. unfold patched at 1, segment_byte. case_decide as Hd.
      * rewrite decide_False by lia. reflexivity.
      * rewrite decide_True by lia. rewrite Hm1. unfold patched. rewrite decide_True by lia.
        f_equal. lia.
  - exists m1, m1. split; [exact E1|]. split; [reflexivity|]. split; [exact Hk1|].
    split; [exact Hk1|]. intros i Hi. rewrite Hm1. unfold patched, segment_byte.
    rewrite !decide_True by lia. f_equal. lia.
Qed.

(** ** One segment *)

(** The pages of a segment. *)
Definition segment_pages (p : Program) : list Z :=
  if decide (p_type p = 1) then page_list (p_vaddr p) (p_vaddr p + p_memsz p - 1) else [].

(** What a step of the loader leaves, when it returned [r]. *)
Definition loader_step x m (r : result () MapToError) x' m' : Prop :=
  space_grows x x' ∧ memory_kept x m m' ∧
  match r with
  | ROk _ => True
  | RErr e => ∃ q x1, space_grows x x1 ∧ error_cause e q x1 x'
  end.

(** The header's fields, read at any later time. *)
Lemma read_header x m a n b x' m' :
  readable x a Program_size → a ≤ b → b + n ≤ a + 56 → space_grows x x' → memory_kept x m m' →
  read_field n b (x', m') = (Done (load_word n m b), (x', m')).
Proof.
  intros Hhdr ? ? Hg Hk. unfold Program_size in Hhdr.
  assert (readable x b n) as Hr by (by eapply readable_sub).
  rewrite read_field_done by (by eapply space_grows_readable). by rewrite (load_kept x m m').
Qed.

(** What follows the mapping of the segment's pages. *)
Definition fill_segment efi a : M (MP * FA * memory) (result () MapToError) :=
  p_vaddr ← read_field 8 (a + 16);
  p_memsz ← read_field 8 (a + 40);
  p_offset ← read_field 8 (a + 8);
  src ← liftO (add64 efi p_offset);
  copy_nonoverlapping src p_vaddr p_memsz;;
  p_memsz ← read_field 8 (a + 40);
  p_filesz ← read_field 8 (a + 32);
  (if decide (p_filesz < p_memsz) then
     p_vaddr ← read_field 8 (a + 16);
     dst ← liftO (add64 p_vaddr p_filesz);
     write_bytes dst 0 (p_memsz - p_filesz)
   else mret ());;
  mret (ROk ()).

(** A segment's place in the lower half of the address space. *)
Definition vaddr_ok (p : Program) : Prop :=
  0 ≤ p_vaddr p < 2 ^ 47 ∧ 0 ≤ p_memsz p ∧ 1 ≤ p_vaddr p + p_memsz p ≤ 2 ^ 47 ∧ 0 ≤ p_filesz p.

Lemma load_segment_map x m efi a :
  let p := Program_at m a in
  fs_ok x.2 → readable x a Program_size → p_type p = 1 → vaddr_ok p →
  ∀ r x', map_user_range (p_vaddr p) (p_vaddr p + p_memsz p - 1) (x, m) = (Done r, (x', m)) →
  space_grows x x' →
  load_segment efi a (x, m) =
    match r with RErr e => (Done (RErr e), (x', m)) | ROk _ => fill_segment efi a (x', m) end.
Proof.
  intros p Hok Hhdr Hty (Hv & Hsz & Hend & Hf) r x' E Hgrow. unfold load_segment.
  assert (memory_kept x m m) as Hk by (intros ? ?; reflexivity).
  pose proof (space_grows_refl x Hok) as Hg.
  rewrite (mbind_done _ _ _ _ _ (read_header x m a 4 a x m Hhdr ltac:(lia) ltac:(lia) Hg Hk)).
  change (load_word 4 m a) with (p_type p). rewrite decide_True by exact Hty.
  rewrite (mbind_done _ _ _ _ _ (read_header x m a 8 (a + 16) x m Hhdr ltac:(lia) ltac:(lia) Hg Hk)).
  change (load_word 8 m (a + 16)) with (p_vaddr p).
  rewrite VirtAddr_new_canonical, liftO_done_bind by (unfold in_u64, canonical; lia).
  rewrite (mbind_done _ _ _ _ _ (read_header x m a 8 (a + 40) x m Hhdr ltac:(lia) ltac:(lia) Hg Hk)).
  change (load_word 8 m (a + 40)) with (p_memsz p).
  rewrite (add64_done (p_vaddr p)), liftO_done_bind by lia.
  rewrite (sub64_done (p_vaddr p + p_memsz p)), liftO_done_bind by lia.
  rewrite VirtAddr_new_canonical, liftO_done_bind by (unfold in_u64, canonical; lia).
  rewrite (mbind_done _ _ _ _ _ E). destruct r as [[]|e]; [|reflexivity].
  unfold fill_segment.
  rewrite (mbind_done _ _ _ _ _ (read_header x m a 8 (a + 16) x' m Hhdr ltac:(lia) ltac:(lia)
    Hgrow Hk)).
  by rewrite (mbind_done _ _ _ _ _ (read_header x m a 8 (a + 40) x' m Hhdr ltac:(lia) ltac:(lia)
    Hgrow Hk)).
Qed.

(** Up to the copy. *)
Lemma fill_segment_copy x x' m efi a :
  let p := Program_at m a in
  readable x a Program_size → space_grows x x' → efi + p_offset p < 2 ^ 64 →
  ∃ k, fill_segment efi a (x', m) =
    (copy_nonoverlapping (efi + p_offset p) (p_vaddr p) (p_memsz p);; k) (x', m) ∧
    ∀ m1, memory_kept x m m1 → p_vaddr p + p_filesz p < 2 ^ 64 ∨ p_memsz p ≤ p_filesz p →
      k (x', m1) = ((if decide (p_filesz p < p_memsz p)
                     then write_bytes (p_vaddr p + p_filesz p) 0 (p_memsz p - p_filesz p)
                     else mret ());; mret (ROk ())) (x', m1).
Proof.
  intros p Hhdr Hgrow Hoff.
  assert (memory_kept x m m) as Hk by (intros ? ?; reflexivity).
  eexists. split.
  - unfold fill_segment.
    rewrite (mbind_done _ _ _ _ _ (read_header x m a 8 (a + 16) x' m Hhdr ltac:(lia) ltac:(lia)
      Hgrow Hk)).
    rewrite (mbind_done _ _ _ _ _ (read_header x m a 8 (a + 40) x' m Hhdr ltac:(lia) ltac:(lia)
      Hgrow Hk)).
    rewrite (mbind_done _ _ _ _ _ (read_header x m a 8 (a + 8) x' m Hhdr ltac:(lia) ltac:(lia)
      Hgrow Hk)).
    change (load_word 8 m (a + 8)) with (p_offset p).
    rewrite (add64_done efi), liftO_done_bind by exact Hoff. reflexivity.
  - intros m1 Hk1 Hend. cbv beta.
    rewrite (mbind_done _ _ _ _ _ (read_header x m a 8 (a + 40) x' m1 Hhdr ltac:(lia) ltac:(lia)
      Hgrow Hk1)).
    rewrite (mbind_done _ _ _ _ _ (read_header x m a 8 (a + 32) x' m1 Hhdr ltac:(lia) ltac:(lia)
      Hgrow Hk1)).
    change (load_word 8 m (a + 32)) with (p_filesz p).
    change (load_word 8 m (a + 40)) with (p_memsz p).
    case_decide; [|reflexivity].
    rewrite mbind_assoc, (mbind_done _ _ _ _ _ (read_header x m a 8 (a + 16) x' m1 Hhdr
      ltac:(lia) ltac:(lia) Hgrow Hk1)).
    change (load_word 8 m (a + 16)) with (p_vaddr p).
    by rewrite mbind_assoc, (add64_done (p_vaddr p)), liftO_done_bind by lia.
Qed.

Lemma load_segment_done x m efi a :
  fs_ok x.2 → tables_safe x → readable x a Program_size → program_ok x efi (Program_at m a) →
  ∃ r x' m', load_segment efi a (x, m) = (Done r, (x', m')) ∧ loader_step x m r x' m' ∧
    (r = ROk () → p_type (Program_at m a) = 1 →
       readable x' (p_vaddr (Program_at m a)) (p_memsz (Program_at m a)) ∧
       segment_loaded m efi (Program_at m a) m') ∧
    (r = ROk () → newly_mapped (segment_pages (Program_at m a)) x x').
Proof.
  intros Hok Hsafe Hhdr Hprog. set (p := Program_at m a) in *.
  assert (memory_kept x m m) as Hk0 by (intros ? ?; reflexivity).
  pose proof (space_grows_refl x Hok) as Hg0.
  destruct (decide (p_type p = 1)) as [Hty|Hty].
  2:{ exists (ROk ()), x, m. unfold load_segment.
      rewrite (mbind_done _ _ _ _ _ (read_header x m a 4 a x m Hhdr ltac:(lia) ltac:(lia) Hg0 Hk0)).
      change (load_word 4 m a) with (p_type p). rewrite decide_False by exact Hty.
      split; [reflexivity|]. split; [by split_and!|]. split; [by intros _ ?|]. intros _.
      unfold segment_pages. rewrite decide_False by exact Hty. apply newly_mapped_nil. }
  destruct (Hprog Hty) as (Hv & Hsz & Hend & Hf & Hoff & Hsrc).
  destruct (map_user_range_done (p_vaddr p) (p_vaddr p + p_memsz p - 1) x m)
    as (r & x' & E & Hgrow & Hr); [lia|lia|exact Hok|exact Hsafe|].
  rewrite (load_segment_map x m efi a Hok Hhdr Hty
    (conj Hv (conj Hsz (conj Hend Hf))) r x' E Hgrow).
  destruct r as [[]|e].
  2:{ exists (RErr e), x', m. split; [reflexivity|]. split; [|done].
      split; [exact Hgrow|]. split; [exact Hk0|]. destruct Hr as (q & _ & He).
      exists q, x. by split. }
  destruct Hr as [Hpages Hnew].
  assert (readable x' (p_vaddr p) (p_memsz p)) as Hdst by (intros b Hb; apply Hpages; lia).
  destruct (copy_and_clear x x' m efi p Hgrow Hprog Hty Hdst)
    as (m1 & m2 & E1 & E2 & Hk1 & Hk2 & Hseg); [intros b Hb; apply Hpages; lia|].
  destruct (fill_segment_copy x x' m efi a Hhdr Hgrow Hoff) as (k & -> & Hk).
  fold p in Hk |- *. rewrite (mbind_done _ _ _ _ _ E1), (Hk m1 Hk1) by lia.
  exists (ROk ()), x', m2. split; [|split; [by split_and!|split; [by split|]]].
  2:{ intros _. unfold segment_pages. by rewrite decide_True by exact Hty. }
  case_decide; [by rewrite (mbind_done _ _ _ _ _ E2)|by subst m2].
Qed.

(** ** All segments *)

Definition programs_ok x m efi (l : list Z) : Prop :=
  ∀ a, a ∈ l → readable x a Program_size ∧ program_ok x efi (Program_at m a).

(** Every loadable segment lies on mapped pages and holds its bytes. *)
Definition programs_loaded m efi (l : list Z) x' m' : Prop :=
  ∀ a, a ∈ l → p_type (Program_at m a) = 1 →
    readable x' (p_vaddr (Program_at m a)) (p_memsz (Program_at m a)) ∧
    segment_loaded m efi (Program_at m a) m'.

Lemma program_ok_grows x x' efi p : space_grows x x' → program_ok x efi p → program_ok x' efi p.
Proof.
  intros Hg Hp Hty. destruct (Hp Hty) as (? & ? & ? & ? & ? & Hr).
  split_and!; [lia..|]. by eapply space_grows_readable.
Qed.

Lemma segment_byte_kept x m m' efi p i :
  memory_kept x m m' → program_ok x efi p → p_type p = 1 → 0 ≤ i < p_memsz p →
  segment_byte m' efi p i = segment_byte m efi p i.
Proof.
  intros Hk Hp Hty Hi. destruct (Hp Hty) as (_ & _ & _ & _ & _ & Hr).
  unfold segment_byte. case_decide; [|reflexivity]. apply Hk, Hr. lia.
Qed.

Lemma load_list_done {A} (f : A → Z) (l : list A) x m efi :
  fs_ok x.2 → tables_safe x → programs_ok x m efi (f <$> l) →
  ∃ r x' m', for_each_try (λ i, load_segment efi (f i)) l (x, m) = (Done r, (x', m')) ∧
    loader_step x m r x' m' ∧ (r = ROk () → programs_loaded m efi (f <$> l) x' m') ∧
    (r = ROk () → newly_mapped (a ← f <$> l; segment_pages (Program_at m a)) x x').
Proof.
  revert x m. induction l as [|i l IH]; intros x m Hok Hsafe Hps.
  { exists (ROk ()), x, m. split; [reflexivity|].
    split; [split; [by apply space_grows_refl|by split]|].
    split; [by intros _ ? ?%not_elem_of_nil|]. intros _. apply newly_mapped_nil. }
  destruct (Hps (f i)) as [Hhdr Hprog]; [left|].
  destruct (load_segment_done x m efi (f i) Hok Hsafe Hhdr Hprog)
    as (r1 & x1 & m1 & E1 & (Hg1 & Hk1 & He1) & Hseg1 & Hnew1).
  cbn [for_each_try]. rewrite (mbind_done _ _ _ _ _ E1). destruct r1 as [[]|e].
  2:{ exists (RErr e), x1, m1. split; [reflexivity|]. by split; [split_and!|]. }
  pose proof (Hseg1 eq_refl) as Hs1.
  assert (∀ a, a ∈ f <$> l → Program_at m1 a = Program_at m a) as Hsame.
  { intros a Ha. apply (Program_at_kept x); [|exact Hk1]. apply Hps. by right. }
  destruct (IH x1 m1) as (r & x2 & m2 & E2 & (Hg2 & Hk2 & He2) & Hload2 & Hnew2).
  { apply Hg1. }
  { eapply mapping_kept_safe; [apply Hg1|exact Hsafe]. }
  { intros a Ha. rewrite Hsame by done. destruct (Hps a) as [Hh Hp]; [by right|].
    split; [by eapply space_grows_readable|by eapply program_ok_grows]. }
  exists r, x2, m2. split; [exact E2|]. split.
  - split; [by eapply space_grows_trans|]. split; [by eapply memory_kept_trans|].
    destruct r as [|e]; [done|]. destruct He2 as (q & x3 & Hg3 & He).
    exists q, x3. split; [by eapply space_grows_trans|exact He].
  - split.
    2:{ intros ->. rewrite fmap_cons, bind_cons.
        eapply newly_mapped_app; [by apply Hnew1|apply Hg1| |apply Hg2].
        erewrite Forall_bind_ext; [exact (Hnew2 eq_refl)|].
        apply Forall_forall. intros a Ha. by rewrite Hsame. }
    intros -> a Ha Hty. rewrite fmap_cons in Ha. apply elem_of_cons in Ha as [->|Ha].
    + destruct (Hs1 Hty) as [Hread1 Hl1]. split; [by eapply space_grows_readable|].
      intros j Hj. rewrite <-(Hl1 j Hj). apply Hk2, Hread1. lia.
    + pose proof (Hload2 eq_refl a Ha) as Hl2. rewrite Hsame in Hl2 by done.
      destruct (Hl2 Hty) as [Hread2 Hl]. split; [exact Hread2|]. intros j Hj. rewrite (Hl j Hj).
      eapply segment_byte_kept; [exact Hk1| |exact Hty|exact Hj]. apply Hps. by right.
Qed.

(** ** The image *)

Definition program_addrs m (efi : Z) : list Z :=
  (λ i, efi + e_phoff (Header_at m efi) + Program_size * i) <$>
    seqZ 0 (e_phnum (Header_at m efi)).

(** An image the loader can read: the header, the program headers and the segments. *)
Record image_ok x m (efi : Z) : Prop := {
  io_header : readable x efi 64;
  io_phoff : efi + e_phoff (Header_at m efi) < 2 ^ 64;
  io_programs : programs_ok x m efi (program_addrs m efi);
  io_entry : 0 ≤ e_entry (Header_at m efi) < 2 ^ 47;
}.

(** More pages, or another allocator behind the same tables, do no harm. *)
Lemma image_ok_grows x x' m efi : space_grows x x' → image_ok x m efi → image_ok x' m efi.
Proof.
  intros Hg [Hh Hoff Hps He]. split; [by eapply space_grows_readable|exact Hoff| |exact He].
  intros a Ha. destruct (Hps a Ha) as [Hr Hp].
  split; [by eapply space_grows_readable|by eapply program_ok_grows].
Qed.

Lemma read_within x m base len n a :
  readable x base len → base ≤ a → a + n ≤ base + len →
  read_field n a (x, m) = (Done (load_word n m a), (x, m)).
Proof. intros. by apply read_field_done, (readable_sub x base len). Qed.

Lemma access_within x m base len n a :
  readable x base len → base ≤ a → a + n ≤ base + len → access a n (x, m) = (Done (), (x, m)).
Proof. intros. by apply access_done, (readable_sub x base len). Qed.

Lemma load_segments_done x m efi :
  fs_ok x.2 → tables_safe x → image_ok x m efi →
  ∃ r x' m', load_segments efi (x, m) = (Done r, (x', m')) ∧ loader_step x m r x' m' ∧
    (r = ROk () → programs_loaded m efi (program_addrs m efi) x' m') ∧
    (r = ROk () → newly_mapped (a ← program_addrs m efi; segment_pages (Program_at m a)) x x').
Proof.
  intros Hok Hsafe [Hh Hoff Hps _]. unfold load_segments.
  rewrite (mbind_done _ _ _ _ _ (read_within x m efi 64 8 (efi + 32)
    Hh ltac:(lia) ltac:(lia))).
  change (load_word 8 m (efi + 32)) with (e_phoff (Header_at m efi)).
  rewrite (add64_done efi), liftO_done_bind by exact Hoff.
  rewrite (mbind_done _ _ _ _ _ (read_within x m efi 64 2 (efi + 56)
    Hh ltac:(lia) ltac:(lia))).
  change (load_word 2 m (efi + 56)) with (e_phnum (Header_at m efi)).
  by apply (load_list_done (λ i, efi + e_phoff (Header_at m efi) + Program_size * i)).
Qed.

Lemma start_context_done x m efi rflags :
  readable x efi 64 → 0 ≤ e_entry (Header_at m efi) < 2 ^ 47 →
  readable x USER_STACK_FRAME 0x4000 →
  start_context efi rflags (x, m) =
    (Done (), (x, start_memory (e_entry (Header_at m efi)) (Z.lor rflags INTERRUPT_FLAG) m)).
Proof.
  intros Hh He Hst. unfold start_context.
  rewrite (mbind_done _ _ _ _ _ (read_within x m efi 64 8 (efi + 24)
    Hh ltac:(lia) ltac:(lia))).
  change (load_word 8 m (efi + 24)) with (e_entry (Header_at m efi)).
  rewrite (VirtAddr_new_canonical (e_entry _)), liftO_done_bind
    by (unfold in_u64, canonical; lia).
  rewrite (VirtAddr_new_canonical USER_STACK_TOP), liftO_done_bind by by_decide.
  rewrite (mbind_done _ _ _ _ _ (access_within x m USER_STACK_FRAME 0x4000 40
    (USER_STACK_FRAME + 128) Hst ltac:(lia) ltac:(lia))).
  rewrite !SegmentSelector_new_spec by by_decide.
  rewrite (mbind_done _ _ _ _ _ (on_done snd_lens (modify_state _) (x, m) () _ eq_refl)).
  cbn [fst snd lput snd_lens].
  rewrite (mbind_done _ _ _ _ _ (access_within x _ USER_STACK_FRAME 0x4000 8
    USER_STACK_FRAME Hst ltac:(lia) ltac:(lia))).
  reflexivity.
Qed.

(** All the pages of a program: those of its segments and of its stack. *)
Definition image_pages m (efi : Z) : list Z :=
  (a ← program_addrs m efi; segment_pages (Program_at m a)) ++
  page_list (USER_STACK_TOP - 0x5000) (USER_STACK_TOP - 1).

Lemma load_image_done x m efi rflags :
  fs_ok x.2 → tables_safe x → image_ok x m efi → is_word rflags →
  ∃ r x' m', load_image efi rflags (x, m) = (Done r, (x', m')) ∧ loader_step x m r x' m' ∧
    (r = ROk () → programs_loaded m efi (program_addrs m efi) x' m' ∧
       user_frame m' (e_entry (Header_at m efi)) (Z.lor rflags INTERRUPT_FLAG) ∧
       newly_mapped (image_pages m efi) x x').
Proof.
  intros Hok Hsafe Himg Hfl.
  destruct (load_segments_done x m efi Hok Hsafe Himg) as (r1 & x1 & m1 & E1 & (Hg1 & Hk1 & He1) & Hl1 & Hnew1).
  unfold load_image. rewrite (mbind_done _ _ _ _ _ E1). destruct r1 as [[]|e].
  2:{ exists (RErr e), x1, m1. split; [reflexivity|]. by split; [split_and!|]. }
  rewrite !VirtAddr_new_canonical by by_decide. rewrite !liftO_done_bind.
  destruct (map_user_range_done (USER_STACK_TOP - 0x5000) (USER_STACK_TOP - 1) x1 m1)
    as (r2 & x2 & E2 & Hg2 & Hr2); [by_decide|by_decide|apply Hg1| |].
  { eapply mapping_kept_safe; [apply Hg1|exact Hsafe]. }
  rewrite (mbind_done _ _ _ _ _ E2). pose proof (space_grows_trans _ _ _ Hg1 Hg2) as Hg.
  destruct r2 as [[]|e].
  2:{ exists (RErr e), x2, m1. split; [reflexivity|]. split; [|done].
      split; [exact Hg|]. split; [exact Hk1|]. destruct Hr2 as (q & _ & He). by exists q, x1. }
  destruct Hr2 as [Hstack Hnew2]. destruct Himg as [Hh _ Hps He].
  assert (e_entry (Header_at m1 efi) = e_entry (Header_at m efi)) as Hentry
    by (apply (load_kept x); [eapply readable_sub; [exact Hh|lia|lia]|exact Hk1]).
  pose proof (start_context_done x2 m1 efi rflags) as E3. rewrite Hentry in E3.
  specialize (E3 ltac:(by eapply space_grows_readable) He
    ltac:(intros b Hb; apply Hstack; unfold USER_STACK_FRAME in Hb; lia)).
  set (m2 := start_memory (e_entry (Header_at m efi)) (Z.lor rflags INTERRUPT_FLAG) m1) in *.
  assert (memory_kept x1 m1 m2) as Hk2.
  { intros b [y Hb]. apply start_memory_out.
    destruct (decide (USER_STACK_FRAME ≤ b < USER_STACK_FRAME + 0x1000)); [exfalso|lia].
    assert (USER_STACK_FRAME = USER_STACK_TOP - 0x4000) by reflexivity.
    destruct (Hstack b) as [Hn _]; [lia|]. by rewrite Hn in Hb. }
  exists (ROk ()), x2, m2.
  rewrite (mbind_done _ _ _ _ _ E3). split; [reflexivity|]. split.
  - split; [exact Hg|]. split; [exact (memory_kept_trans x x1 m m1 m2 Hg1 Hk1 Hk2)|exact I].
  - intros _. split; [|split; [apply start_memory_frame; [unfold is_word; lia|by apply lor_word]|]].
    2:{ eapply newly_mapped_app; [by apply Hnew1|apply Hg1|exact Hnew2|apply Hg2]. }
    intros a Ha Hty. destruct (Hl1 eq_refl a Ha Hty) as [Hread Hl].
    split; [exact (space_grows_readable _ _ _ _ Hg2 Hread)|].
    intros i Hi. rewrite <-(Hl i Hi). apply Hk2, Hread. lia.
Qed.

End space.

(** ** The routine *)

Section kernel.
Context `{BuildProfile} `{X86AddrLaws} `{X86SegmentLaws}.
Context {C : Type → Type} `{OnceCellLaws C} {L RW : Type} `{RawLockLaws L, RawRwLockLaws RW}.
Context {MP : Type} `{MapperLaws MP} {FA : Type} `{FrameSourceLaws FA} {Q : Type}.
Implicit Types s : kstate C L RW MP FA Q.
Implicit Types x : MP * FA.

Lemma with_space_run {A} (f : M space A) rl rc lm lf procs cur h x m s o x' m' :
  call_is rl rc lm lf procs cur h x m s → f (x, m) = (o, (x', m')) →
  ∃ s', with_space h f s = (o, s') ∧ call_is rl rc lm lf procs cur h x' m' s'.
Proof.
  intros [Hs Hm Hf Hmem] E. destruct x as [mp fa], x' as [mp' fa'].
  unfold with_space. rewrite Hm. unfold cell_is in Hf. rewrite Hf, Hmem.
  cbn [lk_data lk_raw fst snd] in *. rewrite E.
  eexists. split; [reflexivity|]. split; simpl; [exact Hs|by rewrite lookup_insert_eq| |reflexivity].
  unfold cell_is. by rewrite cell_get_modify, Hf.
Qed.

(** The result and the process list. *)
Definition pushed (r : result () MapToError) (procs : list Process) (h : nat) : list Process :=
  match r with ROk _ => procs ++ [user_process h] | RErr _ => procs end.

Lemma load_and_push_done efi h rflags procs cur x m s r x' m' :
  call_idle procs cur h x m s → load_image efi rflags (x, m) = (Done r, (x', m')) →
  ∃ lk s', load_and_push efi h rflags s = (Done r, s') ∧
    try_acquire lk = None ∧ release lk = lock_free ∧
    call_is lock_free rw_free lk lk (pushed r procs h) cur h x' m' s'.
Proof.
  intros Hs E. unfold call_idle in Hs. destruct try_acquire_free as (lk & Hlk & Hrel).
  unfold load_and_push.
  sstep Hs (mapper_step_done try_acquire lk _ _ _ _ _ _ _ _ _ _ Hs Hlk).
  sstep Hs (frames_step_done try_acquire lk _ _ _ _ _ _ _ _ _ _ Hs Hlk).
  destruct (with_space_run _ _ _ _ _ _ _ _ _ _ _ _ _ _ Hs E) as (s2 & E2 & Hs2).
  rewrite (mbind_done _ _ _ _ _ E2). exists lk. destruct r as [[]|e].
  - sstep Hs2 (sched_lift (push_process (user_process h)) _ _ _ _ _ _ _ _ _ _ () _ _ _ Hs2
      (λ H, push_process_done (user_process h) _ _ _ H)).
    eexists. split; [reflexivity|]. split; [by eapply try_acquire_excl|].
    split; [exact Hrel|]. exact Hs2.
  - exists s2. split; [reflexivity|]. split; [by eapply try_acquire_excl|].
    split; [exact Hrel|exact Hs2].
Qed.

(** The loader does not touch the screen or the input pipe. *)
Definition keeps_io {A} (f : M (kstate C L RW MP FA Q) A) : Prop :=
  ∀ s, LOGGER (f s).2 = LOGGER s ∧ INPUT_PIPE (f s).2 = INPUT_PIPE s.

Lemma keeps_io_ret {A} (a : A) : keeps_io (mret a).
Proof. done. Qed.

Lemma keeps_io_bind {A B} (f : M _ A) (g : A → M _ B) :
  keeps_io f → (∀ a, keeps_io (g a)) → keeps_io (f ≫= g).
Proof.
  intros Hf Hg s. specialize (Hf s). unfold mbind, M_bind.
  destruct (f s) as [[a|w| |] s1]; simpl in *; try done.
  destruct (Hg a s1) as [-> ->]. exact Hf.
Qed.

Lemma keeps_io_on {T A} (x : lens (kstate C L RW MP FA Q) T) (f : M T A) :
  (∀ t s, LOGGER (lput x t s) = LOGGER s ∧ INPUT_PIPE (lput x t s) = INPUT_PIPE s) →
  keeps_io (on x f).
Proof. intros Hx s. unfold on, zoom. destruct (f (lget x s)) as [o t]. apply Hx. Qed.

Lemma keeps_io_space {A} h (f : M _ A) : keeps_io (with_space h f).
Proof.
  intros s. unfold with_space.
  destruct (ks_mappers s !! h) as [lm|], (cell_get (FRAME_ALLOCATOR s)) as [lf|]; try done.
  by destruct (f _) as [o [[mp fa] m]].
Qed.

Lemma add_user_process_keeps_io efi h rflags : keeps_io (add_user_process efi h rflags).
Proof.
  unfold add_user_process, load_and_push.
  repeat first [apply keeps_io_bind; [|intros ?] | apply keeps_io_on; done | apply keeps_io_space
               | apply keeps_io_ret | case_match].
Qed.

Lemma add_user_process_done efi h rflags procs cur x m s r x' m' :
  call_idle procs cur h x m s → load_image efi rflags (x, m) = (Done r, (x', m')) →
  ∃ s', add_user_process efi h rflags s = (Done r, s') ∧
    call_idle (pushed r procs h) cur h x' m' s'.
Proof.
  intros Hs E. destruct (load_and_push_done efi h rflags procs cur x m s r x' m' Hs E)
    as (lk & s1 & E1 & _ & Hrel & Hs1).
  unfold add_user_process. rewrite (mbind_done _ _ _ _ _ E1).
  sstep Hs1 (frames_step_done (λ l, Some (release l)) _ _ _ _ _ _ _ _ _ _ _ Hs1 eq_refl).
  sstep Hs1 (mapper_step_done (λ l, Some (release l)) _ _ _ _ _ _ _ _ _ _ _ Hs1 eq_refl).
  rewrite Hrel in Hs1. eexists. split; [reflexivity|exact Hs1].
Qed.

(** C8: loading a program either succeeds completely or reports why a page could not be
    mapped.  On success every loadable segment is in place: the bytes of the file, then zeros up
    to its size in memory.  The pages of the segments and of the stack are all different and
    were unmapped; they are the only new ones, and each is present, writable and open to user
    mode, on a frame of its own that was free and holds no page table.  Whatever was mapped
    before is untouched; the new process is last in the list, ready.  On an error the process list is as it was.
    Every lock is free again. *)
Theorem add_user_process_loads efi h rflags procs cur x m s :
  call_idle procs cur h x m s → fs_ok x.2 → tables_safe x → image_ok x m efi →
  is_word rflags →
  ∃ r x' m' s', add_user_process efi h rflags s = (Done r, s') ∧
    call_idle (pushed r procs h) cur h x' m' s' ∧ loader_step x m r x' m' ∧
    (r = ROk () → programs_loaded m efi (program_addrs m efi) x' m' ∧
       newly_mapped (image_pages m efi) x x').
Proof.
  intros Hs Hok Hsafe Himg Hfl.
  destruct (load_image_done x m efi rflags Hok Hsafe Himg Hfl) as (r & x' & m' & E & Hstep & Hl).
  destruct (add_user_process_done efi h rflags procs cur x m s r x' m' Hs E) as (s' & E' & Hs').
  exists r, x', m', s'. split; [exact E'|]. split; [exact Hs'|]. split; [exact Hstep|].
  intros Hr. destruct (Hl Hr) as (? & _ & ?). by split.
Qed.

Lemma user_frame_words m entry flags :
  user_frame m entry flags →
  words_at m (USER_STACK_FRAME + 8)
    (((λ i, load64 m (USER_STACK_FRAME + 8 + 8 * Z.of_nat i)) <$> seq 0 15) ++
     [entry; load64 m (USER_STACK_FRAME + 136); flags; USER_STACK_TOP;
      load64 m (USER_STACK_FRAME + 160)]).
Proof.
  intros [Hw _] i w Hi. apply lookup_app_Some in Hi as [Hi|[Hge Hi]].
  - apply list_lookup_fmap_Some in Hi as (j & -> & Hj).
    apply lookup_seq in Hj as [-> _]. reflexivity.
  - rewrite length_fmap, length_seq in Hge, Hi. rewrite <-(Hw _ _ Hi). f_equal. lia.
Qed.

(** [timer_handler]'s tail on a start context. *)
Lemma user_frame_starts {K} m entry flags c (k : K) h :
  user_frame m entry flags → regs c RAX = rsp (user_process h) →
  ∃ c', run ([Mov RSP RAX] ++ (Pop <$> reverse timer_saved) ++ [Iretq]) (c, m, k) =
      (Done (), (c', m, k)) ∧
    rip c' = entry ∧ cs c' = 0x33 ∧ ss c' = 0x2b ∧ rflags c' = flags ∧
    regs c' RSP = USER_STACK_TOP ∧
    ∀ i r, reverse timer_saved !! i = Some r →
      regs c' r = load64 m (rsp (user_process h) + 8 * Z.of_nat i).
Proof.
  intros Hframe Hrax. pose proof Hframe as (_ & Hcs & Hss & _).
  destruct (restore_words c m k _ _ _ _ _ _ _ (user_frame_words m _ _ Hframe))
    as (c' & E3 & Hrip & Hc & Hf & Hsp & Hss' & Hregs); [reflexivity|by_decide|exact Hrax|].
  exists c'. split; [exact E3|]. split; [exact Hrip|]. split; [by rewrite Hc|].
  split; [by rewrite Hss'|]. split; [exact Hf|]. split; [exact Hsp|].
  intros i r Hi. specialize (Hregs i r Hi).
  assert (i < 15)%nat as Hlt by (apply lookup_lt_Some in Hi; exact Hi).
  rewrite list_lookup_fmap, lookup_seq_lt in Hregs by exact Hlt. by injection Hregs.
Qed.

(** C10: the first time the scheduler picks a loaded process, [timer_handler] enters the
    program: at its entry point, in user mode with the user segments, interrupts enabled, and
    with the stack pointer at the top of its stack.  The other registers hold what the frame
    behind its stack held before. *)
Theorem user_process_starts_at_entry {K} efi h flags procs cur x m s s' c (k : K) :
  call_idle procs cur h x m s → fs_ok x.2 → tables_safe x → image_ok x m efi →
  is_word flags → add_user_process efi h flags s = (Done (ROk ()), s') →
  regs c RAX = rsp (user_process h) →
  (∃ x', call_idle (procs ++ [user_process h]) cur h x' (ks_memory s') s') ∧
  ∃ c', run ([Mov RSP RAX] ++ (Pop <$> reverse timer_saved) ++ [Iretq])
      (c, ks_memory s', k) = (Done (), (c', ks_memory s', k)) ∧
    rip c' = e_entry (Header_at m efi) ∧ cs c' = 0x33 ∧ ss c' = 0x2b ∧
    rflags c' = Z.lor flags INTERRUPT_FLAG ∧ regs c' RSP = USER_STACK_TOP ∧
    ∀ i r, reverse timer_saved !! i = Some r →
      regs c' r = load64 (ks_memory s') (rsp (user_process h) + 8 * Z.of_nat i).
Proof.
  intros Hs Hok Hsafe Himg Hfl E Hrax.
  destruct (load_image_done x m efi flags Hok Hsafe Himg Hfl) as (r & x' & m' & E1 & _ & Hl).
  destruct (add_user_process_done efi h flags procs cur x m s r x' m' Hs E1) as (s1 & E2 & Hs').
  rewrite E in E2. injection E2 as <- <-. destruct (Hl eq_refl) as (_ & Hframe & _).
  pose proof (ci_memory _ _ _ _ _ _ _ _ _ _ Hs') as Hm. rewrite Hm.
  split; [by exists x'|]. by apply user_frame_starts.
Qed.

(** ** What can go wrong *)

(** C31: the loader reads as many bytes of the file as the segment has in memory, not as it has
    in the file.  When the image ends in between, the copy faults and the kernel panics,
    although every byte of the file that the segment needs is there. *)
Theorem over_read_faults x m efi a x' last :
  let p := Program_at m a in
  fs_ok x.2 → tables_safe x → readable x a Program_size → p_type p = 1 → vaddr_ok p →
  efi + p_offset p < 2 ^ 64 →
  p_filesz p ≤ last < p_memsz p → readable x (efi + p_offset p) last →
  map_user_range (p_vaddr p) (p_vaddr p + p_memsz p - 1) (x, m) = (Done (ROk ()), (x', m)) →
  page_present x'.1 (page_of (efi + p_offset p + last)) = false →
  ∃ t, load_segment efi a (x, m) = (Panic "EXCEPTION: PAGE FAULT", t).
Proof.
  intros p Hok Hsafe Hhdr Hty Hv Hoff Hlast Hsrc E Hfault.
  pose proof Hv as (Hv1 & Hsz & Hend & Hf).
  destruct (map_user_range_done (p_vaddr p) (p_vaddr p + p_memsz p - 1) x m)
    as (r & x1 & E1 & Hgrow & Hr); [lia|lia|exact Hok|exact Hsafe|].
  rewrite E in E1. injection E1 as <- <-. destruct Hr as [Hpages _].
  rewrite (load_segment_map x m efi a Hok Hhdr Hty Hv (ROk ()) x' E Hgrow).
  destruct (fill_segment_copy x x' m efi a Hhdr Hgrow Hoff) as (k & -> & _). fold p.
  destruct (copy_done x' m (efi + p_offset p) (p_vaddr p) last) as (m1 & E1 & _); [lia| | |  |].
  { by eapply space_grows_readable. }
  { intros b Hb. apply Hpages. lia. }
  { apply (mapped_apart x (efi + p_offset p) (p_vaddr p) last Hsrc).
    intros b Hb. apply Hpages. lia. }
  unfold copy_nonoverlapping in *.
  replace (p_memsz p) with (last + (p_memsz p - last)) by lia.
  rewrite seqZ_app by lia. eexists. apply mbind_panic.
  rewrite for_each_app, (mbind_done _ _ _ _ _ E1).
  rewrite seqZ_cons by lia. cbn [for_each]. apply mbind_panic, mbind_panic.
  unfold access. rewrite get_bind. change (seqZ 0 1) with [0]. cbn [forallb fst].
  rewrite Z.add_0_l, Z.add_0_r. unfold byte_present. fold (page_of (efi + p_offset p + last)).
  by rewrite Hfault.
Qed.

(** C27: there is a window in which the machine can lock up.  The loader publishes the new
    process, with interrupts enabled again, before it gives the locks of the page tables and
    the frames back.  If the timer fires in between, the new process runs, and its first
    request for memory spins for ever with interrupts off, waiting for the kernel thread that
    will not run again. *)
Theorem loader_window_deadlock cr3 efi h flags p0 x m s rsp1 size ptr r x' m' :
  call_idle [p0] 0 h x m s → status p0 = RUNNING →
  load_image efi flags (x, m) = (Done r, (x', m')) → r = ROk () →
  request_ok 0x100000000 size →
  ∃ s1 s2 s3, load_and_push efi h flags s = (Done (ROk ()), s1) ∧
    on ks_sched_lens (schedule rsp1) s1 = (Done (rsp (user_process h)), s2) ∧
    anon_allocate_syscall cr3 size ptr s2 = (Hang, s3) ∧
    ∀ rsp2, schedule rsp2 (ks_sched s3) = (Hang, ks_sched s3).
Proof.
  intros Hs Hst E -> Hreq.
  destruct (load_and_push_done efi h flags [p0] 0 x m s (ROk ()) x' m' Hs E)
    as (lk & s1 & E1 & Hlk & _ & Hs1). cbn [pushed app] in Hs1.
  set (p1 := set_rsp rsp1 p0).
  destruct (sched_lift_cur (schedule rsp1) lock_free rw_free lk lk [p0; user_process h] 0 h x' m'
    s1 (rsp (user_process h)) lock_free
    [set_status READY p1; set_status RUNNING (user_process h)] rw_free 1 Hs1) as (s2 & E2 & Hs2).
  { intros Hsched.
    destruct (schedule_done rsp1 [p0; user_process h] 0 p0 _ Hsched eq_refl ltac:(by rewrite Hst))
      as (j & q & t & Hj & Hq & Et & Ht). cbn in Hj. injection Hj as <-.
    cbn in Hq. injection Hq as <-. exists t. split; [exact Et|exact Ht]. }
  destruct (anon_start cr3 size ptr _ 1 h (set_status RUNNING (user_process h)) 0x100000000 _ _ _ _ _
    Hs2 eq_refl eq_refl) as (rl & rc & s3 & E3 & _ & Hrc & _ & _ & Hs3).
  destruct Hreq as (Hal & Hpos & Hsz & Hend).
  destruct (anon_range_done _ _ Hal Hpos Hsz Hend) as (range & Er & _).
  destruct (mapper_step_hangs try_acquire _ _ _ _ _ _ _ _ _ _ Hs3 Hlk) as (s4 & E4 & Hs4).
  exists s1, s2, s4. split; [exact E1|]. split; [exact E2|]. split.
  - rewrite E3. unfold anon_allocate_for. rewrite Er, liftO_done_bind.
    change (expect unwrap_none _) with (@Done nat h). rewrite liftO_done_bind.
    by apply mbind_hang.
  - intros rsp2. apply mbind_hang.
    eapply current_step_hangs; [exact (ci_sched _ _ _ _ _ _ _ _ _ _ Hs4)|exact Hrc].
Qed.

End kernel.
