(* ===== verification/LoaderExample.v ===== *)
(** * A small program image, loaded. *)

From stdpp Require Import list_numbers.
From S2P Require Import Prelude Crates CrateModels Statics Machine Asm FrameSource Mapping.
From S2P Require Import MapperModel Sched SchedSpec ContextSwitch Pipe Framebuffer Elf.
From S2P Require Import Screen Syscall SyscallSpec SyscallSafety Loader LoaderSpec LoaderSafety.

Local Open Scope Z_scope.

#[local] Existing Instance debug_profile.
#[local] Existing Instance num_addr.
#[local] Existing Instance num_segment.
#[local] Existing Instance option_cell.
#[local] Existing Instance bit_lock.
#[local] Existing Instance count_rw_lock.
#[local] Existing Instance list_array_queue.
#[local] Existing Instance bar_font.
#[local] Existing Instance simple_mapper.
#[local] Existing Instance counter_allocator.
#[local] Existing Instance counter_source.

(** One page at [image]: the header, one loadable segment of four bytes from the file and
    [memsz] bytes in memory, at 4 MiB; everything else is 0xee. *)
Definition image : Z := 0x10000000.
Definition image_memory (memsz : Z) : memory :=
  store64 (image + 24) 0x400000 (store64 (image + 32) 64 (store16 (image + 56) 1
  (store_word 4 (image + 64) 1 (store64 (image + 72) 0x100 (store64 (image + 80) 0x400000
  (store64 (image + 96) 4 (store64 (image + 104) memsz
  (store_bytes (image + 0x100) [0x0f; 0x05; 0xeb; 0xfc] (λ _, 0xee))))))))).

Definition image_space : table_mapper * counter :=
  (mkTables 0 [] {[image := (0x7000, PRESENT)]}, mkCounter 0x100000 16 0).

Definition boot_process : Process := mkProcess 0 RUNNING 0 None None None.
Definition boot_kernel (memsz : Z) :
    kstate option bool (option nat) table_mapper counter list_queue :=
  mkState (mkSched (Some (Locked false [boot_process])) (Some (Locked (Some 0%nat) 0%nat)))
          (Some (Locked false image_space.2)) {[7%nat := Locked false image_space.1]}
          (Some (mkPipe (ListQueue [] 64))) (Some (Locked false (small_writer Bgr)))
          (image_memory memsz).

Lemma boot_kernel_idle memsz :
  call_idle [boot_process] 0 7 image_space (image_memory memsz) (boot_kernel memsz).
Proof. by repeat split. Qed.

Lemma image_space_ok : fs_ok image_space.2.
Proof. simpl. lia. Qed.

Lemma image_space_safe : tables_safe image_space.
Proof. intros f Hf. simpl in Hf. set_solver. Qed.

Lemma image_readable a n : image ≤ a → a + n ≤ image + 4096 → readable image_space a n.
Proof.
  intros Ha Hn b Hb. assert (page_of b = image) as ->.
  { unfold page_of, round_down, page_size, image in *. Z.div_mod_to_equations. lia. }
  by eexists.
Qed.

Lemma small_image_ok : image_ok image_space (image_memory 8) image.
Proof.
  split.
  - apply image_readable; lia.
  - by_decide.
  - assert (program_addrs (image_memory 8) image = [image + 64]) as -> by (by vm_compute).
    intros a ->%list_elem_of_singleton. split.
    { apply image_readable; unfold Program_size; lia. }
    assert (Program_at (image_memory 8) (image + 64) =
      mkProgram 1 0xeeeeeeee 0x100 0x400000 0xeeeeeeeeeeeeeeee 4 8 0xeeeeeeeeeeeeeeee) as ->
      by (by vm_compute).
    intros _. cbn [p_vaddr p_memsz p_filesz p_offset]. unfold image.
    split; [lia|]. split; [lia|]. split; [lia|]. split; [lia|]. split; [lia|].
    apply image_readable; unfold image; lia.
  - by_decide.
Qed.

Lemma small_image_loads :
  ∃ s', add_user_process image 7 0x202 (boot_kernel 8) = (Done (ROk ()), s').
Proof.
  destruct (add_user_process image 7 0x202 (boot_kernel 8)) as [o s'] eqn:E. exists s'. f_equal.
  transitivity (add_user_process image 7 0x202 (boot_kernel 8)).1; [by rewrite E|].
  by vm_compute.
Qed.

Lemma add_user_process_loads_witness :
  ∃ x' m' s', add_user_process image 7 0x202 (boot_kernel 8) = (Done (ROk ()), s') ∧
    call_idle [boot_process; user_process 7] 0 7 x' m' s' ∧
    programs_loaded (image_memory 8) image [image + 64] x' m'.
Proof.
  destruct (@add_user_process_loads debug_profile num_addr num_addr_laws num_segment
    num_segment_laws option _ option_cell_laws bool _ _ bit_lock_laws _
    table_mapper _ simple_mapper_laws counter _ _ counter_source_laws list_queue image 7 0x202
    [boot_process] 0 image_space (image_memory 8) (boot_kernel 8))
    as (r & x' & m' & s' & E & Hs & _ & Hl).
  - exact (boot_kernel_idle 8).
  - exact image_space_ok.
  - exact image_space_safe.
  - exact small_image_ok.
  - by_decide.
  - destruct small_image_loads as [s1 E1]. rewrite E in E1. injection E1 as -> <-.
    assert (program_addrs (image_memory 8) image = [image + 64]) as Ha by (by vm_compute).
    rewrite Ha in Hl. exists x', m', s'. split; [exact E|]. split; [exact Hs|]. by apply Hl.
Defined.

Definition scheduled_cpu : cpu :=
  mkCpu (λ r, if decide (r = RAX) then 0x1fc008 else 3) 0xffffffff80002345 8 0x2 16.

Lemma user_process_starts_at_entry_witness :
  ∃ s' c', add_user_process image 7 0x202 (boot_kernel 8) = (Done (ROk ()), s') ∧
    run ([Mov RSP RAX] ++ (Pop <$> reverse timer_saved) ++ [Iretq])
      (scheduled_cpu, ks_memory s', ()) = (Done (), (c', ks_memory s', ())) ∧
    rip c' = 0x400000 ∧ cs c' = 0x33 ∧ regs c' RSP = 0x200000.
Proof.
  destruct small_image_loads as [s' E].
  destruct (@user_process_starts_at_entry debug_profile num_addr num_addr_laws num_segment
    num_segment_laws option _ option_cell_laws bool _ _ bit_lock_laws _
    table_mapper _ simple_mapper_laws counter _ _ counter_source_laws list_queue () image 7 0x202
    [boot_process] 0 image_space (image_memory 8) (boot_kernel 8) s' scheduled_cpu ())
    as (_ & c' & Er & Hrip & Hcs & _ & _ & Hsp & _).
  - exact (boot_kernel_idle 8).
  - exact image_space_ok.
  - exact image_space_safe.
  - exact small_image_ok.
  - by_decide.
  - exact E.
  - reflexivity.
  - exists s', c'. split; [exact E|]. split; [exact Er|]. split; [|split; [exact Hcs|exact Hsp]].
    rewrite Hrip. by vm_compute.
Defined.

(** The same segment with 0x1000 bytes in memory: the page behind the image is not there. *)
Lemma over_read_faults_witness :
  ∃ t, load_segment image (image + 64) (image_space, image_memory 0x1000) =
    (Panic "EXCEPTION: PAGE FAULT", t).
Proof.
  assert (Program_at (image_memory 0x1000) (image + 64) =
    mkProgram 1 0xeeeeeeee 0x100 0x400000 0xeeeeeeeeeeeeeeee 4 0x1000 0xeeeeeeeeeeeeeeee) as Hp
    by (by vm_compute).
  set (run := map_user_range 0x400000 0x400fff (image_space, image_memory 0x1000)).
  destruct (@map_user_range_done num_addr num_addr_laws table_mapper _ simple_mapper_laws counter
    _ _ counter_source_laws 0x400000 0x400fff image_space (image_memory 0x1000))
    as (r & x' & E & _); [by_decide|by_decide|exact image_space_ok|exact image_space_safe|].
  assert (Done r = Done (ROk ())) as [= ->].
  { transitivity run.1; [unfold run; by rewrite E|by vm_compute]. }
  apply (@over_read_faults debug_profile num_addr num_addr_laws table_mapper _ simple_mapper_laws
    counter _ _ counter_source_laws image_space (image_memory 0x1000) image (image + 64) x' 0xf00).
  - exact image_space_ok.
  - exact image_space_safe.
  - apply image_readable; unfold Program_size; lia.
  - by rewrite Hp.
  - rewrite Hp. split; [|split; [|split]]; by_decide.
  - rewrite Hp. by_decide.
  - rewrite Hp. by_decide.
  - rewrite Hp. cbn [p_offset]. apply image_readable; unfold image; lia.
  - rewrite Hp. exact E.
  - rewrite Hp. transitivity (page_present run.2.1.1 (page_of (image + 0x100 + 0xf00)));
      [unfold run; by rewrite E|by vm_compute].
Defined.

Lemma loader_window_deadlock_witness :
  ∃ s1 s2 s3, load_and_push image 7 0x202 (boot_kernel 8) = (Done (ROk ()), s1) ∧
    on ks_sched_lens (schedule 0xffff80000000ff00) s1 = (Done 0x1fc008, s2) ∧
    anon_allocate_syscall 0 4096 0x1ff000 s2 = (Hang, s3).
Proof.
  destruct (@load_image_done debug_profile num_addr num_addr_laws num_segment num_segment_laws
    table_mapper _ simple_mapper_laws counter _ _ counter_source_laws image_space (image_memory 8)
    image 0x202) as (r & x' & m' & E & _);
    [exact image_space_ok|exact image_space_safe|exact small_image_ok|by_decide|].
  assert (Done r = Done (ROk ())) as [= ->].
  { transitivity (load_image image 0x202 (image_space, image_memory 8)).1; [by rewrite E|].
    by vm_compute. }
  destruct (@loader_window_deadlock debug_profile num_addr num_addr_laws num_segment
    option _ option_cell_laws bool _ _ bit_lock_laws _ count_rw_lock_laws
    table_mapper _ counter _ list_queue 0 image 7 0x202
    boot_process image_space (image_memory 8) (boot_kernel 8) 0xffff80000000ff00 4096 0x1ff000
    (ROk ()) x' m') as (s1 & s2 & s3 & E1 & E2 & E3 & _).
  - exact (boot_kernel_idle 8).
  - reflexivity.
  - exact E.
  - reflexivity.
  - split; [by_decide|split; [done|split; by_decide]].
  - exists s1, s2, s3. split; [exact E1|]. split; [exact E2|exact E3].
Defined.
