(* ===== verification/Gdt.v ===== *)
(** * Segments and stacks: kernel/src/gdt.rs. *)

From S2P Require Import Prelude Crates.

Local Open Scope Z_scope.

Definition DOUBLE_FAULT_IST_INDEX : Z := 0.

Record Selectors := mkSelectors {
  code_selector : Z;
  data_selector : Z;
  tss_selector : Z;
  user_data_selector : Z;
  user_code_selector : Z;
}.

(** The registers that [init] loads; [GDTR] is the loaded table. *)
Record segments (G : Type) := mkSegs {
  GDTR : option G;
  seg_CS : Z;
  seg_ES : Z;
  seg_SS : Z;
  seg_DS : Z;
  seg_FS : Z;
  seg_GS : Z;
  TR : Z;
}.
Arguments mkSegs {G} _ _ _ _ _ _ _ _.
Arguments GDTR {G} _.
Arguments seg_CS {G} _.
Arguments seg_ES {G} _.
Arguments seg_SS {G} _.
Arguments seg_DS {G} _.
Arguments seg_FS {G} _.
Arguments seg_GS {G} _.
Arguments TR {G} _.

Section gdt.
Context `{X86Addr} {D G : Type} `{GdtApi D G}.

Definition STACK_SIZE : Z := 4096 * 5.

(** [stack0] and [stack1] are the addresses at which the two [STACK]s are linked. *)
Definition TSS (stack0 stack1 : Z) : outcome TaskStateSegment :=
  let tss := TaskStateSegment_new in
  stack_start ← VirtAddr_new stack0;
  top ← VirtAddr_add stack_start STACK_SIZE;
  let tss := mkTss (<[0%nat := top]> (privilege_stack_table tss)) (interrupt_stack_table tss) in
  stack_start ← VirtAddr_new stack1;
  top ← VirtAddr_add stack_start STACK_SIZE;
  mret (mkTss (privilege_stack_table tss)
    (<[Z.to_nat DOUBLE_FAULT_IST_INDEX := top]> (interrupt_stack_table tss))).

Definition append (d : D) : M G Z := λ g, gdt_append d g.

Definition GDT (stack0 stack1 : Z) : outcome (G * Selectors) :=
  tss ← TSS stack0 stack1;
  let '(selectors, gdt) :=
    (code ← append kernel_code_segment;
     data ← append kernel_data_segment;
     tss ← append (tss_segment tss);
     user_data ← append user_data_segment;
     user_code ← append user_code_segment;
     mret (mkSelectors code data tss user_data user_code)) gdt_new in
  selectors ← selectors;
  mret (gdt, selectors).

(** [gdt] is the value of [GDT], computed when it is first used. *)
Definition init (gdt : outcome (G * Selectors)) : M (segments G) () :=
  g ← liftO gdt;
  let sel := g.2 in
  modify_state (λ s, mkSegs (Some g.1) (seg_CS s) (seg_ES s) (seg_SS s) (seg_DS s) (seg_FS s)
                            (seg_GS s) (TR s));;
  modify_state (λ s, mkSegs (GDTR s) (code_selector sel) (seg_ES s) (seg_SS s) (seg_DS s)
                            (seg_FS s) (seg_GS s) (TR s));;
  modify_state (λ s, mkSegs (GDTR s) (seg_CS s) (data_selector sel) (data_selector sel)
                            (data_selector sel) (data_selector sel) (data_selector sel) (TR s));;
  modify_state (λ s, mkSegs (GDTR s) (seg_CS s) (seg_ES s) (seg_SS s) (seg_DS s) (seg_FS s)
                            (seg_GS s) (tss_selector sel)).

End gdt.
