(* ===== verification/SyscallInit.v ===== *)
(** * Enabling system calls: [init] of kernel/src/syscall.rs. *)

From S2P Require Import Prelude Crates Statics Gdt.

Local Open Scope Z_scope.

(** The model-specific registers it writes.  [STAR] is kept as the two bases. *)
Record msrs := mkMsrs { EFER : Z; LSTAR : Z; STAR : Z * Z; FS_BASE : Z }.

Section init.
Context `{BuildProfile} `{X86Addr} `{StarApi} {C : Type → Type} `{OnceCell C}.
Context {L : Type} `{RawLock L} {FA : Type}.

(** [syscall_entry] is the address at which that function is linked and [sel] the second
    component of [GDT]. *)
Definition init (syscall_entry : Z) (sel : Selectors) (frame_allocator : locked L FA) :
    M (msrs * C (locked L FA)) () :=
  on fst_lens (modify_state (λ r, mkMsrs (Z.lor (EFER r) 1) (LSTAR r) (STAR r) (FS_BASE r)));;
  entry ← liftO (VirtAddr_new syscall_entry);
  on fst_lens (modify_state (λ r, mkMsrs (EFER r) entry (STAR r) (FS_BASE r)));;
  (match Star_write (user_code_selector sel) (user_data_selector sel)
                    (code_selector sel) (data_selector sel) with
   | ROk star => on fst_lens (modify_state (λ r, mkMsrs (EFER r) (LSTAR r) star (FS_BASE r)))
   | RErr _ => panic "called `Result::unwrap()` on an `Err` value"
   end);;
  fs ← liftO (VirtAddr_new 0x1fc000);
  on fst_lens (modify_state (λ r, mkMsrs (EFER r) (LSTAR r) (STAR r) fs));;
  r ← on snd_lens (call (cell_try_init_once frame_allocator));
  match r with
  | ROk _ => mret ()
  | RErr _ => panic "called `Result::unwrap()` on an `Err` value"
  end.

End init.
