(* ===== verification/GdtSafety.v ===== *)
(** * The segments agree: the table, the selectors that the scheduler and the loader write
    down as numbers, and what [syscall] and [sysret] load. *)

From S2P Require Import Prelude Crates CrateModels Statics Gdt SyscallInit.

Local Open Scope Z_scope.

Section gdt.
Context `{X86AddrLaws} {D G : Type} `{GdtLaws D G}.

Definition stack_ok (stack : Z) : Prop :=
  0 ≤ stack ∧ stack + STACK_SIZE < 2 ^ 64 ∧ canonical stack ∧ canonical (stack + STACK_SIZE).

Lemma TSS_done stack0 stack1 :
  stack_ok stack0 → stack_ok stack1 →
  TSS stack0 stack1 = Done (mkTss [stack0 + STACK_SIZE; 0; 0]
                                  [stack1 + STACK_SIZE; 0; 0; 0; 0; 0; 0]).
Proof.
  intros (? & ? & ? & ?) (? & ? & ? & ?). unfold TSS, STACK_SIZE in *.
  repeat first [rewrite VirtAddr_new_canonical by (unfold in_u64; (done || lia))
               |rewrite VirtAddr_add_canonical by (unfold in_u64; (done || lia))
               |progress simpl].
  reflexivity.
Qed.

Definition boot_selectors : Selectors :=
  mkSelectors (SegmentSelector_new 1 Ring0) (SegmentSelector_new 2 Ring0)
    (SegmentSelector_new 3 Ring0) (SegmentSelector_new 5 Ring3) (SegmentSelector_new 6 Ring3).

(** One [append]: the new entry's selector, and the slots behind it. *)
Ltac append_step lem :=
  match goal with
  | Hg : gdt_slots ?g = _ |- context [(append ?d ≫= _) ?g] =>
      let E := fresh in let Hg' := fresh in
      destruct (lem g) as (? & E & Hg'); [rewrite Hg; simpl; unfold gdt_max; lia|];
      rewrite Hg in E, Hg'; simpl in E, Hg';
      rewrite (mbind_done _ _ _ _ _ (E : append d g = _)); clear Hg E
  end.

Lemma GDT_done stack0 stack1 :
  stack_ok stack0 → stack_ok stack1 →
  ∃ g tss, GDT stack0 stack1 = Done (g, boot_selectors) ∧ TSS stack0 stack1 = Done tss ∧
    gdt_slots g = [None; Some kernel_code_segment; Some kernel_data_segment;
                   Some (tss_segment tss); None;
                   Some user_data_segment; Some user_code_segment].
Proof.
  intros H0' H1'. unfold GDT. rewrite (TSS_done _ _ H0' H1'). cbn [mbind outcome_bind].
  set (tss := mkTss _ _). pose proof gdt_slots_new as Hnew.
  append_step (λ g, gdt_append_kernel kernel_code_segment g (or_introl eq_refl)).
  append_step (λ g, gdt_append_kernel kernel_data_segment g (or_intror eq_refl)).
  append_step (gdt_append_tss tss).
  append_step (λ g, gdt_append_user user_data_segment g (or_intror eq_refl)).
  append_step (λ g, gdt_append_user user_code_segment g (or_introl eq_refl)).
  eexists _, tss. split; [reflexivity|]. split; [reflexivity|done].
Qed.

End gdt.

(** ** The claims *)

Section claims.
Context `{X86AddrLaws} {D G : Type} `{GdtLaws D G, !X86SegmentLaws}.

(** The selector's index is the place of the descriptor in the table. *)
Definition selects (g : G) (sel : Z) (d : D) : Prop :=
  gdt_slots g !! Z.to_nat (sel / 8) = Some (Some d).

(** C17: the boot code loads a table in which every selector finds its own segment: code and
    data of the kernel in the segment registers, the task segment in TR, and behind them the
    user segments with privilege level 3; the task segment gives interrupts from user mode and
    double faults a stack each. *)
Theorem gdt_init_loads_segments stack0 stack1 s :
  stack_ok stack0 → stack_ok stack1 →
  ∃ g sel tss s', GDT stack0 stack1 = Done (g, sel) ∧
    Gdt.init (GDT stack0 stack1) s = (Done (), s') ∧ GDTR s' = Some g ∧
    selects g (seg_CS s') kernel_code_segment ∧ selects g (TR s') (tss_segment tss) ∧
    (∀ r, r ∈ [seg_ES; seg_SS; seg_DS; seg_FS; seg_GS] → selects g (r s') kernel_data_segment) ∧
    selects g (user_code_selector sel) user_code_segment ∧ user_code_selector sel mod 4 = 3 ∧
    selects g (user_data_selector sel) user_data_segment ∧ user_data_selector sel mod 4 = 3 ∧
    privilege_stack_table tss !! 0%nat = Some (stack0 + STACK_SIZE) ∧
    interrupt_stack_table tss !! Z.to_nat DOUBLE_FAULT_IST_INDEX = Some (stack1 + STACK_SIZE).
Proof.
  intros Hs0 Hs1. destruct (GDT_done stack0 stack1 Hs0 Hs1) as (g & tss & E & Etss & Hg).
  rewrite (TSS_done _ _ Hs0 Hs1) in Etss. injection Etss as <-.
  eexists g, boot_selectors, _, _. split; [exact E|]. split.
  { unfold Gdt.init. rewrite E. reflexivity. }
  unfold selects, boot_selectors. cbn [GDTR seg_CS TR user_code_selector user_data_selector
    code_selector data_selector tss_selector].
  rewrite Hg, !SegmentSelector_new_spec by by_decide. split_and!; try reflexivity.
  intros r Hr. repeat (apply elem_of_cons in Hr as [->|Hr]; [reflexivity|]).
  by apply elem_of_nil in Hr.
Qed.

Context `{StarLaws} {C : Type → Type} `{OnceCellLaws C} {L : Type} `{RawLock L} {FA : Type}.

(** What [init] of syscall.rs writes. *)
Definition syscall_msrs (syscall_entry : Z) (r : msrs) : msrs :=
  mkMsrs (Z.lor (EFER r) 1) syscall_entry
    (SegmentSelector_new 5 Ring3 - 8, SegmentSelector_new 1 Ring0) 0x1fc000.

Lemma syscall_init_run syscall_entry fa r (c : C (locked L FA)) :
  in_u64 syscall_entry → canonical syscall_entry →
  SyscallInit.init syscall_entry boot_selectors fa (r, c) =
    (if cell_get c is Some _ then Panic "called `Result::unwrap()` on an `Err` value"
     else Done (), (syscall_msrs syscall_entry r, cell_init_once fa c)) ∧
  cell_get (cell_init_once fa c) = Some (default fa (cell_get c)).
Proof.
  intros Hin Hcan. split; [|apply cell_get_init_once].
  unfold SyscallInit.init, boot_selectors.
  cbn [code_selector data_selector user_code_selector user_data_selector].
  assert (Star_write (SegmentSelector_new 6 Ring3) (SegmentSelector_new 5 Ring3)
    (SegmentSelector_new 1 Ring0) (SegmentSelector_new 2 Ring0) =
    ROk (SegmentSelector_new 5 Ring3 - 8, SegmentSelector_new 1 Ring0)) as ->.
  { apply Star_write_ok; rewrite !SegmentSelector_new_spec by by_decide; by_decide. }
  rewrite !VirtAddr_new_canonical by (done || by_decide).
  unfold call, on, zoom, modify_state, liftO, mbind, M_bind. simpl.
  rewrite (cell_get_try_init_once _ fa c). destruct (cell_get c); reflexivity.
Qed.

(** C15: system calls are enabled with consistent segments: [syscall] enters the kernel's code
    and data segments, the selectors of a kernel thread, and [sysret] goes back to those that a
    user process is started with; the frame allocator is published, and a second call stops
    the kernel. *)
Theorem syscall_init_selectors_agree stack0 stack1 syscall_entry fa r (c : C (locked L FA)) :
  stack_ok stack0 → stack_ok stack1 → in_u64 syscall_entry → canonical syscall_entry →
  ∃ g sel r' c' o, GDT stack0 stack1 = Done (g, sel) ∧
    SyscallInit.init syscall_entry sel fa (r, c) = (o, (r', c')) ∧
    o = (if cell_get c is Some _ then Panic "called `Result::unwrap()` on an `Err` value"
         else Done ()) ∧
    cell_get c' = Some (default fa (cell_get c)) ∧
    Z.testbit (EFER r') 0 = true ∧ LSTAR r' = syscall_entry ∧
    (STAR r').1 + 16 = SegmentSelector_new 6 Ring3 ∧ (STAR r').1 + 8 = SegmentSelector_new 5 Ring3 ∧
    (STAR r').2 = SegmentSelector_new 1 Ring0 ∧ (STAR r').2 + 8 = SegmentSelector_new 2 Ring0.
Proof.
  intros Hs0 Hs1 Hin Hcan. destruct (GDT_done stack0 stack1 Hs0 Hs1) as (g & _ & E & _ & _).
  exists g, boot_selectors.
  destruct (syscall_init_run syscall_entry fa r c Hin Hcan) as [Er Hc].
  eexists _, _, _. split; [exact E|]. split; [exact Er|].
  split; [reflexivity|split; [exact Hc|]]. unfold syscall_msrs.
  cbn [EFER LSTAR STAR fst snd]. rewrite !SegmentSelector_new_spec by by_decide.
  split; [by rewrite Z.lor_spec, orb_true_r|]. by split_and!.
Qed.

End claims.

#[local] Existing Instance debug_profile.
#[local] Existing Instance num_addr.
#[local] Existing Instance num_segment.
#[local] Existing Instance list_gdt.
#[local] Existing Instance pair_star.
#[local] Existing Instance option_cell.

Definition reset_segments : segments (list (option num_desc)) := mkSegs None 8 16 16 16 16 16 0.

Lemma linked_stacks_ok : stack_ok 0xffffffff80100000 ∧ stack_ok 0xffffffff80105000.
Proof. split; (split; [by_decide|split; [by_decide|split; by_decide]]). Qed.

Lemma gdt_init_loads_segments_witness :
  ∃ s', Gdt.init (GDT 0xffffffff80100000 0xffffffff80105000) reset_segments = (Done (), s') ∧
    seg_CS s' = 8 ∧ TR s' = 24.
Proof.
  destruct (@gdt_init_loads_segments num_addr num_addr_laws num_desc _ list_gdt num_segment
    list_gdt_laws num_segment_laws 0xffffffff80100000 0xffffffff80105000 reset_segments
    (proj1 linked_stacks_ok) (proj2 linked_stacks_ok)) as (g & sel & tss & s' & _ & E & _).
  exists s'. split; [exact E|].
  assert (s' = (Gdt.init (GDT 0xffffffff80100000 0xffffffff80105000) reset_segments).2) as ->
    by (by rewrite E).
  by vm_compute.
Defined.

Lemma syscall_init_selectors_agree_witness :
  ∃ r' c', SyscallInit.init 0xffffffff80001000 (mkSelectors 8 16 24 43 51) (Locked false 5)
      (mkMsrs 0x500 0 (0, 0) 0, None) = (Done (), (r', c')) ∧
    c' = Some (Locked false 5) ∧ STAR r' = (35, 8).
Proof.
  destruct (@syscall_init_selectors_agree num_addr num_addr_laws num_desc _ list_gdt num_segment
    list_gdt_laws num_segment_laws pair_star pair_star_laws option _ option_cell_laws bool Z
    0xffffffff80100000 0xffffffff80105000 0xffffffff80001000 (Locked false 5)
    (mkMsrs 0x500 0 (0, 0) 0) None (proj1 linked_stacks_ok) (proj2 linked_stacks_ok))
    as (g & sel & r' & c' & o & Eg & E & -> & Hc & _ & _ & H1 & _ & H2 & _); [by_decide|by_decide|].
  assert (sel = mkSelectors 8 16 24 43 51) as ->.
  { vm_compute in Eg. by injection Eg as _ <-. }
  exists r', c'. split; [exact E|]. split; [exact Hc|].
  destruct (STAR r') as [b1 b2]. vm_compute in H2. cbn [fst snd] in *.
  change (SegmentSelector_new 6 Ring3) with 51 in H1. f_equal; [lia|exact H2].
Defined.
