(* ===== verification/Apic.v ===== *)
(** * Setting up the interrupt controllers: [init_apic] (kernel/src/int.rs).

    The legacy PICs and the PIT are reached through ports: the trace of port accesses is part
    of the state, and what the reads return is given beforehand.  The registers of the local
    APIC are the array behind [LAPIC]; an I/O APIC is a pair of a selector and a window. *)

From S2P Require Import Prelude Crates Statics Mapping Paging ContextSwitch Pipe.

Local Open Scope Z_scope.

(** ** [InterruptIndex] *)

Inductive InterruptIndex := Timer | Keyboard | LapicError | Spurious.
#[export] Instance InterruptIndex_eq_dec : EqDecision InterruptIndex.
Proof. solve_decision. Defined.

(** [as_u8] and [as_u32]. *)
Definition as_u32 (i : InterruptIndex) : Z :=
  match i with Timer => 32 | Keyboard => 33 | LapicError => 34 | Spurious => 0xFF end.

(** ** The devices *)

Inductive port_event := Out (port v : Z) | In (port v : Z).
#[export] Instance port_event_eq_dec : EqDecision port_event.
Proof. solve_decision. Defined.

(** An I/O APIC: the index in [ioregsel] and the registers seen through [ioregwin]. *)
Record io_apic_dev := mkIoApicDev { ioa_sel : Z; ioa_regs : Z → Z }.

(** The acpi crate's [IoApic] and [InterruptModel]. *)
Record IoApic := mkIoApic { ioa_address : Z; global_system_interrupt_base : Z }.
Inductive InterruptModel :=
  | UnknownModel
  | ApicModel (local_apic_address : Z) (io_apics : list IoApic).

(** [ap_inputs]: what the coming port reads return.  [ap_devs]: the I/O APICs by the pointer
    to their selector. *)
Record apic_state (C : Type → Type) (L MP Q : Type) : Type := mkApic {
  ap_mapper : locked L MP;
  ap_LAPIC : C (locked L (list Z));
  ap_ports : list port_event;
  ap_inputs : list Z;
  ap_devs : gmap Z io_apic_dev;
  ap_INPUT_PIPE : C (Pipe Q);
}.
Arguments mkApic {C L MP Q} _ _ _ _ _ _.
Arguments ap_mapper {C L MP Q} _.
Arguments ap_LAPIC {C L MP Q} _.
Arguments ap_ports {C L MP Q} _.
Arguments ap_inputs {C L MP Q} _.
Arguments ap_devs {C L MP Q} _.
Arguments ap_INPUT_PIPE {C L MP Q} _.

Definition add32 `{BuildProfile} (a b : Z) : outcome Z :=
  if decide (a + b < 2 ^ 32) then Done (a + b)
  else if overflow_checks then Panic "attempt to add with overflow"
  else Done ((a + b) mod 2 ^ 32).

Definition sub32 `{BuildProfile} (a b : Z) : outcome Z :=
  if decide (b ≤ a) then Done (a - b)
  else if overflow_checks then Panic "attempt to subtract with overflow"
  else Done ((a - b) mod 2 ^ 32).

(** [try_into::<u8>().unwrap()] *)
Definition try_into_u8 (x : Z) : outcome Z :=
  if decide (x < 256) then Done x
  else Panic "called `Result::unwrap()` on an `Err` value".

Section apic.
Context `{BuildProfile} {C : Type → Type} `{OnceCell C} {L : Type} `{RawLock L}.
Context {MP : Type} `{Mapper MP} {Q : Type} `{ArrayQueueApi Q}.

Abbreviation S := (apic_state C L MP Q).

Definition ap_mapper_lens : lens S (locked L MP) :=
  Lens ap_mapper (λ x s, mkApic x (ap_LAPIC s) (ap_ports s) (ap_inputs s) (ap_devs s)
                                (ap_INPUT_PIPE s)).
Definition ap_LAPIC_lens : lens S (C (locked L (list Z))) :=
  Lens ap_LAPIC (λ x s, mkApic (ap_mapper s) x (ap_ports s) (ap_inputs s) (ap_devs s)
                               (ap_INPUT_PIPE s)).
Definition ap_devs_lens : lens S (gmap Z io_apic_dev) :=
  Lens ap_devs (λ x s, mkApic (ap_mapper s) (ap_LAPIC s) (ap_ports s) (ap_inputs s) x
                              (ap_INPUT_PIPE s)).
Definition ap_INPUT_PIPE_lens : lens S (C (Pipe Q)) :=
  Lens ap_INPUT_PIPE (λ x s, mkApic (ap_mapper s) (ap_LAPIC s) (ap_ports s) (ap_inputs s)
                                    (ap_devs s) x).

(** ** Ports *)

Definition port_write (port v : Z) : M S () :=
  modify_state (λ s, mkApic (ap_mapper s) (ap_LAPIC s) (ap_ports s ++ [Out port v])
                            (ap_inputs s) (ap_devs s) (ap_INPUT_PIPE s)).

(** When the inputs are used up the run is cut short. *)
Definition port_read (port : Z) : M S Z :=
  s ← get_state;
  match ap_inputs s with
  | [] => hang
  | v :: vs =>
      put_state (mkApic (ap_mapper s) (ap_LAPIC s) (ap_ports s ++ [In port v]) vs
                        (ap_devs s) (ap_INPUT_PIPE s));;
      mret v
  end.

Definition init_pic : M S () :=
  port_write 0x20 0x11;; port_write 0xA0 0x11;;
  port_write 0x21 0xF8;; port_write 0xA1 0xF0;;
  port_write 0x21 0x4;; port_write 0xA1 0x2;;
  port_write 0x21 0x1;; port_write 0xA1 0x1;;
  port_write 0x21 0xff;; port_write 0xA1 0xff.

Definition configure_pit : M S () :=
  v ← port_read 0x61;
  port_write 0x61 (Z.lor (Z.land v 0xfd) 1);;
  port_write 0x43 0xb2;;
  port_write 0x42 0x9b;;
  _ ← port_read 0x60;
  port_write 0x42 0x2e.

(** [while pit_61.read() & 0x20 == 0 {}]; each round takes one input. *)
Fixpoint pit_poll (fuel : nat) : M S () :=
  match fuel with
  | O => hang
  | Datatypes.S fuel =>
      v ← port_read 0x61;
      if decide (Z.land v 0x20 = 0) then pit_poll fuel else mret ()
  end.

Definition sleep_using_pit : M S () :=
  v ← port_read 0x61;
  let v := Z.land v 0xfe in
  port_write 0x61 v;;
  port_write 0x61 (Z.lor v 1);;
  s ← get_state;
  pit_poll (Datatypes.S (length (ap_inputs s))).

(** ** The local APIC *)

Definition lapic_read (i : nat) : M S Z :=
  regs ← on ap_LAPIC_lens guard_get;
  liftO (expect "index out of bounds" (regs !! i)).

Definition lapic_write (i : nat) (v : Z) : M S () :=
  on ap_LAPIC_lens (guard_modify <[i := v]>).

(** What the hardware does to the register of the current count while [sleep_using_pit]
    runs. *)
Definition timer_counts (current_count : Z) : M S () :=
  on ap_LAPIC_lens (guard_modify <[228%nat := current_count]>).

(** [current_count]: what the timer has counted down to when it is stopped. *)
Definition init_lapic (current_count : Z) : M S () :=
  lapic_write 56 0xFFFFFFFF;;
  ldr ← lapic_read 52;
  lapic_write 52 (Z.lor (Z.land ldr 0xFFFFFF) 1);;
  lapic_write 200 0x10000;;
  lapic_write 208 (Z.lor (Z.shiftl 4 8) (Z.shiftl 1 16));;
  lapic_write 212 0x10000;;
  lapic_write 216 0x10000;;
  lapic_write 32 0;;
  lapic_write 220 (Z.lor (as_u32 LapicError) 0x100);;
  lapic_write 60 (Z.lor (as_u32 Spurious) 0x100);;
  lapic_write 200 (as_u32 Timer);;
  lapic_write 248 3;;
  configure_pit;;
  lvt ← lapic_read 200;
  lapic_write 200 (Z.lor lvt 0x10000);;
  lapic_write 224 0xffffffff;;
  sleep_using_pit;;
  timer_counts current_count;;
  lapic_write 200 0x10000;;
  count ← lapic_read 228;
  ticks_in_10ms ← liftO (sub32 0xffffffff count);
  lapic_write 200 (Z.lor (as_u32 Timer) 0x20000);;
  lapic_write 248 3;;
  lapic_write 224 ticks_in_10ms.

(** ** The I/O APICs *)

(** [*ioregsel = v], [*ioregwin] and [*ioregwin = v]; the window of the device at [p] is
    16 bytes behind its selector. *)
Definition set_ioregsel (sel v : Z) : M S () :=
  on ap_devs_lens (modify_state (alter (λ d, mkIoApicDev v (ioa_regs d)) sel)).

Definition get_ioregwin (win : Z) : M S Z :=
  devs ← on ap_devs_lens get_state;
  match devs !! (win - 16) with
  | None => liftO Ub
  | Some d => mret (ioa_regs d (ioa_sel d))
  end.

Definition set_ioregwin (win v : Z) : M S () :=
  on ap_devs_lens (modify_state (alter (λ d,
    mkIoApicDev (ioa_sel d) (λ r, if decide (r = ioa_sel d) then v else ioa_regs d r))
    (win - 16))).

Definition init_io_apic (local_apic_id : Z) (io_apic : IoApic) : M S () :=
  sel ← on ap_mapper_lens (get_virtual_address (ioa_address io_apic));
  win_address ← liftO (add32 (ioa_address io_apic) 16);
  win ← on ap_mapper_lens (get_virtual_address win_address);
  set_ioregsel sel 1;;
  version ← get_ioregwin win;
  last ← liftO (sub32 (Z.land (Z.shiftr version 16) 0xFF) 1);
  num_of_irqs ← liftO (try_into_u8 last);
  for_each (λ i,
    set_ioregsel sel (0x10 + i * 2);;
    set_ioregwin win (Z.shiftl 1 16);;
    set_ioregsel sel (0x11 + i * 2);;
    set_ioregwin win 0) (seqZ 0 num_of_irqs);;
  if decide (global_system_interrupt_base io_apic = 0) then
    set_ioregsel sel 0x12;;
    set_ioregwin win (as_u32 Keyboard);;
    set_ioregsel sel 0x13;;
    set_ioregwin win (Z.shiftl local_apic_id 24 mod 2 ^ 32)
  else mret ().

(** [lapic_regs]: the 252 registers of the local APIC as the pointer shows them. *)
Definition init_apic (model : InterruptModel) (lapic_regs : list Z) (current_count : Z) : M S () :=
  init_pic;;
  match model with
  | UnknownModel => panic "Interrupt Model is not APIC"
  | ApicModel local_apic_address io_apics =>
      _ ← on ap_mapper_lens (get_virtual_address local_apic_address);
      on ap_LAPIC_lens (modify_state (cell_init_once (Locked lock_free lapic_regs)));;
      on ap_LAPIC_lens static_acquire;;
      init_lapic current_count;;
      local_apic_id ← lapic_read 8;
      for_each (init_io_apic local_apic_id) io_apics;;
      pipe ← liftO (Pipe_new 128);
      s ← get_state;
      let '(r, c) := cell_try_init_once pipe (ap_INPUT_PIPE s) in
      on ap_INPUT_PIPE_lens (put_state c);;
      (match r with
       | ROk _ => mret ()
       | RErr _ => panic "called `Result::unwrap()` on an `Err` value"
       end);;
      on ap_LAPIC_lens static_release
  end.

End apic.
