(* ===== verification/ApicSpec.v ===== *)
(** * What [init_apic] leaves in the interrupt controllers. *)

From stdpp Require Import list_numbers.
From S2P Require Import Prelude Crates CrateModels Statics Mapping MapperModel Paging.
From S2P Require Import SchedSpec ContextSwitch Pipe Apic.

Local Open Scope Z_scope.

Section spec.
Context `{BuildProfile} {C : Type → Type} `{OnceCellLaws C} {L : Type} `{RawLockLaws L}.
Context {MP : Type} `{Mapper MP} {Q : Type} `{ArrayQueueLaws Q}.
Implicit Types s : apic_state C L MP Q.

(** The state by its parts: the lock and the registers of the local APIC, the ports, the
    inputs to come and the I/O APICs; the mapper [mp] is free. *)
Record apic_is (mp : MP) (lapic : option (locked L (list Z))) (ports : list port_event) (inputs : list Z)
    (devs : gmap Z io_apic_dev) (pipe : C (Pipe Q)) s : Prop := {
  ai_mapper : ap_mapper s = Locked lock_free mp;
  ai_lapic : cell_get (ap_LAPIC s) = lapic;
  ai_ports : ap_ports s = ports;
  ai_inputs : ap_inputs s = inputs;
  ai_devs : ap_devs s = devs;
  ai_pipe : ap_INPUT_PIPE s = pipe;
}.

(** ** Single accesses *)

Lemma port_write_done p v mp lp po inp devs pipe s :
  apic_is mp lp po inp devs pipe s →
  ∃ s', port_write p v s = (Done (), s') ∧ apic_is mp lp (po ++ [Out p v]) inp devs pipe s'.
Proof.
  intros [Hm Hl Hp Hi Hd Hpi]. eexists. split; [reflexivity|].
  split; [exact Hm|exact Hl| |exact Hi|exact Hd|exact Hpi]. simpl. by rewrite Hp.
Qed.

Lemma port_read_done p v mp lp po inp devs pipe s :
  apic_is mp lp po (v :: inp) devs pipe s →
  ∃ s', port_read p s = (Done v, s') ∧ apic_is mp lp (po ++ [In p v]) inp devs pipe s'.
Proof.
  intros [Hm Hl Hp Hi Hd Hpi]. unfold port_read. rewrite get_bind, Hi.
  eexists. split; [reflexivity|].
  split; [exact Hm|exact Hl| |reflexivity|exact Hd|exact Hpi]. simpl. by rewrite Hp.
Qed.

Lemma lapic_write_done i v mp l regs po inp devs pipe s :
  apic_is mp (Some (Locked l regs)) po inp devs pipe s →
  ∃ s', lapic_write i v s = (Done (), s') ∧
        apic_is mp (Some (Locked l (<[i := v]> regs))) po inp devs pipe s'.
Proof.
  intros [Hm Hl Hp Hi Hd Hpi].
  destruct (guard_modify_done <[i := v]> l regs _ Hl) as (c & E & Hc).
  eexists. split; [by apply (on_done ap_LAPIC_lens)|]. by split.
Qed.

Lemma lapic_read_done i v mp l regs po inp devs pipe s :
  apic_is mp (Some (Locked l regs)) po inp devs pipe s → regs !! i = Some v →
  lapic_read i s = (Done v, s).
Proof.
  intros [Hm Hl Hp Hi Hd Hpi] Hv. unfold lapic_read.
  rewrite (mbind_done _ _ _ _ _ (on_done ap_LAPIC_lens _ s _ _ (guard_get_done _ _ _ Hl))).
  rewrite Hv. by destruct s.
Qed.

Lemma lapic_lock_step st l l' mp regs po inp devs pipe s :
  apic_is mp (Some (Locked l regs)) po inp devs pipe s → st l = Some l' →
  ∃ s', on ap_LAPIC_lens (static_step st) s = (Done (), s') ∧
        apic_is mp (Some (Locked l' regs)) po inp devs pipe s'.
Proof.
  intros [Hm Hl Hp Hi Hd Hpi] Hst. destruct (static_step_done st l l' regs _ Hl Hst) as (c & E & Hc).
  eexists. split; [by apply (on_done ap_LAPIC_lens)|]. by split.
Qed.

(** ** The PIC and the PIT *)

Definition pic_trace : list port_event :=
  [Out 0x20 0x11; Out 0xA0 0x11; Out 0x21 0xF8; Out 0xA1 0xF0; Out 0x21 0x4; Out 0xA1 0x2;
   Out 0x21 0x1; Out 0xA1 0x1; Out 0x21 0xff; Out 0xA1 0xff].

(** Appending event by event. *)
Lemma trace_snoc (po tr : list port_event) e : (po ++ tr) ++ [e] = po ++ (tr ++ [e]).
Proof. by rewrite <-app_assoc. Qed.

(** Run the next access, whose arguments are in the goal. *)
Ltac out_step Hs :=
  match goal with
  | |- context [(port_write ?p ?v ≫= _) _] =>
      sstep Hs (port_write_done p v _ _ _ _ _ _ _ Hs)
  end.
Ltac in_step Hs :=
  match goal with
  | |- context [(port_read ?p ≫= _) _] => sstep Hs (port_read_done p _ _ _ _ _ _ _ _ Hs)
  end.
Ltac lapic_step Hs :=
  match goal with
  | |- context [(lapic_write ?i ?v ≫= _) _] =>
      sstep Hs (lapic_write_done i v _ _ _ _ _ _ _ _ Hs)
  end.

Lemma init_pic_done mp lp po inp devs pipe s :
  apic_is mp lp po inp devs pipe s →
  ∃ s', init_pic s = (Done (), s') ∧ apic_is mp lp (po ++ pic_trace) inp devs pipe s'.
Proof.
  intros Hs. unfold init_pic. rewrite <-(app_nil_r po) in Hs.
  do 9 (out_step Hs; rewrite trace_snoc in Hs).
  destruct (port_write_done 0xA1 0xff _ _ _ _ _ _ _ Hs) as (s' & E & Hs').
  exists s'. split; [exact E|]. by rewrite trace_snoc in Hs'.
Qed.

Lemma pit_poll_done polls last rest mp lp po devs pipe fuel s :
  apic_is mp lp po (polls ++ last :: rest) devs pipe s →
  Forall (λ v, Z.land v 0x20 = 0) polls → Z.land last 0x20 ≠ 0 → (length polls < fuel)%nat →
  ∃ s', pit_poll fuel s = (Done (), s') ∧
    apic_is mp lp (po ++ (In 0x61 <$> polls) ++ [In 0x61 last]) rest devs pipe s'.
Proof.
  revert fuel po s. induction polls as [|v polls IH]; intros [|fuel] po s Hs Hp Hl Hf;
    try (simpl in Hf; lia); cbn [pit_poll app] in *.
  - in_step Hs. rewrite decide_False by exact Hl.
    eexists. split; [reflexivity|]. exact Hs.
  - apply Forall_cons in Hp as [Hv Hp]. in_step Hs. rewrite decide_True by exact Hv.
    destruct (IH fuel _ _ Hs Hp Hl) as (s' & E & Hs'); [simpl in Hf; lia|].
    exists s'. split; [exact E|]. by rewrite <-app_assoc in Hs'.
Qed.

(** As long as the bit is not set it waits. *)
Lemma pit_poll_waits polls mp lp po devs pipe fuel s :
  apic_is mp lp po polls devs pipe s → Forall (λ v, Z.land v 0x20 = 0) polls →
  ∃ s', pit_poll fuel s = (Hang, s').
Proof.
  revert fuel po s. induction polls as [|v polls IH]; intros [|fuel] po s Hs Hp; cbn [pit_poll].
  - by eexists.
  - destruct Hs as [? ? ? Hi ? ?]. eexists. apply mbind_hang. unfold port_read.
    rewrite get_bind, Hi. reflexivity.
  - by eexists.
  - apply Forall_cons in Hp as [Hv Hp]. in_step Hs. rewrite decide_True by exact Hv.
    by apply (IH fuel _ _ Hs).
Qed.

Definition configure_trace (v1 v60 : Z) : list port_event :=
  [In 0x61 v1; Out 0x61 (Z.lor (Z.land v1 0xfd) 1); Out 0x43 0xb2; Out 0x42 0x9b; In 0x60 v60;
   Out 0x42 0x2e].

Definition sleep_trace (v2 : Z) (polls : list Z) (last : Z) : list port_event :=
  [In 0x61 v2; Out 0x61 (Z.land v2 0xfe); Out 0x61 (Z.lor (Z.land v2 0xfe) 1)] ++
  (In 0x61 <$> polls) ++ [In 0x61 last].

Lemma configure_pit_done v1 v60 mp lp po inp devs pipe s :
  apic_is mp lp po (v1 :: v60 :: inp) devs pipe s →
  ∃ s', configure_pit s = (Done (), s') ∧
    apic_is mp lp (po ++ configure_trace v1 v60) inp devs pipe s'.
Proof.
  intros Hs. unfold configure_pit. rewrite <-(app_nil_r po) in Hs.
  in_step Hs; rewrite trace_snoc in Hs. do 3 (out_step Hs; rewrite trace_snoc in Hs).
  in_step Hs; rewrite trace_snoc in Hs.
  destruct (port_write_done 0x42 0x2e _ _ _ _ _ _ _ Hs) as (s' & E & Hs').
  exists s'. split; [exact E|]. by rewrite trace_snoc in Hs'.
Qed.

Lemma sleep_using_pit_done v2 polls last rest mp lp po devs pipe s :
  apic_is mp lp po (v2 :: polls ++ last :: rest) devs pipe s →
  Forall (λ v, Z.land v 0x20 = 0) polls → Z.land last 0x20 ≠ 0 →
  ∃ s', sleep_using_pit s = (Done (), s') ∧
    apic_is mp lp (po ++ sleep_trace v2 polls last) rest devs pipe s'.
Proof.
  intros Hs Hp Hl. unfold sleep_using_pit. rewrite <-(app_nil_r po) in Hs.
  in_step Hs; rewrite trace_snoc in Hs. do 2 (out_step Hs; rewrite trace_snoc in Hs).
  rewrite get_bind, (ai_inputs _ _ _ _ _ _ _ Hs).
  destruct (pit_poll_done polls last rest _ _ _ _ _ (Datatypes.S (length (polls ++ last :: rest)))
    _ Hs Hp Hl) as (s' & E & Hs'); [rewrite length_app; lia|].
  exists s'. split; [exact E|]. by rewrite <-app_assoc in Hs'.
Qed.

(** ** The local APIC *)

(** The registers that [init_lapic] writes, with their final values. *)
Definition lapic_setup (ldr count : Z) : list (nat * Z) :=
  [(56%nat, 0xFFFFFFFF); (52%nat, Z.lor (Z.land ldr 0xFFFFFF) 1); (208%nat, 0x10400);
   (212%nat, 0x10000); (216%nat, 0x10000); (32%nat, 0); (220%nat, 0x122); (60%nat, 0x1FF);
   (248%nat, 3); (228%nat, count); (200%nat, 0x20020); (224%nat, 0xffffffff - count)].

(** The value of a register after a sequence of writes. *)
Ltac reg_lookup Hlen :=
  repeat first
    [ rewrite list_lookup_insert_eq by (rewrite ?length_insert, Hlen; lia); reflexivity
    | rewrite list_lookup_insert_ne by (done || lia) ].

Lemma init_lapic_done count v1 v60 v2 polls last rest ldr mp l regs po devs pipe s :
  apic_is mp (Some (Locked l regs)) po (v1 :: v60 :: v2 :: polls ++ last :: rest) devs pipe s →
  length regs = 252%nat → regs !! 52%nat = Some ldr → 0 ≤ count ≤ 0xffffffff →
  Forall (λ v, Z.land v 0x20 = 0) polls → Z.land last 0x20 ≠ 0 →
  ∃ s' regs', init_lapic count s = (Done (), s') ∧
    apic_is mp (Some (Locked l regs'))
      (po ++ configure_trace v1 v60 ++ sleep_trace v2 polls last) rest devs pipe s' ∧
    length regs' = 252%nat ∧
    (∀ i v, (i, v) ∈ lapic_setup ldr count → regs' !! i = Some v) ∧
    ∀ i, i ∉ (lapic_setup ldr count).*1 → regs' !! i = regs !! i.
Proof.
  intros Hs Hlen Hldr Hcount Hpolls Hlast. unfold init_lapic. lapic_step Hs.
  sget (lapic_read_done 52 ldr _ _ _ _ _ _ _ _ Hs ltac:(by rewrite list_lookup_insert_ne)).
  do 10 lapic_step Hs. sstep Hs (configure_pit_done _ _ _ _ _ _ _ _ _ Hs).
  sget (lapic_read_done 200 0x20 _ _ _ _ _ _ _ _ Hs
    ltac:(rewrite list_lookup_insert_ne by done; apply list_lookup_insert_eq;
          rewrite !length_insert, Hlen; lia)).
  do 2 lapic_step Hs.
  sstep Hs (sleep_using_pit_done _ _ _ _ _ _ _ _ _ _ Hs Hpolls Hlast).
  change (timer_counts count) with (lapic_write (MP := MP) (Q := Q) (C := C) (L := L) 228 count).
  do 2 lapic_step Hs.
  sget (lapic_read_done 228 count _ _ _ _ _ _ _ _ Hs ltac:(reg_lookup Hlen)).
  unfold sub32. rewrite decide_True, liftO_done_bind by lia.
  do 2 lapic_step Hs.
  match type of Hs with apic_is _ (Some (Locked _ ?r)) _ _ _ _ _ => set (regs1 := r) in Hs end.
  destruct (lapic_write_done 224 (0xffffffff - count) _ _ _ _ _ _ _ _ Hs) as (s' & E & Hs').
  exists s', (<[224%nat := 0xffffffff - count]> regs1).
  split; [exact E|]. split; [by rewrite <-app_assoc in Hs'|].
  unfold regs1. split; [by rewrite !length_insert|]. split.
  - intros i v Hin. unfold lapic_setup in Hin.
    repeat (apply elem_of_cons in Hin as [[= -> ->]|Hin]; [reg_lookup Hlen|]).
    by apply not_elem_of_nil in Hin.
  - intros i Hi. unfold lapic_setup in Hi. cbn [fmap list_fmap fst] in Hi.
    repeat (apply not_elem_of_cons in Hi as [? Hi]).
    by rewrite !list_lookup_insert_ne by done.
Qed.

(** ** One I/O APIC *)

(** The pointer to the selector, which is not null and does not wrap around. *)
Definition io_apic_ok (mp : MP) (io : IoApic) : Prop :=
  0 ≤ ioa_address io ∧ ioa_address io + 16 < 2 ^ 32 ∧
  0 < phys_offset mp + ioa_address io ∧ phys_offset mp + ioa_address io + 16 < 2 ^ 64.
Definition io_ptr (mp : MP) (io : IoApic) : Z := phys_offset mp + ioa_address io.

(** The index of the last redirection entry, from the version register. *)
Definition last_entry (f : Z → Z) : Z := Z.land (Z.shiftr (f 1) 16) 0xFF.

(** The first [n] entries masked: two registers each, from 0x10. *)
Definition io_masked (n : Z) (f : Z → Z) : Z → Z := λ r,
  if decide (0x10 ≤ r < 0x10 + 2 * n) then (if Z.even r then 0x10000 else 0) else f r.

Definition io_configured (local_apic_id gsi_base : Z) (f : Z → Z) : Z → Z := λ r,
  if decide (gsi_base = 0 ∧ r = 0x12) then as_u32 Keyboard
  else if decide (gsi_base = 0 ∧ r = 0x13) then Z.shiftl local_apic_id 24 mod 2 ^ 32
  else io_masked (last_entry f - 1) f r.

Lemma set_ioregsel_done sel v x f mp lp po inp devs pipe s :
  apic_is mp lp po inp (<[sel := mkIoApicDev x f]> devs) pipe s →
  ∃ s', set_ioregsel sel v s = (Done (), s') ∧
        apic_is mp lp po inp (<[sel := mkIoApicDev v f]> devs) pipe s'.
Proof.
  intros [Hm Hl Hp Hi Hd Hpi]. eexists. split; [reflexivity|].
  split; [exact Hm|exact Hl|exact Hp|exact Hi| |exact Hpi].
  cbn [lput lget ap_devs_lens ap_devs]. rewrite Hd. by rewrite alter_insert_eq.
Qed.

Lemma set_ioregwin_done sel v x f mp lp po inp devs pipe s :
  apic_is mp lp po inp (<[sel := mkIoApicDev x f]> devs) pipe s →
  ∃ s', set_ioregwin (sel + 16) v s = (Done (), s') ∧
    apic_is mp lp po inp
      (<[sel := mkIoApicDev x (λ r, if decide (r = x) then v else f r)]> devs) pipe s'.
Proof.
  intros [Hm Hl Hp Hi Hd Hpi]. eexists. split; [reflexivity|].
  split; [exact Hm|exact Hl|exact Hp|exact Hi| |exact Hpi].
  cbn [lput lget ap_devs_lens ap_devs]. rewrite Hd.
  replace (sel + 16 - 16) with sel by lia. by rewrite alter_insert_eq.
Qed.

Lemma get_ioregwin_done sel x f mp lp po inp devs pipe s :
  apic_is mp lp po inp (<[sel := mkIoApicDev x f]> devs) pipe s →
  get_ioregwin (sel + 16) s = (Done (f x), s).
Proof.
  intros [Hm Hl Hp Hi Hd Hpi]. unfold get_ioregwin.
  rewrite (mbind_done _ _ _ _ _ (on_done ap_devs_lens get_state s _ _ eq_refl)).
  cbn [lget ap_devs_lens]. replace (sel + 16 - 16) with sel by lia.
  assert (ap_devs s !! sel = Some (mkIoApicDev x f)) as -> by (rewrite Hd; apply lookup_insert_eq).
  by destruct s.
Qed.

Lemma virtual_address_done a mp lp po inp devs pipe s :
  apic_is mp lp po inp devs pipe s → 0 < phys_offset mp + a < 2 ^ 64 →
  on ap_mapper_lens (get_virtual_address a) s = (Done (phys_offset mp + a), s).
Proof.
  intros [Hm _ _ _ _ _] Ha.
  assert ((phys_offset mp + a) mod 2 ^ 64 = phys_offset mp + a) as Hmod
    by (apply Z.mod_small; lia).
  rewrite (on_done ap_mapper_lens _ s (phys_offset mp + a) (Locked lock_free mp)).
  - rewrite <-Hm. by destruct s.
  - cbn [lget ap_mapper_lens]. rewrite Hm, get_virtual_address_done by lia. by rewrite Hmod.
Qed.

(** Two registers at once. *)
Lemma io_mask_entry sel i x f g mp lp po inp devs pipe s :
  0 ≤ i → apic_is mp lp po inp (<[sel := mkIoApicDev x f]> devs) pipe s →
  (∀ r, f r = io_masked i g r) →
  ∃ s' x' f', (set_ioregsel sel (0x10 + i * 2);; set_ioregwin (sel + 16) (Z.shiftl 1 16);;
      set_ioregsel sel (0x11 + i * 2);; set_ioregwin (sel + 16) 0) s = (Done (), s') ∧
    apic_is mp lp po inp (<[sel := mkIoApicDev x' f']> devs) pipe s' ∧
    ∀ r, f' r = io_masked (i + 1) g r.
Proof.
  intros Hi Hs Hf.
  sstep Hs (set_ioregsel_done sel (0x10 + i * 2) _ _ _ _ _ _ _ _ _ Hs).
  sstep Hs (set_ioregwin_done sel (Z.shiftl 1 16) _ _ _ _ _ _ _ _ _ Hs).
  sstep Hs (set_ioregsel_done sel (0x11 + i * 2) _ _ _ _ _ _ _ _ _ Hs).
  destruct (set_ioregwin_done sel 0 _ _ _ _ _ _ _ _ _ Hs) as (s' & E & Hs').
  eexists s', _, _. split; [exact E|]. split; [exact Hs'|]. intros r. cbv beta.
  unfold io_masked in *. destruct (decide (r = 0x11 + i * 2)) as [->|].
  - rewrite decide_True by lia.
    replace (0x11 + i * 2) with (1 + 2 * (8 + i)) by lia. by rewrite Z.even_add_mul_2.
  - destruct (decide (r = 0x10 + i * 2)) as [->|].
    + rewrite decide_True by lia.
      replace (0x10 + i * 2) with (0 + 2 * (8 + i)) by lia. by rewrite Z.even_add_mul_2.
    + rewrite Hf. repeat case_decide; try lia; reflexivity.
Qed.

Lemma init_io_apic_run id io x f mp lp po inp devs pipe s :
  apic_is mp lp po inp (<[io_ptr mp io := mkIoApicDev x f]> devs) pipe s → io_apic_ok mp io →
  if decide (last_entry f = 0) then ∃ w s', init_io_apic id io s = (Panic w, s')
  else ∃ s' x' f', init_io_apic id io s = (Done (), s') ∧
    apic_is mp lp po inp (<[io_ptr mp io := mkIoApicDev x' f']> devs) pipe s' ∧
    ∀ r, f' r = io_configured id (global_system_interrupt_base io) f r.
Proof.
  intros Hs (Hnn & H32 & Hpos & H64). unfold init_io_apic. fold (io_ptr mp io) in Hpos, H64.
  assert (0 < phys_offset mp + ioa_address io < 2 ^ 64) as Hsel by (unfold io_ptr in *; lia).
  assert (0 < phys_offset mp + (ioa_address io + 16) < 2 ^ 64) as Hwin by (unfold io_ptr in *; lia).
  sget (virtual_address_done _ _ _ _ _ _ _ _ Hs Hsel).
  assert (add32 (ioa_address io) 16 = Done (ioa_address io + 16)) as ->
    by (unfold add32; by rewrite decide_True).
  rewrite liftO_done_bind.
  sget (virtual_address_done _ _ _ _ _ _ _ _ Hs Hwin).
  replace (phys_offset mp + (ioa_address io + 16)) with (io_ptr mp io + 16) by (unfold io_ptr; lia).
  fold (io_ptr mp io). set (p := io_ptr mp io) in *.
  sstep Hs (set_ioregsel_done p 1 _ _ _ _ _ _ _ _ _ Hs).
  sget (get_ioregwin_done _ _ _ _ _ _ _ _ _ _ Hs). fold (last_entry f).
  assert (0 ≤ last_entry f < 256) as Hlast.
  { unfold last_entry. rewrite (Z.land_ones _ 8) by lia. apply Z.mod_pos_bound. lia. }
  destruct (decide (last_entry f = 0)) as [Hz|Hz].
  { rewrite Hz. assert (∃ w, (u ← sub32 0 1; try_into_u8 u) = Panic w) as [w Hw].
    { unfold sub32. rewrite decide_False by lia. destruct overflow_checks; by eexists. }
    exists w, s0. destruct (sub32 0 1) as [u| | |]; simplify_eq/=; [|reflexivity].
    rewrite liftO_done_bind, Hw. reflexivity. }
  assert (sub32 (last_entry f) 1 = Done (last_entry f - 1)) as ->
    by (unfold sub32; by rewrite decide_True by lia).
  assert (try_into_u8 (last_entry f - 1) = Done (last_entry f - 1)) as Hu8
    by (unfold try_into_u8; by rewrite decide_True by lia).
  rewrite liftO_done_bind, Hu8, liftO_done_bind.
  destruct (for_each_seqZ (λ i s, ∃ x' f',
      apic_is mp lp po inp (<[p := mkIoApicDev x' f']> devs) pipe s ∧
      ∀ r, f' r = io_masked i f r)
    (λ i, set_ioregsel p (0x10 + i * 2);; set_ioregwin (p + 16) (Z.shiftl 1 16);;
          set_ioregsel p (0x11 + i * 2);; set_ioregwin (p + 16) 0) (last_entry f - 1) s0)
    as (s1 & E1 & x1 & f1 & Hs1 & Hf1).
  { lia. }
  { exists 1, f. split; [exact Hs|]. intros r. unfold io_masked. by rewrite decide_False by lia. }
  { intros i t Hi (x' & f' & Ht & Hf'). 
    destruct (io_mask_entry p i x' f' f mp lp po inp devs pipe t ltac:(lia) Ht Hf')
      as (t' & x2 & f2 & E & Ht' & Hf2). exists t'. split; [exact E|]. by exists x2, f2. }
  rewrite (mbind_done _ _ _ _ _ E1). case_decide as Hbase.
  - sstep Hs1 (set_ioregsel_done p 0x12 _ _ _ _ _ _ _ _ _ Hs1).
    sstep Hs1 (set_ioregwin_done p (as_u32 Keyboard) _ _ _ _ _ _ _ _ _ Hs1).
    sstep Hs1 (set_ioregsel_done p 0x13 _ _ _ _ _ _ _ _ _ Hs1).
    destruct (set_ioregwin_done p (Z.shiftl id 24 mod 2 ^ 32) _ _ _ _ _ _ _ _ _ Hs1)
      as (s' & E & Hs'). eexists s', _, _. split; [exact E|]. split; [exact Hs'|].
    intros r. cbv beta. unfold io_configured.
    destruct (decide (r = 0x13)) as [->|].
    + rewrite decide_False by lia. by rewrite decide_True.
    + destruct (decide (r = 0x12)) as [->|]; [by rewrite decide_True|].
      rewrite !decide_False by lia. apply Hf1.
  - eexists s1, x1, f1. split; [reflexivity|]. split; [exact Hs1|].
    intros r. unfold io_configured. rewrite !decide_False by lia. apply Hf1.
Qed.

End spec.
