(* ===== verification/ApicSafety.v ===== *)
(** * What [init_apic] guarantees: the timer is calibrated, the I/O APICs are set up. *)

From stdpp Require Import list_numbers.
From S2P Require Import Prelude Crates CrateModels Statics Mapping MapperModel Paging.
From S2P Require Import SchedSpec ContextSwitch Pipe Apic ApicSpec.

Local Open Scope Z_scope.

Section claims.
Context `{BuildProfile} {C : Type → Type} `{OnceCellLaws C} {L : Type} `{RawLockLaws L}.
Context {MP : Type} `{Mapper MP} {Q : Type} `{ArrayQueueLaws Q}.
Implicit Types s : apic_state C L MP Q.

(** The devices of the list are there, with at least two entries each. *)
Definition io_apics_present (mp : MP) (ios : list IoApic) (devs : gmap Z io_apic_dev) : Prop :=
  NoDup (io_ptr mp <$> ios) ∧
  ∀ io, io ∈ ios → io_apic_ok mp io ∧
    ∃ x f, devs !! io_ptr mp io = Some (mkIoApicDev x f) ∧ last_entry f ≠ 0.

(** Each of them is configured, relative to its registers in [devs]. *)
Definition io_apics_configured (mp : MP) (id : Z) (ios : list IoApic)
    (devs devs' : gmap Z io_apic_dev) : Prop :=
  ∀ io, io ∈ ios → ∃ x f x' f', devs !! io_ptr mp io = Some (mkIoApicDev x f) ∧
    devs' !! io_ptr mp io = Some (mkIoApicDev x' f') ∧
    ∀ r, f' r = io_configured id (global_system_interrupt_base io) f r.

Lemma init_io_apics_done id ios mp lp po inp devs pipe s :
  apic_is mp lp po inp devs pipe s → io_apics_present mp ios devs →
  ∃ s' devs', for_each (init_io_apic id) ios s = (Done (), s') ∧
    apic_is mp lp po inp devs' pipe s' ∧ io_apics_configured mp id ios devs devs' ∧
    ∀ k, k ∉ io_ptr mp <$> ios → devs' !! k = devs !! k.
Proof.
  revert devs s. induction ios as [|io ios IH]; intros devs s Hs [Hnd Hios].
  { exists s, devs. split; [reflexivity|]. split; [exact Hs|]. split; [|reflexivity].
    by intros io ?%not_elem_of_nil. }
  apply NoDup_cons in Hnd as [Hio Hnd].
  destruct (Hios io) as (Hok & x & f & Hdev & Hlast); [left|].
  rewrite <-(insert_id devs _ _ Hdev) in Hs.
  pose proof (init_io_apic_run id io x f mp lp po inp devs pipe s Hs Hok) as Hrun.
  rewrite decide_False in Hrun by exact Hlast.
  destruct Hrun as (s1 & x1 & f1 & E1 & Hs1 & Hf1).
  cbn [for_each]. rewrite (mbind_done _ _ _ _ _ E1).
  set (devs1 := <[io_ptr mp io := mkIoApicDev x1 f1]> devs) in *.
  assert (∀ k, k ≠ io_ptr mp io → devs1 !! k = devs !! k) as Hother
    by (intros k Hk; by apply lookup_insert_ne).
  assert (∀ io', io' ∈ ios → io_ptr mp io' ≠ io_ptr mp io) as Hne.
  { intros io' Hin Heq. apply Hio. rewrite <-Heq. by apply list_elem_of_fmap_2. }
  destruct (IH devs1 s1 Hs1) as (s2 & devs2 & E2 & Hs2 & Hconf & Hk).
  { split; [exact Hnd|]. intros io' Hin. rewrite Hother by auto. apply Hios. by right. }
  exists s2, devs2. split; [exact E2|]. split; [exact Hs2|]. split.
  - intros io' [->|Hin]%elem_of_cons.
    + exists x, f, x1, f1. split; [exact Hdev|]. split; [|exact Hf1].
      rewrite Hk by exact Hio. apply lookup_insert_eq.
    + destruct (Hconf io' Hin) as (y & g & y' & g' & Hg & Hg' & He).
      rewrite Hother in Hg by auto. by exists y, g, y', g'.
  - intros k Hn. rewrite fmap_cons, not_elem_of_cons in Hn. destruct Hn as [Hn1 Hn2].
    rewrite Hk by exact Hn2. by apply Hother.
Qed.

Lemma init_apic_done lapic_address ios regs count v1 v60 v2 polls last rest ldr id
    mp devs pipe s :
  apic_is mp None [] (v1 :: v60 :: v2 :: polls ++ last :: rest) devs pipe s →
  cell_get pipe = None → 0 < phys_offset mp + lapic_address < 2 ^ 64 →
  length regs = 252%nat → regs !! 52%nat = Some ldr → regs !! 8%nat = Some id →
  0 ≤ count ≤ 0xffffffff →
  Forall (λ v, Z.land v 0x20 = 0) polls → Z.land last 0x20 ≠ 0 →
  io_apics_present mp ios devs →
  ∃ s' regs' devs' pipe' q,
    init_apic (ApicModel lapic_address ios) regs count s = (Done (), s') ∧
    apic_is mp (Some (Locked lock_free regs'))
      (pic_trace ++ configure_trace v1 v60 ++ sleep_trace v2 polls last) rest devs' pipe' s' ∧
    (∀ i v, (i, v) ∈ lapic_setup ldr count → regs' !! i = Some v) ∧
    (∀ i, i ∉ (lapic_setup ldr count).*1 → regs' !! i = regs !! i) ∧
    io_apics_configured mp id ios devs devs' ∧
    cell_get pipe' = Some q ∧ pipe_is 128 [] q.
Proof.
  intros Hs Hpipe Hla Hlen Hldr Hid Hcount Hpolls Hlast Hios. unfold init_apic.
  sstep Hs (init_pic_done _ _ _ _ _ _ _ Hs). rewrite app_nil_l in Hs.
  sget (virtual_address_done _ _ _ _ _ _ _ _ Hs Hla).
  assert (∃ s', on ap_LAPIC_lens (modify_state (cell_init_once (Locked lock_free regs))) s0 =
      (Done (), s') ∧ apic_is mp (Some (Locked lock_free regs)) pic_trace
        (v1 :: v60 :: v2 :: polls ++ last :: rest) devs pipe s') as Hinit.
  { destruct Hs as [Hm Hl Hp Hi Hd Hpi]. eexists. split; [reflexivity|].
    split; [exact Hm| |exact Hp|exact Hi|exact Hd|exact Hpi].
    cbn [lput lget ap_LAPIC_lens ap_LAPIC]. by rewrite cell_get_init_once, Hl. }
  sstep Hs Hinit. destruct try_acquire_free as (lk & Hlk & Hrel).
  sstep Hs (lapic_lock_step try_acquire _ lk _ _ _ _ _ _ _ Hs Hlk).
  destruct (init_lapic_done count v1 v60 v2 polls last rest ldr mp lk regs pic_trace devs pipe _ Hs
    Hlen Hldr Hcount Hpolls Hlast) as (s3 & regs' & E3 & Hs3 & Hlen' & Hset & Hkeep).
  rewrite (mbind_done _ _ _ _ _ E3).
  assert (regs' !! 8%nat = Some id) as Hid' by (rewrite Hkeep by by_decide; exact Hid).
  sget (lapic_read_done 8 id _ _ _ _ _ _ _ _ Hs3 Hid').
  destruct (init_io_apics_done id ios _ _ _ _ _ _ _ Hs3 Hios) as (s4 & devs' & E4 & Hs4 & Hconf & _).
  rewrite (mbind_done _ _ _ _ _ E4).
  destruct (aq_new_spec 128) as (q & Eq & Hview & Hcap); [lia|].
  unfold Pipe_new. rewrite Eq, done_bind, liftO_done_bind, get_bind.
  rewrite (ai_pipe _ _ _ _ _ _ _ Hs4), cell_get_try_init_once, Hpipe.
  set (pipe' := cell_init_once (mkPipe q) pipe).
  assert (apic_is mp (Some (Locked lk regs'))
    (pic_trace ++ configure_trace v1 v60 ++ sleep_trace v2 polls last) rest devs' pipe'
    (lput ap_INPUT_PIPE_lens pipe' s4)) as Hs5.
  { destruct Hs4 as [Hm Hl Hp Hi Hd Hpi].
    split; [exact Hm|exact Hl|exact Hp|exact Hi|exact Hd|reflexivity]. }
  rewrite (mbind_done _ _ _ _ _ (on_done ap_INPUT_PIPE_lens (put_state pipe') s4 () pipe' eq_refl)).
  rewrite mret_bind.
  destruct (lapic_lock_step (λ l, Some (release l)) lk (release lk) _ _ _ _ _ _ _ Hs5 eq_refl)
    as (s6 & E6 & Hs6). rewrite Hrel in Hs6.
  exists s6, regs', devs', pipe', (mkPipe q). split; [exact E6|]. split; [exact Hs6|].
  split; [exact Hset|]. split; [exact Hkeep|]. split; [exact Hconf|].
  split; [|by split]. unfold pipe'. by rewrite cell_get_init_once, Hpipe.
Qed.

(** C14: on a machine with a local APIC the interrupt controllers are set up in one go: the
    legacy PICs are remapped to 0xF0..0xFF and masked, the PIT measures 10 ms, and the timer
    of the local APIC is left periodic on vector 32, divided by 16, with an initial count
    of exactly the ticks that went by in those 10 ms; the error and spurious vectors are
    34 and 255, every other register of the local APIC keeps its value, the I/O APICs are
    configured one by one, the input pipe is empty, and the lock is free. *)
Theorem init_apic_calibrates_timer lapic_address ios regs count v1 v60 v2 polls last rest ldr id
    mp devs pipe s :
  apic_is mp None [] (v1 :: v60 :: v2 :: polls ++ last :: rest) devs pipe s →
  cell_get pipe = None → 0 < phys_offset mp + lapic_address < 2 ^ 64 →
  length regs = 252%nat → regs !! 52%nat = Some ldr → regs !! 8%nat = Some id →
  0 ≤ count ≤ 0xffffffff →
  Forall (λ v, Z.land v 0x20 = 0) polls → Z.land last 0x20 ≠ 0 →
  io_apics_present mp ios devs →
  ∃ s' regs' devs' pipe' q,
    init_apic (ApicModel lapic_address ios) regs count s = (Done (), s') ∧
    apic_is mp (Some (Locked lock_free regs'))
      (pic_trace ++ configure_trace v1 v60 ++ sleep_trace v2 polls last) rest devs' pipe' s' ∧
    (∀ i v, (i, v) ∈ lapic_setup ldr count → regs' !! i = Some v) ∧
    (∀ i, i ∉ (lapic_setup ldr count).*1 → regs' !! i = regs !! i) ∧
    io_apics_configured mp id ios devs devs' ∧
    cell_get pipe' = Some q ∧ pipe_is 128 [] q.
Proof. apply init_apic_done. Qed.

(** C35: an I/O APIC with [n + 1] entries gets its first [n - 1] masked; the last two keep
    what they were.  The keyboard's entry, behind the one with the base 0, is vector 33,
    unmasked.  One with a single entry stops the kernel, in debug and in release builds. *)
Theorem io_apic_leaves_last_entries id io x f mp lp po inp devs pipe s :
  apic_is mp lp po inp (<[io_ptr mp io := mkIoApicDev x f]> devs) pipe s → io_apic_ok mp io →
  let n := last_entry f in
  if decide (n = 0) then ∃ w s', init_io_apic id io s = (Panic w, s')
  else ∃ s' x' f', init_io_apic id io s = (Done (), s') ∧
    apic_is mp lp po inp (<[io_ptr mp io := mkIoApicDev x' f']> devs) pipe s' ∧
    (∀ i, 0 ≤ i < n - 1 → global_system_interrupt_base io ≠ 0 ∨ i ≠ 1 →
       f' (0x10 + 2 * i) = 0x10000 ∧ f' (0x11 + 2 * i) = 0) ∧
    (∀ i, n - 1 ≤ i ≤ n → global_system_interrupt_base io ≠ 0 ∨ i ≠ 1 →
       f' (0x10 + 2 * i) = f (0x10 + 2 * i) ∧ f' (0x11 + 2 * i) = f (0x11 + 2 * i)) ∧
    (global_system_interrupt_base io = 0 → f' 0x12 = 33).
Proof.
  intros Hs Hok n. pose proof (init_io_apic_run id io x f mp lp po inp devs pipe s Hs Hok) as Hrun.
  unfold n. case_decide as Hz; [exact Hrun|].
  destruct Hrun as (s' & x' & f' & E & Hs' & Hf'). exists s', x', f'.
  split; [exact E|]. split; [exact Hs'|].
  assert (∀ i, 0 ≤ i → global_system_interrupt_base io ≠ 0 ∨ i ≠ 1 →
    f' (0x10 + 2 * i) = io_masked (last_entry f - 1) f (0x10 + 2 * i) ∧
    f' (0x11 + 2 * i) = io_masked (last_entry f - 1) f (0x11 + 2 * i)) as Hentry.
  { intros i Hi Hne. rewrite !Hf'. unfold io_configured. by rewrite !decide_False by lia. }
  split; [|split].
  - intros i Hi Hne. destruct (Hentry i) as [-> ->]; [lia|exact Hne|].
    unfold io_masked. rewrite !decide_True by lia.
    replace (0x10 + 2 * i) with (0 + 2 * (8 + i)) by lia.
    replace (0x11 + 2 * i) with (1 + 2 * (8 + i)) by lia. by rewrite !Z.even_add_mul_2.
  - intros i Hi Hne.
    assert (0 ≤ last_entry f) as Hpos.
    { unfold last_entry. rewrite (Z.land_ones _ 8) by lia. apply Z.mod_pos_bound. lia. }
    destruct (Hentry i) as [-> ->]; [lia|exact Hne|].
    unfold io_masked. by rewrite !decide_False by lia.
  - intros Hb. rewrite Hf'. unfold io_configured. by rewrite decide_True.
Qed.

(** C34: the keyboard is routed to the processor with identifier 0, whoever runs the kernel:
    the register keeps the identifier in its top byte, and shifting it by 24 drops it. *)
Theorem keyboard_routed_to_apic_zero apic_id io x f mp lp po inp devs pipe s :
  apic_is mp lp po inp (<[io_ptr mp io := mkIoApicDev x f]> devs) pipe s → io_apic_ok mp io →
  last_entry f ≠ 0 → global_system_interrupt_base io = 0 → 0 ≤ apic_id < 256 →
  ∃ s' x' f', init_io_apic (Z.shiftl apic_id 24) io s = (Done (), s') ∧
    apic_is mp lp po inp (<[io_ptr mp io := mkIoApicDev x' f']> devs) pipe s' ∧
    f' 0x12 = 33 ∧ f' 0x13 = 0.
Proof.
  intros Hs Hok Hn Hb Hid.
  pose proof (init_io_apic_run (Z.shiftl apic_id 24) io x f mp lp po inp devs pipe s Hs Hok) as Hrun.
  rewrite decide_False in Hrun by exact Hn.
  destruct Hrun as (s' & x' & f' & E & Hs' & Hf'). exists s', x', f'.
  split; [exact E|]. split; [exact Hs'|]. rewrite !Hf'. unfold io_configured.
  rewrite decide_True by done. split; [done|].
  rewrite decide_False by lia. rewrite decide_True by done.
  rewrite !Z.shiftl_mul_pow2 by lia. rewrite <-Z.mul_assoc, <-Z.pow_add_r by lia.
  replace (2 ^ (24 + 24)) with (2 ^ 16 * 2 ^ 32) by lia. rewrite Z.mul_assoc. apply Z.mod_mul. lia.
Qed.

End claims.

(** ** A small machine *)

#[local] Existing Instance debug_profile.
#[local] Existing Instance option_cell.
#[local] Existing Instance bit_lock.
#[local] Existing Instance simple_mapper.
#[local] Existing Instance list_array_queue.

(** One I/O APIC with 24 entries at its usual address, all of its registers 7 but the
    version, on processor 2. *)
Definition phys_map : table_mapper := mkTables 0xffff800000000000 [] ∅.
Definition one_io : IoApic := mkIoApic 0xfec00000 0.
Definition io_regs (r : Z) : Z := if decide (r = 1) then 0x170011 else 7.
Definition io_devs : gmap Z io_apic_dev := {[io_ptr phys_map one_io := mkIoApicDev 0 io_regs]}.
Definition lapic_reset : list Z := <[8%nat := Z.shiftl 2 24]> (replicate 252 0).
Definition apic_machine (lapic : option (locked bool (list Z))) (inputs : list Z) :
    apic_state option bool table_mapper list_queue :=
  mkApic (Locked false phys_map) lapic [] inputs io_devs None.

Lemma apic_machine_is lapic inputs :
  apic_is phys_map lapic [] inputs (<[io_ptr phys_map one_io := mkIoApicDev 0 io_regs]> ∅) None
    (apic_machine lapic inputs).
Proof. by split. Qed.

Lemma one_io_ok : io_apic_ok phys_map one_io.
Proof. split; [by_decide|split; [by_decide|split; by_decide]]. Qed.

Lemma init_apic_calibrates_timer_witness :
  ∃ s' regs', init_apic (ApicModel 0xfee00000 [one_io]) lapic_reset 0xfff00000
      (apic_machine None [0; 0; 0; 0; 0x20]) = (Done (), s') ∧
    ap_LAPIC s' = Some (Locked false regs') ∧ regs' !! 224%nat = Some 0xfffff ∧
    regs' !! 200%nat = Some 0x20020.
Proof.
  destruct (@init_apic_calibrates_timer debug_profile option _ option_cell_laws bool _ bit_lock_laws
    table_mapper _ list_queue _ list_array_queue_laws 0xfee00000 [one_io] lapic_reset 0xfff00000
    0 0 0 [0] 0x20 [] 0 (Z.shiftl 2 24) phys_map io_devs None
    (apic_machine None [0; 0; 0; 0; 0x20]))
    as (s' & regs' & devs' & pipe' & q & E & Hs' & Hset & _).
  - exact (apic_machine_is None [0; 0; 0; 0; 0x20]).
  - reflexivity.
  - by_decide.
  - reflexivity.
  - reflexivity.
  - reflexivity.
  - by_decide.
  - by_decide.
  - by_decide.
  - split; [apply NoDup_singleton|]. intros io ->%list_elem_of_singleton.
    split; [exact one_io_ok|]. exists 0, io_regs. split; [by vm_compute|by_decide].
  - exists s', regs'. split; [exact E|]. split; [apply (ai_lapic _ _ _ _ _ _ _ Hs')|].
    split; apply Hset; by_decide.
Defined.

Lemma io_apic_leaves_last_entries_witness :
  ∃ s' x' f', init_io_apic 0 one_io (apic_machine None []) = (Done (), s') ∧
    ap_devs s' = <[io_ptr phys_map one_io := mkIoApicDev x' f']> ∅ ∧
    f' (0x10 + 2 * 21) = 0x10000 ∧ f' (0x10 + 2 * 22) = 7 ∧ f' (0x10 + 2 * 23) = 7.
Proof.
  destruct (@io_apic_leaves_last_entries debug_profile option _ bool _ bit_lock_laws table_mapper _
    list_queue 0 one_io 0 io_regs phys_map None [] [] ∅ None (apic_machine None [])
    (apic_machine_is None []) one_io_ok) as (s' & x' & f' & E & Hs' & Hm & Hl & _).
  exists s', x', f'. split; [exact E|]. split; [apply (ai_devs _ _ _ _ _ _ _ Hs')|].
  split; [apply (Hm 21); [by_decide|by right]|].
  split; [apply (Hl 22); [by_decide|by right]|apply (Hl 23); [by_decide|by right]].
Defined.

Lemma keyboard_routed_to_apic_zero_witness :
  ∃ s' x' f', init_io_apic (Z.shiftl 2 24) one_io (apic_machine None []) = (Done (), s') ∧
    ap_devs s' = <[io_ptr phys_map one_io := mkIoApicDev x' f']> ∅ ∧ f' 0x13 = 0.
Proof.
  destruct (@keyboard_routed_to_apic_zero debug_profile option _ bool _ bit_lock_laws table_mapper _
    list_queue 2 one_io 0 io_regs phys_map None [] [] ∅ None (apic_machine None [])
    (apic_machine_is None []) one_io_ok) as (s' & x' & f' & E & Hs' & _ & Hd);
    [by_decide|reflexivity|by_decide|].
  exists s', x', f'. split; [exact E|]. split; [apply (ai_devs _ _ _ _ _ _ _ Hs')|exact Hd].
Defined.
