(* ===== verification/Interrupts.v ===== *)
(** * The interrupt descriptor table and its handlers (kernel/src/int.rs), and the panic
    handler (kernel/src/main.rs). *)

From S2P Require Import Prelude Crates Statics Gdt Sched ContextSwitch Pipe Framebuffer Apic.

Local Open Scope Z_scope.

(** ** The table *)

(** What the handler of a vector does: panic, write a record to the log and return, or one
    of the handlers of the devices. *)
Inductive handler :=
  | Panics (message : string)
  | Logs (message : string)
  | TimerHandler
  | KeyboardHandler.

(** An entry of the table; a handler with a stack index runs on that stack of the TSS. *)
Record gate := mkGate { gate_vector : Z; gate_handler : handler; gate_ist : option Z }.

(** The entries in the order in which they are set; the vectors of the exceptions are those
    of the architecture. *)
Definition IDT : list gate :=
  [mkGate 0 (Panics "EXCEPTION: DIVIDE ERROR") None;
   mkGate 1 (Logs "EXCEPTION: DEBUG") None;
   mkGate 2 (Panics "EXCEPTION: NON MASKABLE INTERRUPT") None;
   mkGate 3 (Logs "EXCEPTION: BREAKPOINT") None;
   mkGate 4 (Panics "EXCEPTION: OVERFLOW") None;
   mkGate 5 (Panics "EXCEPTION: BOUND RANGE EXCEEDED") None;
   mkGate 6 (Panics "EXCEPTION: INVALID OPCODE") None;
   mkGate 7 (Panics "EXCEPTION: DEVICE NOT AVAILABLE") None;
   mkGate 8 (Panics "EXCEPTION: DOUBLE FAULT") (Some DOUBLE_FAULT_IST_INDEX);
   mkGate 10 (Panics "EXCEPTION: INVALID TSS") None;
   mkGate 11 (Panics "EXCEPTION: SEGMENT NOT PRESENT") None;
   mkGate 12 (Panics "EXCEPTION: STACK SEGMENT FAULT") None;
   mkGate 13 (Panics "EXCEPTION: GENERAL PROTECTION FAULT") None;
   mkGate 14 (Panics "EXCEPTION: PAGE FAULT") None;
   mkGate 16 (Panics "EXCEPTION: X87 FLOATING POINT") None;
   mkGate 17 (Panics "EXCEPTION: ALIGMENT CHECK") None;
   mkGate 18 (Panics "EXCEPTION: MACHINE CHECK") None;
   mkGate 19 (Panics "EXCEPTION: SIMD FLOATING POINT") None;
   mkGate 20 (Panics "EXCEPTION: VIRTUALIZATION") None;
   mkGate 21 (Panics "EXCEPTION: CP PROTECTION") None;
   mkGate 28 (Panics "EXCEPTION: HV INJECTION") None;
   mkGate 29 (Panics "EXCEPTION: VMM COMMUNICATION") None;
   mkGate 30 (Panics "EXCEPTION: SECURITY") None;
   mkGate (as_u32 Timer) TimerHandler None;
   mkGate (as_u32 Keyboard) KeyboardHandler None;
   mkGate (as_u32 LapicError) (Logs "lapic internal") None;
   mkGate (as_u32 Spurious) (Logs "spurious interrupt") None].

(** The gate the processor uses for a vector. *)
Definition idt_entry (v : Z) : option gate := snd <$> list_find (λ g, gate_vector g = v) IDT.

(** ** pc_keyboard *)

Inductive DecodedKey := Unicode (character : Z) | RawKey (code : Z).

Class KeyboardApi (KB : Type) : Type := {
  KeyEvent : Type;
  add_byte : Z → KB → result (option KeyEvent) () * KB;
  process_keyevent : KeyEvent → KB → option DecodedKey * KB;
}.

(** [char::as_ascii] *)
Definition as_ascii (c : Z) : option Z := if decide (c < 0x80) then Some c else None.

(** ** Panics: kernel/src/main.rs *)

(** Interrupts off, and a loop that halts the processor for ever. *)
Definition hcf {S} (disable : M S ()) : M S () := disable;; hang.

(** The handler turns interrupts off and writes the panic to the log, on a state that has
    both. *)
Definition panic_handler {S} (disable log_error : M S ()) : M S () :=
  disable;; log_error;; hcf disable.

(** ** The handlers *)

Record int_state (C : Type → Type) (L RW KB Q : Type) : Type := mkInt {
  int_kernel : kernel C L RW;
  int_KEYBOARD : locked L KB;
  int_INPUT_PIPE : C (Pipe Q);
}.
Arguments mkInt {C L RW KB Q} _ _ _.
Arguments int_kernel {C L RW KB Q} _.
Arguments int_KEYBOARD {C L RW KB Q} _.
Arguments int_INPUT_PIPE {C L RW KB Q} _.

Section handlers.
Context `{BuildProfile} `{Font} {C : Type → Type} `{OnceCell C} {L RW : Type} `{RawLock L}.
Context {KB : Type} `{KeyboardApi KB} {Q : Type} `{ArrayQueueApi Q}.

Abbreviation S := (int_state C L RW KB Q).

Definition int_kernel_lens : lens S (kernel C L RW) :=
  Lens int_kernel (λ x s, mkInt x (int_KEYBOARD s) (int_INPUT_PIPE s)).
Definition int_KEYBOARD_lens : lens S (locked L KB) :=
  Lens int_KEYBOARD (λ x s, mkInt (int_kernel s) x (int_INPUT_PIPE s)).
Definition int_INPUT_PIPE_lens : lens S (C (Pipe Q)) :=
  Lens int_INPUT_PIPE (λ x s, mkInt (int_kernel s) (int_KEYBOARD s) x).

(** [KEYBOARD.lock()] with the port already read, and the two calls through the guard. *)
Definition decode_scancode (scancode : Z) : M KB (option Z) :=
  r ← call (add_byte scancode);
  match r with
  | ROk (Some key_event) =>
      key ← call (process_keyevent key_event);
      match key with
      | Some (Unicode character) => mret (as_ascii character)
      | _ => mret None
      end
  | _ => mret None
  end.

Definition write_key (c : Z) : M S () :=
  s ← get_state;
  pipe ← liftO (expect unwrap_none (cell_get (int_INPUT_PIPE s)));
  let '(o, pipe') := write (λ _, c) 1 0 pipe in
  on int_INPUT_PIPE_lens (modify_state (cell_modify (λ _, pipe')));;
  liftO o.

(** The guard of [KEYBOARD] lives until the end, whatever the pipe does. *)
Definition keyboard_handler (scancode : Z) : M S () :=
  on int_kernel_lens send_eoi;;
  l ← on int_KEYBOARD_lens get_state;
  match try_acquire (lk_raw l) with
  | None => hang
  | Some held =>
      let '(o, kb) := decode_scancode scancode (lk_data l) in
      on int_KEYBOARD_lens (put_state (Locked held kb));;
      c ← liftO o;
      (match c with Some c => write_key c | None => mret () end);;
      on int_KEYBOARD_lens (put_state (Locked (release held) kb))
  end.

(** The handler of an exception, on the interrupt flag and the logger; [record] is the text of
    a record with this message, the interrupted frame and the place of a panic included, as
    core formats it. *)
Definition exception_handler (record : string → list Z) (h : handler) :
    M (bool * C (locked L FrameBufferWriter)) () :=
  match h with
  | Panics message =>
      panic_handler (on fst_lens (put_state false)) (on snd_lens (log (record message)))
  | Logs message => on snd_lens (log (record message))
  | _ => mret ()
  end.

End handlers.
