(* ===== verification/InterruptSafety.v ===== *)
(** * What the handlers guarantee: typed keys reach the reader, exceptions reach the log. *)

From S2P Require Import Prelude Crates CrateModels Statics Machine Gdt Sched ContextSwitch Pipe.
From S2P Require Import Framebuffer FramebufferSpec Screen Apic Interrupts.

Local Open Scope Z_scope.

Section keyboard.
Context {C : Type → Type} `{OnceCellLaws C} {L RW : Type} `{RawLockLaws L}.
Context {KB : Type} `{KeyboardApi KB} {Q : Type} `{ArrayQueueLaws Q}.
Implicit Types s : int_state C L RW KB Q.

(** ** One scancode *)

(** The byte a scancode produces on a keyboard, if it does, and the keyboard afterwards. *)
Inductive decodes (kb : KB) (scancode : Z) : option Z → KB → Prop :=
  | decodes_error kb1 :
      add_byte scancode kb = (RErr (), kb1) → decodes kb scancode None kb1
  | decodes_partial kb1 :
      add_byte scancode kb = (ROk None, kb1) → decodes kb scancode None kb1
  | decodes_no_key e kb1 kb2 :
      add_byte scancode kb = (ROk (Some e), kb1) → process_keyevent e kb1 = (None, kb2) →
      decodes kb scancode None kb2
  | decodes_raw e code kb1 kb2 :
      add_byte scancode kb = (ROk (Some e), kb1) →
      process_keyevent e kb1 = (Some (RawKey code), kb2) → decodes kb scancode None kb2
  | decodes_wide e c kb1 kb2 :
      add_byte scancode kb = (ROk (Some e), kb1) →
      process_keyevent e kb1 = (Some (Unicode c), kb2) → 0x80 ≤ c →
      decodes kb scancode None kb2
  | decodes_ascii e c kb1 kb2 :
      add_byte scancode kb = (ROk (Some e), kb1) →
      process_keyevent e kb1 = (Some (Unicode c), kb2) → c < 0x80 →
      decodes kb scancode (Some c) kb2.

Lemma decode_scancode_spec kb scancode o kb' :
  decode_scancode scancode kb = (Done o, kb') ↔ decodes kb scancode o kb'.
Proof.
  unfold decode_scancode, call, mbind, M_bind, mret, M_ret, as_ascii. split.
  - destruct (add_byte scancode kb) as [[[e|]|[]] kb1] eqn:E1; simpl.
    2,3: intros [= <- <-]; eauto using decodes.
    destruct (process_keyevent e kb1) as [[[c|code]|] kb2] eqn:E2; simpl.
    2,3: intros [= <- <-]; eauto using decodes.
    case_decide; intros [= <- <-]; eauto using decodes with lia.
  - intros [kb1 E|kb1 E|e kb1 kb2 E E2|e code kb1 kb2 E E2|e c kb1 kb2 E E2 Hc|e c kb1 kb2 E E2 Hc];
      rewrite E; simpl; [done|done| | | | ]; rewrite E2; simpl; try done.
    + by rewrite decide_False by lia.
    + by rewrite decide_True.
Qed.

Lemma decodes_total kb scancode : ∃ o kb', decodes kb scancode o kb'.
Proof.
  destruct (decode_scancode scancode kb) as [o kb'] eqn:E.
  assert (∃ a, o = Done a) as [a ->].
  { unfold decode_scancode, call, mbind, M_bind, mret, M_ret in E.
    destruct (add_byte scancode kb) as [[[e|]|[]] kb1]; simpl in E;
      [destruct (process_keyevent e kb1) as [[[c|code]|] kb2]; simpl in E|..];
      injection E as <- <-; eauto. }
  exists a, kb'. by apply decode_scancode_spec.
Qed.

(** ** The handler *)

(** All locks of the handler are free: the keyboard is [kb], and the pipe of capacity [cap]
    holds [xs]; [regs] are the registers of the local APIC. *)
Definition int_idle (regs : list Z) (kb : KB) (cap : nat) (xs : list Z) s : Prop :=
  cell_is lock_free regs (LAPIC (int_kernel s)) ∧ int_KEYBOARD s = Locked lock_free kb ∧
  ∃ p, cell_get (int_INPUT_PIPE s) = Some p ∧ pipe_is cap xs p.

Lemma write_key_cases c cap xs p s :
  cell_get (int_INPUT_PIPE s) = Some p → pipe_is cap xs p → (length xs ≤ cap)%nat →
  ∃ pc p', cell_get pc = Some p' ∧
    write_key c s = (if decide (length xs < cap)%nat then Done () else Panic "Pipe is full",
                     mkInt (int_kernel s) (int_KEYBOARD s) pc) ∧
    pipe_is cap (if decide (length xs < cap)%nat then xs ++ [c] else xs) p'.
Proof.
  intros Hp Hxs Hle.
  pose proof (push_bytes_cases cap xs p (λ _, c) (seqZ 0 (Z.of_nat 1)) Hxs Hle) as Hw.
  change (length (seqZ 0 (Z.of_nat 1))) with 1%nat in Hw.
  destruct (write (λ _, c) 1 0 p) as [o p'] eqn:E. unfold write in E.
  exists (cell_modify (λ _, p') (int_INPUT_PIPE s)), p'.
  split; [by rewrite cell_get_modify, Hp|].
  unfold write_key. rewrite get_bind, Hp, expect_some, liftO_done_bind. unfold write. rewrite E.
  rewrite (mbind_done _ _ _ _ _ (on_done int_INPUT_PIPE_lens (modify_state _) s () _ eq_refl)).
  destruct (decide (length xs < cap)%nat).
  - rewrite decide_True in Hw by lia. destruct Hw as (p1 & E1 & Hp1). rewrite E in E1.
    injection E1 as -> ->. split; [done|exact Hp1].
  - rewrite decide_False in Hw by lia. destruct Hw as (p1 & E1 & Hp1). rewrite E in E1.
    injection E1 as -> ->. split; [done|].
    replace (cap - length xs)%nat with 0%nat in Hp1 by lia. by rewrite app_nil_r in Hp1.
Qed.

Definition key_bytes (o : option Z) : list Z := from_option (λ c, [c]) [] o.

Lemma keyboard_handler_run regs kb cap xs scancode o kb' s :
  int_idle regs kb cap xs s → (length xs ≤ cap)%nat → decodes kb scancode o kb' →
  if decide (length (xs ++ key_bytes o) ≤ cap)%nat then
    ∃ s', keyboard_handler scancode s = (Done (), s') ∧
      int_idle (<[44%nat := 0]> regs) kb' cap (xs ++ key_bytes o) s' ∧
      k_sched (int_kernel s') = k_sched (int_kernel s)
  else
    ∃ h s', keyboard_handler scancode s = (Panic "Pipe is full", s') ∧
      int_KEYBOARD s' = Locked h kb' ∧ try_acquire h = None.
Proof.
  intros (Hl & Hkb & p & Hp & Hxs) Hle Hdec.
  destruct (send_eoi_run regs (int_kernel s) Hl) as (lapic & E1 & Hl1).
  destruct try_acquire_free as (h & Hh & Hrel). unfold keyboard_handler.
  rewrite (mbind_done _ _ _ _ _ (on_done int_kernel_lens _ s _ _ E1)).
  set (s1 := lput int_kernel_lens _ s).
  rewrite (mbind_done _ _ _ _ _ (on_done int_KEYBOARD_lens get_state s1 _ _ eq_refl)).
  change (lget int_KEYBOARD_lens s1) with (int_KEYBOARD s). rewrite Hkb. cbn [lk_raw lk_data].
  rewrite Hh. apply decode_scancode_spec in Hdec. rewrite Hdec.
  set (s0 := lput int_KEYBOARD_lens _ s1).
  rewrite (mbind_done _ _ _ _ _ (on_done int_KEYBOARD_lens (put_state _) s0 () (Locked h kb') eq_refl)).
  rewrite liftO_done_bind. set (s2 := lput int_KEYBOARD_lens (Locked h kb') s0).
  destruct o as [c|]; cbn [key_bytes from_option].
  - destruct (write_key_cases c cap xs p s2 Hp Hxs Hle) as (pc & p' & Hpc & E2 & Hp').
    rewrite length_app. cbn [length].
    destruct (decide (length xs < cap)%nat).
    + rewrite decide_True by lia. rewrite (mbind_done _ _ _ _ _ E2). eexists.
      split; [exact (on_done int_KEYBOARD_lens (put_state _) _ () _ eq_refl)|].
      split; [|reflexivity]. split; [exact Hl1|]. split; [cbn; by rewrite Hrel|].
      exists p'. by split.
    + rewrite decide_False by lia. rewrite (mbind_panic _ _ _ _ _ E2). eexists h, _.
      split; [reflexivity|]. split; [reflexivity|]. by eapply try_acquire_excl.
  - rewrite app_nil_r, decide_True by exact Hle. rewrite mret_bind. eexists.
    split; [exact (on_done int_KEYBOARD_lens (put_state _) _ () _ eq_refl)|].
    split; [|reflexivity]. split; [exact Hl1|]. split; [cbn; by rewrite Hrel|]. exists p. by split.
Qed.

(** ** A run of scancodes *)

Inductive types_text (kb : KB) : list Z → list Z → KB → Prop :=
  | types_nil : types_text kb [] [] kb
  | types_cons scancode scancodes o text kb1 kb2 :
      decodes kb scancode o kb1 → types_text kb1 scancodes text kb2 →
      types_text kb (scancode :: scancodes) (key_bytes o ++ text) kb2.

Lemma keyboard_handler_types kb scancodes text kb' regs cap xs s :
  types_text kb scancodes text kb' → int_idle regs kb cap xs s →
  (length (xs ++ text) ≤ cap)%nat →
  ∃ s' regs', for_each keyboard_handler scancodes s = (Done (), s') ∧
    int_idle regs' kb' cap (xs ++ text) s' ∧ k_sched (int_kernel s') = k_sched (int_kernel s).
Proof.
  intros Ht. revert regs xs s.
  induction Ht as [kb|kb sc scs o text kb1 kb2 Hd Ht IH]; intros regs xs s Hs Hle.
  { exists s, regs. rewrite app_nil_r. by split_and!. }
  rewrite (assoc_L (++)) in Hle |- *. rewrite length_app in Hle.
  pose proof (keyboard_handler_run regs kb cap xs sc o kb1 s Hs) as Hrun.
  rewrite decide_True in Hrun by lia.
  destruct Hrun as (s1 & E1 & Hs1 & Hk1); [rewrite length_app in Hle; lia|exact Hd|].
  destruct (IH _ _ _ Hs1) as (s2 & regs2 & E2 & Hs2 & Hk2); [rewrite length_app; lia|].
  exists s2, regs2. cbn [for_each]. rewrite (mbind_done _ _ _ _ _ E1).
  split; [exact E2|]. split; [exact Hs2|congruence].
Qed.

(** ** The claims *)

(** A keyboard interrupt is acknowledged and decoded, and the character it completes, if
    it is ASCII, is queued behind the unread ones, with all locks free again; anything else
    leaves the queue alone.  With a full queue the kernel panics, holding the keyboard. *)
Theorem keyboard_handler_cases regs kb cap xs scancode s :
  int_idle regs kb cap xs s → (length xs ≤ cap)%nat →
  ∃ o kb', decodes kb scancode o kb' ∧
  if decide (length (xs ++ key_bytes o) ≤ cap)%nat then
    ∃ s', keyboard_handler scancode s = (Done (), s') ∧
      int_idle (<[44%nat := 0]> regs) kb' cap (xs ++ key_bytes o) s' ∧
      k_sched (int_kernel s') = k_sched (int_kernel s)
  else
    ∃ h s', keyboard_handler scancode s = (Panic "Pipe is full", s') ∧
      int_KEYBOARD s' = Locked h kb' ∧ try_acquire h = None.
Proof.
  intros Hs Hle. destruct (decodes_total kb scancode) as (o & kb' & Hd).
  exists o, kb'. split; [exact Hd|]. exact (keyboard_handler_run _ _ _ _ _ _ _ s Hs Hle Hd).
Qed.

(** C13: what is typed is what is read: after any run of keyboard interrupts whose characters
    fit in the queue, a read of as many bytes into a buffer that can be written returns at once
    with the unread characters and then the typed ones, in order, and leaves the queue empty. *)
Theorem typed_text_is_read kb scancodes text kb' regs cap xs fault buffer m s :
  types_text kb scancodes text kb' → int_idle regs kb cap xs s →
  (length (xs ++ text) ≤ cap)%nat →
  let size := length (xs ++ text) in
  (∀ j, (j < size)%nat → fault (buffer + Z.of_nat j) = None) →
  ∃ s' p p' m', for_each keyboard_handler scancodes s = (Done (), s') ∧
    cell_get (int_INPUT_PIPE s') = Some p ∧
    read fault (replicate size []) size buffer (p, m) = (Done size, (p', m')) ∧
    pipe_is cap [] p' ∧ ∀ a, m' a = store_bytes buffer (xs ++ text) m a.
Proof.
  intros Ht Hs Hle size Hf.
  destruct (keyboard_handler_types _ _ _ _ _ _ _ _ Ht Hs Hle)
    as (s' & regs' & E & (_ & _ & p & Hp & Hxs) & _).
  assert (length (concat (replicate size ([] : list Z))) = 0%nat) as Hnil.
  { clear. induction size; [done|]. simpl. done. }
  destruct (read_from_done fault cap (replicate size []) 0 size buffer _ p m Hxs)
    as (got & rest & k & p' & m' & E1 & Hp' & Hgot & Heq & _ & _ & Hm);
    [lia|lia|intros; apply Hf; lia|].
  destruct (read_from_enough fault cap (replicate size []) 0 size buffer _ p m Hxs)
    as (sx & E2); [lia|lia|intros; apply Hf; lia|unfold size; lia|rewrite length_replicate; lia|].
  rewrite E1 in E2. injection E2 as Hlen _.
  assert (concat (take k (replicate size ([] : list Z))) = []) as Hc.
  { rewrite take_replicate. generalize (k `min` size)%nat as n. clear.
    intros n. induction n; [done|]. simpl. done. }
  rewrite Hc, app_nil_r in Heq.
  assert (rest = []) as ->.
  { apply (f_equal length) in Heq. rewrite (length_app got), Hlen in Heq. unfold size in Heq.
    destruct rest; [done|]. cbn [length] in Heq. lia. }
  rewrite app_nil_r in Heq. subst got.
  exists s', p, p', m'. split; [exact E|]. split; [exact Hp|].
  split; [rewrite <-Hlen; exact E1|]. split; [exact Hp'|].
  intros a. rewrite Hm. by rewrite Z.add_0_r.
Qed.

End keyboard.

Section exceptions.
Context `{BuildProfile} `{FontLaws} {C : Type → Type} `{OnceCellLaws C} {L : Type} `{RawLockLaws L}.

(** The vectors whose handlers write a record, with the message: the exceptions of the
    architecture, an error of the local APIC, and a spurious interrupt. *)
Definition reported : list (Z * string) :=
  [(0, "EXCEPTION: DIVIDE ERROR"); (1, "EXCEPTION: DEBUG");
   (2, "EXCEPTION: NON MASKABLE INTERRUPT"); (3, "EXCEPTION: BREAKPOINT");
   (4, "EXCEPTION: OVERFLOW"); (5, "EXCEPTION: BOUND RANGE EXCEEDED");
   (6, "EXCEPTION: INVALID OPCODE"); (7, "EXCEPTION: DEVICE NOT AVAILABLE");
   (8, "EXCEPTION: DOUBLE FAULT"); (10, "EXCEPTION: INVALID TSS");
   (11, "EXCEPTION: SEGMENT NOT PRESENT"); (12, "EXCEPTION: STACK SEGMENT FAULT");
   (13, "EXCEPTION: GENERAL PROTECTION FAULT"); (14, "EXCEPTION: PAGE FAULT");
   (16, "EXCEPTION: X87 FLOATING POINT"); (17, "EXCEPTION: ALIGMENT CHECK");
   (18, "EXCEPTION: MACHINE CHECK"); (19, "EXCEPTION: SIMD FLOATING POINT");
   (20, "EXCEPTION: VIRTUALIZATION"); (21, "EXCEPTION: CP PROTECTION");
   (28, "EXCEPTION: HV INJECTION"); (29, "EXCEPTION: VMM COMMUNICATION");
   (30, "EXCEPTION: SECURITY"); (34, "lapic internal"); (255, "spurious interrupt")]%string.

(** The ones that return. *)
Definition resumable : list Z := [1; 3; 34; 255].

(** The gate of such a vector. *)
Definition reporting_gate (v : Z) (message : string) : gate :=
  mkGate v (if decide (v ∈ resumable) then Logs message else Panics message)
    (if decide (v = 8) then Some 0 else None).

Lemma reported_entry v message :
  (v, message) ∈ reported → idt_entry v = Some (reporting_gate v message).
Proof.
  intros Hin.
  assert (Forall (λ e, idt_entry e.1 = Some (reporting_gate e.1 e.2)) reported) as Hall.
  { repeat (apply Forall_cons; split; [reflexivity|]). apply Forall_nil_2. }
  rewrite Forall_forall in Hall. exact (Hall _ Hin).
Qed.

Lemma entry_reported v g :
  idt_entry v = Some g → v ≠ as_u32 Timer → v ≠ as_u32 Keyboard → v ∈ reported.*1.
Proof.
  unfold idt_entry. intros ([i g'] & E & ->)%fmap_Some Ht Hk.
  apply list_find_Some in E as (E & <- & _). apply list_elem_of_lookup_2 in E.
  assert (Forall (λ g, gate_vector g = as_u32 Timer ∨ gate_vector g = as_u32 Keyboard ∨
    gate_vector g ∈ reported.*1) IDT) as Hall by by_decide.
  rewrite Forall_forall in Hall. destruct (Hall _ E) as [|[|]]; done.
Qed.

Lemma exception_handler_run record v message w (x : C (locked L _)) :
  cell_is lock_free w x → writer_ok w →
  y_pos w + 18 * Z.of_nat (S (length (record message))) < 2 ^ 63 →
  ∃ x' w', exception_handler record (gate_handler (reporting_gate v message)) (false, x) =
             (if decide (v ∈ resumable) then Done () else Hang, (false, x')) ∧
    cell_is lock_free w' x' ∧ writer_ok w' ∧
    write_str (record message ++ [NEWLINE]) w = (Done (), w').
Proof.
  intros Hx Hw Hy.
  destruct (log_done (record message) w x Hx Hw Hy) as (x' & w' & E & Hx' & Hw' & E' & _).
  exists x', w'. split; [|by split].
  pose proof (on_done snd_lens (log (record message)) (false, x) () x' E) as El.
  unfold exception_handler, reporting_gate. cbn [gate_handler]. case_decide; [exact El|].
  unfold panic_handler, hcf.
  rewrite (mbind_done _ _ _ _ _ (on_done fst_lens (put_state false) (false, x) () false eq_refl)).
  by rewrite (mbind_done _ _ _ _ _ El).
Qed.

(** C16: every exception has its handler, and the handler its message.  For each vector of the
    table above, the entry that the processor finds puts the record of that message on the
    screen, line end included; only debug, breakpoint, a local APIC error and a spurious
    interrupt return, all the others stop the machine with interrupts off, and only a double
    fault runs on the stack kept for it.  Besides these vectors only the timer and the keyboard
    have an entry, and none has two. *)
Theorem exceptions_reported record v message w (x : C (locked L _)) :
  (v, message) ∈ reported → cell_is lock_free w x → writer_ok w →
  y_pos w + 18 * Z.of_nat (S (length (record message))) < 2 ^ 63 →
  NoDup (gate_vector <$> IDT) ∧
  (∀ v' g, idt_entry v' = Some g → v' ≠ as_u32 Timer → v' ≠ as_u32 Keyboard →
     v' ∈ reported.*1) ∧
  ∃ g x' w', idt_entry v = Some g ∧ gate_ist g = (if decide (v = 8) then Some 0 else None) ∧
    exception_handler record (gate_handler g) (false, x) =
      (if decide (v ∈ resumable) then Done () else Hang, (false, x')) ∧
    cell_is lock_free w' x' ∧ writer_ok w' ∧
    write_str (record message ++ [NEWLINE]) w = (Done (), w').
Proof.
  intros Hin Hx Hw Hy. split; [by_decide|]. split; [apply entry_reported|].
  destruct (exception_handler_run record v message w x Hx Hw Hy) as (x' & w' & E & Hx').
  exists (reporting_gate v message), x', w'. split; [by apply reported_entry|].
  split; [reflexivity|]. by split.
Qed.

(** C33: none of them comes to an end, and nothing is shown, if it strikes while a record is
    being written: the handler waits for the lock of the code it has interrupted, and that
    code runs with interrupts on. *)
Theorem interrupt_during_log_hangs v message record l h w (x : C (locked L FrameBufferWriter)) :
  (v, message) ∈ reported → cell_is h w x → try_acquire l = Some h →
  ∃ g, idt_entry v = Some g ∧
    exception_handler record (gate_handler g) (false, x) = (Hang, (false, x)).
Proof.
  intros Hin Hx Hl. exists (reporting_gate v message). split; [by apply reported_entry|].
  assert (on snd_lens (log (record message)) (false, x) = (Hang, (false, x))) as E.
  { unfold on, zoom. simpl. by rewrite (log_held (record message) l h w x Hx Hl). }
  unfold exception_handler, reporting_gate. cbn [gate_handler]. case_decide; [exact E|].
  unfold panic_handler.
  rewrite (mbind_done _ _ _ _ _ (on_done fst_lens (put_state false) (false, x) () false eq_refl)).
  by apply mbind_hang.
Qed.

End exceptions.

(** ** A keyboard of two keys *)

#[local] Existing Instance debug_profile.
#[local] Existing Instance option_cell.
#[local] Existing Instance bit_lock.
#[local] Existing Instance list_array_queue.
#[local] Existing Instance count_rw_lock.

(** Scancode 0x1e is "a", 0x1a is "ü"; with the high bit set they are releases; 0xe0 starts a
    sequence, and the byte after it is a raw key.  The state is whether one has started. *)
#[local] Instance two_keys : KeyboardApi bool := {|
  KeyEvent := option Z * bool;
  add_byte b kb :=
    if decide (b = 0xe0) then (ROk None, true)
    else if decide (b = 0x1e ∨ b = 0x1a ∨ kb) then (ROk (Some (Some b, kb)), false)
    else if decide (0x80 ≤ b) then (ROk (Some (None, kb)), false)
    else (RErr (), false);
  process_keyevent e kb :=
    match e with
    | (Some b, true) => (Some (RawKey b), kb)
    | (Some 0x1e, false) => (Some (Unicode 97), kb)
    | (Some _, false) => (Some (Unicode 252), kb)
    | (None, _) => (None, kb)
    end;
|}.

Lemma two_keys_decodes kb sc o kb' :
  decode_scancode sc kb = (Done o, kb') → decodes kb sc o kb'.
Proof. apply decode_scancode_spec. Qed.

Definition idle_sched : sched option bool (option nat) := mkSched None None.

Definition keys_state (q : list_queue) : int_state option bool (option nat) bool list_queue :=
  mkInt (mkKernel idle_sched (Some (Locked false (replicate 252 7)))) (Locked false false)
    (Some (mkPipe q)).

Lemma keys_state_idle xs cap :
  int_idle (replicate 252 7) false cap xs (keys_state (ListQueue xs cap)).
Proof. split; [done|]. split; [done|]. eexists. split; [reflexivity|by split]. Qed.

Lemma keyboard_handler_cases_witness :
  (∃ s', keyboard_handler 0x1e (keys_state (ListQueue [104] 2)) = (Done (), s') ∧
     int_INPUT_PIPE s' = Some (mkPipe (ListQueue [104; 97] 2))) ∧
  (∃ s', keyboard_handler 0x1e (keys_state (ListQueue [104; 105] 2)) =
     (Panic "Pipe is full", s')).
Proof.
  pose proof (λ xs, @keyboard_handler_cases option _ option_cell_laws bool (option nat) _
    bit_lock_laws bool two_keys list_queue _ list_array_queue_laws (replicate 252 7) false 2 xs 0x1e
    (keys_state (ListQueue xs 2)) (keys_state_idle xs 2)) as H.
  split.
  - destruct (H [104]) as (o & kb' & Hd & Hr); [simpl; lia|].
    apply decode_scancode_spec in Hd. vm_compute in Hd. injection Hd as <- <-.
    cbn [key_bytes from_option app length] in Hr. rewrite decide_True in Hr by lia.
    destruct Hr as (s' & E & _). exists s'. split; [exact E|].
    assert (s' = (keyboard_handler 0x1e (keys_state (ListQueue [104] 2))).2) as ->
      by (by rewrite E).
    reflexivity.
  - destruct (H [104; 105]) as (o & kb' & Hd & Hr); [simpl; lia|].
    apply decode_scancode_spec in Hd. vm_compute in Hd. injection Hd as <- <-.
    cbn [key_bytes from_option app length] in Hr. rewrite decide_False in Hr by lia.
    destruct Hr as (h & s' & E & _). by exists s'.
Defined.

Lemma typed_text_is_read_witness :
  ∃ s' p p' m',
    for_each keyboard_handler [0x1e; 0x9e; 0x1a; 0xe0; 0x1e; 0x1e] (keys_state (ListQueue [104] 8)) =
      (Done (), s') ∧ cell_get (int_INPUT_PIPE s') = Some p ∧
    read no_fault (replicate 3 []) 3 0x4000 (p, λ _, 0) = (Done 3%nat, (p', m')) ∧
    m' 0x4000 = 104 ∧ m' 0x4001 = 97 ∧ m' 0x4002 = 97.
Proof.
  destruct (@typed_text_is_read option _ option_cell_laws bool (option nat) _
    bit_lock_laws bool two_keys list_queue _ list_array_queue_laws false
    [0x1e; 0x9e; 0x1a; 0xe0; 0x1e; 0x1e] [97; 97] false (replicate 252 7) 8 [104] no_fault 0x4000 (λ _, 0)
    (keys_state (ListQueue [104] 8))) as (s' & p & p' & m' & E & Hp & Er & _ & Hm).
  - change [97; 97] with (key_bytes (Some 97) ++ key_bytes None ++ key_bytes None ++
      key_bytes None ++ key_bytes None ++ key_bytes (Some 97) ++ []).
    repeat (eapply types_cons; [apply two_keys_decodes; vm_compute; reflexivity|]). apply types_nil.
  - apply keys_state_idle.
  - simpl. lia.
  - done.
  - exists s', p, p', m'. split; [exact E|]. split; [exact Hp|]. split; [exact Er|].
    rewrite !Hm. split; [reflexivity|split; reflexivity].
Defined.

#[local] Existing Instance bar_font.

(** The text of a record: the characters of its message. *)
Definition plain (message : string) : list Z :=
  (λ c, Z.of_nat (Ascii.nat_of_ascii c)) <$> String.list_ascii_of_string message.

Lemma exceptions_reported_witness :
  ∃ g1 g2 x1 x2, idt_entry 3 = Some g1 ∧ idt_entry 14 = Some g2 ∧
    exception_handler plain (gate_handler g1) (false, Some (Locked false (small_writer Bgr))) =
      (Done (), (false, x1)) ∧
    exception_handler plain (gate_handler g2) (false, Some (Locked false (small_writer Bgr))) =
      (Hang, (false, x2)).
Proof.
  pose proof (λ v message, @exceptions_reported debug_profile bar_font bar_font_laws option _
    option_cell_laws bool _ bit_lock_laws plain v message (small_writer Bgr)
    (Some (Locked false (small_writer Bgr)))) as H.
  destruct (H 3 "EXCEPTION: BREAKPOINT"%string)
    as (_ & _ & g1 & x1 & w1 & Hg1 & _ & E1 & _);
    [by_decide|done|exact small_writer_ok|by_decide|].
  destruct (H 14 "EXCEPTION: PAGE FAULT"%string)
    as (_ & _ & g2 & x2 & w2 & Hg2 & _ & E2 & _);
    [by_decide|done|exact small_writer_ok|by_decide|].
  exists g1, g2, x1, x2. split; [exact Hg1|]. split; [exact Hg2|].
  rewrite decide_True in E1 by by_decide. rewrite decide_False in E2 by by_decide.
  split; [exact E1|exact E2].
Defined.

Lemma interrupt_during_log_hangs_witness :
  ∃ g, idt_entry 255 = Some g ∧
    exception_handler plain (gate_handler g) (false, Some (Locked true (small_writer Bgr))) =
      (Hang, (false, Some (Locked true (small_writer Bgr)))).
Proof.
  apply (@interrupt_during_log_hangs debug_profile bar_font option _
    bool _ bit_lock_laws 255 "spurious interrupt"%string plain false true
    (small_writer Bgr)); [by_decide|done|done].
Defined.
