(* ===== verification/Acpi.v ===== *)
(** * What the acpi crate asks of the kernel: kernel/src/acpi.rs.

    The crate finds the tables on its own; it reaches the kernel through the trait [Handler].
    A run of the crate is a tree of requests, answered here as the kernel answers them. *)

From S2P Require Import Prelude Crates CrateModels Machine Mapping MapperModel Paging Apic.

Local Open Scope Z_scope.

(** ** The crate's side *)

Record PhysicalMapping := mkPhysMapping {
  physical_start : Z;
  virtual_start : Z;
  region_length : Z;
  mapped_length : Z;
}.

(** The methods of [Handler] for AML and devices, without their results. *)
Inductive aml_method :=
  | Aml_read_u8 (address : Z) | Aml_read_u16 (address : Z)
  | Aml_read_u32 (address : Z) | Aml_read_u64 (address : Z)
  | Aml_write_u8 (address value : Z) | Aml_write_u16 (address value : Z)
  | Aml_write_u32 (address value : Z) | Aml_write_u64 (address value : Z)
  | Aml_read_io_u8 (port : Z) | Aml_read_io_u16 (port : Z) | Aml_read_io_u32 (port : Z)
  | Aml_write_io_u8 (port value : Z) | Aml_write_io_u16 (port value : Z)
  | Aml_write_io_u32 (port value : Z)
  | Aml_read_pci_u8 (address offset : Z) | Aml_read_pci_u16 (address offset : Z)
  | Aml_read_pci_u32 (address offset : Z)
  | Aml_write_pci_u8 (address offset value : Z) | Aml_write_pci_u16 (address offset value : Z)
  | Aml_write_pci_u32 (address offset value : Z)
  | Aml_nanos_since_boot | Aml_stall (microseconds : Z) | Aml_sleep (milliseconds : Z)
  | Aml_create_mutex | Aml_acquire (mutex timeout : Z) | Aml_release (mutex : Z).

(** A run of the crate: it maps and unmaps regions and calls methods, and ends in a value. *)
Inductive acpi_run (A : Type) : Type :=
  | AcpiRet (a : A)
  | AcpiMap (physical_address size : Z) (k : PhysicalMapping → acpi_run A)
  | AcpiUnmap (region : PhysicalMapping) (k : acpi_run A)
  | AcpiAml (m : aml_method) (k : Z → acpi_run A).
Arguments AcpiRet {A} _.
Arguments AcpiMap {A} _ _ _.
Arguments AcpiUnmap {A} _ _.
Arguments AcpiAml {A} _ _.

(** [AcpiTables::from_rsdp] and [AcpiPlatform::new], which read the mapped memory. *)
Class AcpiCrate : Type := {
  AcpiTables : Type;
  AcpiTables_from_rsdp : memory → Z → acpi_run (result AcpiTables ());
  AcpiPlatform_new : memory → AcpiTables → acpi_run (result InterruptModel ());
}.

(** ** The kernel's side: [impl Handler for AcpiHandlerStruct], on the mapper *)

Section handler.
Context {L : Type} `{RawLock L} {MP : Type} `{Mapper MP}.

Definition map_physical_region (physical_address size : Z) : M (locked L MP) PhysicalMapping :=
  v ← get_virtual_address physical_address;
  mret (mkPhysMapping physical_address v size size).

Definition unmap_physical_region (_ : PhysicalMapping) : M (locked L MP) () := mret ().

(** [todo!()] *)
Definition aml_call (m : aml_method) : M (locked L MP) Z := panic "not yet implemented".

Fixpoint answer {A} (r : acpi_run A) : M (locked L MP) A :=
  match r with
  | AcpiRet a => mret a
  | AcpiMap physical_address size k =>
      region ← map_physical_region physical_address size;
      answer (k region)
  | AcpiUnmap region k => unmap_physical_region region;; answer k
  | AcpiAml m k => v ← aml_call m; answer (k v)
  end.

End handler.

(** ** What the crate sees *)

(** The run with all physical memory mapped at an offset; [None]: a method is called. *)
Fixpoint seen_at {A} (offset : Z) (r : acpi_run A) : option A :=
  match r with
  | AcpiRet a => Some a
  | AcpiMap addr size k => seen_at offset (k (mkPhysMapping addr (offset + addr) size size))
  | AcpiUnmap _ k => seen_at offset k
  | AcpiAml _ _ => None
  end.

(** No request leaves the address space. *)
Fixpoint requests_ok {A} (offset : Z) (r : acpi_run A) : Prop :=
  match r with
  | AcpiRet _ => True
  | AcpiMap addr size k => 0 < offset + addr < 2 ^ 64 ∧
      requests_ok offset (k (mkPhysMapping addr (offset + addr) size size))
  | AcpiUnmap _ k => requests_ok offset k
  | AcpiAml _ _ => True
  end.

Section spec.
Context {L : Type} `{RawLockLaws L} {MP : Type} `{Mapper MP}.

Lemma answer_run {A} (r : acpi_run A) (m : MP) :
  requests_ok (phys_offset m) r →
  answer r (Locked (L := L) lock_free m) =
    (if seen_at (phys_offset m) r is Some a then Done a else Panic "not yet implemented",
     Locked lock_free m).
Proof.
  induction r as [a|addr size k IH|region k IH|aml k _]; simpl; intros Hr.
  - done.
  - destruct Hr as [Haddr Hr]. unfold map_physical_region. rewrite mbind_assoc.
    rewrite (mbind_done _ _ _ (phys_offset m + addr) (Locked lock_free m)).
    { rewrite mret_bind. by apply IH. }
    rewrite get_virtual_address_done by (rewrite Z.mod_small; lia).
    by rewrite Z.mod_small by lia.
  - unfold unmap_physical_region. rewrite mret_bind. by apply IH.
  - done.
Qed.

(** C36: the acpi crate sees all physical memory at the offset of the bootloader's mapping and
    leaves the mapper free, whatever it maps and unmaps; the first AML or device method it
    calls panics. *)
Theorem acpi_sees_physical_memory {A} (r : acpi_run A) (m : MP) :
  requests_ok (phys_offset m) r →
  answer r (Locked (L := L) lock_free m) =
    (if seen_at (phys_offset m) r is Some a then Done a else Panic "not yet implemented",
     Locked lock_free m).
Proof. apply answer_run. Qed.

End spec.

#[local] Existing Instance bit_lock.
#[local] Existing Instance simple_mapper.

(** A crate that maps the root pointer, then the table it finds there, and returns where it
    saw it. *)
Definition two_maps : acpi_run Z :=
  AcpiMap 0xe0000 36 (λ root, AcpiMap (physical_start root + 0x100) 8
    (λ table, AcpiUnmap root (AcpiRet (virtual_start table)))).

Lemma acpi_sees_physical_memory_witness :
  answer two_maps (Locked false (mkTables 0xffff800000000000 [] ∅)) =
    (Done 0xffff8000000e0100, Locked false (mkTables 0xffff800000000000 [] ∅)).
Proof.
  exact (@acpi_sees_physical_memory bool _ bit_lock_laws table_mapper _ Z two_maps
    (mkTables 0xffff800000000000 [] ∅) ltac:(repeat (split; [by_decide|]); exact I)).
Defined.
