(* ===== verification/Boot.v ===== *)
(** * From the bootloader to the idle loop: kernel/src/main.rs.

    [kernel_main] in the order of its calls, on all the state that they share. *)

From S2P Require Import Prelude Crates Statics Machine Mapping Frames Allocator Paging Sched.
From S2P Require Import Pipe Framebuffer Syscall Loader Apic Gdt SyscallInit Interrupts Acpi.

Local Open Scope Z_scope.

Record boot_info (K : Type) := mkBootInfo {
  bi_framebuffer : option (list Z * FrameBufferInfo);
  bi_physical_memory_offset : option Z;
  bi_memory_regions : list (MemoryRegion K);
  bi_rsdp_addr : option Z;
  bi_ramdisk_addr : option Z;
}.
Arguments mkBootInfo {K} _ _ _ _ _.
Arguments bi_framebuffer {K} _.
Arguments bi_physical_memory_offset {K} _.
Arguments bi_memory_regions {K} _.
Arguments bi_rsdp_addr {K} _.
Arguments bi_ramdisk_addr {K} _.

(** What the machine and the linker decide: where [STACK]s and [syscall_entry] are, CR3 and
    RFLAGS when they are read, the registers of the local APIC before [init_apic], and the
    count its timer shows when the PIT is done. *)
Record platform := mkPlatform {
  pf_stack0 : Z;
  pf_stack1 : Z;
  pf_syscall_entry : Z;
  pf_cr3 : Z;
  pf_rflags : Z;
  pf_lapic_regs : list Z;
  pf_current_count : Z;
}.

(** The processor's tables and the interrupt flag. *)
Record cpu_tables (G : Type) := mkCpuTables {
  ct_segments : segments G;
  ct_IDTR : option (list gate);
  ct_msrs : msrs;
  ct_IF : bool;
}.
Arguments mkCpuTables {G} _ _ _ _.
Arguments ct_segments {G} _.
Arguments ct_IDTR {G} _.
Arguments ct_msrs {G} _.
Arguments ct_IF {G} _.

(** The local APIC behind its static, the ports and the I/O APICs. *)
Record irq_devices (C : Type → Type) (L : Type) := mkIrq {
  irq_LAPIC : C (locked L (list Z));
  irq_ports : list port_event;
  irq_inputs : list Z;
  irq_devs : gmap Z io_apic_dev;
}.
Arguments mkIrq {C L} _ _ _ _.
Arguments irq_LAPIC {C L} _.
Arguments irq_ports {C L} _.
Arguments irq_inputs {C L} _.
Arguments irq_devs {C L} _.

Record boot_state (C : Type → Type) (L RW MP FA Q G LG : Type) := mkBoot {
  b_kernel : kstate C L RW MP FA Q;
  b_irq : irq_devices C L;
  b_cpu : cpu_tables G;
  b_ALLOCATOR : locked L LinkedListAllocator;
  b_log : LG;
}.
Arguments mkBoot {C L RW MP FA Q G LG} _ _ _ _ _.
Arguments b_kernel {C L RW MP FA Q G LG} _.
Arguments b_irq {C L RW MP FA Q G LG} _.
Arguments b_cpu {C L RW MP FA Q G LG} _.
Arguments b_ALLOCATOR {C L RW MP FA Q G LG} _.
Arguments b_log {C L RW MP FA Q G LG} _.

Inductive Level := LError | LInfo.

Section boot.
Context `{BuildProfile} `{Font} `{X86Addr} `{X86Segment} `{StarApi} `{AcpiCrate}.
Context {C : Type → Type} `{OnceCell C} {L RW : Type} `{RawLock L, RawRwLock RW}.
Context {MP : Type} `{Mapper MP} {K : Type} `{RegionKind K} {V : Type} `{BitVecApi V}.
Context {Q : Type} `{ArrayQueueApi Q} {D G : Type} `{GdtApi D G} {LG : Type} `{LogCrate LG}.

(** The text of a record, formatted by core, and the crate's constructor of a mapper. *)
Variable record : Level → string → list Z.
Variable OffsetPageTable_new : Z → Z → MP.

Abbreviation FB := (BitmapAllocator K V).
Abbreviation S := (boot_state C L RW MP FB Q G LG).

Definition b_kernel_lens : lens S (kstate C L RW MP FB Q) :=
  Lens b_kernel (λ x b, mkBoot x (b_irq b) (b_cpu b) (b_ALLOCATOR b) (b_log b)).
Definition b_cpu_lens : lens S (cpu_tables G) :=
  Lens b_cpu (λ x b, mkBoot (b_kernel b) (b_irq b) x (b_ALLOCATOR b) (b_log b)).
Definition b_log_lens : lens S LG :=
  Lens b_log (λ x b, mkBoot (b_kernel b) (b_irq b) (b_cpu b) (b_ALLOCATOR b) x).

Definition ct_segments_lens : lens (cpu_tables G) (segments G) :=
  Lens ct_segments (λ x c, mkCpuTables x (ct_IDTR c) (ct_msrs c) (ct_IF c)).

Definition set_IDTR (t : option (list gate)) (c : cpu_tables G) : cpu_tables G :=
  mkCpuTables (ct_segments c) t (ct_msrs c) (ct_IF c).
Definition set_IF (f : bool) (c : cpu_tables G) : cpu_tables G :=
  mkCpuTables (ct_segments c) (ct_IDTR c) (ct_msrs c) f.

(** The registers and the static that [syscall::init] works on. *)
Definition syscall_init_lens : lens S (msrs * C (locked L FB)) :=
  Lens (λ b, (ct_msrs (b_cpu b), FRAME_ALLOCATOR (b_kernel b)))
    (λ x b, mkBoot (lput FRAME_ALLOCATOR_lens x.2 (b_kernel b)) (b_irq b)
      (mkCpuTables (ct_segments (b_cpu b)) (ct_IDTR (b_cpu b)) x.1 (ct_IF (b_cpu b)))
      (b_ALLOCATOR b) (b_log b)).

(** [log::info!] and [log::error!] *)
Definition log_record (level : Level) (message : string) : M S () :=
  b ← get_state;
  if log_enabled (b_log b)
  then on b_kernel_lens (on LOGGER_lens (log (record level message)))
  else mret ().

(** Code on the mapper behind the handle, and on what [init_apic] works on. *)
Definition on_mapper {A} (h : nat) (m : M (locked L MP) A) : M S A := λ b,
  match ks_mappers (b_kernel b) !! h with
  | None => (Ub, b)
  | Some lm =>
      let '(o, lm) := m lm in
      (o, (on b_kernel_lens (on ks_mappers_lens (modify_state <[h := lm]>)) b).2)
  end.

Definition on_apic {A} (h : nat) (m : M (apic_state C L MP Q) A) : M S A := λ b,
  match ks_mappers (b_kernel b) !! h with
  | None => (Ub, b)
  | Some lm =>
      let i := b_irq b in
      let '(o, a) := m (mkApic lm (irq_LAPIC i) (irq_ports i) (irq_inputs i) (irq_devs i)
                          (INPUT_PIPE (b_kernel b))) in
      (o, mkBoot (lput INPUT_PIPE_lens (ap_INPUT_PIPE a)
                    (lput ks_mappers_lens (<[h := ap_mapper a]> (ks_mappers (b_kernel b)))
                       (b_kernel b)))
            (mkIrq (ap_LAPIC a) (ap_ports a) (ap_inputs a) (ap_devs a))
            (b_cpu b) (b_ALLOCATOR b) (b_log b))
  end.

Definition expect_ok {A E} (message : string) (r : result A E) : outcome A :=
  match r with ROk a => Done a | RErr _ => Panic message end.

(** ** [kernel_main], in the order of its lines *)

Definition boot_logger (bi : boot_info K) : M S () :=
  fb ← liftO (expect unwrap_none (bi_framebuffer bi));
  on b_kernel_lens (on LOGGER_lens (modify_state
    (cell_init_once (Locked lock_free (FrameBufferWriter_new fb.1 fb.2)))));;
  r ← on b_log_lens (call set_logger);
  _ ← liftO (expect_ok "logger already set" r);
  on b_log_lens (modify_state set_max_level_info);;
  log_record LInfo "BAYOS".

Definition boot_tables (pf : platform) : M S () :=
  on b_cpu_lens (on ct_segments_lens (Gdt.init (GDT (pf_stack0 pf) (pf_stack1 pf))));;
  log_record LInfo "GDT [OK]";;
  on b_cpu_lens (modify_state (set_IDTR (Some IDT)));;
  log_record LInfo "interrupts [OK]".

(** The mapper ends up behind the handle [h], in a spin lock of its own. *)
Definition boot_memory (pf : platform) (bi : boot_info K) (h : nat) :
    M S (BootInfoFrameAllocator K) :=
  offset ← liftO (expect "physical memory was not mapped" (bi_physical_memory_offset bi));
  phys_memory_offset ← liftO (VirtAddr_new offset);
  mapper ← liftO (memory_init OffsetPageTable_new (pf_cr3 pf) phys_memory_offset);
  let frame_allocator := BootInfoFrameAllocator_init (bi_memory_regions bi) in
  log_record LInfo "frame allocator [OK]";;
  b ← get_state;
  let '(o, ((mapper, frame_allocator), allocator)) :=
    init_heap ((mapper, frame_allocator), b_ALLOCATOR b) in
  put_state (mkBoot (b_kernel b) (b_irq b) (b_cpu b) allocator (b_log b));;
  r ← liftO o;
  _ ← liftO (expect_ok "heap initialization failed" r);
  log_record LInfo "heap [OK]";;
  on b_kernel_lens (on ks_mappers_lens (modify_state <[h := Locked lock_free mapper]>));;
  mret frame_allocator.

Definition boot_devices (pf : platform) (bi : boot_info K) (h : nat) : M S () :=
  rsdp ← liftO (expect "bootloader found no rsdp address" (bi_rsdp_addr bi));
  m ← gets_state (λ b, ks_memory (b_kernel b));
  r ← on_mapper h (answer (AcpiTables_from_rsdp m rsdp));
  tables ← liftO (expect_ok "could not create acpi tables from rsdp" r);
  r ← on_mapper h (answer (AcpiPlatform_new m tables));
  model ← liftO (expect_ok "could not collect information about platform using acpi" r);
  on_apic h (init_apic model (pf_lapic_regs pf) (pf_current_count pf));;
  log_record LInfo "ACPI [OK]".

Definition boot_scheduler : M S () :=
  on b_kernel_lens (on ks_sched_lens Sched.init);;
  log_record LInfo "scheduler [OK]";;
  on b_cpu_lens (modify_state (set_IF true)).

Definition boot_frames (pf : platform) (frame_allocator : BootInfoFrameAllocator K) : M S () :=
  frame_allocator ← BitmapAllocator_init (log_record LInfo) frame_allocator;
  log_record LInfo "bitmap allocator [OK]";;
  gdt ← liftO (GDT (pf_stack0 pf) (pf_stack1 pf));
  on syscall_init_lens
    (SyscallInit.init (pf_syscall_entry pf) gdt.2 (Locked lock_free frame_allocator));;
  log_record LInfo "syscalls [OK]".

Definition boot_process (pf : platform) (bi : boot_info K) (h : nat) : M S () :=
  match bi_ramdisk_addr bi with
  | Some addr =>
      r ← on b_kernel_lens (add_user_process addr h (pf_rflags pf));
      _ ← liftO (expect_ok "Could not load init process" r);
      mret ()
  | None => log_record LError "No ramdisk passed"
  end.

(** Up to the final loop. *)
Definition kernel_start (pf : platform) (bi : boot_info K) (h : nat) : M S () :=
  boot_logger bi;;
  boot_tables pf;;
  frame_allocator ← boot_memory pf bi h;
  boot_devices pf bi h;;
  boot_scheduler;;
  boot_frames pf frame_allocator;;
  boot_process pf bi h.

(** A panic ends in [panic_handler], with whatever locks are held. *)
Definition or_panic (m : M S ()) : M S () := λ b,
  match m b with
  | (Panic message, b) =>
      panic_handler (on b_cpu_lens (modify_state (set_IF false))) (log_record LError message) b
  | r => r
  end.

(** The final loop halts the processor between interrupts and never ends. *)
Definition kernel_main (pf : platform) (bi : boot_info K) (h : nat) : M S () :=
  or_panic (kernel_start pf bi h;; hang).

End boot.
