(* ===== verification/BootSpec.v ===== *)
(** * What each stretch of [kernel_main] does, on a machine that is as it expects. *)

From S2P Require Import Prelude Crates CrateModels Statics Machine FrameSource Mapping.
From S2P Require Import Frames FramesSpec FrameSafety Allocator HeapSafety Paging Sched SchedSpec.
From S2P Require Import Asm Pipe Framebuffer FramebufferSpec Screen Syscall SyscallSpec Loader LoaderSpec.
From S2P Require Import Elf LoaderSafety Apic ApicSpec ApicSafety Gdt SyscallInit GdtSafety.
From S2P Require Import Interrupts Acpi Boot.

Local Open Scope Z_scope.

Section boot.
Context `{BuildProfile} `{FontLaws} `{X86AddrLaws} `{X86SegmentLaws} `{StarLaws} `{AcpiCrate}.
Context {C : Type → Type} `{OnceCellLaws C} {L RW : Type} `{RawLockLaws L, RawRwLockLaws RW}.
Context {MP : Type} `{MapperLaws MP} {K : Type} `{RegionKind K} {V : Type} `{BitVecLaws V}.
Context {Q : Type} `{ArrayQueueLaws Q} {D G : Type} `{!GdtApi D G, !GdtLaws D G}.
Context {LG : Type} `{LogCrateLaws LG}.

Variable record : Level → string → list Z.
Variable OffsetPageTable_new : Z → Z → MP.
Hypothesis record_short : ∀ l s, Z.of_nat (length (record l s)) < 2 ^ 40.

Abbreviation FB := (BitmapAllocator K V).
Abbreviation St := (boot_state C L RW MP FB Q G LG).
Implicit Types b : St.

(** ** The log *)

(** The text of these records, and the screen after them. *)
Definition log_text (msgs : list (Level * string)) : list Z :=
  m ← msgs; record m.1 m.2 ++ [NEWLINE].

Definition set_LOGGER (c : C (locked L FrameBufferWriter)) b : St :=
  lput b_kernel_lens (lput LOGGER_lens c (b_kernel b)) b.

(** The logger is idle and shows exactly these records, on a screen that was [w0]. *)
Definition logging (w0 : FrameBufferWriter) (msgs : list (Level * string)) b : Prop :=
  log_enabled (b_log b) = true ∧
  ∃ w, cell_is lock_free w (LOGGER (b_kernel b)) ∧ writer_ok w ∧
    write_str (log_text msgs) w0 = (Done (), w) ∧
    y_pos w ≤ y_pos w0 + 2 ^ 46 * Z.of_nat (length msgs).

Definition screen_ok (w0 : FrameBufferWriter) : Prop := writer_ok w0 ∧ y_pos w0 < 2 ^ 60.

Lemma log_record_done w0 msgs l s b :
  screen_ok w0 → logging w0 msgs b → (length msgs < 64)%nat →
  ∃ c, log_record record l s b = (Done (), set_LOGGER c b) ∧
       logging w0 (msgs ++ [(l, s)]) (set_LOGGER c b).
Proof.
  intros [_ Hy0] [Hen (w & Hc & Hw & Ew & Hy)] Hlen. pose proof (record_short l s) as Hs.
  destruct (log_done (record l s) w _ Hc Hw) as (c & w' & E & Hc' & Hw' & Ew' & Hy'); [lia|].
  exists c. split.
  - unfold log_record. rewrite get_bind, Hen.
    exact (on_done b_kernel_lens _ b _ _ (on_done LOGGER_lens _ _ _ _ E)).
  - split; [exact Hen|]. exists w'. split; [exact Hc'|]. split; [exact Hw'|]. split.
    + unfold log_text. rewrite bind_app. cbn [mbind list_bind]. rewrite app_nil_r, write_str_app.
      fold (log_text msgs). rewrite (mbind_done _ _ _ _ _ Ew). exact Ew'.
    + rewrite length_app. simpl length. lia.
Qed.

(** ** The logger and the tables *)

Lemma boot_logger_done (bi : boot_info K) fb i b :
  bi_framebuffer bi = Some (fb, i) → screen_ok (FrameBufferWriter_new fb i) →
  cell_get (LOGGER (b_kernel b)) = None → b_log b = log_start →
  ∃ c lg, boot_logger record bi b =
      (Done (), mkBoot (lput LOGGER_lens c (b_kernel b)) (b_irq b) (b_cpu b) (b_ALLOCATOR b) lg) ∧
    logging (FrameBufferWriter_new fb i) [(LInfo, "BAYOS")]
      (mkBoot (lput LOGGER_lens c (b_kernel b)) (b_irq b) (b_cpu b) (b_ALLOCATOR b) lg).
Proof.
  intros Hfb Hscreen Hlogger Hlog. destruct set_logger_first as (lg & Eset & Hen).
  set (w0 := FrameBufferWriter_new fb i) in *.
  set (c := cell_init_once (Locked lock_free w0) (LOGGER (b_kernel b))).
  set (b1 := mkBoot (lput LOGGER_lens c (b_kernel b)) (b_irq b) (b_cpu b) (b_ALLOCATOR b)
    (set_max_level_info lg)).
  assert (logging w0 [] b1) as Hl.
  { split; [exact Hen|]. exists w0. split; [|split; [apply Hscreen|split; [reflexivity|lia]]].
    unfold cell_is, b1, c. simpl. by rewrite cell_get_init_once, Hlogger. }
  destruct (log_record_done w0 [] LInfo "BAYOS" b1 Hscreen Hl) as (c' & E & Hl'); [simpl; lia|].
  exists c', (set_max_level_info lg). split; [|exact Hl'].
  unfold boot_logger. rewrite Hfb, expect_some, liftO_done_bind. fold w0.
  rewrite (mbind_done _ _ _ _ _ (on_done b_kernel_lens _ b _ _
    (on_done LOGGER_lens (modify_state _) _ () c eq_refl))).
  set (b0 := lput b_kernel_lens _ b).
  rewrite (mbind_done _ _ _ _ _ (on_done b_log_lens (call set_logger) b0 (ROk ()) lg
    ltac:(apply call_done; simpl; by rewrite Hlog))).
  cbn [expect_ok]. rewrite liftO_done_bind.
  rewrite (mbind_done _ _ _ _ _ (on_done b_log_lens (modify_state _) _ () _ eq_refl)).
  exact E.
Qed.

Definition boot_segments (g : G) (s : segments G) : segments G :=
  let sel := boot_selectors in
  mkSegs (Some g) (code_selector sel) (data_selector sel) (data_selector sel) (data_selector sel)
    (data_selector sel) (data_selector sel) (tss_selector sel).

Lemma boot_tables_done pf w0 msgs b :
  stack_ok (pf_stack0 pf) → stack_ok (pf_stack1 pf) → screen_ok w0 → logging w0 msgs b →
  (length msgs < 60)%nat →
  ∃ g c, GDT (D := D) (pf_stack0 pf) (pf_stack1 pf) = Done (g, boot_selectors) ∧
    let b' := mkBoot (lput LOGGER_lens c (b_kernel b)) (b_irq b)
      (mkCpuTables (boot_segments g (ct_segments (b_cpu b))) (Some IDT) (ct_msrs (b_cpu b))
         (ct_IF (b_cpu b))) (b_ALLOCATOR b) (b_log b) in
    boot_tables record pf b = (Done (), b') ∧
    logging w0 (msgs ++ [(LInfo, "GDT [OK]"); (LInfo, "interrupts [OK]")]) b'.
Proof.
  intros Hs0 Hs1 Hscreen Hl Hlen.
  destruct (GDT_done _ _ Hs0 Hs1) as (g & _ & Eg & _ & _).
  set (c1 := mkCpuTables (boot_segments g (ct_segments (b_cpu b))) (ct_IDTR (b_cpu b))
    (ct_msrs (b_cpu b)) (ct_IF (b_cpu b))).
  set (b1 := lput b_cpu_lens c1 b).
  destruct (log_record_done w0 msgs LInfo "GDT [OK]" b1 Hscreen Hl) as (x1 & E1 & Hl1); [lia|].
  set (b2 := lput b_cpu_lens (set_IDTR (Some IDT) c1) (set_LOGGER x1 b1)).
  destruct (log_record_done w0 _ LInfo "interrupts [OK]" b2 Hscreen Hl1) as (x2 & E2 & Hl2);
    [rewrite length_app; simpl; lia|]. rewrite <-(assoc_L (++)) in Hl2.
  exists g, x2. split; [exact Eg|]. split; [|exact Hl2]. unfold boot_tables.
  rewrite (mbind_done _ _ _ () b1).
  2:{ refine (on_done b_cpu_lens _ b () c1 _). refine (on_done ct_segments_lens _ _ () _ _).
      unfold Gdt.init. by rewrite Eg. }
  rewrite (mbind_done _ _ _ _ _ E1).
  rewrite (mbind_done _ _ _ _ _ (on_done b_cpu_lens (modify_state _) _ () _ eq_refl)). exact E2.
Qed.

(** ** The heap *)

(** The bootloader mapped physical memory at [off], and no frame it reports as usable holds a
    page table. *)
Record memory_ready (pf : platform) (bi : boot_info K) (off : Z) : Prop := {
  bm_offset : bi_physical_memory_offset bi = Some off;
  bm_canonical : in_u64 off ∧ canonical off;
  bm_table : in_u64 (pf_cr3 pf) ∧ off + pf_cr3 pf < 2 ^ 64 ∧ canonical (off + pf_cr3 pf);
  bm_regions : memory_map_ok (bi_memory_regions bi);
  bm_mapper : phys_offset (OffsetPageTable_new (off + pf_cr3 pf) off) = off;
  bm_tables : tables_safe (OffsetPageTable_new (off + pf_cr3 pf) off,
                           BootInfoFrameAllocator_init (bi_memory_regions bi));
}.

Definition boot_space (pf : platform) (bi : boot_info K) (off : Z) :
    MP * BootInfoFrameAllocator K :=
  (OffsetPageTable_new (off + pf_cr3 pf) off, BootInfoFrameAllocator_init (bi_memory_regions bi)).

(** The kernel's statics with another logger. *)
Abbreviation relog c k := (lput LOGGER_lens c k).

Lemma boot_memory_done pf bi h off w0 msgs b :
  memory_ready pf bi off → b_ALLOCATOR b = Locked lock_free LinkedListAllocator_new →
  screen_ok w0 → logging w0 msgs b → (length msgs < 60)%nat →
  ∃ (r : result () MapToError) mp fa c, space_grows (boot_space pf bi off) (mp, fa) ∧
    match r with
    | ROk _ => ∃ a,
        let b' := mkBoot (lput ks_mappers_lens
          (<[h := Locked lock_free mp]> (ks_mappers (b_kernel b))) (relog c (b_kernel b)))
          (b_irq b) (b_cpu b) a (b_log b) in
        boot_memory record OffsetPageTable_new pf bi h b = (Done fa, b') ∧
        heap_boot (Heap a []) ∧
        logging w0 (msgs ++ [(LInfo, "frame allocator [OK]"); (LInfo, "heap [OK]")]) b'
    | RErr e =>
        boot_memory record OffsetPageTable_new pf bi h b =
          (Panic "heap initialization failed", set_LOGGER c b) ∧
        logging w0 (msgs ++ [(LInfo, "frame allocator [OK]")]) (set_LOGGER c b) ∧
        ∃ p, p ∈ heap_pages ∧ error_cause e p (boot_space pf bi off) (mp, fa)
    end.
Proof.
  intros [Hoff [Hin Hcan] (Hcr3 & Hsum & Hcan2) Hmm _ Hsafe] Halloc Hscreen Hl Hlen.
  destruct (log_record_done w0 msgs LInfo "frame allocator [OK]" b Hscreen Hl)
    as (c1 & E1 & Hl1); [lia|].
  assert (fs_ok (boot_space pf bi off).2) as Hok by exact Hmm.
  destruct (init_heap_run (L := L) (boot_space pf bi off) Hok Hsafe)
    as (r & [mp fa] & a & Eheap & Hg & Hr).
  assert (∀ c, init_heap (boot_space pf bi off, b_ALLOCATOR (set_LOGGER c b)) =
    (Done r, ((mp, fa), a))) as Eh by (intros c; cbn; by rewrite Halloc).
  assert (∀ o b2, (r' ← liftO (Done r); _ ← liftO (expect_ok "heap initialization failed" r');
      log_record record LInfo "heap [OK]";;
      on b_kernel_lens (on ks_mappers_lens (modify_state <[h := Locked lock_free mp]>));;
      mret fa) (mkBoot (b_kernel (set_LOGGER c1 b)) (b_irq b) (b_cpu b) a (b_log b)) = (o, b2) →
    boot_memory record OffsetPageTable_new pf bi h b = (o, b2)) as Hgo.
  { intros o b2 <-. unfold boot_memory. rewrite Hoff, expect_some, liftO_done_bind.
    rewrite VirtAddr_new_canonical, liftO_done_bind by done.
    unfold memory_init, active_level_4_table. rewrite VirtAddr_add_canonical, done_bind by done.
    rewrite liftO_done_bind, (mbind_done _ _ _ _ _ E1), get_bind. fold (boot_space pf bi off).
    unfold boot_space in Eh. rewrite Eh, put_bind. reflexivity. }
  exists r, mp, fa. destruct r as [[]|e].
  - destruct Hr as [Hboot _].
    set (b1 := mkBoot (b_kernel (set_LOGGER c1 b)) (b_irq b) (b_cpu b) a (b_log b)) in *.
    destruct (log_record_done w0 _ LInfo "heap [OK]" b1 Hscreen Hl1) as (c2 & E2 & Hl2);
      [rewrite length_app; simpl; lia|]. rewrite <-(assoc_L (++)) in Hl2.
    exists c2. split; [exact Hg|]. exists a. split; [|split; [exact Hboot|exact Hl2]].
    apply Hgo. rewrite liftO_done_bind. cbn [expect_ok].
    rewrite liftO_done_bind, (mbind_done _ _ _ _ _ E2). reflexivity.
  - destruct Hr as [-> Hcause]. exists c1. split; [exact Hg|].
    split; [|split; [exact Hl1|exact Hcause]].
    apply Hgo. rewrite liftO_done_bind. cbn [expect_ok]. unfold set_LOGGER; simpl.
    by rewrite Halloc.
Qed.

(** ** The interrupt controllers *)

(** The acpi crate finds a local APIC, the PIT ends after [polls], the I/O APICs are there. *)
Record devices_ready (pf : platform) (bi : boot_info K) (off la : Z) (ios : list IoApic)
    (v1 v60 v2 : Z) (polls : list Z) (last : Z) (rest : list Z) (ldr id : Z) mp b : Prop := {
  dr_acpi : ∃ rsdp tables, bi_rsdp_addr bi = Some rsdp ∧
    let run := AcpiTables_from_rsdp (ks_memory (b_kernel b)) rsdp in
    let run' := AcpiPlatform_new (ks_memory (b_kernel b)) tables in
    requests_ok off run ∧ seen_at off run = Some (ROk tables) ∧
    requests_ok off run' ∧ seen_at off run' = Some (ROk (ApicModel la ios));
  dr_inputs : irq_inputs (b_irq b) = v1 :: v60 :: v2 :: polls ++ last :: rest;
  dr_polls : Forall (λ v, Z.land v 0x20 = 0) polls ∧ Z.land last 0x20 ≠ 0;
  dr_fresh : cell_get (irq_LAPIC (b_irq b)) = None ∧ irq_ports (b_irq b) = [] ∧
    cell_get (INPUT_PIPE (b_kernel b)) = None;
  dr_lapic : 0 < off + la < 2 ^ 64 ∧ length (pf_lapic_regs pf) = 252%nat ∧
    pf_lapic_regs pf !! 52%nat = Some ldr ∧ pf_lapic_regs pf !! 8%nat = Some id ∧
    0 ≤ pf_current_count pf ≤ 0xffffffff;
  dr_ios : io_apics_present mp ios (irq_devs (b_irq b));
}.

Lemma on_mapper_done {A} h (m : M (locked L MP) A) l a b :
  ks_mappers (b_kernel b) !! h = Some l → m l = (Done a, l) → on_mapper h m b = (Done a, b).
Proof.
  intros Hh E. unfold on_mapper. rewrite Hh, E.
  destruct b as [[ks fal ms pipe lg mem] irq cpu al log]. simpl in *. by rewrite insert_id.
Qed.

Lemma boot_devices_done pf bi h off la ios v1 v60 v2 polls last rest ldr id mp w0 msgs b :
  devices_ready pf bi off la ios v1 v60 v2 polls last rest ldr id mp b → phys_offset mp = off →
  ks_mappers (b_kernel b) !! h = Some (Locked lock_free mp) →
  screen_ok w0 → logging w0 msgs b → (length msgs < 60)%nat →
  ∃ c lapic ports devs pipe regs q,
    let b' := mkBoot (relog c (lput INPUT_PIPE_lens pipe (b_kernel b)))
      (mkIrq lapic ports rest devs) (b_cpu b) (b_ALLOCATOR b) (b_log b) in
    boot_devices record pf bi h b = (Done (), b') ∧
    logging w0 (msgs ++ [(LInfo, "ACPI [OK]")]) b' ∧
    cell_get lapic = Some (Locked lock_free regs) ∧
    (∀ i v, (i, v) ∈ lapic_setup ldr (pf_current_count pf) → regs !! i = Some v) ∧
    io_apics_configured mp id ios (irq_devs (b_irq b)) devs ∧
    cell_get pipe = Some q ∧ pipe_is 128 [] q.
Proof.
  intros [(rsdp & tables & Hrsdp & Hok1 & Hsee1 & Hok2 & Hsee2) Hinp [Hpolls Hlast]
    (Hl0 & Hp0 & Hq0) (Hla & Hlen' & Hldr & Hid & Hcount) Hios] Hoff Hmp Hscreen Hl Hlen. subst off.
  set (a0 := mkApic (Locked lock_free mp) (irq_LAPIC (b_irq b)) (irq_ports (b_irq b))
    (irq_inputs (b_irq b)) (irq_devs (b_irq b)) (INPUT_PIPE (b_kernel b))).
  destruct (init_apic_done la ios (pf_lapic_regs pf) (pf_current_count pf) v1 v60 v2 polls last rest
    ldr id mp (irq_devs (b_irq b)) (INPUT_PIPE (b_kernel b)) a0)
    as (a1 & regs & devs & pipe & q & E & [Hm1 Hl1 Hpo1 Hi1 Hd1 Hpi1] & Hset & _ & Hconf & Hq & Hqs);
    [by split|done..|].
  destruct a1 as [m1 l1 po1 i1 d1 pi1]. cbn in Hm1, Hl1, Hpo1, Hi1, Hd1, Hpi1. subst.
  set (b1 := mkBoot (lput INPUT_PIPE_lens pipe (b_kernel b))
    (mkIrq l1 (pic_trace ++ configure_trace v1 v60 ++ sleep_trace v2 polls last) rest devs)
    (b_cpu b) (b_ALLOCATOR b) (b_log b)).
  destruct (log_record_done w0 msgs LInfo "ACPI [OK]" b1 Hscreen Hl) as (c & E1 & Hlog); [lia|].
  eexists c, _, _, _, _, regs, q. split; [|by split_and!]. unfold boot_devices.
  rewrite Hrsdp, expect_some, liftO_done_bind, gets_bind.
  rewrite (mbind_done _ _ _ _ _ (on_mapper_done h _ _ (ROk tables) b Hmp
    ltac:(by rewrite (answer_run _ mp Hok1), Hsee1))).
  cbn [expect_ok]. rewrite liftO_done_bind.
  rewrite (mbind_done _ _ _ _ _ (on_mapper_done h _ _ (ROk (ApicModel la ios)) b Hmp
    ltac:(by rewrite (answer_run _ mp Hok2), Hsee2))).
  cbn [expect_ok]. rewrite liftO_done_bind. rewrite (mbind_done _ _ _ () b1); [exact E1|].
  unfold on_apic. rewrite Hmp. fold a0. rewrite E. unfold b1. simpl. f_equal. f_equal.
  destruct (b_kernel b). simpl in *. by rewrite insert_id.
Qed.

(** ** The scheduler, the frames and the first program *)

Definition kernel_process : Process := mkProcess 0 RUNNING 0 None None None.

Lemma boot_scheduler_done w0 msgs b :
  cell_get (PROCESS_LIST (ks_sched (b_kernel b))) = None →
  cell_get (CURRENT_PROCESS (ks_sched (b_kernel b))) = None →
  screen_ok w0 → logging w0 msgs b → (length msgs < 60)%nat →
  ∃ c sch,
    let b' := mkBoot (relog c (lput ks_sched_lens sch (b_kernel b))) (b_irq b)
      (set_IF true (b_cpu b)) (b_ALLOCATOR b) (b_log b) in
    boot_scheduler record b = (Done (), b') ∧
    logging w0 (msgs ++ [(LInfo, "scheduler [OK]")]) b' ∧ sched_idle [kernel_process] 0 sch.
Proof.
  intros Hpl Hcp Hscreen Hl Hlen. destruct (init_done_idle _ Hpl Hcp) as (sch & E & Hsch).
  set (b1 := lput b_kernel_lens (lput ks_sched_lens sch (b_kernel b)) b).
  destruct (log_record_done w0 msgs LInfo "scheduler [OK]" b1 Hscreen Hl) as (c & E1 & Hl1); [lia|].
  exists c, sch. split; [|split; [exact Hl1|exact Hsch]]. unfold boot_scheduler.
  rewrite (mbind_done _ _ _ _ _ (on_done b_kernel_lens _ b _ _ (on_done ks_sched_lens _ _ _ _ E))).
  rewrite (mbind_done _ _ _ _ _ E1). reflexivity.
Qed.

Definition frames_enough (fa : BootInfoFrameAllocator K) : Prop :=
  (boot_next fa ≤ usable_count fa)%nat.
#[export] Instance frames_enough_dec fa : Decision (frames_enough fa).
Proof. unfold frames_enough. apply _. Defined.

Lemma boot_frames_run pf fa w0 msgs b :
  boot_ok fa → stack_ok (pf_stack0 pf) → stack_ok (pf_stack1 pf) →
  in_u64 (pf_syscall_entry pf) → canonical (pf_syscall_entry pf) →
  cell_get (FRAME_ALLOCATOR (b_kernel b)) = None →
  screen_ok w0 → logging w0 msgs b → (length msgs < 60)%nat → frames_enough fa →
  ∃ c (fb : FB) cell,
    let cpu := b_cpu b in
    let b' := mkBoot (relog c (lput FRAME_ALLOCATOR_lens cell (b_kernel b))) (b_irq b)
      (mkCpuTables (ct_segments cpu) (ct_IDTR cpu) (syscall_msrs (pf_syscall_entry pf) (ct_msrs cpu))
         (ct_IF cpu)) (b_ALLOCATOR b) (b_log b) in
    boot_frames record pf fa b = (Done (), b') ∧
    logging w0 (msgs ++ [(LInfo, bitmap_message (usable_count fa));
      (LInfo, "bitmap allocator [OK]"); (LInfo, "syscalls [OK]")]) b' ∧
    cell_is lock_free fb cell ∧ bitmap_ok fb ∧ bitmap_memory_map fb = boot_memory_map fa ∧
    bitmap_taken fb = boot_taken fa.
Proof.
  intros Hok Hs0 Hs1 Hin Hcan Hcell Hscreen Hl Hlen Henough.
  destruct (take_over_done (V := V) fa Hok Henough) as (fb & Efb & Hmm & Hfb & Htaken).
  destruct (log_record_done w0 msgs LInfo (bitmap_message (usable_count fa)) b Hscreen Hl)
    as (c0 & E0 & Hl0); [lia|].
  destruct (log_record_done w0 _ LInfo "bitmap allocator [OK]" (set_LOGGER c0 b) Hscreen Hl0)
    as (c1 & E1 & Hl1); [rewrite length_app; simpl; lia|]. rewrite <-(assoc_L (++)) in Hl1.
  destruct (GDT_done (D := D) (G := G) _ _ Hs0 Hs1) as (g & _ & Eg & _ & _).
  destruct (syscall_init_run (pf_syscall_entry pf) (Locked lock_free fb) (ct_msrs (b_cpu b))
    (FRAME_ALLOCATOR (b_kernel b)) Hin Hcan) as [Einit Hget]. rewrite Hcell in Einit, Hget.
  set (cell := cell_init_once (Locked lock_free fb) (FRAME_ALLOCATOR (b_kernel b))) in *.
  set (b2 := lput syscall_init_lens (syscall_msrs (pf_syscall_entry pf) (ct_msrs (b_cpu b)), cell)
    (set_LOGGER c1 b)).
  destruct (log_record_done w0 _ LInfo "syscalls [OK]" b2 Hscreen Hl1) as (c2 & E2 & Hl2);
    [rewrite length_app; simpl; lia|]. rewrite <-(assoc_L (++)) in Hl2.
  exists c2, fb, cell. split; [|split; [exact Hl2|by split_and!]]. unfold boot_frames.
  rewrite (mbind_done _ _ _ fb (set_LOGGER c0 b)).
  2:{ by rewrite bitmap_init_run, (mbind_done _ _ _ _ _ E0), Efb by done. }
  rewrite (mbind_done _ _ _ _ _ E1), Eg, liftO_done_bind.
  rewrite (mbind_done _ _ _ _ _ (on_done syscall_init_lens _ (set_LOGGER c1 b) _ _ Einit)).
  exact E2.
Qed.

Lemma boot_frames_panics pf fa w0 msgs b :
  boot_ok fa → screen_ok w0 → logging w0 msgs b → (length msgs < 60)%nat → ¬ frames_enough fa →
  ∃ w c, boot_frames (V := V) (D := D) record pf fa b = (Panic w, set_LOGGER c b) ∧
    logging w0 (msgs ++ [(LInfo, bitmap_message (usable_count fa))]) (set_LOGGER c b).
Proof.
  intros Hok Hscreen Hl Hlen Hfew. destruct (take_over_panics (V := V) fa) as [w E].
  { unfold frames_enough in Hfew. lia. }
  destruct (log_record_done w0 msgs LInfo (bitmap_message (usable_count fa)) b Hscreen Hl)
    as (c & El & Hl'); [lia|].
  exists w, c. split; [|exact Hl']. unfold boot_frames. apply mbind_panic.
  by rewrite bitmap_init_run, (mbind_done _ _ _ _ _ El), E by done.
Qed.

Lemma boot_process_done pf bi h efi cur procs x m b :
  bi_ramdisk_addr bi = Some efi → call_idle procs cur h x m (b_kernel b) →
  fs_ok x.2 → tables_safe x → image_ok x m efi → is_word (pf_rflags pf) →
  ∃ r x' m' k, loader_step x m r x' m' ∧
    call_idle (pushed r procs h) cur h x' m' k ∧
    LOGGER k = LOGGER (b_kernel b) ∧ INPUT_PIPE k = INPUT_PIPE (b_kernel b) ∧
    boot_process record pf bi h b =
      (if r is ROk _ then Done () else Panic "Could not load init process",
       lput b_kernel_lens k b) ∧
    (r = ROk () → programs_loaded m efi (program_addrs m efi) x' m' ∧
       user_frame m' (e_entry (Header_at m efi)) (Z.lor (pf_rflags pf) INTERRUPT_FLAG)).
Proof.
  intros Hdisk Hs Hok Hsafe Himg Hfl.
  destruct (load_image_done x m efi _ Hok Hsafe Himg Hfl) as (r & x' & m' & E & Hstep & Hload').
  assert (r = ROk () → programs_loaded m efi (program_addrs m efi) x' m' ∧
    user_frame m' (e_entry (Header_at m efi)) (Z.lor (pf_rflags pf) INTERRUPT_FLAG)) as Hload
    by (intros Hr; destruct (Hload' Hr) as (? & ? & _); by split).
  destruct (add_user_process_done efi h _ procs cur x m _ r x' m' Hs E) as (k & E' & Hk).
  destruct (add_user_process_keeps_io efi h (pf_rflags pf) (b_kernel b)) as [Hlg Hpipe].
  rewrite E' in Hlg, Hpipe. cbn [snd] in Hlg, Hpipe.
  exists r, x', m', k. split; [exact Hstep|]. split; [exact Hk|].
  split; [exact Hlg|]. split; [exact Hpipe|]. split; [|exact Hload].
  unfold boot_process. rewrite Hdisk.
  rewrite (mbind_done _ _ _ _ _ (on_done b_kernel_lens _ b _ _ E')).
  by destruct r as [[]|e].
Qed.

End boot.
