(* ===== verification/BootSafety.v ===== *)
(** * Booting ends in the idle loop, with everything set up, or halts with a reason on the
    screen. *)

From S2P Require Import Prelude Crates CrateModels Statics Machine FrameSource Mapping.
From S2P Require Import Frames FramesSpec FrameSafety Allocator HeapSafety Paging Sched SchedSpec.
From S2P Require Import SchedSafety ContextSwitch Preemption Asm Pipe Framebuffer FramebufferSpec Screen Syscall SyscallSpec Loader.
From S2P Require Import Elf LoaderSpec LoaderSafety Apic ApicSpec ApicSafety Gdt SyscallInit GdtSafety.
From S2P Require Import Interrupts Acpi Boot BootSpec.

Local Open Scope Z_scope.

Section boot.
Context `{BuildProfile} `{FontLaws} `{X86AddrLaws} `{X86SegmentLaws} `{StarLaws} `{AcpiCrate}.
Context {C : Type → Type} `{OnceCellLaws C} {L RW : Type} `{RawLockLaws L, RawRwLockLaws RW}.
Context {MP : Type} `{MapperLaws MP} {K : Type} `{RegionKind K} {V : Type} `{BitVecLaws V}.
Context {Q : Type} `{ArrayQueueLaws Q} {D G : Type} `{!GdtApi D G, !GdtLaws D G}.
Context {LG : Type} `{LogCrateLaws LG}.

Variable record : Level → string → list Z.
Variable OffsetPageTable_new : Z → Z → MP.
Hypothesis record_short : ∀ l s, Z.of_nat (length (record l s)) < 2 ^ 40.

Abbreviation FB := (BitmapAllocator K V).
Abbreviation St := (boot_state C L RW MP FB Q G LG).
Implicit Types b : St.

(** ** Where it starts *)

(** A machine after reset and a bootloader that keeps its promises. *)
Record boot_ready (pf : platform) (bi : boot_info K) (off la : Z) (ios : list IoApic)
    (v1 v60 v2 : Z) (polls : list Z) (last : Z) (rest : list Z) (ldr id : Z)
    (w0 : FrameBufferWriter) b : Prop := {
  br_screen : ∃ fb i, bi_framebuffer bi = Some (fb, i) ∧ w0 = FrameBufferWriter_new fb i ∧
    screen_ok w0;
  br_statics : cell_get (LOGGER (b_kernel b)) = None ∧
    cell_get (PROCESS_LIST (ks_sched (b_kernel b))) = None ∧
    cell_get (CURRENT_PROCESS (ks_sched (b_kernel b))) = None ∧
    cell_get (FRAME_ALLOCATOR (b_kernel b)) = None ∧
    b_ALLOCATOR b = Locked lock_free LinkedListAllocator_new ∧ b_log b = log_start;
  br_linked : stack_ok (pf_stack0 pf) ∧ stack_ok (pf_stack1 pf) ∧
    in_u64 (pf_syscall_entry pf) ∧ canonical (pf_syscall_entry pf) ∧ is_word (pf_rflags pf);
  br_memory : memory_ready OffsetPageTable_new pf bi off;
  br_devices : devices_ready pf bi off la ios v1 v60 v2 polls last rest ldr id
    (OffsetPageTable_new (off + pf_cr3 pf) off) b;
  br_image : ∀ efi, bi_ramdisk_addr bi = Some efi →
    image_ok (boot_space OffsetPageTable_new pf bi off) (ks_memory (b_kernel b)) efi;
}.

(** ** Where it ends *)

(** The frames in usable memory. *)
Definition boot_count (bi : boot_info K) : nat :=
  usable_count (BootInfoFrameAllocator_init (bi_memory_regions bi)).

Definition boot_messages (bi : boot_info K) : list (Level * string) :=
  [(LInfo, "BAYOS"); (LInfo, "GDT [OK]"); (LInfo, "interrupts [OK]");
   (LInfo, "frame allocator [OK]"); (LInfo, "heap [OK]"); (LInfo, "ACPI [OK]");
   (LInfo, "scheduler [OK]"); (LInfo, bitmap_message (boot_count bi));
   (LInfo, "bitmap allocator [OK]"); (LInfo, "syscalls [OK]")].

Definition late_messages (bi : boot_info K) : list (Level * string) :=
  if bi_ramdisk_addr bi is Some _ then [] else [(LError, "No ramdisk passed")].

(** The processes: the boot thread, and the program of the ramdisk if there is one. *)
Definition boot_processes (bi : boot_info K) (h : nat) : list Process :=
  kernel_process :: (if bi_ramdisk_addr bi is Some _ then [user_process h] else []).

Record tables_ready (pf : platform) (r : msrs) (c : cpu_tables G) : Prop := {
  tr_gdt : ∃ g, GDT (D := D) (pf_stack0 pf) (pf_stack1 pf) = Done (g, boot_selectors) ∧
    GDTR (ct_segments c) = Some g ∧ seg_CS (ct_segments c) = code_selector boot_selectors;
  tr_idt : ct_IDTR c = Some IDT;
  tr_msrs : ct_msrs c = r;
}.

(** The image at [efi] in the memory [m0] is loaded, and its start context is on its stack. *)
Definition program_ready (pf : platform) (m0 : memory) (efi : Z) (x : MP * FB) (m : memory) : Prop :=
  programs_loaded m0 efi (program_addrs m0 efi) x m ∧
  user_frame m (e_entry (Header_at m0 efi)) (Z.lor (pf_rflags pf) INTERRUPT_FLAG).

(** The idle loop: interrupts are on, all locks are free, the timer ticks, and the processes
    are ready to run. *)
Record kernel_idles (pf : platform) (bi : boot_info K) (h : nat) w0 b b' : Prop := {
  ki_log : logging record w0 (boot_messages bi ++ late_messages bi) b';
  ki_on : ct_IF (b_cpu b') = true;
  ki_tables : tables_ready pf (syscall_msrs (pf_syscall_entry pf) (ct_msrs (b_cpu b))) (b_cpu b');
  ki_heap : heap_boot (Heap (b_ALLOCATOR b') []);
  ki_timer : ∃ regs, cell_get (irq_LAPIC (b_irq b')) = Some (Locked lock_free regs) ∧
    regs !! 200%nat = Some 0x20020 ∧ regs !! 224%nat = Some (0xffffffff - pf_current_count pf);
  ki_pipe : ∃ q, cell_get (INPUT_PIPE (b_kernel b')) = Some q ∧ pipe_is 128 [] q;
  ki_processes : ∃ x m, call_idle (boot_processes bi h) 0 h x m (b_kernel b') ∧
    fs_ok x.2 ∧ tables_safe x ∧
    ∀ efi, bi_ramdisk_addr bi = Some efi →
      program_ready pf (ks_memory (b_kernel b)) efi x m;
}.

(** Why it can fail, and what has been printed by then: a page of the heap that cannot be
    mapped, more frames asked for at boot than there are, or a page of the first program. *)
Inductive boot_failure (pf : platform) (bi : boot_info K) (off : Z) :
    string → list (Level * string) → Prop :=
  | heap_not_mapped e p x :
      p ∈ heap_pages → error_cause e p (boot_space OffsetPageTable_new pf bi off) x →
      boot_failure pf bi off "heap initialization failed" (take 4 (boot_messages bi))
  | frames_overdrawn mp fa w :
      space_grows (boot_space OffsetPageTable_new pf bi off) (mp, fa) → ¬ frames_enough fa →
      boot_failure pf bi off w (take 8 (boot_messages bi))
  | init_not_loaded e q (x x' : MP * FB) :
      error_cause e q x x' → is_Some (bi_ramdisk_addr bi) →
      boot_failure pf bi off "Could not load init process" (boot_messages bi).

Lemma io_apics_present_offset mp mp' ios devs :
  phys_offset mp' = phys_offset mp → io_apics_present (MP := MP) mp ios devs →
  io_apics_present mp' ios devs.
Proof. unfold io_apics_present, io_apic_ok, io_ptr. by intros ->. Qed.

(** Mapping pages does not change what is usable. *)
Lemma usable_count_boot pf bi off mp (fa : BootInfoFrameAllocator K) :
  memory_ready OffsetPageTable_new pf bi off →
  space_grows (boot_space OffsetPageTable_new pf bi off) (mp, fa) →
  usable_count fa = boot_count bi.
Proof.
  intros Hmem [(Hok & Hpool & _) _]. unfold usable_count, boot_count in *.
  pose proof (f_equal size Hpool) as Hsize. cbn in Hsize.
  rewrite !size_list_to_set in Hsize; [exact Hsize| |];
    apply frame_addresses_nodup; [apply (bm_regions _ _ _ _ Hmem)|exact Hok].
Qed.

(** ** The second half, from the interrupt controllers on *)

(** The bitmap allocator serves the same space as the allocator it takes over from. *)
Lemma hand_over_space pf bi off m efi mp (fa : BootInfoFrameAllocator K) (fb : FB) :
  space_grows (boot_space OffsetPageTable_new pf bi off) (mp, fa) →
  tables_safe (boot_space OffsetPageTable_new pf bi off) →
  bitmap_memory_map fb = boot_memory_map fa → bitmap_taken fb = boot_taken fa →
  tables_safe (mp, fb) ∧
  (image_ok (boot_space OffsetPageTable_new pf bi off) m efi → image_ok (mp, fb) m efi).
Proof.
  intros Hg Hsafe Hmm Htaken. split.
  - intros f Hf Hpool. simpl in Hpool |- *. rewrite Htaken. rewrite Hmm in Hpool.
    by eapply (mapping_kept_safe _ _ (proj1 Hg) Hsafe).
  - intros Himg. destruct (image_ok_grows _ _ _ _ Hg Himg) as [Hh Hoff Hps He].
    split; [exact Hh|exact Hoff|exact Hps|exact He].
Qed.

Lemma boot_processes_cases pf bi off h w0 (fa : BootInfoFrameAllocator K) mp b0 b :
  space_grows (boot_space OffsetPageTable_new pf bi off) (mp, fa) →
  tables_safe (boot_space OffsetPageTable_new pf bi off) →
  (∀ efi, bi_ramdisk_addr bi = Some efi →
    image_ok (boot_space OffsetPageTable_new pf bi off) (ks_memory (b_kernel b0)) efi) →
  is_word (pf_rflags pf) → ks_memory (b_kernel b) = ks_memory (b_kernel b0) →
  (∃ fb : FB, cell_is lock_free fb (FRAME_ALLOCATOR (b_kernel b)) ∧ bitmap_ok fb ∧
     bitmap_memory_map fb = boot_memory_map fa ∧ bitmap_taken fb = boot_taken fa) →
  ks_mappers (b_kernel b) !! h = Some (Locked lock_free mp) →
  sched_idle [kernel_process] 0 (ks_sched (b_kernel b)) →
  screen_ok w0 → logging record w0 (boot_messages bi) b →
  ∃ o k, boot_process record pf bi h b = (o, lput b_kernel_lens k b) ∧
    INPUT_PIPE k = INPUT_PIPE (b_kernel b) ∧
    match o with
    | Done _ =>
        logging record w0 (boot_messages bi ++ late_messages bi) (lput b_kernel_lens k b) ∧
        ∃ x m, call_idle (boot_processes bi h) 0 h x m k ∧ fs_ok x.2 ∧ tables_safe x ∧
          ∀ efi, bi_ramdisk_addr bi = Some efi →
            program_ready pf (ks_memory (b_kernel b0)) efi x m
    | Panic w => boot_failure pf bi off w (boot_messages bi) ∧
        logging record w0 (boot_messages bi) (lput b_kernel_lens k b)
    | _ => False
    end.
Proof.
  intros Hg Hsafe0 Himg Hfl Hmem (fb & Hcell & Hfb & Hmm & Htaken) Hmp Hsched Hscreen Hl.
  assert (call_idle [kernel_process] 0 h (mp, fb) (ks_memory (b_kernel b0)) (b_kernel b)) as Hs
    by by split.
  pose proof (λ efi, hand_over_space pf bi off (ks_memory (b_kernel b0)) efi mp fa fb
    Hg Hsafe0 Hmm Htaken) as Hspace. pose proof (proj1 (Hspace 0)) as Hsafe.
  destruct (bi_ramdisk_addr bi) as [efi|] eqn:Hdisk.
  - pose proof (proj2 (Hspace efi) (Himg efi eq_refl)) as Himg'.
    destruct (boot_process_done record pf bi h efi 0 _ (mp, fb) _ b Hdisk Hs Hfb Hsafe Himg' Hfl)
      as (r & x' & m' & k & (Hgrow & _ & Hr) & Hk & Hlg & Hpipe & E & Hload).
    exists (if r is ROk _ then Done () else Panic "Could not load init process"), k.
    split; [exact E|]. split; [exact Hpipe|].
    assert (logging record w0 (boot_messages bi) (lput b_kernel_lens k b)) as Hl'.
    { destruct Hl as [Hen Hw]. split; [exact Hen|]. simpl. by rewrite Hlg. }
    destruct r as [[]|e].
    + unfold late_messages, boot_processes. rewrite Hdisk, app_nil_r. split; [exact Hl'|].
      exists x', m'. split; [exact Hk|]. split; [apply Hgrow|].
      split; [by eapply mapping_kept_safe; [apply Hgrow|]|].
      intros efi' [= <-]. by apply Hload.
    + destruct Hr as (q & x1 & _ & He). split; [|exact Hl'].
      eapply init_not_loaded; [exact He|by rewrite Hdisk].
  - destruct (log_record_done record record_short w0 _ LError "No ramdisk passed" b Hscreen Hl)
      as (c & E & Hl'); [simpl; lia|].
    exists (Done ()), (lput LOGGER_lens c (b_kernel b)). unfold boot_process. rewrite Hdisk.
    split; [exact E|]. split; [reflexivity|].
    unfold late_messages, boot_processes. rewrite Hdisk. split; [exact Hl'|].
    exists (mp, fb), (ks_memory (b_kernel b0)).
    split; [by destruct Hs|]. split; [exact Hfb|]. split; [exact Hsafe|]. discriminate.
Qed.

(** Name the state that the log is about. *)
Local Ltac name_state H x :=
  match type of H with logging _ _ _ ?b => set (x := b) in * end.

(** From the mapped heap to the idle loop. *)
Lemma late_boot_cases pf bi off la ios v1 v60 v2 polls last rest ldr id h w0 fa mp b0 b :
  space_grows (boot_space OffsetPageTable_new pf bi off) (mp, fa) →
  boot_ready pf bi off la ios v1 v60 v2 polls last rest ldr id w0 b0 →
  devices_ready pf bi off la ios v1 v60 v2 polls last rest ldr id mp b →
  ks_memory (b_kernel b) = ks_memory (b_kernel b0) →
  ks_mappers (b_kernel b) !! h = Some (Locked lock_free mp) →
  cell_get (PROCESS_LIST (ks_sched (b_kernel b))) = None →
  cell_get (CURRENT_PROCESS (ks_sched (b_kernel b))) = None →
  cell_get (FRAME_ALLOCATOR (b_kernel b)) = None →
  heap_boot (Heap (b_ALLOCATOR b) []) →
  tables_ready pf (ct_msrs (b_cpu b0)) (b_cpu b) →
  logging record w0 (take 5 (boot_messages bi)) b →
  ∃ o b', (boot_devices record pf bi h;; boot_scheduler record;;
           boot_frames (D := D) record pf fa;; boot_process record pf bi h) b = (o, b') ∧
    match o with
    | Done _ => kernel_idles pf bi h w0 b0 b'
    | Panic w => ∃ msgs, boot_failure pf bi off w msgs ∧ logging record w0 msgs b'
    | _ => False
    end.
Proof.
  intros Hg [(fb0 & i0 & _ & _ & Hscreen) _ (Hs0 & Hs1 & Hen & Hcan & Hfl) Hmem _ Himg] Hdev Hm Hmp Hpl Hcp Hfa Hheap
    [(g & Eg & HG & HCS) Hidt Hmsrs] Hl.
  pose proof (proj1 Hg) as (Hok & _ & _ & _ & _ & Hoff & _). cbn [fst snd boot_space] in Hok, Hoff.
  rewrite (bm_mapper _ _ _ _ Hmem) in Hoff.
  destruct (boot_devices_done record record_short _ _ h _ _ _ _ _ _ _ _ _ _ _ mp w0 _ b Hdev Hoff
    Hmp Hscreen Hl) as (c1 & lapic & ports & devs & pipe & regs & q & E1 & Hl1 & Hlapic & Hset & _ &
    Hq & Hqs); [simpl; lia|].
  rewrite (mbind_done _ _ _ _ _ E1). clear E1. name_state Hl1 b1.
  destruct (boot_scheduler_done record record_short w0 _ b1 Hpl Hcp Hscreen Hl1)
    as (c2 & sch & E2 & Hl2 & Hsch); [simpl; lia|].
  rewrite (mbind_done _ _ _ _ _ E2). clear E2. name_state Hl2 b2.
  destruct (decide (frames_enough fa)) as [Henough|Hfew].
  2:{ destruct (boot_frames_panics (V := V) (D := D) record record_short pf fa w0 _ b2 Hok Hscreen
        Hl2) as (w & c3 & E & Hl3); [simpl; lia|exact Hfew|].
      rewrite (mbind_panic _ _ _ _ _ E). eexists _, _. split; [reflexivity|].
      exists (take 8 (boot_messages bi)). split; [by eapply frames_overdrawn|].
      rewrite (usable_count_boot _ _ _ _ _ Hmem Hg) in Hl3. exact Hl3. }
  destruct (boot_frames_run record record_short pf fa w0 _ b2 Hok Hs0 Hs1 Hen Hcan Hfa Hscreen Hl2)
    as (c3 & fb & cell & E3 & Hl3 & Hfb); [simpl; lia|exact Henough|].
  rewrite (usable_count_boot _ _ _ _ _ Hmem Hg) in Hl3.
  rewrite (mbind_done _ _ _ _ _ E3). clear E3. name_state Hl3 b3.
  destruct (boot_processes_cases pf bi off h w0 fa mp b0 b3 Hg (bm_tables _ _ _ _ Hmem) Himg Hfl Hm)
    as (o & k & E4 & Hpipe & Ho);
    [by exists fb|exact Hmp|exact Hsch|exact Hscreen|exact Hl3|].
  exists o, (lput b_kernel_lens k b3). split; [exact E4|].
  destruct o as [u|w| |]; [|by exists (boot_messages bi)|done|done].
  destruct Ho as [Hlog Hprocs]. split.
  - exact Hlog.
  - reflexivity.
  - split; [by exists g|exact Hidt|]. simpl. by rewrite Hmsrs.
  - exact Hheap.
  - exists regs. split; [exact Hlapic|]. split; apply Hset; [do 10 right; left|do 11 right; left].
  - exists q. split; [|exact Hqs]. simpl. by rewrite Hpipe.
  - exact Hprocs.
Qed.

Lemma kernel_start_cases pf bi off la ios v1 v60 v2 polls last rest ldr id h w0 b :
  boot_ready pf bi off la ios v1 v60 v2 polls last rest ldr id w0 b →
  ∃ o b', kernel_start (D := D) record OffsetPageTable_new pf bi h b = (o, b') ∧
    match o with
    | Done _ => kernel_idles pf bi h w0 b b'
    | Panic w => ∃ msgs, boot_failure pf bi off w msgs ∧ logging record w0 msgs b'
    | _ => False
    end.
Proof.
  intros Hready. pose proof Hready as [(fb & i & Hfb & -> & Hscreen)
    (Hlg & Hpl & Hcp & Hfa & Halloc & Hlog) (Hs0 & Hs1 & _) Hmem Hdev Himg].
  set (w0 := FrameBufferWriter_new fb i) in *. unfold kernel_start.
  destruct (boot_logger_done record record_short bi fb i b Hfb Hscreen Hlg Hlog)
    as (c1 & lg & E1 & Hl1). rewrite (mbind_done _ _ _ _ _ E1). clear E1.
  name_state Hl1 b1.
  destruct (boot_tables_done (D := D) record record_short pf w0 _ b1 Hs0 Hs1 Hscreen Hl1)
    as (g & c2 & Eg & E2 & Hl2); [simpl; lia|]. rewrite (mbind_done _ _ _ _ _ E2). clear E2.
  name_state Hl2 b2.
  destruct (boot_memory_done record OffsetPageTable_new record_short pf bi h off w0 _ b2 Hmem Halloc
    Hscreen Hl2) as ([[]|e] & mp & fa & c3 & Hg & Hr); [simpl; lia| |].
  2:{ destruct Hr as (E & Hl3 & p & Hp & He). rewrite (mbind_panic _ _ _ _ _ E).
      eexists _, _. split; [reflexivity|]. eexists. split; [by eapply heap_not_mapped|exact Hl3]. }
  destruct Hr as (a & E3 & Hboot & Hl3). rewrite (mbind_done _ _ _ _ _ E3). clear E3.
  name_state Hl3 b3.
  apply (late_boot_cases pf bi off la ios v1 v60 v2 polls last rest ldr id h w0 fa mp b b3);
    [exact Hg|exact Hready| |reflexivity|apply lookup_insert_eq|exact Hpl|exact Hcp|exact Hfa
    |exact Hboot| |exact Hl3].
  - destruct Hdev as [Ha Hin Hpo Hfr Hla Hio]. split; [exact Ha|exact Hin|exact Hpo|exact Hfr
      |exact Hla|]. eapply io_apics_present_offset; [|exact Hio].
    by destruct Hg as [(_ & _ & _ & _ & _ & Ho & _) _].
  - split; [|reflexivity|reflexivity]. exists g. by split.
Qed.

Lemma boot_failure_short pf bi off w msgs : boot_failure pf bi off w msgs → (length msgs < 64)%nat.
Proof. destruct 1; simpl; lia. Qed.

Lemma kernel_main_cases pf bi off la ios v1 v60 v2 polls last rest ldr id h w0 b :
  boot_ready pf bi off la ios v1 v60 v2 polls last rest ldr id w0 b →
  ∃ b', kernel_main (D := D) record OffsetPageTable_new pf bi h b = (Hang, b') ∧
    (kernel_idles pf bi h w0 b b' ∨
     ∃ w msgs, boot_failure pf bi off w msgs ∧ ct_IF (b_cpu b') = false ∧
       logging record w0 (msgs ++ [(LError, w)]) b').
Proof.
  intros Hready. pose proof Hready as [(_ & _ & _ & _ & Hscreen) _ _ _ _ _].
  destruct (kernel_start_cases _ _ _ _ _ _ _ _ _ _ _ _ _ h _ _ Hready) as (o & b1 & E & Ho).
  unfold kernel_main, or_panic. destruct o as [[]|w| |]; [| |done|done].
  - rewrite (mbind_done _ _ _ _ _ E). exists b1. split; [reflexivity|]. by left.
  - destruct Ho as (msgs & Hfail & Hl). rewrite (mbind_panic _ _ _ _ _ E).
    destruct (log_record_done record record_short w0 msgs LError w
      (lput b_cpu_lens (set_IF false (b_cpu b1)) b1) Hscreen Hl) as (c & El & Hl');
      [by eapply boot_failure_short|].
    eexists. split; [|right; exists w, msgs; split; [exact Hfail|split; [|exact Hl']; reflexivity]].
    unfold panic_handler, hcf.
    rewrite (mbind_done _ _ _ _ _ (on_done b_cpu_lens (modify_state _) b1 () _ eq_refl)).
    by rewrite (mbind_done _ _ _ _ _ El).
Qed.

(** ** The claims *)

(** C5: on a machine and a bootloader that are as the kernel expects, [kernel_main] comes to
    rest in one of two ways.  It idles with interrupts on, every lock free, the tables loaded,
    the timer calibrated, the heap and the input pipe empty, the program of the ramdisk ready
    to run, and on the screen one line for each step in order.  Or a frame or page was missing:
    then it halts with interrupts off, and the lines up to that step and the reason are on the
    screen. *)
Theorem kernel_main_idles_or_halts pf bi off la ios v1 v60 v2 polls last rest ldr id h w0 b :
  boot_ready pf bi off la ios v1 v60 v2 polls last rest ldr id w0 b →
  ∃ b', kernel_main (D := D) record OffsetPageTable_new pf bi h b = (Hang, b') ∧
    (kernel_idles pf bi h w0 b b' ∨
     ∃ w msgs, boot_failure pf bi off w msgs ∧ ct_IF (b_cpu b') = false ∧
       logging record w0 (msgs ++ [(LError, w)]) b').
Proof. apply kernel_main_cases. Qed.

(** The statics that the timer's handler works on. *)
Definition timer_kernel b : kernel C L RW :=
  mkKernel (ks_sched (b_kernel b)) (irq_LAPIC (b_irq b)).

(** What the first tick finds in the idle loop. *)
Lemma idle_first_tick pf bi h w0 b b' efi r :
  kernel_idles pf bi h w0 b b' → bi_ramdisk_addr bi = Some efi →
  kernel_idle (boot_processes bi h) 0 (timer_kernel b') ∧
  user_frame (ks_memory (b_kernel b')) (e_entry (Header_at (ks_memory (b_kernel b)) efi))
    (Z.lor (pf_rflags pf) INTERRUPT_FLAG) ∧
  ∀ k1 : kernel C L RW, kernel_idle (boot_processes bi h) 0 k1 →
    ∃ procs s, schedule r (k_sched k1) = (Done (rsp (user_process h)), s) ∧
      sched_idle procs 1 s ∧ one_running procs 1 ∧ rsp <$> procs !! 0%nat = Some r.
Proof.
  intros Hidle Hdisk.
  destruct (ki_processes _ _ _ _ _ _ Hidle) as (x & m & Hs & _ & _ & Hprog).
  destruct (Hprog efi Hdisk) as [_ Hframe]. destruct Hs as [Hsched _ _ <-].
  destruct (ki_timer _ _ _ _ _ _ Hidle) as (lapic & Hl & _).
  split; [by split; [exact Hsched|exists lapic]|]. split; [exact Hframe|].
  intros k1 [Hs1 _]. unfold boot_processes in *. rewrite Hdisk in *.
  destruct (tick _ 0 r _ Hs1) as (q & procs & s' & E2 & Hs' & Hone & _ & Hq & Hrsp).
  { split; [by eexists|]. intros [|[|i]] p Hi Hp; [done|by injection Hp as <-|done]. }
  assert (q = user_process h) as -> by (by injection Hq).
  exists procs, s'. split; [exact E2|]. split; [exact Hs'|]. split; [exact Hone|].
  by rewrite (Hrsp 0%nat).
Qed.

(** C6: from the idle loop the next timer tick enters the program of the ramdisk.  The tick
    goes through the timer's gate to [timer_handler], which saves the boot thread on its own
    stack, acknowledges the interrupt and asks the scheduler with that stack pointer; the
    scheduler switches to the program, and the handler's return goes to its entry point in
    user mode, on its own stack, with interrupts on.  ([top] is the kernel stack the tick
    finds; with what the two calls use of it, it lies above the program's.) *)
Theorem first_tick_enters_program pf bi off la ios v1 v60 v2 polls last rest ldr id h w0 efi
    b b' c tss handler kcs ret1 ret2 depth clobber1 clobber2 top :
  boot_ready pf bi off la ios v1 v60 v2 polls last rest ldr id w0 b →
  bi_ramdisk_addr bi = Some efi →
  kernel_main (D := D) record OffsetPageTable_new pf bi h b = (Hang, b') →
  ct_IF (b_cpu b') = true →
  sysv_abi depth clobber1 → sysv_abi depth clobber2 → is_word ret1 → is_word ret2 → 0 ≤ depth →
  cpu_ok c → top = interrupt_stack tss c →
  USER_STACK_TOP + depth + 8 + frame_bytes ≤ top < 2 ^ 64 →
  ct_IDTR (b_cpu b') = Some IDT ∧
  idt_entry (as_u32 Timer) = Some (mkGate (as_u32 Timer) TimerHandler None) ∧
  ∃ c' m' k' procs, timer_interrupt tss handler kcs ret1 ret2 clobber1 clobber2
      (c, ks_memory (b_kernel b'), timer_kernel b') = (Done (), (c', m', k')) ∧
    rip c' = e_entry (Header_at (ks_memory (b_kernel b)) efi) ∧ cs c' = 0x33 ∧ ss c' = 0x2b ∧
    rflags c' = Z.lor (pf_rflags pf) INTERRUPT_FLAG ∧ regs c' RSP = USER_STACK_TOP ∧
    sched_idle procs 1 (k_sched k') ∧ one_running procs 1 ∧
    eoi_sent (timer_kernel b') k' ∧
    rsp <$> procs !! 0%nat = Some (top - frame_bytes) ∧ context_saved c m' (top - frame_bytes).
Proof.
  intros Hready Hdisk E Hon Habi1 Habi2 Hret1 Hret2 Hdepth Hc Htop Hrange.
  destruct (kernel_main_cases _ _ _ _ _ _ _ _ _ _ _ _ _ h _ _ Hready) as (b1 & E1 & Hcase).
  rewrite E in E1. injection E1 as <-.
  destruct Hcase as [Hidle|(w & msgs & _ & Hoff & _)]; [|congruence].
  destruct (idle_first_tick _ _ _ _ _ _ efi (top - frame_bytes) Hidle Hdisk)
    as (Hk & Hframe & Hsched).
  split; [apply (tr_idt _ _ _ (ki_tables _ _ _ _ _ _ Hidle))|].
  split; [reflexivity|].
  unfold USER_STACK_TOP, frame_bytes in Hrange.
  destruct (timer_prefix depth clobber1 clobber2 tss handler kcs ret1 ret2 c
    (ks_memory (b_kernel b')) (timer_kernel b') (boot_processes bi h) 0 (rsp (user_process h))
    (λ k', ∃ procs, sched_idle procs 1 (k_sched k') ∧ one_running procs 1 ∧
       eoi_sent (timer_kernel b') k' ∧ rsp <$> procs !! 0%nat = Some (top - frame_bytes)) top
    Habi1 Habi2 Hret1 Hret2 Hdepth Hc Htop) as (c1 & m1 & k1 & E2 & Hrax & Hpost & Hsaved & Hm);
    [unfold frame_bytes; lia|exact Hk| |].
  { intros k1 Hk1 Heoi. destruct (Hsched k1 Hk1) as (procs & s & Es & Hs & Hone & Hr).
    exists s. split; [exact Es|]. by exists procs. }
  destruct Hpost as (procs & Hs & Hone & Heoi & Hr).
  apply (user_frame_ext _ m1) in Hframe.
  2:{ intros a Ha. apply Hm. left. unfold USER_STACK_FRAME, USER_STACK_TOP, frame_bytes in *. lia. }
  destruct (user_frame_starts _ _ _ c1 k1 h Hframe Hrax) as (c' & Er & ? & ? & ? & ? & ? & _).
  exists c', m1, k1, procs. rewrite E2. split; [exact Er|]. by split_and!.
Qed.

End boot.
