(* ===== verification/BootExample.v ===== *)
(** * A small machine that boots: the theorems of [BootSafety.v] at concrete inputs. *)

From S2P Require Import Prelude Crates CrateModels Statics Machine FrameSource Mapping MapperModel.
From S2P Require Import Frames FramesSpec FrameSafety Allocator HeapSafety Paging Sched SchedSpec.
From S2P Require Import SchedSafety ContextSwitch Preemption NewThread Asm Pipe Framebuffer FramebufferSpec Screen.
From S2P Require Import Syscall SyscallSpec Loader Elf LoaderSpec LoaderSafety LoaderExample.
From S2P Require Import Apic ApicSpec ApicSafety Gdt SyscallInit GdtSafety Interrupts Acpi.
From S2P Require Import Boot BootSpec BootSafety.

Local Open Scope Z_scope.

#[local] Existing Instance debug_profile.
#[local] Existing Instance num_addr.
#[local] Existing Instance num_segment.
#[local] Existing Instance pair_star.
#[local] Existing Instance option_cell.
#[local] Existing Instance bit_lock.
#[local] Existing Instance count_rw_lock.
#[local] Existing Instance list_array_queue.
#[local] Existing Instance bar_font.
#[local] Existing Instance simple_mapper.
#[local] Existing Instance bool_kind.
#[local] Existing Instance list_bitvec.
#[local] Existing Instance list_gdt.
#[local] Existing Instance bits_log.

(** The crate maps the root pointer, finds one table and reports one I/O APIC. *)
#[local] Instance small_acpi : AcpiCrate := {|
  AcpiTables := Z;
  AcpiTables_from_rsdp _ rsdp :=
    AcpiMap rsdp 36 (λ root, AcpiUnmap root (AcpiRet (ROk (physical_start root + 0x100))));
  AcpiPlatform_new _ table :=
    AcpiMap table 44 (λ region, AcpiRet (if decide (mapped_length region = 44)
                                         then ROk (ApicModel 0xfee00000 [one_io]) else RErr ()));
|}.

(** Only the first character of a message is shown. *)
Definition small_record (l : Level) (s : string) : list Z :=
  (if l is LError then 69 else 73) ::
    ((λ c, Z.of_nat (Ascii.nat_of_ascii c)) <$> take 1 (String.list_ascii_of_string s)).

Lemma small_record_short l s : Z.of_nat (length (small_record l s)) < 2 ^ 40.
Proof. simpl. rewrite length_fmap, length_take. lia. Qed.

Definition phys_off : Z := 0xffff800000000000.

(** The program of [LoaderExample.v] is all that the bootloader has mapped below. *)
Definition new_tables (_ off : Z) : table_mapper :=
  mkTables off [] {[image := (0x7000, PRESENT)]}.

(** 640 usable frames from 1 MiB. *)
Definition disk_boot (disk : option Z) : boot_info bool :=
  mkBootInfo (Some (replicate 1280 7, small_info Bgr)) (Some phys_off)
    [Build_MemoryRegion 0 0x100000 false; Build_MemoryRegion 0x100000 0x380000 true]
    (Some 0xe0000) disk.

Definition small_platform : platform :=
  mkPlatform 0xffffffff80100000 0xffffffff80105000 0xffffffff80001000 0x1000 0x202 lapic_reset
    0xfff00000.

Definition reset_state (inputs : list Z) :
    boot_state option bool (option nat) table_mapper (BitmapAllocator bool (list bool)) list_queue
      (list (option num_desc)) (bool * bool) :=
  mkBoot (mkState (mkSched None None) None ∅ None None (image_memory 8))
    (mkIrq None [] inputs io_devs)
    (mkCpuTables reset_segments None (mkMsrs 0x500 0 (0, 0) 0) false)
    (Locked false LinkedListAllocator_new) log_start.

Definition small_inputs : list Z := [0; 0; 0; 0; 0x20].

Lemma small_memory_ready disk : memory_ready new_tables small_platform (disk_boot disk) phys_off.
Proof.
  split; [done|by_decide|by_decide| |done|].
  - split; [|by_decide]. apply Forall_singleton. unfold region_ok. simpl.
    split; [by exists 0x100|]. split; [by exists 0x380|lia].
  - intros f Hf. exfalso. exact (not_elem_of_empty f Hf).
Qed.

Lemma small_devices_ready disk :
  devices_ready small_platform (disk_boot disk) phys_off 0xfee00000 [one_io] 0 0 0 [0] 0x20 [] 0
    (Z.shiftl 2 24) (new_tables 0x1000 phys_off) (reset_state small_inputs).
Proof.
  split.
  - exists 0xe0000, 0xe0100. split; [done|]. simpl. split; [split; [by_decide|done]|].
    split; [done|]. split; [split; [by_decide|done]|done].
  - reflexivity.
  - by_decide.
  - done.
  - by_decide.
  - split; [apply NoDup_singleton|]. intros io ->%list_elem_of_singleton.
    split; [exact one_io_ok|]. exists 0, io_regs. split; [by vm_compute|by_decide].
Qed.

Lemma disk_boot_ready disk :
  disk = None ∨ disk = Some image →
  boot_ready new_tables small_platform (disk_boot disk) phys_off 0xfee00000 [one_io] 0 0 0 [0] 0x20
    [] 0 (Z.shiftl 2 24) (small_writer Bgr) (reset_state small_inputs).
Proof.
  intros Hdisk. split.
  - exists (replicate 1280 7), (small_info Bgr). split; [done|]. split; [done|].
    split; [exact small_writer_ok|by_decide].
  - by split_and!.
  - split; [apply linked_stacks_ok|]. split; [apply linked_stacks_ok|by_decide].
  - apply small_memory_ready.
  - apply small_devices_ready.
  - intros efi Hefi. destruct Hdisk as [Hd|Hd]; rewrite Hd in Hefi; [done|].
    injection Hefi as <-.
    destruct small_image_ok as [Hh Hoff Hps He].
    split; [exact Hh|exact Hoff|exact Hps|exact He].
Qed.

Abbreviation small_run disk :=
  (kernel_main (D := num_desc) small_record new_tables small_platform (disk_boot disk) 0
    (reset_state small_inputs)) (only parsing).

Lemma small_run_on :
  (let '(o, b) := small_run (Some image) in (o, ct_IF (b_cpu b))) = (Hang, true).
Proof. vm_cast_no_check (eq_refl (Hang : outcome (), true)). Qed.

Lemma kernel_main_idles_or_halts_witness :
  ∃ b', small_run None = (Hang, b') ∧
    (kernel_idles (D := num_desc) small_record small_platform (disk_boot None) 0 (small_writer Bgr)
       (reset_state small_inputs) b' ∨ ct_IF (b_cpu b') = false).
Proof.
  destruct (@kernel_main_idles_or_halts debug_profile bar_font bar_font_laws num_addr num_addr_laws
    num_segment num_segment_laws pair_star pair_star_laws small_acpi option _ option_cell_laws bool
    (option nat) _ bit_lock_laws _ table_mapper _ simple_mapper_laws bool _
    (list bool) _ list_bitvec_laws list_queue _ list_array_queue_laws num_desc
    (list (option num_desc)) _ list_gdt_laws (bool * bool) _ bits_log_laws small_record new_tables
    small_record_short small_platform (disk_boot None) phys_off 0xfee00000 [one_io] 0 0 0 [0] 0x20
    [] 0 (Z.shiftl 2 24) 0 (small_writer Bgr) (reset_state small_inputs)
    (disk_boot_ready None (or_introl eq_refl))) as (b' & E & Hcase).
  exists b'. split; [exact E|]. destruct Hcase as [Hidle|(w & msgs & _ & Hoff & _)];
    [left; exact Hidle|right; exact Hoff].
Defined.

(** The boot thread in its loop, on a stack high in memory. *)
Definition idle_cpu : cpu :=
  mkCpu (λ r, if decide (r = RSP) then 0xffffffff80108ff3 else 3) 0xffffffff80002345 8 0x202 16.

Lemma idle_cpu_ok : cpu_ok idle_cpu.
Proof.
  split; [|split; [by_decide|split; [by_decide|split; by_decide]]].
  intros r. simpl. case_decide; by_decide.
Qed.

Lemma first_tick_enters_program_witness :
  ∃ b' c' m' k', small_run (Some image) = (Hang, b') ∧
    timer_interrupt 0xffffffff80105000 0xffffffff80003000 8 0x100 0x200 id id
      (idle_cpu, ks_memory (b_kernel b'), timer_kernel b') = (Done (), (c', m', k')) ∧
    rip c' = 0x400000 ∧ cs c' = 0x33 ∧ regs c' RSP = 0x200000.
Proof.
  destruct (small_run (Some image)) as [o b'] eqn:E.
  pose proof small_run_on as Hon. rewrite E in Hon. injection Hon as -> Hon.
  destruct (@first_tick_enters_program debug_profile bar_font bar_font_laws num_addr num_addr_laws
    num_segment num_segment_laws pair_star pair_star_laws small_acpi option _ option_cell_laws bool
    (option nat) _ bit_lock_laws _ count_rw_lock_laws table_mapper _ simple_mapper_laws bool _
    (list bool) _ list_bitvec_laws list_queue _ list_array_queue_laws num_desc
    (list (option num_desc)) _ list_gdt_laws (bool * bool) _ bits_log_laws small_record new_tables
    small_record_short small_platform (disk_boot (Some image)) phys_off 0xfee00000 [one_io] 0 0 0
    [0] 0x20 [] 0 (Z.shiftl 2 24) 0 (small_writer Bgr) image (reset_state small_inputs) b'
    idle_cpu 0xffffffff80105000 0xffffffff80003000 8 0x100 0x200 0x800 id id 0xffffffff80108ff0
    (disk_boot_ready (Some image) (or_intror eq_refl)) eq_refl E Hon
    (no_clobber_abi _) (no_clobber_abi _))
    as (_ & _ & c' & m' & k' & procs & Er & Hrip & Hcs & _ & _ & Hsp & _);
    [by_decide|by_decide|by_decide|exact idle_cpu_ok|by_decide|by_decide|].
  exists b', c', m', k'. split; [reflexivity|]. split; [exact Er|].
  split; [|split; [exact Hcs|exact Hsp]]. rewrite Hrip. by vm_compute.
Defined.
