(* ===== verification/Cross.v ===== *)
(** * The cross toolchain's build script: src/user/cross/build.rs.

    The script keeps a cache of source archives: it downloads what is missing, checks it, and
    unpacks and patches what is not unpacked yet; then it runs the build tools in order.  The
    host is a file system and what the network will answer; digests, archives and the programs
    that the script starts belong to others. *)

From S2P Require Import Prelude Crates.

(** ** The host *)

Definition path := list string.

(** The answer to a request: none, or a status and what each read of the body returns
    ([None]: a read error; nothing or no more: the end). *)
Inductive response := NoResponse | Response (status : Z) (body : list (option (list Z))).

Record tree := mkTree { t_files : gmap path (list Z); t_dirs : gset path }.
Record host := mkHost { h_tree : tree; h_net : list response }.

Record command := mkCommand {
  cmd_program : string;
  cmd_args : list string;
  cmd_dir : path;
  cmd_env : list (string * string);
}.

Inductive ArchiveFormat := TarXz | TarGz.

(** sha2 and hex; tar, xz2 and flate2; starting a program and waiting for it.  Both can leave
    a changed tree behind when they fail. *)
Class HostTools : Type := {
  hex_sha256 : list Z → string;
  unpack : ArchiveFormat → list Z → path → tree → result () () * tree;
  run_program : command → tree → result bool () * tree;
}.

Definition on_tree {A} (m : M tree A) : M host A := zoom h_tree (λ t h, mkHost t (h_net h)) m.

(** [Path::exists] *)
Definition exists_in (t : tree) (p : path) : bool :=
  bool_decide (is_Some (t_files t !! p) ∨ p ∈ t_dirs t).

(** All the directories on the way to [p], and [p]. *)
Definition ancestors (p : path) : list path := (λ n, take n p) <$> seq 1 (length p).

(** [fs::create_dir_all] *)
Definition create_dir_all (message : string) (p : path) : M tree () :=
  t ← get_state;
  if decide (Exists (λ q, is_Some (t_files t !! q)) (ancestors p)) then panic message
  else put_state (mkTree (t_files t) (list_to_set (ancestors p) ∪ t_dirs t)).

(** [fs::remove_file(..).unwrap()] *)
Definition remove_file (p : path) : M tree () :=
  t ← get_state;
  match t_files t !! p with
  | Some _ => put_state (mkTree (delete p (t_files t)) (t_dirs t))
  | None => panic "called `Result::unwrap()` on an `Err` value"
  end.

(** [fs::File::create]: an empty file, if its directory is there. *)
Definition create_file (p : path) : M tree () :=
  t ← get_state;
  if decide (p ∈ t_dirs t ∨ removelast p ∉ t_dirs t) then panic "cannot create"
  else put_state (mkTree (<[p := []]> (t_files t)) (t_dirs t)).

Definition append_file (p : path) (bytes : list Z) : M tree () :=
  modify_state (λ t, mkTree (alter (λ old, old ++ bytes) p (t_files t)) (t_dirs t)).

Definition read_file (message : string) (p : path) : M tree (list Z) :=
  t ← get_state;
  liftO (expect message (t_files t !! p)).

(** ** The sources *)

Record Source := mkSource {
  src_name : string;
  src_url : string;
  src_sha256 : string;
  src_dir_name : string;
  src_format : ArchiveFormat;
}.

Local Open Scope string_scope.

Definition SOURCES : list Source :=
  [mkSource "gcc"
     "https://ftp.fu-berlin.de/unix/languages/gcc/releases/gcc-15.2.0/gcc-15.2.0.tar.xz"
     "438fd996826b0c82485a29da03a72d71d6e3541a83ec702df4271f6fe025d24e"
     "gcc-15.2.0" TarXz;
   mkSource "binutils"
     "https://ftp.fu-berlin.de/unix/gnu/binutils/binutils-2.46.0.tar.xz"
     "d75a94f4d73e7a4086f7513e67e439e8fcdcbb726ffe63f4661744e6256b2cf2"
     "binutils-2.46.0" TarXz;
   mkSource "mlibc"
     "https://github.com/managarm/mlibc/archive/refs/tags/v6.3.1.tar.gz"
     "9236025b32636b2e79cdd00b5914b5e89c3423da257c2db24253e0cac1679444"
     "mlibc-6.3.1" TarGz].

Section build.
Context `{HostTools}.

(** ** Downloads and digests *)

(** The loop over the body; a read of nothing is the end. *)
Fixpoint copy_body (dest : path) (body : list (option (list Z))) : M tree () :=
  match body with
  | [] | Some [] :: _ => mret ()
  | None :: _ => panic "read error during download"
  | Some bytes :: body => append_file dest bytes;; copy_body dest body
  end.

(** The next answer is the one to this request. *)
Definition http_get (url : string) : M host response :=
  h ← get_state;
  match h_net h with
  | [] => mret NoResponse
  | r :: net => put_state (mkHost (h_tree h) net);; mret r
  end.

Definition download (url : string) (dest : path) : M host () :=
  r ← http_get url;
  match r with
  | NoResponse => panic "HTTP GET failed"
  | Response status body =>
      if decide (status = 200%Z)
      then on_tree (create_file dest;; copy_body dest body)
      else panic "unexpected HTTP status"
  end.

Definition sha256_of (p : path) : M tree string :=
  bytes ← read_file "cannot open" p;
  mret (hex_sha256 bytes).

Definition placeholder (expected : string) : bool := String.prefix "REPLACE_WITH" expected.

Definition verify_sha256 (p : path) (expected : string) : M tree bool :=
  if placeholder expected then mret true
  else got ← sha256_of p; mret (bool_decide (got = expected)).

Definition assert_sha256 (p : path) (expected : string) : M tree () :=
  got ← sha256_of p;
  if placeholder expected then mret ()
  else if decide (got = expected) then mret ()
  else panic "SHA-256 mismatch!".

(** ** Archives and patches *)

Definition extract_archive (tarball dest_dir : path) (format : ArchiveFormat) : M tree () :=
  bytes ← read_file "cannot open tarball" tarball;
  r ← call (unpack format bytes dest_dir);
  match r with
  | ROk _ => mret ()
  | RErr _ => panic "extraction failed"
  end.

Definition display (p : path) : string := String.concat "/" p.

(** [Command::status] with its two checks. *)
Definition run_checked (c : command) (not_run failed : string) : M tree () :=
  r ← call (run_program c);
  match r with
  | RErr _ => panic not_run
  | ROk true => mret ()
  | ROk false => panic failed
  end.

Definition apply_patch (patch_file src_dir : path) : M tree () :=
  run_checked (mkCommand "patch" ["-p1"; "--forward"; "--batch"; "-i"; display patch_file] src_dir [])
    "failed to run `patch` — is it installed?" "patch failed — see warnings above".

(** ** One source *)

Definition tarball_of (cache_dir : path) (src : Source) : path :=
  (cache_dir ++ [src_name src ++ (match src_format src with TarXz => ".tar.xz" | TarGz => ".tar.gz" end)]%string)%list.
Definition src_dir_of (cache_dir : path) (src : Source) : path :=
  (cache_dir ++ [src_dir_name src])%list.

(** The archive in the cache, checked. *)
Definition fetch_tarball (cache_dir : path) (src : Source) : M host () :=
  let tarball := tarball_of cache_dir src in
  cached ← gets_state (λ h, exists_in (h_tree h) tarball);
  if (cached : bool) then
    ok ← on_tree (verify_sha256 tarball (src_sha256 src));
    if (ok : bool) then mret ()
    else
      on_tree (remove_file tarball);;
      download (src_url src) tarball;;
      on_tree (assert_sha256 tarball (src_sha256 src))
  else
    download (src_url src) tarball;;
    on_tree (assert_sha256 tarball (src_sha256 src)).

(** The sources, unpacked and patched, unless their directory is there. *)
Definition unpack_source (manifest_dir cache_dir : path) (src : Source) : M tree () :=
  let src_dir := src_dir_of cache_dir src in
  extracted ← gets_state (λ t, exists_in t src_dir);
  if (extracted : bool) then mret ()
  else
    extract_archive (tarball_of cache_dir src) cache_dir (src_format src);;
    let patch_file := (manifest_dir ++ [(src_name src ++ ".patch")%string])%list in
    patched ← gets_state (λ t, exists_in t patch_file);
    if (patched : bool) then apply_patch patch_file src_dir else mret ().

Definition fetch_source (manifest_dir cache_dir : path) (src : Source) : M host () :=
  fetch_tarball cache_dir src;;
  on_tree (unpack_source manifest_dir cache_dir src).

(** ** The build *)

(** What the environment decides: PATH if it is set, and the number of processors, shown. *)
Record build_env := mkBuildEnv { env_PATH : option string; env_nproc : string }.

Inductive build_step :=
  | MakeDir (p : path) (message : string)
  | RunStep (c : command) (not_run failed : string).

Definition run_step (s : build_step) : M tree () :=
  match s with
  | MakeDir p message => create_dir_all message p
  | RunStep c not_run failed => run_checked c not_run failed
  end.

(** The steps from the first folder to the installed C library, in order. *)
Definition build_steps (e : build_env) (manifest_dir cache_dir : path) : list build_step :=
  let sysroot_dir := (manifest_dir ++ ["sysroot"])%list in
  let tools_dir := (manifest_dir ++ ["tools"])%list in
  let mlibc_dir := (cache_dir ++ ["mlibc-6.3.1"])%list in
  let binutils_dir := (cache_dir ++ ["binutils-2.46.0"; "build"])%list in
  let gcc_dir := (cache_dir ++ ["gcc-15.2.0"; "build"])%list in
  let PATH := ("PATH", display tools_dir ++ "/usr/bin:" ++ default "" (env_PATH e)) in
  let jobs := "-j" ++ env_nproc e in
  [MakeDir sysroot_dir "failed to create sysroot dir";
   MakeDir tools_dir "failed to create tools dir";
   RunStep (mkCommand "meson" ["setup"; "--cross-file=mlibc-bayos.txt"; "--prefix=/usr";
       "-Dheaders_only=true"; "headers-build"] mlibc_dir [])
     "meson setup failed" "meson setup failed";
   RunStep (mkCommand "ninja" ["-C"; "headers-build"; "install"] mlibc_dir
       [("DESTDIR", display sysroot_dir)])
     "ninja install failed" "ninja install failed";
   MakeDir binutils_dir "failed to create binutils build dir";
   RunStep (mkCommand "../configure" ["--target=x86_64-bayos"; "--prefix=/usr";
       "--with-sysroot=" ++ display sysroot_dir; "--disable-werror";
       "--enable-default-execstack=no"] binutils_dir [])
     "configuring bintutils failed" "configuring binutils failed";
   RunStep (mkCommand "make" [jobs] binutils_dir []) "make failed" "make failed";
   RunStep (mkCommand "make" ["install"] binutils_dir [("DESTDIR", display tools_dir)])
     "make install failed" "make install failed";
   MakeDir gcc_dir "failed to create gcc build dir";
   RunStep (mkCommand "../configure" ["--target=x86_64-bayos"; "--prefix=/usr";
       "--with-sysroot=" ++ display sysroot_dir; "--enable-languages=c,c++";
       "--enable-threads=posix"; "--disable-multilib"; "--enable-shared";
       "--enable-host-shared"] gcc_dir [PATH])
     "gcc configure failed" "gcc configure failed";
   RunStep (mkCommand "make" [jobs; "all-gcc"; "all-target-libgcc"] gcc_dir [PATH])
     "make gcc failed" "make gcc failed";
   RunStep (mkCommand "make" ["install-gcc"; "install-target-libgcc"] gcc_dir
       [("DESTDIR", display tools_dir); PATH])
     "make install gcc failed" "make install gcc failed";
   RunStep (mkCommand "meson" ["setup"; "--cross-file=mlibc-bayos.txt"; "--prefix=/usr";
       "-Ddefault_library=static"; "-Dno_headers=true"; "build"] mlibc_dir [PATH])
     "meson setup mlibc failed" "meson setup mlibc failed";
   RunStep (mkCommand "ninja" ["-C"; "build"; "install"] mlibc_dir
       [("DESTDIR", display sysroot_dir); PATH])
     "ninja install mlibc failed" "ninja install mlibc failed"].

Definition main (e : build_env) (manifest_dir : path) : M host () :=
  let cache_dir := (manifest_dir ++ ["cache"])%list in
  on_tree (create_dir_all "failed to create cache dir" cache_dir);;
  for_each (fetch_source manifest_dir cache_dir) SOURCES;;
  on_tree (for_each run_step (build_steps e manifest_dir cache_dir)).

End build.
