(* ===== verification/CrossSafety.v ===== *)
(** * What the build script does with its cache. *)

From S2P Require Import Prelude Crates Cross.

(** ** Steps that touch one file *)

(** The same tree, but for the contents of [p]. *)
Definition same_but (p : path) (t t' : tree) : Prop :=
  t_dirs t' = t_dirs t ∧ ∀ q, q ≠ p → t_files t' !! q = t_files t !! q.

Lemma same_but_refl p t : same_but p t t.
Proof. done. Qed.

Lemma same_but_trans p t1 t2 t3 : same_but p t1 t2 → same_but p t2 t3 → same_but p t1 t3.
Proof. intros [? H1] [? H2]. split; [congruence|]. intros q Hq. by rewrite H2, H1. Qed.

(** It ends, perhaps in a panic, and touches at most [p]. *)
Definition touches {A} (p : path) (m : M tree A) : Prop :=
  ∀ t, same_but p t (m t).2 ∧ match (m t).1 with Done _ | Panic _ => True | _ => False end.

Lemma touches_ret {A} p (a : A) : touches p (mret a).
Proof. done. Qed.

Lemma touches_panic {A} p w : touches p (panic w : M tree A).
Proof. done. Qed.

Lemma touches_bind {A B} p (m : M tree A) (f : A → M tree B) :
  touches p m → (∀ a, touches p (f a)) → touches p (m ≫= f).
Proof.
  intros Hm Hf t. specialize (Hm t). unfold mbind, M_bind.
  destruct (m t) as [[a|w| |] t1]; simpl in *; try (by destruct Hm).
  destruct (Hf a t1) as [Hs Ho]. split; [|exact Ho]. eapply same_but_trans; [apply Hm|exact Hs].
Qed.

Section cache.
Context `{HostTools}.

Lemma touches_append p bytes : touches p (append_file p bytes).
Proof. intros t. split; [|done]. split; [done|]. intros q Hq. simpl. by rewrite lookup_alter_ne. Qed.

Lemma touches_create p : touches p (create_file p).
Proof.
  intros t. unfold create_file. rewrite get_bind. case_decide; [done|]. split; [|done].
  split; [done|]. intros q Hq. simpl. by rewrite lookup_insert_ne.
Qed.

Lemma touches_remove p : touches p (remove_file p).
Proof.
  intros t. unfold remove_file. rewrite get_bind. destruct (t_files t !! p); [|done]. split; [|done].
  split; [done|]. intros q Hq. simpl. by rewrite lookup_delete_ne.
Qed.

Lemma touches_read p message q : touches p (read_file message q).
Proof. intros t. unfold read_file. rewrite get_bind. by destruct (t_files t !! q). Qed.

Lemma touches_body p body : touches p (copy_body p body).
Proof.
  induction body as [|[[|x bytes]|] body IH]; simpl; try done.
  apply touches_bind; [apply touches_append|done].
Qed.

Lemma touches_assert p expected : touches p (assert_sha256 p expected).
Proof.
  apply touches_bind; [apply touches_bind; [apply touches_read|done]|].
  intros got. by repeat case_match.
Qed.

(** ** The archive *)

Definition verified (src : Source) (bytes : list Z) : Prop := hex_sha256 bytes = src_sha256 src.
#[export] Instance verified_dec src bytes : Decision (verified src bytes).
Proof. unfold verified. apply _. Defined.

Lemma assert_sha256_inv p expected t u t' :
  placeholder expected = false → assert_sha256 p expected t = (Done u, t') →
  t' = t ∧ ∃ bytes, t_files t !! p = Some bytes ∧ hex_sha256 bytes = expected.
Proof.
  intros Hp. unfold assert_sha256, sha256_of, read_file. rewrite Hp, mbind_assoc, mbind_assoc, get_bind.
  destruct (t_files t !! p) as [bytes|] eqn:E; [|discriminate].
  rewrite expect_some, liftO_done_bind, mret_bind. case_decide; [|discriminate].
  intros [= _ <-]. split; [done|]. by exists bytes.
Qed.

(** A download and its check: the file at [p] alone changes, and holds what was asked for. *)
Lemma download_cases src p h :
  placeholder (src_sha256 src) = false →
  ∃ o h', (download (src_url src) p;; on_tree (assert_sha256 p (src_sha256 src))) h = (o, h') ∧
    same_but p (h_tree h) (h_tree h') ∧
    match o with
    | Done _ => ∃ bytes, t_files (h_tree h') !! p = Some bytes ∧ verified src bytes
    | Panic _ => True
    | _ => False
    end.
Proof.
  intros Hp. unfold download. rewrite mbind_assoc.
  set (body := λ r : response, _ ;; _).
  assert (∀ r h1, h_tree h1 = h_tree h → ∃ o h', body r h1 = (o, h') ∧
    same_but p (h_tree h) (h_tree h') ∧
    match o with
    | Done _ => ∃ bytes, t_files (h_tree h') !! p = Some bytes ∧ verified src bytes
    | Panic _ => True | _ => False end) as Hbody.
  { intros r h1 Ht. unfold body. rewrite <-Ht.
    destruct r as [|status resp]; [by eexists _, _|]. case_decide; [|by eexists _, _].
    pose proof (touches_bind p _ (λ _ : (), copy_body p resp) (touches_create p)
      (λ _, touches_body p resp) (h_tree h1)) as [Hs Ho].
    unfold on_tree, zoom, mbind, M_bind in *.
    destruct (create_file p (h_tree h1)) as [o1 t1]; destruct o1 as [a| | |]; simpl in *; try done;
      [|by eexists _, _].
    destruct (copy_body p resp t1) as [o2 t2]; destruct o2 as [b| | |]; simpl in *; try done;
      [|by eexists _, _].
    destruct (touches_assert p (src_sha256 src) t2) as [Hs3 Ho3].
    destruct (assert_sha256 p (src_sha256 src) t2) as [o3 t3] eqn:E3. simpl in *.
    eexists o3, _. split; [reflexivity|]. split; [by eapply same_but_trans|].
    destruct o3 as [u| | |]; try done.
    destruct (assert_sha256_inv p _ t2 u t3 Hp E3) as [-> Hb]. exact Hb. }
  unfold http_get. rewrite mbind_assoc, get_bind. destruct (h_net h) as [|r net].
  - rewrite mret_bind. by apply Hbody.
  - rewrite mbind_assoc, put_bind, mret_bind. by apply Hbody.
Qed.

(** The check of a file that is there. *)
Lemma verify_sha256_file p expected t bytes :
  placeholder expected = false → t_files t !! p = Some bytes →
  verify_sha256 p expected t = (Done (bool_decide (hex_sha256 bytes = expected)), t).
Proof.
  intros Hp Hb. unfold verify_sha256, sha256_of, read_file.
  by rewrite Hp, mbind_assoc, mbind_assoc, get_bind, Hb, expect_some, liftO_done_bind.
Qed.

(** A file in the cache that does not pass is fetched again. *)
Lemma fetch_cached cache src h bytes :
  placeholder (src_sha256 src) = false →
  t_files (h_tree h) !! tarball_of cache src = Some bytes →
  fetch_tarball cache src h =
    if decide (verified src bytes) then (Done (), h)
    else (download (src_url src) (tarball_of cache src);;
          on_tree (assert_sha256 (tarball_of cache src) (src_sha256 src)))
      (mkHost (mkTree (delete (tarball_of cache src) (t_files (h_tree h))) (t_dirs (h_tree h)))
              (h_net h)).
Proof.
  intros Hp Hb. set (p := tarball_of cache src) in *. destruct h as [t net]. simpl in *.
  unfold fetch_tarball. fold p. rewrite gets_bind. simpl. unfold exists_in.
  rewrite bool_decide_true by (left; by eexists).
  assert (on_tree (verify_sha256 p (src_sha256 src)) (mkHost t net) =
    (Done (bool_decide (hex_sha256 bytes = src_sha256 src)), mkHost t net)) as E.
  { unfold on_tree, zoom; simpl. by rewrite (verify_sha256_file p _ t bytes Hp Hb). }
  rewrite (mbind_done _ _ _ _ _ E). unfold verified. case_decide as Hd.
  { by rewrite bool_decide_true. }
  rewrite bool_decide_false by exact Hd.
  erewrite mbind_done; [reflexivity|]. unfold on_tree, zoom, remove_file; simpl.
  by rewrite get_bind, Hb.
Qed.

Lemma fetch_tarball_cases cache src h :
  placeholder (src_sha256 src) = false →
  ∃ o h', fetch_tarball cache src h = (o, h') ∧
    same_but (tarball_of cache src) (h_tree h) (h_tree h') ∧
    match o with
    | Done _ => ∃ bytes, t_files (h_tree h') !! tarball_of cache src = Some bytes ∧
                         verified src bytes
    | Panic _ => True
    | _ => False
    end.
Proof.
  intros Hp. set (p := tarball_of cache src).
  destruct (t_files (h_tree h) !! p) as [bytes|] eqn:Hb.
  - rewrite (fetch_cached cache src h bytes Hp Hb). fold p. case_decide as Hv.
    { eexists _, _. split; [reflexivity|]. split; [done|]. by exists bytes. }
    set (h1 := mkHost _ _). destruct (download_cases src p h1 Hp) as (o & h' & E & Hs & Ho).
    exists o, h'. split; [exact E|]. split; [|exact Ho]. eapply same_but_trans; [|exact Hs].
    split; [done|]. intros q Hq. simpl. by rewrite lookup_delete_ne.
  - unfold fetch_tarball. fold p. rewrite gets_bind. destruct (exists_in (h_tree h) p).
    + exists (Panic "cannot open"), h. split; [|by split].
      destruct h as [t net]. simpl in *. apply mbind_panic. unfold on_tree, zoom; simpl.
      unfold verify_sha256, sha256_of, read_file.
      by rewrite Hp, mbind_assoc, mbind_assoc, get_bind, Hb.
    + by apply download_cases.
Qed.

(** ** The claims *)

(** C37: nothing is unpacked that has not been checked.  Whatever the cache holds and the
    network delivers, handling a source either panics with nothing changed but its archive, or
    goes on to unpack with an archive in the cache whose digest is the one in the table, and
    nothing else changed. *)
Theorem only_verified_archives_unpacked manifest cache src h :
  src ∈ SOURCES →
  (∃ w h', fetch_source manifest cache src h = (Panic w, h') ∧
     same_but (tarball_of cache src) (h_tree h) (h_tree h')) ∨
  ∃ h1 bytes, same_but (tarball_of cache src) (h_tree h) (h_tree h1) ∧
    t_files (h_tree h1) !! tarball_of cache src = Some bytes ∧
    hex_sha256 bytes = src_sha256 src ∧
    fetch_source manifest cache src h = on_tree (unpack_source manifest cache src) h1.
Proof.
  intros Hin.
  assert (placeholder (src_sha256 src) = false) as Hp.
  { repeat (apply elem_of_cons in Hin as [->|Hin]; [reflexivity|]). by apply elem_of_nil in Hin. }
  destruct (fetch_tarball_cases cache src h Hp) as (o & h1 & E & Hs & Ho).
  unfold fetch_source. destruct o as [u|w| |]; try done.
  - right. destruct Ho as (bytes & Hb & Hv). exists h1, bytes.
    split; [exact Hs|]. split; [exact Hb|]. split; [exact Hv|]. by rewrite (mbind_done _ _ _ _ _ E).
  - left. exists w, h1. split; [by rewrite (mbind_panic _ _ _ _ _ E)|exact Hs].
Qed.

Lemma copy_body_done p chunks t old :
  Forall (λ c, c ≠ []) chunks → t_files t !! p = Some old →
  ∃ t', copy_body p (Some <$> chunks) t = (Done (), t') ∧
    t_files t' !! p = Some (old ++ concat chunks).
Proof.
  revert t old. induction chunks as [|c chunks IH]; intros t old Hne Hp.
  { exists t. split; [done|]. by rewrite app_nil_r. }
  apply Forall_cons in Hne as [Hc Hne]. destruct c as [|x c]; [done|].
  set (t1 := mkTree (alter (λ old, old ++ x :: c) p (t_files t)) (t_dirs t)).
  destruct (IH t1 (old ++ x :: c) Hne) as (t' & E & Ht').
  { simpl. by rewrite lookup_alter_eq, Hp. }
  exists t'. split; [exact E|]. by rewrite Ht', <-(assoc_L (++)).
Qed.

Lemma download_done cache src chunks net h :
  placeholder (src_sha256 src) = false → verified src (concat chunks) →
  Forall (λ c, c ≠ []) chunks →
  cache ∈ t_dirs (h_tree h) → tarball_of cache src ∉ t_dirs (h_tree h) →
  h_net h = Response 200 (Some <$> chunks) :: net →
  ∃ h', (download (src_url src) (tarball_of cache src);;
         on_tree (assert_sha256 (tarball_of cache src) (src_sha256 src))) h = (Done (), h') ∧
    t_files (h_tree h') !! tarball_of cache src = Some (concat chunks) ∧ h_net h' = net.
Proof.
  intros Hp Hv Hne Hdir Hnot Hnet. set (p := tarball_of cache src) in *.
  assert (removelast p = cache) as Hlast by apply removelast_last.
  destruct (copy_body_done p chunks (mkTree (<[p := []]> (t_files (h_tree h))) (t_dirs (h_tree h)))
    [] Hne) as (t & E & Ht); [apply lookup_insert_eq|].
  exists (mkHost t net). split; [|by split]. unfold download, http_get.
  rewrite mbind_assoc, mbind_assoc, get_bind, Hnet, mbind_assoc, put_bind, mret_bind.
  rewrite decide_True by done. rewrite (mbind_done _ _ _ () (mkHost t net)).
  - unfold on_tree, zoom, assert_sha256, sha256_of, read_file; simpl.
    rewrite mbind_assoc, mbind_assoc, get_bind, Ht, expect_some, liftO_done_bind, mret_bind, Hp.
    by rewrite decide_True.
  - unfold on_tree, zoom; simpl. unfold create_file. rewrite mbind_assoc, get_bind.
    rewrite decide_False by (rewrite Hlast; intuition). by rewrite put_bind, E.
Qed.

(** C38: an interrupted download repairs itself: whatever a run that was killed has left at the
    place of the archive, the next run with the whole file on the network ends with the file
    in the cache, and one that finds the right file there asks nothing of the network. *)
Theorem interrupted_download_recovers cache src chunks net h :
  placeholder (src_sha256 src) = false → verified src (concat chunks) →
  Forall (λ c, c ≠ []) chunks →
  cache ∈ t_dirs (h_tree h) → tarball_of cache src ∉ t_dirs (h_tree h) →
  h_net h = Response 200 (Some <$> chunks) :: net →
  match t_files (h_tree h) !! tarball_of cache src with
  | Some bytes => verified src bytes → fetch_tarball cache src h = (Done (), h)
  | None => True
  end ∧
  ∃ h' bytes, fetch_tarball cache src h = (Done (), h') ∧
    t_files (h_tree h') !! tarball_of cache src = Some bytes ∧ verified src bytes.
Proof.
  intros Hp Hv Hne Hdir Hnot Hnet.
  destruct (t_files (h_tree h) !! tarball_of cache src) as [old|] eqn:Hold.
  - rewrite (fetch_cached cache src h old Hp Hold).
    split; [intros Hok; by rewrite decide_True|]. case_decide as Hok; [by exists h, old|].
    destruct (download_done cache src chunks net (mkHost (mkTree
      (delete (tarball_of cache src) (t_files (h_tree h))) (t_dirs (h_tree h))) (h_net h))
      Hp Hv Hne Hdir Hnot Hnet) as (h' & E & Hb & _).
    by exists h', (concat chunks).
  - split; [done|].
    destruct (download_done cache src chunks net h Hp Hv Hne Hdir Hnot Hnet) as (h' & E & Hb & _).
    exists h', (concat chunks). split; [|by split]. unfold fetch_tarball. rewrite gets_bind.
    assert (exists_in (h_tree h) (tarball_of cache src) = false) as ->; [|exact E].
    apply bool_decide_false. rewrite Hold. intros [[? ?]|?]; done.
Qed.

(** C39: a source directory is trusted for good.  If the patch fails, the run stops, but the
    next one finds the directory that the archive left, asks nothing of the network, changes
    nothing and goes on: the toolchain is built from sources without their patch. *)
Theorem failed_patch_never_retried manifest cache src bytes t t1 t2 net h :
  placeholder (src_sha256 src) = false → verified src bytes →
  h = mkHost t net → t_files t !! tarball_of cache src = Some bytes →
  exists_in t (src_dir_of cache src) = false →
  unpack (src_format src) bytes cache t = (ROk (), t1) →
  let patch_file := (manifest ++ [(src_name src ++ ".patch")%string])%list in
  exists_in t1 patch_file = true →
  run_program (mkCommand "patch" ["-p1"; "--forward"; "--batch"; "-i"; display patch_file]%string
    (src_dir_of cache src) []) t1 = (ROk false, t2) →
  exists_in t2 (src_dir_of cache src) = true →
  t_files t2 !! tarball_of cache src = Some bytes →
  (∃ w, fetch_source manifest cache src h = (Panic w, mkHost t2 net)) ∧
  ∀ net', fetch_source manifest cache src (mkHost t2 net') = (Done (), mkHost t2 net').
Proof.
  intros Hp Hv -> Hb Hnew Hunpack patch_file Hpatch Hrun Hdir Hb2. unfold fetch_source. split.
  - eexists. assert (fetch_tarball cache src (mkHost t net) = (Done (), mkHost t net)) as E.
    { rewrite (fetch_cached cache src (mkHost t net) bytes Hp Hb). by rewrite decide_True. }
    rewrite (mbind_done _ _ _ _ _ E). unfold on_tree, zoom; simpl. unfold unpack_source.
    rewrite gets_bind, Hnew. unfold extract_archive, read_file.
    rewrite !mbind_assoc, get_bind, Hb, expect_some, liftO_done_bind.
    rewrite mbind_assoc, (mbind_done _ _ _ _ _ (call_done _ _ _ _ Hunpack)), mret_bind.
    fold patch_file. rewrite gets_bind, Hpatch. unfold apply_patch, run_checked.
    by rewrite (mbind_done _ _ _ _ _ (call_done _ _ _ _ Hrun)).
  - intros net'. assert (fetch_tarball cache src (mkHost t2 net') = (Done (), mkHost t2 net')) as E.
    { rewrite (fetch_cached cache src (mkHost t2 net') bytes Hp Hb2). by rewrite decide_True. }
    rewrite (mbind_done _ _ _ _ _ E). unfold on_tree, zoom; simpl. unfold unpack_source.
    by rewrite gets_bind, Hdir.
Qed.

End cache.

(** ** The claims on concrete hosts *)

Module Host.

(** A digest that tells the right file from all others, an archive that unpacks to the
    directory of its source, a [patch] that fails. *)
Definition good : list Z := [1; 2]%Z.
Definition tools (src : Source) (cache : path) : HostTools := {|
  hex_sha256 bytes := if decide (bytes = good) then src_sha256 src else "0";
  unpack _ _ _ t := (ROk (), mkTree (t_files t) ({[src_dir_of cache src]} ∪ t_dirs t));
  run_program _ t := (ROk false, t);
|}.

Definition gcc : Source :=
  mkSource "gcc"
    "https://ftp.fu-berlin.de/unix/languages/gcc/releases/gcc-15.2.0/gcc-15.2.0.tar.xz"
    "438fd996826b0c82485a29da03a72d71d6e3541a83ec702df4271f6fe025d24e"
    "gcc-15.2.0" TarXz.
Definition root : path := ["cross"].
Definition cache : path := ["cross"; "cache"].
Definition patch_file : path := ["cross"; "gcc.patch"].

(** What is at the place of the archive, if anything, beside the patch. *)
Definition files (archive : option (list Z)) : gmap path (list Z) :=
  match archive with
  | Some bytes => {[tarball_of cache gcc := bytes; patch_file := []]}
  | None => {[patch_file := []]}
  end.
Definition tree_with (archive : option (list Z)) : tree := mkTree (files archive) {[root; cache]}.

(** The network delivers the file in two reads. *)
Definition online : list response := [Response 200 [Some [1%Z]; Some [2%Z]]].

End Host.

Lemma only_verified_archives_unpacked_witness :
  let _ := Host.tools Host.gcc Host.cache in
  let h := mkHost (Host.tree_with (Some [7%Z])) Host.online in
  Host.gcc ∈ SOURCES ∧ (fetch_tarball Host.cache Host.gcc h).1 = Done () ∧
  ((∃ w h', fetch_source Host.root Host.cache Host.gcc h = (Panic w, h') ∧
     same_but (tarball_of Host.cache Host.gcc) (h_tree h) (h_tree h')) ∨
   ∃ h1 bytes, same_but (tarball_of Host.cache Host.gcc) (h_tree h) (h_tree h1) ∧
    t_files (h_tree h1) !! tarball_of Host.cache Host.gcc = Some bytes ∧
    hex_sha256 bytes = src_sha256 Host.gcc ∧
    fetch_source Host.root Host.cache Host.gcc h =
      on_tree (unpack_source Host.root Host.cache Host.gcc) h1).
Proof.
  intros tools h. assert (Host.gcc ∈ SOURCES) as Hin by apply list_elem_of_here.
  split; [exact Hin|]. split; [vm_compute; reflexivity|].
  exact (only_verified_archives_unpacked Host.root Host.cache Host.gcc h Hin).
Defined.

Lemma interrupted_download_recovers_witness :
  let _ := Host.tools Host.gcc Host.cache in
  let h := mkHost (Host.tree_with (Some [1%Z])) Host.online in
  ∃ h' bytes, fetch_tarball Host.cache Host.gcc h = (Done (), h') ∧
    t_files (h_tree h') !! tarball_of Host.cache Host.gcc = Some bytes ∧
    verified Host.gcc bytes.
Proof.
  intros tools h.
  refine (proj2 (interrupted_download_recovers Host.cache Host.gcc [[1%Z]; [2%Z]] [] h _ _ _ _ _ _)).
  - reflexivity.
  - vm_compute. reflexivity.
  - by repeat constructor.
  - vm_compute. reflexivity.
  - vm_compute. discriminate.
  - reflexivity.
Defined.

Lemma failed_patch_never_retried_witness :
  let _ := Host.tools Host.gcc Host.cache in
  let t := Host.tree_with (Some Host.good) in
  let t2 := mkTree (t_files t) ({[src_dir_of Host.cache Host.gcc]} ∪ t_dirs t) in
  (∃ w, fetch_source Host.root Host.cache Host.gcc (mkHost t []) = (Panic w, mkHost t2 [])) ∧
  ∀ net', fetch_source Host.root Host.cache Host.gcc (mkHost t2 net') = (Done (), mkHost t2 net').
Proof.
  intros tools t t2.
  apply (failed_patch_never_retried Host.root Host.cache Host.gcc Host.good t t2 t2 [] (mkHost t []));
    reflexivity.
Defined.
