(* ===== verification/Runner.v ===== *)
(** * The host programs around the kernel: src/src/main.rs, src/build.rs and src/user/build.rs.

    [compile_init] compiles the first program with the compiler of the cross toolchain,
    [build_images] makes the disk images from the kernel and that program, and [run] starts one
    of the images in QEMU.  The tree and the programs are those of [Cross.v]. *)

From S2P Require Import Prelude Crates Cross.

Local Open Scope string_scope.

(** ** src/user/build.rs *)

Section programs.
Context `{HostTools}.

Definition compile_command (manifest_dir : path) (PATH : option string) : command :=
  let compiler_bin := (manifest_dir ++ ["cross/tools/usr/bin"])%list in
  let init_c := (manifest_dir ++ ["init.c"])%list in
  let output := (manifest_dir ++ ["init"])%list in
  mkCommand "x86_64-bayos-gcc" [display init_c; "-o"; display output] []
    [("PATH", display compiler_bin ++ ":" ++ default "" PATH)].

(** The build script of the user program.  [manifest_dir] is CARGO_MANIFEST_DIR, [PATH] the
    variable if it is set. *)
Definition compile_init (manifest_dir : option path) (PATH : option string) : M tree () :=
  manifest_dir ← liftO (expect "called `Result::unwrap()` on an `Err` value" manifest_dir);
  run_checked (compile_command manifest_dir PATH)
    "Failed to run x86_64-bayos-gcc — is it present in cross/tools/usr/bin?"
    "x86_64-bayos-gcc failed to compile init.c".

End programs.

(** ** src/build.rs *)

Inductive image_kind := UefiBoot | BiosBoot.

(** The bootloader crate: an image of a kind from the files of a kernel and a ramdisk. *)
Class ImageTools : Type := {
  create_disk_image : image_kind → path → path → path → tree → result () () * tree;
}.

Section images.
Context `{ImageTools}.

Definition unwrapped {S A} (f : S → result A () * S) : M S A :=
  r ← call f;
  match r with
  | ROk a => mret a
  | RErr _ => panic "called `Result::unwrap()` on an `Err` value"
  end.

(** The paths that the build script hands to the compiler as UEFI_PATH and BIOS_PATH. *)
Definition build_images (OUT_DIR CARGO_BIN_FILE_KERNEL_kernel : option path) :
    M tree (string * string) :=
  out_dir ← liftO (expect "called `Option::unwrap()` on a `None` value" OUT_DIR);
  kernel ← liftO (expect "called `Option::unwrap()` on a `None` value" CARGO_BIN_FILE_KERNEL_kernel);
  let init := ["user"; "init"] in
  let uefi_path := (out_dir ++ ["uefi.img"])%list in
  unwrapped (create_disk_image UefiBoot kernel init uefi_path);;
  let bios_path := (out_dir ++ ["bios.img"])%list in
  unwrapped (create_disk_image BiosBoot kernel init bios_path);;
  mret (display uefi_path, display bios_path).

End images.

(** ** src/src/main.rs *)

(** What the program leaves behind: what it printed, line by line, and how it ended;
    a [main] that returns is exit code 0. *)
Record console := mkConsole { stdout : list string; stderr : list string }.

Definition println (line : string) : M console () :=
  modify_state (λ c, mkConsole (stdout c ++ [line]) (stderr c)).
Definition eprintln (line : string) : M console () :=
  modify_state (λ c, mkConsole (stdout c) (stderr c ++ [line])).

(** [str::to_lowercase] on the bytes of the string.  Letters outside ASCII are left alone: the
    words that the program compares with have none, and none lowers to one of their letters. *)
Definition ascii_lower (c : Ascii.ascii) : Ascii.ascii :=
  let n := Ascii.nat_of_ascii c in
  if decide (65 <= n <= 90) then Ascii.ascii_of_nat (n + 32) else c.
Fixpoint to_lowercase (s : string) : string :=
  match s with
  | EmptyString => EmptyString
  | String c s => String (ascii_lower c) (to_lowercase s)
  end.

(** ovmf_prebuilt, and QEMU: starting it may fail, waiting for it may fail, and a QEMU that a
    signal ends has no code. *)
Class RunnerTools : Type := {
  fetch_prebuilt : result (string * string) ();
  spawn_qemu : command → result () ();
  wait_qemu : command → result (option Z) ();
}.

Section runner.
Context `{RunnerTools}.

(** The choice of the image: [inl uefi], or an exit at once. *)
Definition choose_image (args : list string) : M console (bool + Z) :=
  prog ← liftO (expect "index out of bounds" (args !! 0));
  match to_lowercase <$> args !! 1 with
  | Some s =>
      if decide (s = "uefi") then mret (inl true)
      else if decide (s = "bios") then mret (inl false)
      else if decide (s = "-h" ∨ s = "--help") then
        println ("Usage: " ++ prog ++ " [uefi|bios]");;
        println "  uefi  - boot using OVMF (UEFI)";;
        println "  bios  - boot using legacy BIOS";;
        mret (inr 0%Z)
      else eprintln ("Usage: " ++ prog ++ " [uefi|bios]");; mret (inr 1%Z)
  | None => eprintln ("Usage: " ++ prog ++ " [uefi|bios]");; mret (inr 1%Z)
  end.

Definition qemu (drives : list string) : command :=
  mkCommand "qemu-system-x86_64" (["-monitor"; "stdio"] ++ drives)%list [] [].

Definition qemu_command (uefi_path bios_path : string) (uefi : bool) : outcome command :=
  if uefi then
    match fetch_prebuilt with
    | ROk (code, vars) =>
        Done (qemu ["-drive"; "format=raw,file=" ++ uefi_path;
                    "-drive"; "if=pflash,format=raw,unit=0,file=" ++ code ++ ",readonly=on";
                    "-drive"; "if=pflash,format=raw,unit=1,file=" ++ vars ++ ",snapshot=on"])
    | RErr _ => Panic "failed to update prebuilt"
    end
  else Done (qemu ["-drive"; "format=raw,file=" ++ bios_path]).

(** The match on the code at the end of [main], whose value is dropped. *)
Definition verdict (code : option Z) : Z :=
  match default 1%Z code with
  | 16%Z => 0
  | 17%Z => 1
  | _ => 2
  end.

(** [main], with the exit code of the process as its value. *)
Definition run (uefi_path bios_path : string) (args : list string) : M console Z :=
  choice ← choose_image args;
  match choice with
  | inr code => mret code
  | inl uefi =>
      cmd ← liftO (qemu_command uefi_path bios_path uefi);
      match spawn_qemu cmd with
      | RErr _ => panic "failed to start qemu-system-x86_64"
      | ROk _ =>
          match wait_qemu cmd with
          | RErr _ => panic "failed to wait on qemu"
          | ROk status => let _ := verdict status in mret 0%Z
          end
      end
  end.

(** ** What it does *)

(** The words that choose an image, in any case. *)
Definition boots (mode : option string) : option bool :=
  match to_lowercase <$> mode with
  | Some s => if decide (s = "uefi") then Some true
              else if decide (s = "bios") then Some false else None
  | None => None
  end.

Lemma choose_image_boots args prog uefi c :
  args !! 0 = Some prog → boots (args !! 1) = Some uefi →
  choose_image args c = (Done (inl uefi), c).
Proof.
  intros Hprog. unfold boots, choose_image. rewrite Hprog, expect_some, liftO_done_bind.
  destruct (to_lowercase <$> args !! 1) as [s|]; [|done].
  repeat case_decide; intros [= <-]; done.
Qed.

(** How a run of an image ends is not told.  When QEMU has been started and has ended, the
    program prints nothing and exits with 0, with whatever code the kernel or QEMU ended: the
    codes that the source distinguishes as success, failure and unknown fault are one to the
    caller. *)
Theorem exit_status_lost uefi_path bios_path args prog uefi cmd status c :
  args !! 0 = Some prog → boots (args !! 1) = Some uefi →
  qemu_command uefi_path bios_path uefi = Done cmd →
  spawn_qemu cmd = ROk () → wait_qemu cmd = ROk status →
  run uefi_path bios_path args c = (Done 0%Z, c).
Proof.
  intros Hprog Hboots Hcmd Hspawn Hwait. unfold run.
  rewrite (mbind_done _ _ _ _ _ (choose_image_boots args prog uefi c Hprog Hboots)).
  by rewrite Hcmd, liftO_done_bind, Hspawn, Hwait.
Qed.

End runner.

(** QEMU ends with 17, the code of a failed kernel. *)
Lemma exit_status_lost_witness :
  let _ := {| fetch_prebuilt := ROk ("code.fd", "vars.fd"); spawn_qemu _ := ROk ();
              wait_qemu _ := ROk (Some 17%Z) |} in
  verdict (Some 17%Z) = 1%Z ∧
  run "uefi.img" "bios.img" ["bayos"; "UEFI"] (mkConsole [] []) = (Done 0%Z, mkConsole [] []).
Proof.
  intros tools. split; [reflexivity|].
  eapply (exit_status_lost _ _ _ "bayos" true _ (Some 17%Z)); reflexivity.
Defined.

(** ** The scripts together *)

Lemma string_app_assoc (a b c : string) : (a ++ b) ++ c = a ++ b ++ c.
Proof. induction a as [|x a IH]; [done|]. exact (f_equal (String x) IH). Qed.

Lemma concat_app sep l1 l2 :
  l1 ≠ [] → l2 ≠ [] → String.concat sep (l1 ++ l2)%list = String.concat sep l1 ++ sep ++ String.concat sep l2.
Proof.
  intros Hl1 Hl2. induction l1 as [|x [|y l1] IH]; [done| |].
  - by destruct l2.
  - change (String.concat sep ((x :: y :: l1) ++ l2)%list)
      with (x ++ sep ++ String.concat sep ((y :: l1) ++ l2)%list).
    rewrite IH by done.
    change (String.concat sep (x :: y :: l1)) with (x ++ sep ++ String.concat sep (y :: l1)).
    by rewrite !string_app_assoc.
Qed.

Lemma display_app (p q : path) :
  p ≠ [] → q ≠ [] → display (p ++ q)%list = display p ++ "/" ++ display q.
Proof. apply concat_app. Qed.

Section scripts.
Context `{ImageTools, RunnerTools}.

(** The folder of the compiler's package in the repository at [root], and the script of the
    toolchain below it. *)
Definition user_dir (root : path) : path := (root ++ ["user"])%list.

Lemma compile_PATH e root :
  cmd_env (compile_command (user_dir root) (env_PATH e)) =
    [("PATH", display ((user_dir root ++ ["cross"]) ++ ["tools"])%list ++ "/usr/bin:" ++
              default "" (env_PATH e))].
Proof.
  assert (user_dir root ≠ []) as Hne by (unfold user_dir; by destruct root).
  unfold compile_command; simpl. rewrite <-(assoc_L app).
  rewrite !display_app by done. by rewrite !string_app_assoc.
Qed.

(** The step [a] comes before the step [b]. *)
Definition in_order {A} (a b : A) (l : list A) : Prop :=
  ∃ l1 l2 l3, l = (l1 ++ a :: l2 ++ b :: l3)%list.

Definition runs (c : command) (s : build_step) : Prop :=
  if s is RunStep c' _ _ then c' = c else False.

(** The compiler is configured before it is installed; after that the C library is installed in
    the compiler's sysroot. *)
Lemma toolchain_installs e user cache :
  let steps := build_steps e (user ++ ["cross"])%list cache in
  let DESTDIR := display ((user ++ ["cross"]) ++ ["tools"])%list in
  ∃ s1 s2 s3 configure install libc sysroot,
    in_order s1 s2 steps ∧ in_order s2 s3 steps ∧
    runs configure s1 ∧ runs install s2 ∧ runs libc s3 ∧
    cmd_program configure = "../configure" ∧ cmd_dir configure = cmd_dir install ∧
    "install-gcc" ∈ cmd_args install ∧ ("DESTDIR", DESTDIR) ∈ cmd_env install ∧
    "--prefix=/usr" ∈ cmd_args configure ∧ "--target=x86_64-bayos" ∈ cmd_args configure ∧
    "--with-sysroot=" ++ sysroot ∈ cmd_args configure ∧
    "install" ∈ cmd_args libc ∧ ("DESTDIR", sysroot) ∈ cmd_env libc.
Proof.
  intros steps DESTDIR. unfold steps, build_steps. do 7 eexists.
  split; [eexists [_; _; _; _; _; _; _; _; _], [_], [_; _]; reflexivity|].
  split; [eexists [_; _; _; _; _; _; _; _; _; _; _], [_], []; reflexivity|].
  split; [reflexivity|]. split; [reflexivity|]. split; [reflexivity|].
  cbn [cmd_program cmd_dir cmd_args cmd_env].
  split; [reflexivity|]. split; [reflexivity|]. unfold DESTDIR.
  split_and!; by repeat (apply list_elem_of_here || apply list_elem_of_further).
Qed.

(** C40: the scripts mean the same places.  (1) The toolchain's own later steps search the same
    directories in the same order as the build of the user program.  (2) The compiler that this
    build runs is the one that the toolchain's build has installed: its name begins with the
    configured target, and it is looked for first in the [bin] directory below the configured
    prefix in the directory of the installation; the C library is installed in the sysroot it
    is configured with.  (3) What the compiler writes is the file that the image build takes
    from the repository as the ramdisk of both images, and (4) the image that the runner gives
    to QEMU is the one that the image build has written for that firmware. *)
Theorem scripts_agree_on_paths e root cache :
  let steps := build_steps e (user_dir root ++ ["cross"])%list cache in
  let compile := compile_command (user_dir root) (env_PATH e) in
  Forall (λ s, match s with
    | RunStep c _ _ => ∀ PATH, ("PATH", PATH) ∈ cmd_env c → ("PATH", PATH) ∈ cmd_env compile
    | MakeDir _ _ => True end) steps ∧
  (∃ s1 s2 s3 configure install libc DESTDIR prefix target sysroot,
     in_order s1 s2 steps ∧ in_order s2 s3 steps ∧
     runs configure s1 ∧ runs install s2 ∧ runs libc s3 ∧
     cmd_program configure = "../configure" ∧ cmd_dir configure = cmd_dir install ∧
     "install-gcc" ∈ cmd_args install ∧ ("DESTDIR", DESTDIR) ∈ cmd_env install ∧
     "--prefix=" ++ prefix ∈ cmd_args configure ∧ "--target=" ++ target ∈ cmd_args configure ∧
     "--with-sysroot=" ++ sysroot ∈ cmd_args configure ∧
     "install" ∈ cmd_args libc ∧ ("DESTDIR", sysroot) ∈ cmd_env libc ∧
     cmd_program compile = target ++ "-gcc" ∧
     cmd_env compile =
       [("PATH", DESTDIR ++ prefix ++ "/bin:" ++ default "" (env_PATH e))]) ∧
  (∃ ramdisk, last (cmd_args compile) = Some (display (root ++ ramdisk)%list) ∧
     ∀ out kernel t, let uefi_path := (out ++ ["uefi.img"])%list in
       let bios_path := (out ++ ["bios.img"])%list in
       build_images (Some out) (Some kernel) t =
         (unwrapped (create_disk_image UefiBoot kernel ramdisk uefi_path);;
          unwrapped (create_disk_image BiosBoot kernel ramdisk bios_path);;
          mret (display uefi_path, display bios_path)) t) ∧
  ∀ out kernel t t' uefi_path bios_path uefi cmd,
    build_images (Some out) (Some kernel) t = (Done (uefi_path, bios_path), t') →
    qemu_command uefi_path bios_path uefi = Done cmd →
    "format=raw,file=" ++ display (out ++ [if uefi then "uefi.img" else "bios.img"])%list
      ∈ cmd_args cmd.
Proof.
  intros steps compile. pose proof (compile_PATH e root : cmd_env compile = _) as Hpath.
  split; [|split; [|split]].
  - rewrite Hpath. unfold steps, build_steps.
    repeat (apply Forall_cons; split); try apply Forall_nil; try done;
      intros PATH HPATH; simpl in HPATH; set_solver.
  - destruct (toolchain_installs e (user_dir root) cache)
      as (s1 & s2 & s3 & configure & install & libc & sysroot & Hsteps).
    exists s1, s2, s3, configure, install, libc,
      (display ((user_dir root ++ ["cross"]) ++ ["tools"])%list), "/usr", "x86_64-bayos", sysroot.
    destruct_and? Hsteps. split_and!; first [assumption|reflexivity|exact Hpath].
  - exists ["user"; "init"]. split; [|reflexivity].
    unfold compile, compile_command, user_dir; simpl. by rewrite <-(assoc_L app).
  - intros out kernel t t' uefi_path bios_path uefi cmd Eb Eq.
    unfold build_images in Eb. rewrite !expect_some, !liftO_done_bind in Eb.
    apply mbind_inv_done in Eb as ([] & t1 & _ & Eb).
    apply mbind_inv_done in Eb as ([] & t2 & _ & Eb). injection Eb as <- <- _.
    unfold qemu_command in Eq. destruct uefi; [destruct fetch_prebuilt as [[code vars]|]|];
      simplify_eq; set_solver.
Qed.

End scripts.

(** Tools that succeed and change nothing. *)
Definition plain_images : ImageTools := {| create_disk_image _ _ _ _ t := (ROk (), t) |}.
Definition plain_runner : RunnerTools := {|
  fetch_prebuilt := ROk ("code.fd", "vars.fd");
  spawn_qemu _ := ROk ();
  wait_qemu _ := ROk (Some 0%Z);
|}.

(** The repository in a home directory: QEMU boots the image written there. *)
Lemma scripts_agree_on_paths_witness :
  let root := ["home"; "bayos"] in
  let compile := compile_command (user_dir root) (Some "/bin") in
  cmd_env compile = [("PATH", "home/bayos/user/cross/tools/usr/bin:/bin")] ∧
  last (cmd_args compile) = Some "home/bayos/user/init" ∧
  ∃ cmd, @qemu_command plain_runner "out/uefi.img" "out/bios.img" false = Done cmd ∧
    "format=raw,file=out/bios.img" ∈ cmd_args cmd.
Proof.
  intros root compile. split; [reflexivity|]. split; [reflexivity|].
  destruct (@scripts_agree_on_paths plain_images plain_runner (mkBuildEnv (Some "/bin") "4") root
    ["cache"]) as (_ & _ & _ & Himg).
  eexists. split; [reflexivity|].
  by apply (Himg ["out"] ["kernel"] (mkTree ∅ ∅) (mkTree ∅ ∅)
    "out/uefi.img" "out/bios.img" false).
Defined.
